(* ===== verification/_CoqProject ===== *)
-Q . S2P
Prelude.v
Double.v
Bytes.v
Domain.v
Measurement.v
Crc.v
Metrics.v
Uart.v
UartProps.v
Buses.v
Fsm.v
FsmProps.v
Pool.v
PoolProps.v
Owners.v
Handles.v
Queue.v
QueueProps.v
QueueSync.v
Interfaces.v
Descriptors.v
Sensors.v
SensorProps.v
Command.v
CommandProps.v
Server.v
ServerLife.v
Edgectl.v
Format.v
FormatProps.v
Runtime.v
RuntimeStop.v
RuntimeCounts.v
RuntimeProps.v
EventFlow.v
Daemon.v
DaemonTypes.v
Lines.v
DaemonMain.v
DaemonExit.v
DaemonWhole.v
DaemonAnswers.v
DaemonServe.v
DaemonCause.v
DaemonEnd.v
Bench.v
BenchProps.v
Demo.v
DemoProps.v
DemoDetect.v
