(* ===== verification/Prelude.v ===== *)
(** * EdgeSentinel: a verification library

    EdgeSentinel is a monitor for an electric motor: sensors are sampled
    periodically, samples become events, a protection state machine decides from
    them whether the motor may run, and a local socket lets an operator look at
    the system and inject faults.  This library is a model of its C++ sources
    with proofs about the model.  Paths below are relative to the repository;
    [inc/] abbreviates [include/edge_sentinel/].

    ** The program and the files that model it

    An event travels from a source through the pool and the queue to the machine:
    [sensor -> publish -> FixedObjectPool -> BoundedQueue -> control loop ->
    MotorStateMachine], with metrics on the side; the daemon publishes operator
    commands through the same path.

    - Base: this file (64-bit counters, runs of operations, counting);
      [Double] (IEEE binary64 on [SpecFloat]); [Bytes] (bytes, words, big-endian
      fields, [std::bit_cast]); [Domain] ([inc/domain/]: samples, events, states,
      their names); [Measurement] ([inc/protocols/measurement.hpp]).
    - Protection state machine, [inc/fsm/motor_state_machine.hpp]: [Fsm] has the
      class as the record [MotorStateMachine] with [handle], [handle_sample],
      [transition_to] and the thresholds, and a specification without counters
      (the history of samples since the last transition); [FsmProps] has the
      theorems.
    - Event pool, [inc/memory/fixed_object_pool.hpp]: [Pool] has slots, the
      intrusive free list, pointers as addresses and [try_create]/[destroy], with
      an abstract allocator as specification; [PoolProps] the refinement and the
      behaviour of each operation; [Handles] programs over [Handle] variables.
    - Event queue, [inc/concurrency/bounded_queue.hpp]: [Queue] has the ring
      buffer and every operation as a critical section, with an abstract FIFO as
      specification; [QueueProps] the refinement, order, [close] and statistics;
      [QueueSync] threads, sleeping, notification and time-outs as a step relation.
    - Metrics, [inc/runtime/runtime_metrics.hpp]: [Metrics], with the
      compare-and-exchange loop of [record_processed] under interference.
    - Protocols: [Crc] and [Uart]/[UartProps] ([inc/protocols/uart_protocol.hpp]),
      [Buses] ([can_protocol.hpp], [i2c_sensor.hpp]).
    - Descriptors, [inc/linux/unique_fd.hpp]: [Descriptors] has the table of open
      descriptors, the calls that change it and [UniqueFd]; [Owners] the lemmas on
      unique ownership that it shares with [Handles].
    - Sensor sources, [inc/hal/], [inc/simulation/] and
      [src/linux/sensor_adapters.cpp]: [Sensors]/[SensorProps].  The results of the
      system calls are inputs of the constructors and of a read.
    - Runtime, [inc/runtime/edge_runtime.hpp]: [Interfaces] states what the runtime
      relies on in its pool and its queue as classes with laws and proves that the
      pool and the queue of the program satisfy them; [Runtime] has every thread as
      a program counter, one shared access per step, for any number of client
      threads, and the invariant of the reachable configurations; [RuntimeStop] the
      measure of what [stop] has left to do, [RuntimeCounts] the account of the
      metrics, [RuntimeProps] the theorems for the program's own pool (256) and
      queue (128), [EventFlow] what is known of the events on their way to the
      queue.
    - Command protocol, [inc/ipc/command.hpp]: [Command]/[CommandProps], with
      [std::from_chars] on doubles; [Format]/[FormatProps] has [operator<<] on
      numbers, [Lines] a reader of the lines the daemon answers with.
    - Operator path: [Server] has one session of the socket server
      ([serve_client] of [src/linux/unix_command_server.cpp]) and the request of
      [apps/edgectl_main.cpp], [ServerLife] the server's [start], [stop] and
      [accept_loop], [Edgectl] the whole client; [Daemon] has [build_response] of
      [apps/edge_sentinel_daemon.cpp], proved against the class [RuntimeApi] and
      run on the runtime of [Runtime].
      [DaemonTypes] says which commands and samples requests can produce.
    - The daemon: [DaemonMain]/[DaemonExit] have [main] as a program counter over
      the runtime with its two client threads, the server and the signal flag, with
      a server thread that publishes what it likes.  [DaemonWhole] puts the whole
      daemon together: the server thread reads requests and runs [build_response]
      one access at a time, the sensor thread reads the sensor that the requests
      override, [snapshot()] holds the machine.  [DaemonAnswers] has the invariant
      and what the answers promise, [DaemonServe] that requests are answered (and, as
      a check of the model on itself, that the accesses of the server thread alone
      make up [build_response]), [DaemonCause] where events come from, [DaemonEnd]
      how it ends.
    - Other programs: [Demo]/[DemoProps]/[DemoDetect] the options, [main] and the
      output of [apps/edge_sentinel_main.cpp] over the runtime and the simulated
      sensor; [Bench]/[BenchProps] the two threads and the report of
      [benchmarks/event_pipeline_benchmark.cpp] over the interfaces of the pool
      and of the queue.

    ** What the theorems show

    - State machine (C1-C4): the counters implement the history specification for
      every event sequence; shutdown is final, faults stay latched; no transition
      without its run of samples; the exact number of offline or critical samples
      that latch a fault.  The state diagram is [FsmProps.handle_follows_diagram].
    - Pool (C5-C7): refinement of the allocator; statistics and destructor; handles
      are unique owners.  [PoolProps.destroy_behaviour] has every branch of
      [destroy].
    - Queue (C8-C10): refinement of the FIFO; bounds; no lost wake-up under any
      interleaving.  [QueueProps.close_refuses_and_drains] is about [close].
    - UART (C11-C14): decoding what was encoded, in a stream with noise; every
      frame reported was on the line; which errors the checksum detects; when the
      decoder resynchronises.
    - Runtime (C15-C20): the greatest latency under concurrency; no event leaked,
      shared or used after release, and the pool cannot run out; order of handling,
      and that the control thread catches up; what [stop] guarantees and that it
      terminates; what the metrics count.
    - Sources and descriptors (C21-C23): a silent or failing source latches the
      fault; the constructors on every failure, and the settings of the serial line;
      descriptors have one owner.
    - Operator path (C24-C31): the parser's meaning on words; only complete commands
      and plausible samples enter the system; what the daemon answers reads back, and
      what it shows can be injected; a session
      for any behaviour of the kernel; the life of the server and its loop as a
      sequential service; control commands from the request to the machine; an
      injection from the command line to the sensor.
    - The daemon (C32-C34, C36-C37): it leaves nothing behind and its exit code says
      whether the server started; in every interleaving its answers are true, every
      request is answered, and alarms go back to injections; it can always exit
      after a signal or a remote shutdown.
    - A defect (C35): a run in which [stop] does not reach [SafeShutdown].
    - Other programs (C38-C40): the options and the output of the demonstration, and
      that it detects the fault it injects; the benchmark delivers every event once
      and in order, reports what it measured, and ends.

    ** Bounds and fuel

    Counters and sizes are integers modulo [2^64] with the wrap-around written out.
    [find_slot] is a loop over the [Capacity] slots; [tokenize] has the length of
    its input as fuel, each turn consumes a character; [record_run] has five steps,
    the number a call takes alone; [publish_alone] has five, the longest path of
    [publish]; the decimal exponent of a double is searched in 400 steps, more than
    its range.  The number of events of the benchmark is a parameter, with the
    program's 50000 as one value.  Loops that wait for the environment consume a script of what the
    environment does, and the theorems cover every script.

    ** Assumptions

    Memory is sequentially consistent at the granularity of the steps (the atomics
    of the runtime use acquire and release orders, the metrics relaxed ones).
    [PoolLayout] is the placement of the pool by the compiler; [layout_ok] says it
    does not wrap or overlap.  The Linux values of [errno], the sizes of
    [sun_path] and [can_frame], [CAN_EFF_MASK] and the flags of [termios] are those
    of its headers.  [cfmakeraw] is a parameter; C22 assumes of it what its manual
    page says ([Sensors.cfmakeraw_documented]).  Nobody but the server changes what
    is at the path of its socket.

    The programs [main] are interleaved with the threads of the runtime.  In
    [DaemonWhole] the bytes of a request arrive and those of the answer leave in one
    step each, for the server thread shares nothing with the others meanwhile; the
    turns of these loops are the subject of [Server] and [ServerLife].  The lock of
    the life cycle and that of the machine during [snapshot()] are kept across
    steps; every other critical section is one step.  In [Runtime] the call of
    [record_processed] by the control thread, the only one that makes it, is one
    step; [Metrics] takes it apart for any number of threads.

    ** Not modelled

    The error messages of the programs, and the banner of the daemon; the two lines
    of the benchmark that divide by the elapsed time; the durations of sleeps and
    periods (a sleep is a place where any other thread may move, and a timed wait
    may expire at any time); accessors that only return a member; the correct
    rounding of decimal fractions by [std::from_chars], which is written out but
    proved only for integers. *)

From stdpp Require Export base tactics list numbers option relations.
From Stdlib Require Export ZArith Lia.

(** ** Automation *)

Create HintDb edge.

(** Division and remainder by constants, for [lia]. *)
Ltac lia_div := Z.to_euclidean_division_equations; lia.

(** The branches of the conditionals in a hypothesis. *)
Ltac branches H := repeat match type of H with context [if ?b then _ else _] => destruct b eqn:? end.

(** ** Machine integers

    [std::size_t], [std::uint64_t] counters are integers modulo [2^64]; the
    wrap-around of [++x] and [--x] is written out. *)

Definition u64_modulus : Z := 2 ^ 64.

Definition u64_incr (z : Z) : Z := (z + 1) mod u64_modulus.

Definition u64_decr (z : Z) : Z := (z - 1) mod u64_modulus.

Definition u64_ok (z : Z) : Prop := (0 ≤ z < u64_modulus)%Z.

(** The counters of the program are used far below the modulus; these lemmas
    drop the wrap-around where the bound is known. *)
Lemma u64_modulus_val : u64_modulus = 18446744073709551616%Z.
Proof. reflexivity. Qed.

Lemma u64_incr_small (z : Z) :
  (0 ≤ z < u64_modulus - 1)%Z → u64_incr z = (z + 1)%Z.
Proof. intros H. apply Z.mod_small. lia. Qed.

Lemma u64_decr_small (z : Z) :
  (0 < z < u64_modulus)%Z → u64_decr z = (z - 1)%Z.
Proof. intros H. apply Z.mod_small. lia. Qed.

Lemma u64_incr_ok (z : Z) : u64_ok (u64_incr z).
Proof. apply Z.mod_pos_bound. reflexivity. Qed.

Lemma u64_decr_ok (z : Z) : u64_ok (u64_decr z).
Proof. apply Z.mod_pos_bound. reflexivity. Qed.

#[export] Hint Resolve u64_incr_ok u64_decr_ok : edge.

(** ** Sequences of operations

    A component is a state with a step function per operation; [run] collects
    the results of a sequence of operations and the state it leaves. *)
Fixpoint run {Op S R : Type} (step : Op → S → S * R) (ops : list Op) (s : S) : S * list R :=
  match ops with
  | [] => (s, [])
  | op :: ops => let '(s, r) := step op s in
                 let '(s, rs) := run step ops s in (s, r :: rs)
  end.

Lemma run_app {Op S R : Type} (step : Op → S → S * R) (ops ops' : list Op) (s : S) :
  run step (ops ++ ops') s =
  let '(s1, rs1) := run step ops s in
  let '(s2, rs2) := run step ops' s1 in (s2, rs1 ++ rs2).
Proof.
  revert s. induction ops as [|op ops IH]; intros s; simpl; [by destruct (run step ops' s)|].
  destruct (step op s) as [s' r]. rewrite IH.
  destruct (run step ops s') as [s1 rs1]. by destruct (run step ops' s1).
Qed.

Lemma length_run {Op S R : Type} (step : Op → S → S * R) (ops : list Op) (s : S) :
  length (snd (run step ops s)) = length ops.
Proof.
  revert s. induction ops as [|op ops IH]; intros s; simpl; [done|].
  destruct (step op s) as [s' r]. specialize (IH s'). destruct (run step ops s'). simpl in *. lia.
Qed.

Lemma run_app_state {Op S R : Type} (step : Op → S → S * R) (ops ops' : list Op) (s : S) :
  fst (run step (ops ++ ops') s) = fst (run step ops' (fst (run step ops s))).
Proof.
  rewrite run_app. destruct (run step ops s) as [s1 rs1]. simpl.
  by destruct (run step ops' s1).
Qed.

Lemma run_snoc_state {Op S R : Type} (step : Op → S → S * R) (ops : list Op) (op : Op) (s : S) :
  fst (run step (ops ++ [op]) s) = fst (step op (fst (run step ops s))).
Proof. rewrite run_app_state. simpl. by destruct (step op _). Qed.

(** Two components whose steps agree on results and keep a relation agree on
    every sequence. *)
Lemma run_simulation {Op S1 S2 R : Type} (step1 : Op → S1 → S1 * R) (step2 : Op → S2 → S2 * R)
    (rel : S1 → S2 → Prop) (ops : list Op) (s1 : S1) (s2 : S2) :
  (∀ op s1 s2, rel s1 s2 →
     snd (step1 op s1) = snd (step2 op s2) ∧ rel (fst (step1 op s1)) (fst (step2 op s2))) →
  rel s1 s2 →
  snd (run step1 ops s1) = snd (run step2 ops s2) ∧
  rel (fst (run step1 ops s1)) (fst (run step2 ops s2)).
Proof.
  intros Hstep. revert s1 s2. induction ops as [|op ops IH]; intros s1 s2 Hr; simpl; [done|].
  destruct (Hstep op s1 s2 Hr) as [Hres Hr'].
  destruct (step1 op s1) as [s1' r1], (step2 op s2) as [s2' r2]. simpl in *. subst r2.
  specialize (IH s1' s2' Hr'). destruct (run step1 ops s1'), (run step2 ops s2').
  simpl in *. destruct IH as [-> ?]. auto.
Qed.

(** A field that is updated to the maximum of itself and of a measure at each
    step is the greatest value the measure has had. *)
Lemma run_peak {Op S R : Type} (step : Op → S → S * R) (s0 : S) (high size : S → Z)
    (ops : list Op) :
  high s0 = size s0 →
  (∀ ops op, let s := fst (run step ops s0) in let s' := fst (step op s) in
     high s' = Z.max (high s) (size s')) →
  (∀ k, size (fst (run step (take k ops) s0)) ≤ high (fst (run step ops s0)))%Z ∧
  (∃ k, size (fst (run step (take k ops) s0)) = high (fst (run step ops s0))).
Proof.
  intros H0 Hstep. induction ops as [|op ops [Hle [k Hk]]] using rev_ind.
  { split; [intros k; rewrite take_nil; simpl; lia|by exists 0]. }
  rewrite run_snoc_state, (Hstep ops op), <- run_snoc_state. split.
  - intros j. destruct (decide (j ≤ length ops)) as [Hj|Hj].
    + rewrite take_app_le by done. specialize (Hle j). lia.
    + rewrite take_ge; [lia|]. rewrite length_app. simpl. lia.
  - destruct (Z.max_spec (high (fst (run step ops s0)))
      (size (fst (run step (ops ++ [op]) s0)))) as [[_ ->]|[_ ->]].
    + exists (length (ops ++ [op])). by rewrite take_ge.
    + destruct (decide (k ≤ length ops)) as [Hj|Hj].
      * exists k. by rewrite take_app_le.
      * exists (length ops). rewrite take_app_length. rewrite take_ge in Hk by lia. done.
Qed.

Section Counting.
Local Open Scope Z_scope.

(** ** Counting the elements of a list that satisfy a test *)

Definition count {A} (p : A → bool) (ts : list A) : Z :=
  Z.of_nat (length (filter (λ t, p t = true) ts)).

Lemma count_cons {A} (p : A → bool) (t : A) (ts : list A) :
  count p (t :: ts) = Z.b2z (p t) + count p ts.
Proof.
  unfold count. rewrite filter_cons.
  destruct (p t); [rewrite decide_True by done|rewrite decide_False by done]; simpl length;
    simpl Z.b2z; lia.
Qed.

Lemma count_nonneg {A} (p : A → bool) (ts : list A) : 0 ≤ count p ts.
Proof. unfold count. lia. Qed.

Lemma count_length {A} (p : A → bool) (ts : list A) : count p ts ≤ Z.of_nat (length ts).
Proof. unfold count. pose proof (length_filter (λ t, p t = true) ts). lia. Qed.

Lemma count_insert {A} (p : A → bool) (ts : list A) (i : nat) (t t' : A) :
  ts !! i = Some t → count p (<[i := t']> ts) = count p ts - Z.b2z (p t) + Z.b2z (p t').
Proof.
  revert i. induction ts as [|u ts IH]; intros [|i] Hi; simpl in *; simplify_eq;
    rewrite !count_cons; [lia|]. rewrite (IH i Hi). lia.
Qed.

Lemma count_pos {A} (p : A → bool) (ts : list A) (i : nat) (t : A) :
  ts !! i = Some t → p t = true → 1 ≤ count p ts.
Proof.
  revert i. induction ts as [|u ts IH]; intros [|i] Hi Hp; simpl in *; simplify_eq;
    rewrite !count_cons.
  - rewrite Hp. pose proof (count_nonneg p ts). simpl. lia.
  - specialize (IH i Hi Hp). destruct (p u); simpl; lia.
Qed.

Lemma count_exists {A} (p : A → bool) (ts : list A) :
  1 ≤ count p ts → ∃ i t, ts !! i = Some t ∧ p t = true.
Proof.
  induction ts as [|u ts IH]; [unfold count; simpl; lia|]. rewrite count_cons.
  destruct (p u) eqn:Hu; simpl; intros Hc; [by exists 0%nat, u|].
  destruct IH as (i & t & Hi & Ht); [lia|]. by exists (S i), t.
Qed.

Lemma count_zero {A} (p : A → bool) (ts : list A) :
  Forall (λ t, p t = false) ts → count p ts = 0.
Proof. induction 1 as [|t ts Ht _ IH]; [done|]. by rewrite count_cons, Ht, IH. Qed.

Lemma count_fmap {A B} (p : B → bool) (f : A → B) (ts : list A) :
  count p (f <$> ts) = count (λ t, p (f t)) ts.
Proof. induction ts as [|t ts IH]; [done|]. by rewrite fmap_cons, !count_cons, IH. Qed.

Lemma count_ext {A} (p p' : A → bool) (ts : list A) :
  (∀ t, p t = p' t) → count p ts = count p' ts.
Proof. intros H. induction ts as [|t ts IH]; [done|]. by rewrite !count_cons, H, IH. Qed.

Lemma count_insert_all {A} (ts : list A) (i : nat) (t t' : A) :
  ts !! i = Some t → ∀ p, count p (<[i := t']> ts) = count p ts - Z.b2z (p t) + Z.b2z (p t').
Proof. intros Hi p. by apply count_insert. Qed.

Lemma count_fmap_same {A} (p : A → bool) (f : A → A) (ts : list A) :
  (∀ t, p (f t) = p t) → count p (f <$> ts) = count p ts.
Proof. intros Hp. rewrite count_fmap. by apply count_ext. Qed.

Lemma count_fmap_none {A B} (p : B → bool) (f : A → B) (ts : list A) :
  (∀ t, p (f t) = false) → count p (f <$> ts) = 0.
Proof. intros Hp. apply count_zero, Forall_fmap, Forall_true. intros t. apply Hp. Qed.

End Counting.

#[export] Hint Resolve count_nonneg : edge.

(** [lia] knowing that no count is negative. *)
Ltac note_count p ts :=
  lazymatch goal with
  | _ : (0 <= count p ts)%Z |- _ => fail
  | _ => pose proof (count_nonneg p ts)
  end.
Ltac lia_count :=
  repeat match goal with
  | |- context [count ?p ?ts] => note_count p ts
  | _ : context [count ?p ?ts] |- _ => note_count p ts
  end; lia.
