(* ===== verification/Double.v ===== *)
(** * IEEE-754 binary64 values

    The C++ [double] of the sources, on the Standard Library's executable
    specification of floating point ([SpecFloat], precision 53, maximal
    exponent 1024): comparison, conversion from an integer literal or an
    [int32_t], division, [std::isfinite].  NaN is a value like any other, so
    every comparison of the program is modelled on it too.

    The second half relates the comparison to the integers: [of_Z] is exact below
    [2^53] and [leb] on such values is the order of the integers. *)
From S2P Require Import Prelude.
From Stdlib Require Export Floats.SpecFloat.

Module Double.

Definition double : Type := spec_float.

Definition prec : Z := 53.
Definition emax : Z := 1024.

(** Conversion of an integer (a literal such as [80.0], or
    [static_cast<double>] of a 16- or 32-bit integer). *)
Definition of_Z (z : Z) : double := binary_normalize prec emax z 0 false.

(** [x <= y], [x >= y], [x < y], [x == y]: false when an operand is NaN. *)
Definition leb (x y : double) : bool := SFleb x y.
Definition geb (x y : double) : bool := SFleb y x.
Definition ltb (x y : double) : bool := SFltb x y.
Definition eqb (x y : double) : bool := SFeqb x y.

Definition div (x y : double) : double := SFdiv prec emax x y.

Definition is_nan (x : double) : bool :=
  match x with S754_nan => true | _ => false end.

(** [std::isfinite] *)
Definition is_finite (x : double) : bool :=
  match x with S754_nan | S754_infinity _ => false | _ => true end.

Definition valid (x : double) : bool := valid_binary prec emax x.

#[global] Instance double_eq_dec : EqDecision double.
Proof. solve_decision. Defined.

(** ** The order of doubles as a lexicographic order on keys *)

Definition key (x : double) : Z * Z * Z :=
  match x with
  | S754_nan => (0, 0, 0)
  | S754_infinity true => (-2, 0, 0)
  | S754_infinity false => (2, 0, 0)
  | S754_zero _ => (0, 0, 0)
  | S754_finite true m e => (-1, - e, Zneg m)
  | S754_finite false m e => (1, e, Zpos m)
  end%Z.

Definition key_le (a b : Z * Z * Z) : Prop :=
  let '(a1, a2, a3) := a in
  let '(b1, b2, b3) := b in
  (a1 < b1 ∨ a1 = b1 ∧ (a2 < b2 ∨ a2 = b2 ∧ a3 ≤ b3))%Z.

Definition key_lt (a b : Z * Z * Z) : Prop :=
  let '(a1, a2, a3) := a in
  let '(b1, b2, b3) := b in
  (a1 < b1 ∨ a1 = b1 ∧ (a2 < b2 ∨ a2 = b2 ∧ a3 < b3))%Z.

Lemma compare_key (x y : double) :
  is_nan x = false → is_nan y = false →
  match SFcompare x y with
  | Some Lt => key_lt (key x) (key y)
  | Some Eq => key x = key y
  | Some Gt => key_lt (key y) (key x)
  | None => False
  end.
Proof.
  destruct x as [sx|[]| |[] mx ex], y as [sy|[]| |[] my ey]; simpl;
    try discriminate; intros _ _; try lia; try reflexivity.
  - destruct (Z.compare_spec ex ey); simpl; try lia. subst.
    change (Pos.compare_cont Eq mx my) with (Pos.compare mx my).
    destruct (Pos.compare_spec mx my); simpl; subst; try reflexivity; lia.
  - destruct (Z.compare_spec ex ey); simpl; try lia. subst.
    change (Pos.compare_cont Eq mx my) with (Pos.compare mx my).
    destruct (Pos.compare_spec mx my); simpl; subst; try reflexivity; lia.
Qed.

Lemma compare_nan (x y : double) :
  is_nan x = true ∨ is_nan y = true → SFcompare x y = None.
Proof. destruct x as [|[]| |[]], y as [|[]| |[]]; simpl; intuition congruence. Qed.

Lemma leb_key (x y : double) :
  leb x y = true ↔ is_nan x = false ∧ is_nan y = false ∧ key_le (key x) (key y).
Proof.
  unfold leb, SFleb.
  destruct (is_nan x) eqn:Hx; [rewrite compare_nan by auto; intuition congruence|].
  destruct (is_nan y) eqn:Hy; [rewrite compare_nan by auto; intuition congruence|].
  pose proof (compare_key x y Hx Hy) as Hc.
  destruct (SFcompare x y) as [[]|], (key x) as [[]], (key y) as [[]]; simpl in *;
    simplify_eq; intuition (try congruence; try lia).
Qed.

Lemma ltb_key (x y : double) :
  ltb x y = true ↔ is_nan x = false ∧ is_nan y = false ∧ key_lt (key x) (key y).
Proof.
  unfold ltb, SFltb.
  destruct (is_nan x) eqn:Hx; [rewrite compare_nan by auto; intuition congruence|].
  destruct (is_nan y) eqn:Hy; [rewrite compare_nan by auto; intuition congruence|].
  pose proof (compare_key x y Hx Hy) as Hc.
  destruct (SFcompare x y) as [[]|], (key x) as [[]], (key y) as [[]]; simpl in *;
    simplify_eq; intuition (try congruence; try lia).
Qed.

Lemma leb_trans (x y z : double) :
  leb x y = true → leb y z = true → leb x z = true.
Proof.
  rewrite !leb_key. intros (Hx & Hy & H1) (_ & Hz & H2). split_and!; auto.
  destruct (key x) as [[]], (key y) as [[]], (key z) as [[]]. simpl in *. lia.
Qed.

Lemma ltb_leb_false (x y : double) : ltb x y = true → leb y x = false.
Proof.
  rewrite ltb_key. intros (Hx & Hy & H). apply not_true_iff_false.
  rewrite leb_key. intros (_ & _ & H').
  destruct (key x) as [[]], (key y) as [[]]. simpl in *. lia.
Qed.

Lemma ltb_leb (x y : double) : ltb x y = true → leb x y = true.
Proof.
  rewrite ltb_key, leb_key. intros (Hx & Hy & H). split_and!; auto.
  destruct (key x) as [[]], (key y) as [[]]. simpl in *. lia.
Qed.

Lemma leb_ltb_trans (x y z : double) :
  leb x y = true → ltb y z = true → ltb x z = true.
Proof.
  rewrite leb_key, !ltb_key. intros (Hx & Hy & H1) (_ & Hz & H2). split_and!; auto.
  destruct (key x) as [[]], (key y) as [[]], (key z) as [[]]. simpl in *. lia.
Qed.

Lemma leb_total (x y : double) :
  is_nan x = false → is_nan y = false → leb x y = true ∨ ltb y x = true.
Proof.
  rewrite leb_key, ltb_key. intros Hx Hy. rewrite Hx, Hy.
  destruct (key x) as [[]], (key y) as [[]]. simpl. lia.
Qed.

Lemma leb_nan_l (x y : double) : is_nan x = true → leb x y = false.
Proof. intros H. apply not_true_iff_false. rewrite leb_key. intuition congruence. Qed.

Lemma leb_nan_r (x y : double) : is_nan y = true → leb x y = false.
Proof. intros H. apply not_true_iff_false. rewrite leb_key. intuition congruence. Qed.

Lemma eqb_leb (x y : double) : eqb x y = leb x y && leb y x.
Proof.
  destruct (is_nan x) eqn:Hx; [unfold eqb, SFeqb, leb, SFleb; rewrite !compare_nan by auto; done|].
  destruct (is_nan y) eqn:Hy; [unfold eqb, SFeqb, leb, SFleb; rewrite !compare_nan by auto; done|].
  pose proof (compare_key x y Hx Hy) as H1. pose proof (compare_key y x Hy Hx) as H2.
  unfold eqb, SFeqb, leb, SFleb. destruct (key x) as [[a1 a2] a3], (key y) as [[b1 b2] b3].
  destruct (SFcompare x y) as [[]|], (SFcompare y x) as [[]|]; simpl in *; try done; simplify_eq; lia.
Qed.

(** ** Integers below [2^53] *)

Local Open Scope Z_scope.

Lemma digits2_log2 (m : positive) : Zpos (digits2_pos m) = Z.log2 (Zpos m) + 1.
Proof.
  induction m as [m IH|m IH|]; [..|done]; cbn [digits2_pos]; rewrite Pos2Z.inj_succ, IH.
  - rewrite (Pos2Z.inj_xI m), Z.add_1_r, Z.log2_succ_double by lia. lia.
  - rewrite (Pos2Z.inj_xO m), Z.log2_double by lia. lia.
Qed.

Lemma iter_xO (m d : positive) : Zpos (Pos.iter xO m d) = Zpos m * 2 ^ Zpos d.
Proof.
  induction d as [|d IH] using Pos.peano_ind; [simpl; lia|].
  rewrite Pos.iter_succ, Pos2Z.inj_xO, IH, Pos2Z.inj_succ, Z.pow_succ_r by lia. lia.
Qed.

(** An already normalised mantissa is not rounded. *)
Lemma round_normal (s : bool) (m : positive) (e : Z) :
  Zpos (digits2_pos m) = 53 → -1074 ≤ e ≤ 971 →
  binary_round_aux prec emax s (Zpos m) e loc_Exact = S754_finite s m e.
Proof.
  intros Hd He. unfold binary_round_aux.
  assert (Hshr : ∀ l, shr_fexp prec emax (Zpos m) e l = (shr_record_of_loc (Zpos m) l, e)).
  { intros l. unfold shr_fexp, fexp, emin, prec, emax. cbn [Zdigits2]. rewrite Hd.
    replace (Z.max (53 + e - 53) (3 - 1024 - 53) - e) with 0 by lia. done. }
  rewrite Hshr. cbn [shr_record_of_loc shr_m loc_of_shr_record round_nearest_even]. rewrite Hshr.
  cbn [shr_record_of_loc shr_m]. unfold emax, prec. destruct (Z.leb_spec e (1024 - 53)); [done|lia].
Qed.

Lemma round_integer (s : bool) (p : positive) :
  Zpos p < 2 ^ 53 →
  ∃ m, binary_round prec emax s p 0 = S754_finite s m (Z.log2 (Zpos p) - 52) ∧
       Zpos m = Zpos p * 2 ^ (52 - Z.log2 (Zpos p)).
Proof.
  intros Hp. pose proof (digits2_log2 p) as Hd. pose proof (Z.log2_nonneg (Zpos p)).
  assert (Hlog : Z.log2 (Zpos p) < 53) by (apply Z.log2_lt_pow2; lia).
  unfold binary_round, shl_align.
  assert (Hf : fexp prec emax (Zpos (digits2_pos p) + 0) = Z.log2 (Zpos p) - 52)
    by (unfold fexp, emin, prec, emax; lia).
  rewrite Hf, Z.sub_0_r.
  destruct (Z.log2 (Zpos p) - 52) as [|d|d] eqn:Hk; [|lia|].
  - exists p. rewrite round_normal by lia. split; [done|]. replace (52 - Z.log2 (Zpos p)) with 0 by lia. lia.
  - exists (Pos.iter xO p d). assert (Hm := iter_xO p d).
    replace (52 - Z.log2 (Zpos p)) with (Zpos d) by lia. split; [|done].
    rewrite round_normal; [done| |lia]. rewrite digits2_log2, Hm, Z.log2_mul_pow2 by lia. lia.
Qed.

(** The integers and their keys. *)
Lemma key_of_pos (p q : positive) :
  Zpos p < 2 ^ 53 → Zpos q < 2 ^ 53 →
  ∀ mp mq, Zpos mp = Zpos p * 2 ^ (52 - Z.log2 (Zpos p)) → Zpos mq = Zpos q * 2 ^ (52 - Z.log2 (Zpos q)) →
  (Z.log2 (Zpos p) < Z.log2 (Zpos q) ∨ Z.log2 (Zpos p) = Z.log2 (Zpos q) ∧ Zpos mp ≤ Zpos mq) ↔ Zpos p ≤ Zpos q.
Proof.
  intros Hp Hq mp mq Hmp Hmq.
  assert (Hlp : Z.log2 (Zpos p) < 53) by (apply Z.log2_lt_pow2; lia). split.
  - intros [Hlt|[Heq Hle]]; [apply Z.lt_le_incl, Z.log2_lt_cancel; lia|].
    rewrite Hmp, Hmq, Heq in Hle. apply Z.mul_le_mono_pos_r in Hle; [done|]. apply Z.pow_pos_nonneg; lia.
  - intros Hle. pose proof (Z.log2_le_mono _ _ Hle) as Hll.
    destruct (Z.eq_dec (Z.log2 (Zpos p)) (Z.log2 (Zpos q))) as [Heq|]; [right|left; lia].
    split; [done|]. rewrite Hmp, Hmq, Heq. apply Z.mul_le_mono_nonneg_r; [apply Z.pow_nonneg|]; lia.
Qed.

Lemma of_Z_finite (z : Z) : Z.abs z < 2 ^ 53 → is_finite (of_Z z) = true.
Proof.
  intros Hz. unfold of_Z, binary_normalize. destruct z as [|p|p]; [done|..].
  - destruct (round_integer false p) as (m & -> & _); [lia|done].
  - destruct (round_integer true p) as (m & -> & _); [lia|done].
Qed.

Lemma of_Z_leb (a b : Z) : Z.abs a < 2 ^ 53 → Z.abs b < 2 ^ 53 → leb (of_Z a) (of_Z b) = (a <=? b).
Proof.
  intros Ha Hb. apply Bool.eq_iff_eq_true. rewrite leb_key, Z.leb_le.
  unfold of_Z, binary_normalize.
  assert (Hnorm : ∀ s p, Zpos p < 2 ^ 53 → ∃ m,
    binary_round prec emax s p 0 = S754_finite s m (Z.log2 (Zpos p) - 52) ∧
    Zpos m = Zpos p * 2 ^ (52 - Z.log2 (Zpos p))) by (intros; by apply round_integer).
  destruct a as [|p|p], b as [|q|q]; simpl in Ha, Hb;
    try (destruct (Hnorm false p) as (mp & -> & Hmp); [lia|]);
    try (destruct (Hnorm true p) as (mp & -> & Hmp); [lia|]);
    try (destruct (Hnorm false q) as (mq & -> & Hmq); [lia|]);
    try (destruct (Hnorm true q) as (mq & -> & Hmq); [lia|]);
    cbn [is_nan key key_le]; try (split; [intros (_ & _ & ?)|intros; split_and!]; try done; lia).
  - pose proof (key_of_pos p q Ha Hb mp mq Hmp Hmq). split; [intros (_ & _ & ?)|intros; split_and!; try done]; lia.
  - pose proof (key_of_pos q p Hb Ha mq mp Hmq Hmp). split; [intros (_ & _ & ?)|intros; split_and!; try done]; lia.
Qed.

Lemma of_Z_eqb (a b : Z) : Z.abs a < 2 ^ 53 → Z.abs b < 2 ^ 53 → eqb (of_Z a) (of_Z b) = (a =? b).
Proof.
  intros Ha Hb. rewrite eqb_leb, !of_Z_leb by done.
  destruct (Z.leb_spec a b), (Z.leb_spec b a), (Z.eqb_spec a b); simpl; (done || lia).
Qed.

End Double.

Abbreviation double := Double.double.
