(* ===== verification/Bytes.v ===== *)
(** * Bytes, machine words and big-endian fields

    A [std::byte] or [std::uint8_t] is an integer in [0, 256); the narrower
    casts of the protocol code reduce modulo the width, [std::bit_cast] between
    [std::int32_t] and [std::uint32_t] re-reads two's complement. *)
From S2P Require Import Prelude.

Local Open Scope Z_scope.

Definition u8 (z : Z) : Z := z mod 2 ^ 8.
Definition u16 (z : Z) : Z := z mod 2 ^ 16.
Definition u32 (z : Z) : Z := z mod 2 ^ 32.

Definition bit_cast_u32 (z : Z) : Z := z mod 2 ^ 32.
Definition bit_cast_i32 (z : Z) : Z := if z <? 2 ^ 31 then z else z - 2 ^ 32.

Definition bit_cast_i16 (z : Z) : Z := if z <? 2 ^ 15 then z else z - 2 ^ 16.

Definition byte_ok (b : Z) : Prop := 0 ≤ b < 256.
Definition u16_ok (z : Z) : Prop := 0 ≤ z < 2 ^ 16.
Definition u32_ok (z : Z) : Prop := 0 ≤ z < 2 ^ 32.
Definition i32_ok (z : Z) : Prop := - 2 ^ 31 ≤ z < 2 ^ 31.

#[export] Instance byte_ok_dec (b : Z) : Decision (byte_ok b).
Proof. unfold byte_ok. apply _. Defined.

(** [(x >> 8*k) & 0xFF] *)
Definition byte_of (x k : Z) : Z := u8 (Z.land (Z.shiftr x (8 * k)) 0xFF).

(** [hi << 8 | lo] and [b3 << 24 | b2 << 16 | b1 << 8 | b0] *)
Definition be16 (hi lo : Z) : Z := Z.lor (Z.shiftl hi 8) lo.
Definition be32 (b3 b2 b1 b0 : Z) : Z :=
  Z.lor (Z.lor (Z.lor (Z.shiftl b3 24) (Z.shiftl b2 16)) (Z.shiftl b1 8)) b0.

(** ** Fields as arithmetic *)

Lemma testbit_high (b k n : Z) : 0 ≤ k ≤ n → 0 ≤ b < 2 ^ k → Z.testbit b n = false.
Proof.
  intros Hk Hb. rewrite <- (Z.mod_small b (2 ^ k)) by done. by apply Z.mod_pow2_bits_high.
Qed.

Lemma land_disjoint (a b k : Z) : 0 ≤ k → 0 ≤ b < 2 ^ k → Z.land (Z.shiftl a k) b = 0.
Proof.
  intros Hk Hb. apply Z.bits_inj'. intros n Hn. rewrite Z.land_spec, Z.shiftl_spec, Z.bits_0 by done.
  destruct (Z.lt_ge_cases n k); [by rewrite Z.testbit_neg_r by lia|].
  rewrite (testbit_high b k n), andb_false_r; auto.
Qed.

Lemma lor_disjoint (a b k : Z) : 0 ≤ k → 0 ≤ b < 2 ^ k → Z.lor (Z.shiftl a k) b = a * 2 ^ k + b.
Proof.
  intros Hk Hb. pose proof (land_disjoint a b k Hk Hb) as Hland.
  by rewrite <- Z.lxor_lor, <- Z.add_nocarry_lxor, Z.shiftl_mul_pow2.
Qed.

Lemma byte_of_eq (x k : Z) : 0 ≤ k → byte_of x k = (x / 2 ^ (8 * k)) mod 256.
Proof.
  intros Hk. unfold byte_of, u8. rewrite (Z.land_ones _ 8), Z.shiftr_div_pow2 by lia.
  by rewrite Z.mod_mod by lia.
Qed.

Lemma byte_of_ok (x k : Z) : byte_ok (byte_of x k).
Proof. unfold byte_of, u8, byte_ok. apply Z.mod_pos_bound. lia. Qed.

Lemma be16_eq (hi lo : Z) : byte_ok lo → be16 hi lo = hi * 256 + lo.
Proof. intros H. unfold be16. by rewrite lor_disjoint. Qed.

Lemma be32_nested (b3 b2 b1 b0 : Z) : be32 b3 b2 b1 b0 = be16 (be16 (be16 b3 b2) b1) b0.
Proof.
  unfold be32, be16. f_equal. rewrite Z.shiftl_lor. f_equal.
  by rewrite !Z.shiftl_lor, !Z.shiftl_shiftl.
Qed.

Lemma be32_eq (b3 b2 b1 b0 : Z) :
  byte_ok b2 → byte_ok b1 → byte_ok b0 →
  be32 b3 b2 b1 b0 = b3 * 2 ^ 24 + b2 * 2 ^ 16 + b1 * 2 ^ 8 + b0.
Proof. intros H2 H1 H0. rewrite be32_nested, !be16_eq by done. lia. Qed.

Lemma lxor_bounds (a b k : Z) :
  0 ≤ a < 2 ^ k → 0 ≤ b < 2 ^ k → 0 ≤ Z.lxor a b < 2 ^ k.
Proof.
  intros Ha Hb. destruct (Z.lt_ge_cases k 0); [rewrite Z.pow_neg_r in Ha by lia; lia|].
  assert (Heq : Z.lxor a b = Z.lxor a b mod 2 ^ k); [|rewrite Heq; apply Z.mod_pos_bound; lia].
  apply Z.bits_inj'. intros n Hn. destruct (Z.lt_ge_cases n k).
  - by rewrite Z.mod_pow2_bits_low.
  - by rewrite Z.mod_pow2_bits_high, Z.lxor_spec, !(testbit_high _ k).
Qed.

(** ** Round trips of the fields *)

Lemma be16_byte_of (x : Z) : u16_ok x → be16 (byte_of x 1) (byte_of x 0) = x.
Proof.
  unfold u16_ok. intros Hx. rewrite be16_eq by apply byte_of_ok. rewrite !byte_of_eq by lia.
  change (2 ^ (8 * 1)) with 256. change (2 ^ (8 * 0)) with 1. lia_div.
Qed.

Lemma byte_of_be16 (hi lo : Z) : byte_ok hi → byte_ok lo →
  u16_ok (be16 hi lo) ∧ byte_of (be16 hi lo) 1 = hi ∧ byte_of (be16 hi lo) 0 = lo.
Proof.
  unfold u16_ok, byte_ok. intros Hh Hl. rewrite !byte_of_eq, be16_eq by (done || lia).
  change (2 ^ (8 * 1)) with 256. change (2 ^ (8 * 0)) with 1. lia_div.
Qed.

Lemma be32_byte_of (x : Z) : u32_ok x →
  be32 (byte_of x 3) (byte_of x 2) (byte_of x 1) (byte_of x 0) = x.
Proof.
  unfold u32_ok. intros Hx. rewrite be32_eq by apply byte_of_ok. rewrite !byte_of_eq by lia.
  change (2 ^ (8 * 3)) with 16777216. change (2 ^ (8 * 2)) with 65536.
  change (2 ^ (8 * 1)) with 256. change (2 ^ (8 * 0)) with 1. lia_div.
Qed.

Lemma byte_of_be32 (b3 b2 b1 b0 : Z) : byte_ok b3 → byte_ok b2 → byte_ok b1 → byte_ok b0 →
  let x := be32 b3 b2 b1 b0 in
  u32_ok x ∧ byte_of x 3 = b3 ∧ byte_of x 2 = b2 ∧ byte_of x 1 = b1 ∧ byte_of x 0 = b0.
Proof.
  cbv zeta. unfold u32_ok, byte_ok. intros H3 H2 H1 H0.
  rewrite !byte_of_eq, be32_eq by (done || lia).
  change (2 ^ (8 * 3)) with 16777216. change (2 ^ (8 * 2)) with 65536.
  change (2 ^ (8 * 1)) with 256. change (2 ^ (8 * 0)) with 1. lia_div.
Qed.

Lemma bit_cast_i32_u32 (z : Z) : i32_ok z → bit_cast_i32 (bit_cast_u32 z) = z.
Proof. unfold i32_ok, bit_cast_i32, bit_cast_u32. intros H. case_match; lia_div. Qed.

Lemma bit_cast_u32_i32 (z : Z) : u32_ok z →
  i32_ok (bit_cast_i32 z) ∧ bit_cast_u32 (bit_cast_i32 z) = z.
Proof.
  unfold u32_ok, i32_ok, bit_cast_i32, bit_cast_u32. intros H.
  destruct (Z.ltb_spec z (2 ^ 31)); lia_div.
Qed.

Lemma bit_cast_u32_ok (z : Z) : u32_ok (bit_cast_u32 z).
Proof. apply Z.mod_pos_bound. lia. Qed.
