(* ===== verification/Domain.v ===== *)
(** * Domain types: samples, events, states, transitions and their names

    [include/edge_sentinel/domain/event.hpp], [state.hpp] and [format.hpp].
    The enumerations keep the source's constructors, prefixed where two of them
    share an enumerator name. *)
From S2P Require Import Prelude Double.
From stdpp Require Export strings.

(** ** event.hpp *)

Record SensorSample := MkSample {
  temperature_c : double;
  vibration_mm_s : double;
  current_a : double;
  online : bool;
  sequence : Z                                        (* std::uint64_t *)
}.

(** [SensorSample{}]: the default member initialisers. *)
Definition default_sample : SensorSample :=
  MkSample (S754_zero false) (S754_zero false) (S754_zero false) true 0.

Definition set_temperature_c (v : double) (s : SensorSample) : SensorSample :=
  MkSample v (vibration_mm_s s) (current_a s) (online s) (sequence s).
Definition set_vibration_mm_s (v : double) (s : SensorSample) : SensorSample :=
  MkSample (temperature_c s) v (current_a s) (online s) (sequence s).
Definition set_current_a (v : double) (s : SensorSample) : SensorSample :=
  MkSample (temperature_c s) (vibration_mm_s s) v (online s) (sequence s).
Definition set_online (b : bool) (s : SensorSample) : SensorSample :=
  MkSample (temperature_c s) (vibration_mm_s s) (current_a s) b (sequence s).
Definition set_sequence (n : Z) (s : SensorSample) : SensorSample :=
  MkSample (temperature_c s) (vibration_mm_s s) (current_a s) (online s) n.

Inductive EventKind :=
| Ev_startup | Ev_self_test_passed | Ev_sensor_sample | Ev_reset_requested
| Ev_shutdown_requested | Ev_internal_fault.

Record Event := MkEvent {
  kind : EventKind;
  sample : SensorSample
}.

(** The static constructors of [struct Event]. *)
Definition Event_startup : Event := MkEvent Ev_startup default_sample.
Definition Event_self_test_passed : Event := MkEvent Ev_self_test_passed default_sample.
Definition Event_sensor_sample (v : SensorSample) : Event := MkEvent Ev_sensor_sample v.
Definition Event_reset_requested : Event := MkEvent Ev_reset_requested default_sample.
Definition Event_shutdown_requested : Event := MkEvent Ev_shutdown_requested default_sample.
Definition Event_internal_fault : Event := MkEvent Ev_internal_fault default_sample.

(** ** state.hpp *)

Inductive MotorState :=
| booting | self_test | healthy | degraded | fault_latched | safe_shutdown.

Inductive TransitionReason :=
| R_none | R_startup_requested | R_self_test_succeeded | R_warning_persisted
| R_readings_recovered | R_critical_reading | R_sensor_offline
| R_internal_resource_failure | R_manual_reset | R_shutdown_requested.

Record StateTransition := MkTransition {
  previous : MotorState;
  current : MotorState;
  reason : TransitionReason;
  changed : bool
}.

#[global] Instance SensorSample_eq_dec : EqDecision SensorSample.
Proof. solve_decision. Defined.
#[global] Instance EventKind_eq_dec : EqDecision EventKind.
Proof. solve_decision. Defined.
#[global] Instance Event_eq_dec : EqDecision Event.
Proof. solve_decision. Defined.
#[global] Instance MotorState_eq_dec : EqDecision MotorState.
Proof. solve_decision. Defined.
#[global] Instance TransitionReason_eq_dec : EqDecision TransitionReason.
Proof. solve_decision. Defined.
#[global] Instance StateTransition_eq_dec : EqDecision StateTransition.
Proof. solve_decision. Defined.

(** ** format.hpp *)

Definition MotorState_to_string (s : MotorState) : string :=
  match s with
  | booting => "Booting"
  | self_test => "SelfTest"
  | healthy => "Healthy"
  | degraded => "Degraded"
  | fault_latched => "FaultLatched"
  | safe_shutdown => "SafeShutdown"
  end.

Definition TransitionReason_to_string (r : TransitionReason) : string :=
  match r with
  | R_none => "none"
  | R_startup_requested => "startup_requested"
  | R_self_test_succeeded => "self_test_succeeded"
  | R_warning_persisted => "warning_persisted"
  | R_readings_recovered => "readings_recovered"
  | R_critical_reading => "critical_reading"
  | R_sensor_offline => "sensor_offline"
  | R_internal_resource_failure => "internal_resource_failure"
  | R_manual_reset => "manual_reset"
  | R_shutdown_requested => "shutdown_requested"
  end.

(** A printed state or reason identifies the value it came from. *)
#[global] Instance MotorState_to_string_inj : Inj (=) (=) MotorState_to_string.
Proof. intros [] []; simpl; congruence. Qed.

#[global] Instance TransitionReason_to_string_inj : Inj (=) (=) TransitionReason_to_string.
Proof. intros [] []; simpl; congruence. Qed.
