(* ===== verification/Measurement.v ===== *)
(** * Measurements shared by the bus protocols ([protocols/measurement.hpp]) *)
From S2P Require Import Prelude Double Domain.

Local Open Scope Z_scope.

Inductive MeasurementKind :=
| Mk_temperature | Mk_vibration | Mk_current | Mk_online.

#[export] Instance MeasurementKind_eq_dec : EqDecision MeasurementKind.
Proof. solve_decision. Defined.

(** The enumerators' values, [temperature = 1] to [online = 4]. *)
Definition MeasurementKind_value (k : MeasurementKind) : Z :=
  match k with Mk_temperature => 1 | Mk_vibration => 2 | Mk_current => 3 | Mk_online => 4 end.

(** [static_cast<MeasurementKind>] of a value that names an enumerator. *)
Definition MeasurementKind_of_value (v : Z) : option MeasurementKind :=
  if v =? 1 then Some Mk_temperature else if v =? 2 then Some Mk_vibration
  else if v =? 3 then Some Mk_current else if v =? 4 then Some Mk_online else None.

Record Measurement := MkMeasurement { mkind : MeasurementKind; value : double }.

Definition apply_measurement (m : Measurement) (sample : SensorSample) : SensorSample :=
  match mkind m with
  | Mk_temperature => set_temperature_c (value m) sample
  | Mk_vibration => set_vibration_mm_s (value m) sample
  | Mk_current => set_current_a (value m) sample
  | Mk_online => set_online (negb (Double.eqb (value m) (Double.of_Z 0))) sample
  end.

Lemma MeasurementKind_value_of (k : MeasurementKind) :
  MeasurementKind_of_value (MeasurementKind_value k) = Some k.
Proof. by destruct k. Qed.

Lemma MeasurementKind_of_value_Some (v : Z) (k : MeasurementKind) :
  MeasurementKind_of_value v = Some k → v = MeasurementKind_value k.
Proof. unfold MeasurementKind_of_value. intros. repeat case_match; simplify_eq; simpl; lia. Qed.

Lemma MeasurementKind_of_value_range (v : Z) :
  is_Some (MeasurementKind_of_value v) ↔ 1 ≤ v ≤ 4.
Proof.
  unfold MeasurementKind_of_value.
  split; [intros [k H]; repeat case_match; simplify_eq; lia|].
  intros H. repeat case_match; eauto. lia.
Qed.
