(* ===== verification/Crc.v ===== *)
(** * The CRC-16/CCITT of the UART frames ([crc16_ccitt], [uart_protocol.hpp])

    The register is stepped bit by bit as in the code.  The step is linear over
    exclusive or and has a trivial kernel; this file draws from it what an error
    pattern does to the checksum: every pattern of one to three flipped bits and
    every burst of at most sixteen is detected in a twelve-byte frame. *)
From S2P Require Import Prelude Bytes.
From Stdlib Require Import Btauto.

Local Open Scope Z_scope.

(** The body of the inner loop, [crc & 0x8000U ? (crc << 1U) ^ 0x1021U : crc << 1U]
    on a 32-bit register, then [crc &= 0xFFFFU]. *)
Definition crc_bit (crc : Z) : Z :=
  let shifted := u32 (Z.shiftl crc 1) in
  let crc := if negb (Z.land crc 0x8000 =? 0) then Z.lxor shifted 0x1021 else shifted in
  Z.land crc 0xFFFF.

(** The body of the outer loop. *)
Definition crc_byte (crc byte : Z) : Z :=
  Nat.iter 8 crc_bit (Z.lxor crc (u32 (Z.shiftl byte 8))).

Definition crc16_ccitt (bytes : list Z) : Z := u16 (foldl crc_byte 0xFFFF bytes).

(** ** The register step is linear *)

Lemma land_pow2_zero (r k : Z) : 0 ≤ k → (Z.land r (2 ^ k) =? 0) = negb (Z.testbit r k).
Proof.
  intros Hk. destruct (Z.testbit r k) eqn:Hb; simpl.
  - apply Z.eqb_neq. intros H0. assert (Hf : Z.testbit (Z.land r (2 ^ k)) k = false).
    { by rewrite H0, Z.bits_0. }
    by rewrite Z.land_spec, Hb, Z.pow2_bits_true in Hf.
  - apply Z.eqb_eq. apply Z.bits_inj'. intros n Hn. rewrite Z.land_spec, Z.bits_0.
    destruct (decide (n = k)) as [->|]; [by rewrite Hb|].
    by rewrite Z.pow2_bits_false, andb_false_r by done.
Qed.

Lemma crc_bit_testbit (r i : Z) : 0 ≤ i →
  Z.testbit (crc_bit r) i
  = (i <? 16) && xorb (Z.testbit r (i - 1)) (Z.testbit r 15 && Z.testbit 0x1021 i).
Proof.
  intros Hi. unfold crc_bit, u32. change 0x8000 with (2 ^ 15).
  rewrite (land_pow2_zero r 15) by lia. rewrite negb_involutive.
  change 0xFFFF with (Z.ones 16). rewrite Z.land_spec, Z.testbit_ones_nonneg by lia.
  assert (Hs : (i <? 16) = true → Z.testbit (Z.shiftl r 1 mod 2 ^ 32) i = Z.testbit r (i - 1)).
  { intros Hlt%Z.ltb_lt. rewrite Z.mod_pow2_bits_low, Z.shiftl_spec by lia. done. }
  destruct (i <? 16); [|by rewrite andb_false_r]. rewrite andb_true_r, andb_true_l.
  destruct (Z.testbit r 15); rewrite ?Z.lxor_spec, Hs, ?xorb_false_r; done.
Qed.

Lemma crc_bit_ok (r : Z) : u16_ok (crc_bit r).
Proof. unfold crc_bit, u16_ok. rewrite (Z.land_ones _ 16) by lia. apply Z.mod_pos_bound. lia. Qed.

Lemma crc_bit_lxor (a b : Z) : crc_bit (Z.lxor a b) = Z.lxor (crc_bit a) (crc_bit b).
Proof.
  apply Z.bits_inj'. intros n Hn. rewrite Z.lxor_spec, !crc_bit_testbit, !Z.lxor_spec by done.
  destruct (n <? 16), (Z.testbit a (n - 1)), (Z.testbit b (n - 1)), (Z.testbit a 15),
    (Z.testbit b 15), (Z.testbit 0x1021 n); reflexivity.
Qed.

Lemma crc_bit_kernel (r : Z) : u16_ok r → crc_bit r = 0 → r = 0.
Proof.
  intros Hr H0. assert (Hb : ∀ i, 0 ≤ i → Z.testbit (crc_bit r) i = false) by
    (intros; by rewrite H0, Z.bits_0).
  assert (H15 : Z.testbit r 15 = false).
  { pose proof (Hb 0 ltac:(lia)) as H. by rewrite crc_bit_testbit, andb_true_r in H by lia. }
  apply Z.bits_inj'. intros n Hn. rewrite Z.bits_0.
  destruct (Z.lt_ge_cases n 15) as [Hlt|Hge].
  - pose proof (Hb (n + 1) ltac:(lia)) as H. rewrite crc_bit_testbit, H15 in H by lia.
    rewrite (proj2 (Z.ltb_lt (n + 1) 16)) in H by lia. simpl in H.
    by rewrite Z.add_simpl_r, xorb_false_r in H.
  - destruct (Z.eq_dec n 15) as [->|]; [done|].
    apply (testbit_high r 16); [lia|]. exact Hr.
Qed.

(** ** Bit by bit *)

(** The same register fed one message bit at a time, most significant first. *)
Definition bit_step (r : Z) (b : bool) : Z := crc_bit (Z.lxor r (if b then 0x8000 else 0)).

Definition byte_bits (b : Z) : list bool :=
  [Z.testbit b 7; Z.testbit b 6; Z.testbit b 5; Z.testbit b 4;
   Z.testbit b 3; Z.testbit b 2; Z.testbit b 1; Z.testbit b 0].

Definition bits_of (bytes : list Z) : list bool := bytes ≫= byte_bits.

Lemma iter_crc_bit_lxor (n : nat) (a b : Z) :
  Nat.iter n crc_bit (Z.lxor a b) = Z.lxor (Nat.iter n crc_bit a) (Nat.iter n crc_bit b).
Proof. induction n as [|n IH]; simpl; [done|]. by rewrite IH, crc_bit_lxor. Qed.

Lemma bit_step_lxor (a b : Z) (x y : bool) :
  bit_step (Z.lxor a b) (xorb x y) = Z.lxor (bit_step a x) (bit_step b y).
Proof.
  unfold bit_step. rewrite <- crc_bit_lxor. f_equal. apply Z.bits_inj'. intros n Hn.
  rewrite !Z.lxor_spec. destruct x, y; simpl; rewrite ?Z.bits_0, ?xorb_false_r;
    destruct (Z.testbit a n), (Z.testbit b n), (Z.testbit 0x8000 n); reflexivity.
Qed.

Lemma foldl_bit_step_lxor (a b : Z) (xs ys : list bool) :
  length xs = length ys →
  foldl bit_step (Z.lxor a b) (zip_with xorb xs ys)
  = Z.lxor (foldl bit_step a xs) (foldl bit_step b ys).
Proof.
  revert a b ys. induction xs as [|x xs IH]; intros a b [|y ys] Hl; simplify_eq/=; [done|].
  by rewrite bit_step_lxor, IH.
Qed.

Lemma foldl_bit_step_zeros (n : nat) (r : Z) :
  foldl bit_step r (replicate n false) = Nat.iter n crc_bit r.
Proof.
  revert r. induction n as [|n IH]; intros r; [done|]. simpl replicate. simpl foldl.
  rewrite IH. unfold bit_step. rewrite Z.lxor_0_r. by rewrite <- Nat.iter_succ_r.
Qed.

Lemma foldl_bit_step_split (r : Z) (xs : list bool) :
  foldl bit_step r xs = Z.lxor (Nat.iter (length xs) crc_bit r) (foldl bit_step 0 xs).
Proof.
  rewrite <- foldl_bit_step_zeros, <- foldl_bit_step_lxor by (by rewrite length_replicate).
  rewrite Z.lxor_0_r. f_equal. induction xs as [|[] xs IH]; simpl; by f_equal.
Qed.

Lemma byte_forall (p : Z → bool) (b : Z) :
  forallb p (seqZ 0 256) = true → byte_ok b → p b = true.
Proof.
  intros Hp Hb. rewrite forallb_forall in Hp. apply Hp.
  apply list_elem_of_In, elem_of_seqZ. unfold byte_ok in Hb. lia.
Qed.

Lemma byte_fed_bitwise (b : Z) : byte_ok b →
  Nat.iter 8 crc_bit (u32 (Z.shiftl b 8)) = foldl bit_step 0 (byte_bits b).
Proof.
  intros Hb. apply Z.eqb_eq.
  apply (byte_forall (λ b, Nat.iter 8 crc_bit (u32 (Z.shiftl b 8)) =? foldl bit_step 0 (byte_bits b)));
    [vm_compute; reflexivity|done].
Qed.

(** [crc << 8 | byte] and eight shifts are the same as eight bit steps. *)
Lemma crc_byte_bits (r b : Z) : byte_ok b → crc_byte r b = foldl bit_step r (byte_bits b).
Proof.
  intros Hb. unfold crc_byte. rewrite iter_crc_bit_lxor, byte_fed_bitwise by done.
  symmetry. apply (foldl_bit_step_split r (byte_bits b)).
Qed.

Lemma foldl_crc_bits (r : Z) (bytes : list Z) : Forall byte_ok bytes →
  foldl crc_byte r bytes = foldl bit_step r (bits_of bytes).
Proof.
  intros H. revert r. induction H as [|b bytes Hb _ IH]; intros r; [done|].
  unfold bits_of in *. rewrite bind_cons, foldl_app. simpl foldl at 1.
  by rewrite crc_byte_bits, IH.
Qed.

Lemma foldl_bit_step_ok (r : Z) (xs : list bool) : u16_ok r → u16_ok (foldl bit_step r xs).
Proof.
  revert r. induction xs as [|x xs IH]; intros r Hr; [done|]. apply IH, crc_bit_ok.
Qed.

Lemma iter_crc_bit_kernel (n : nat) (r : Z) : u16_ok r → Nat.iter n crc_bit r = 0 → r = 0.
Proof.
  intros Hr. induction n as [|n IH]; [done|]. simpl. intros H0. apply IH.
  apply crc_bit_kernel; [|done]. destruct n; [done|]. apply crc_bit_ok.
Qed.

(** ** The residue of a frame *)

(** The register after the checksum too; zero for a frame with a valid checksum. *)
Definition residue (bytes : list Z) : Z := foldl bit_step 0xFFFF (bits_of bytes).

Lemma low_byte_shifts_in (b : Z) : byte_ok b → foldl bit_step 0 (byte_bits b) = Nat.iter 16 crc_bit b.
Proof.
  intros Hb. apply Z.eqb_eq.
  apply (byte_forall (λ b, foldl bit_step 0 (byte_bits b) =? Nat.iter 16 crc_bit b));
    [vm_compute; reflexivity|done].
Qed.

Lemma high_byte_shifts_in (b : Z) : byte_ok b →
  foldl bit_step 0 (byte_bits b) = Nat.iter 8 crc_bit (Z.shiftl b 8).
Proof.
  intros Hb. rewrite <- byte_fed_bitwise by done. f_equal. unfold u32. apply Z.mod_small.
  unfold byte_ok in Hb. rewrite Z.shiftl_mul_pow2; lia.
Qed.

Lemma residue_zero (body : list Z) (hi lo : Z) :
  Forall byte_ok body → byte_ok hi → byte_ok lo →
  residue (body ++ [hi; lo]) = 0 ↔ crc16_ccitt body = be16 hi lo.
Proof.
  intros Hbody Hhi Hlo. unfold residue, bits_of, crc16_ccitt.
  rewrite bind_app, foldl_app, <- (foldl_crc_bits _ body) by done.
  set (r := foldl crc_byte 0xFFFF body).
  assert (Hr : u16_ok r).
  { unfold r. rewrite foldl_crc_bits by done. apply foldl_bit_step_ok. unfold u16_ok. lia. }
  replace (u16 r) with r by (symmetry; apply Z.mod_small, Hr).
  change ([hi; lo] ≫= byte_bits) with (byte_bits hi ++ byte_bits lo). rewrite foldl_app.
  rewrite (foldl_bit_step_split _ (byte_bits lo)), (foldl_bit_step_split r (byte_bits hi)).
  rewrite (low_byte_shifts_in lo), (high_byte_shifts_in hi) by done.
  change (length (byte_bits hi)) with 8%nat. change (length (byte_bits lo)) with 8%nat.
  rewrite !iter_crc_bit_lxor, <- !Nat.iter_add. simpl Nat.add.
  rewrite <- !iter_crc_bit_lxor, Z.lxor_assoc.
  assert (Hbe : Z.lxor (Z.shiftl hi 8) lo = be16 hi lo).
  { unfold be16. apply Z.lxor_lor. by apply land_disjoint. }
  rewrite Hbe. split; intros H.
  - apply iter_crc_bit_kernel in H; [by apply Z.lxor_eq|].
    apply (lxor_bounds r (be16 hi lo) 16); [done|]. by apply byte_of_be16.
  - rewrite H, Z.lxor_nilpotent. reflexivity.
Qed.

(** ** Error patterns *)

(** The flipped bits of a frame, and how many they are. *)
Fixpoint weight (xs : list bool) : nat :=
  match xs with [] => 0 | x :: xs => (if x then 1 else 0) + weight xs end.

(** All the flipped bits lie in sixteen consecutive positions. *)
Definition burst (xs : list bool) : Prop :=
  ∃ n ys m, xs = replicate n false ++ ys ++ replicate m false ∧ (length ys ≤ 16)%nat.

Lemma foldl_zeros_from_zero (n : nat) : foldl bit_step 0 (replicate n false) = 0.
Proof.
  rewrite foldl_bit_step_zeros. induction n as [|n IH]; [done|]. simpl. by rewrite IH.
Qed.

(** Leading and trailing zeros do not matter. *)
Lemma foldl_padded (n m : nat) (ys : list bool) :
  foldl bit_step 0 (replicate n false ++ ys ++ replicate m false) = 0 → foldl bit_step 0 ys = 0.
Proof.
  rewrite !foldl_app, foldl_zeros_from_zero, foldl_bit_step_zeros. apply iter_crc_bit_kernel.
  apply foldl_bit_step_ok. unfold u16_ok. lia.
Qed.

(** A register that is cleared by at most sixteen bits held exactly those bits. *)
Lemma cleared_register (ys : list bool) (r : Z) :
  (length ys ≤ 16)%nat → foldl bit_step r ys = 0 → u16_ok r →
  (∀ i y, ys !! i = Some y → Z.testbit r (15 - Z.of_nat i) = y) ∧
  (∀ j, 0 ≤ j < 16 - Z.of_nat (length ys) → Z.testbit r j = false).
Proof.
  revert r. induction ys as [|y ys IH]; intros r Hl H0 Hr; simpl in *.
  { subst r. split; [intros i y Hi; by destruct i|]. intros. apply Z.bits_0. }
  set (r' := Z.lxor r (if y then 0x8000 else 0)) in *.
  destruct (IH (bit_step r y)) as [Hhi Hlo]; [lia|done|apply crc_bit_ok|].
  assert (H15 : Z.testbit r' 15 = false).
  { pose proof (Hlo 0 ltac:(lia)) as H. unfold bit_step in H. fold r' in H.
    by rewrite crc_bit_testbit, andb_true_r in H by lia. }
  assert (Hshift : ∀ j, 0 ≤ j < 15 → Z.testbit (bit_step r y) (j + 1) = Z.testbit r j).
  { intros j Hj. unfold bit_step. fold r'. rewrite crc_bit_testbit, H15 by lia.
    rewrite (proj2 (Z.ltb_lt (j + 1) 16)) by lia. simpl. rewrite Z.add_simpl_r, xorb_false_r.
    unfold r'. rewrite Z.lxor_spec. destruct y; [|by rewrite Z.bits_0, xorb_false_r].
    by rewrite (Z.pow2_bits_false 15), xorb_false_r by lia. }
  split.
  - intros [|i] z Hi; cbn in Hi.
    + injection Hi as <-. unfold r' in H15. rewrite Z.lxor_spec in H15.
      change (15 - Z.of_nat 0) with 15. revert H15. destruct y; [change (Z.testbit 0x8000 15) with true|];
        rewrite ?Z.bits_0; by destruct (Z.testbit r 15).
    + pose proof (lookup_lt_Some _ _ _ Hi). rewrite <- (Hhi i z Hi), <- Hshift by lia. f_equal. lia.
  - intros j Hj. rewrite <- Hshift by lia. apply Hlo. lia.
Qed.

Lemma burst_detected (xs : list bool) :
  burst xs → (1 ≤ weight xs)%nat → foldl bit_step 0 xs ≠ 0.
Proof.
  intros (n & ys & m & -> & Hl) Hw H0. apply foldl_padded in H0.
  destruct (cleared_register ys 0 Hl H0) as [Hbits _]; [unfold u16_ok; lia|].
  assert (Hz : ∀ k, weight (replicate k false) = 0%nat) by (by induction k).
  assert (Happ : ∀ xs ys, weight (xs ++ ys) = (weight xs + weight ys)%nat).
  { induction xs as [|x xs IH]; intros zs; simpl; [done|]. rewrite IH. lia. }
  rewrite !Happ, !Hz in Hw.
  assert (Hys : weight ys = 0%nat); [|lia]. clear -Hbits.
  induction ys as [|y ys IH]; [done|]. pose proof (Hbits 0%nat y eq_refl) as Hy.
  rewrite Z.bits_0 in Hy. subst y. simpl. apply IH. intros i y Hi. rewrite Z.bits_0.
  rewrite <- (Hbits (S i) y Hi). by rewrite Z.bits_0.
Qed.

(** ** Parity: an odd number of flipped bits *)

Definition parity (r : Z) : bool := foldr (λ i, xorb (Z.testbit r i)) false (seqZ 0 16).

Lemma parity_lxor (a b : Z) : parity (Z.lxor a b) = xorb (parity a) (parity b).
Proof.
  unfold parity. induction (seqZ 0 16) as [|i l IH]; [done|]. simpl. rewrite IH, Z.lxor_spec.
  generalize (foldr (λ i, xorb (Z.testbit a i)) false l) as x.
  generalize (foldr (λ i, xorb (Z.testbit b i)) false l) as y. intros y x.
  destruct (Z.testbit a i), (Z.testbit b i), x, y; reflexivity.
Qed.

Lemma parity_crc_bit (r : Z) : parity (crc_bit r) = parity r.
Proof.
  unfold parity. change (seqZ 0 16) with [0; 1; 2; 3; 4; 5; 6; 7; 8; 9; 10; 11; 12; 13; 14; 15].
  cbn [foldr]. rewrite !crc_bit_testbit by lia. cbn -[Z.testbit Z.sub].
  rewrite (Z.testbit_neg_r r (0 - 1)) by lia.
  repeat match goal with |- context [Z.testbit 0x1021 ?i] =>
    let b := eval vm_compute in (Z.testbit 0x1021 i) in change (Z.testbit 0x1021 i) with b end.
  repeat match goal with |- context [?i - 1] =>
    let j := eval vm_compute in (i - 1) in change (i - 1) with j end.
  btauto.
Qed.

Lemma parity_foldl (xs : list bool) (r : Z) :
  parity (foldl bit_step r xs) = xorb (parity r) (Nat.odd (weight xs)).
Proof.
  revert r. induction xs as [|x xs IH]; intros r; cbn [foldl weight].
  { by rewrite xorb_false_r. }
  rewrite IH. unfold bit_step. rewrite parity_crc_bit, parity_lxor, Nat.odd_add.
  destruct x; [change (parity 0x8000) with true|change (parity 0) with false];
    cbn; destruct (parity r), (Nat.odd (weight xs)); done.
Qed.

Lemma odd_detected (xs : list bool) : Nat.odd (weight xs) = true → foldl bit_step 0 xs ≠ 0.
Proof.
  intros Ho H0. pose proof (parity_foldl xs 0) as Hp. rewrite H0, Ho in Hp. discriminate Hp.
Qed.

(** ** Two flipped bits *)

(** The register after a single one bit does not come back within a frame. *)
Lemma order_exceeds_frame (d : nat) :
  (1 ≤ d ≤ 95)%nat → Nat.iter d crc_bit 0x1021 ≠ 0x1021.
Proof.
  intros Hd Heq.
  assert (Hc : forallb (λ d, negb (Nat.iter d crc_bit 0x1021 =? 0x1021)) (seq 1 95) = true)
    by (vm_compute; reflexivity).
  rewrite forallb_forall in Hc. specialize (Hc d). rewrite Heq in Hc.
  assert (Hin : In d (seq 1 95)) by (apply in_seq; lia). by specialize (Hc Hin).
Qed.

Lemma first_flip (xs : list bool) :
  (1 ≤ weight xs)%nat →
  ∃ n ys, xs = replicate n false ++ true :: ys ∧ weight xs = S (weight ys).
Proof.
  induction xs as [|[] xs IH]; cbn [weight]; intros Hw; [lia|by exists 0%nat, xs|].
  destruct IH as (n & ys & -> & Hn); [lia|]. exists (S n), ys. split; [done|]. simpl. lia.
Qed.

Lemma no_flip (xs : list bool) : weight xs = 0%nat → xs = replicate (length xs) false.
Proof.
  induction xs as [|[] xs IH]; cbn [weight]; intros Hw; [done|lia|]. simpl. f_equal. by apply IH.
Qed.

Lemma double_detected (xs : list bool) :
  weight xs = 2%nat → (length xs ≤ 96)%nat → foldl bit_step 0 xs ≠ 0.
Proof.
  intros Hw Hl. destruct (first_flip xs) as (n & ys & -> & H1); [lia|].
  destruct (first_flip ys) as (k & zs & -> & H2); [lia|].
  rewrite (no_flip zs) by lia. rewrite !length_app in Hl. simpl in Hl.
  rewrite length_app, !length_replicate in Hl. simpl in Hl.
  change (true :: replicate k false ++ true :: replicate (length zs) false)
    with ((true :: replicate k false) ++ [true] ++ replicate (length zs) false).
  rewrite (app_assoc (true :: replicate k false)). intros H0. apply foldl_padded in H0.
  rewrite foldl_app in H0. change (foldl bit_step 0 (true :: replicate k false))
    with (foldl bit_step 0x1021 (replicate k false)) in H0.
  rewrite foldl_bit_step_zeros in H0. cbn [foldl] in H0. unfold bit_step in H0.
  rewrite crc_bit_lxor in H0. apply Z.lxor_eq in H0. change (crc_bit 0x8000) with 0x1021 in H0.
  apply (order_exceeds_frame (S k)); [lia|]. exact H0.
Qed.

(** ** What the checksum detects *)

(** The error patterns of the claim: up to three flipped bits anywhere, or any
    number of flipped bits within sixteen positions (two adjacent bytes, say). *)
Definition detectable (xs : list bool) : Prop :=
  (1 ≤ weight xs)%nat ∧ ((weight xs ≤ 3)%nat ∨ burst xs).

Lemma detectable_residue (xs : list bool) :
  detectable xs → (length xs ≤ 96)%nat → foldl bit_step 0 xs ≠ 0.
Proof.
  intros [H1 [H3|Hb]] Hl; [|by apply burst_detected].
  destruct (decide (weight xs = 2%nat)); [by apply double_detected|]. apply odd_detected.
  assert (weight xs = 1%nat ∨ weight xs = 3%nat) as [-> | ->] by lia; done.
Qed.

(** Flipping the bits of [e] changes the residue by the register that [e] leaves. *)
Lemma byte_bits_lxor (a b : Z) : byte_bits (Z.lxor a b) = zip_with xorb (byte_bits a) (byte_bits b).
Proof. unfold byte_bits. cbn [zip_with]. by rewrite !Z.lxor_spec. Qed.

Lemma bits_of_lxor (xs ys : list Z) : length xs = length ys →
  bits_of (zip_with Z.lxor xs ys) = zip_with xorb (bits_of xs) (bits_of ys).
Proof.
  revert ys. induction xs as [|x xs IH]; intros [|y ys] Hl; [done..|]. injection Hl as Hl.
  cbn [zip_with]. unfold bits_of in *. rewrite !bind_cons, byte_bits_lxor, IH by done.
  by rewrite zip_with_app.
Qed.

Lemma length_bits_of (xs : list Z) : length (bits_of xs) = (8 * length xs)%nat.
Proof.
  induction xs as [|x xs IH]; [done|]. unfold bits_of in *. rewrite bind_cons, length_app, IH.
  simpl. lia.
Qed.

Lemma residue_lxor (xs e : list Z) : length xs = length e →
  residue (zip_with Z.lxor xs e) = Z.lxor (residue xs) (foldl bit_step 0 (bits_of e)).
Proof.
  intros Hl. unfold residue. rewrite bits_of_lxor, <- foldl_bit_step_lxor by
    (rewrite ?length_bits_of; lia). by rewrite Z.lxor_0_r.
Qed.
