(* ===== verification/Metrics.v ===== *)
(** * The runtime's counters ([runtime/runtime_metrics.hpp])

    Seven atomic 64-bit counters.  Every member function but one is a single
    atomic operation; [record_processed] raises the maximum latency with a
    compare-and-exchange loop, which is modelled step by step under interference
    from other threads. *)
From S2P Require Import Prelude.

Local Open Scope Z_scope.

Record RuntimeMetrics := MkMetrics {
  events_published_ : Z;
  events_processed_ : Z;
  events_dropped_ : Z;
  transitions_ : Z;
  monitor_ticks_ : Z;
  last_event_latency_ns_ : Z;
  max_event_latency_ns_ : Z
}.

Definition metrics_init : RuntimeMetrics := MkMetrics 0 0 0 0 0 0 0.

Definition record_published (m : RuntimeMetrics) : RuntimeMetrics :=
  MkMetrics (u64_incr (events_published_ m)) (events_processed_ m) (events_dropped_ m)
    (transitions_ m) (monitor_ticks_ m) (last_event_latency_ns_ m) (max_event_latency_ns_ m).

Definition record_dropped (m : RuntimeMetrics) : RuntimeMetrics :=
  MkMetrics (events_published_ m) (events_processed_ m) (u64_incr (events_dropped_ m))
    (transitions_ m) (monitor_ticks_ m) (last_event_latency_ns_ m) (max_event_latency_ns_ m).

Definition record_transition (m : RuntimeMetrics) : RuntimeMetrics :=
  MkMetrics (events_published_ m) (events_processed_ m) (events_dropped_ m)
    (u64_incr (transitions_ m)) (monitor_ticks_ m) (last_event_latency_ns_ m) (max_event_latency_ns_ m).

Definition record_monitor_tick (m : RuntimeMetrics) : RuntimeMetrics :=
  MkMetrics (events_published_ m) (events_processed_ m) (events_dropped_ m)
    (transitions_ m) (u64_incr (monitor_ticks_ m)) (last_event_latency_ns_ m) (max_event_latency_ns_ m).

(** The snapshot: seven relaxed loads in the order of the fields, here with no update
    in between ([DaemonWhole] makes them one at a time). *)
Definition metrics_snapshot (m : RuntimeMetrics) : RuntimeMetrics :=
  let published := events_published_ m in
  let processed := events_processed_ m in
  let dropped := events_dropped_ m in
  let transitions := transitions_ m in
  let ticks := monitor_ticks_ m in
  let last := last_event_latency_ns_ m in
  let max := max_event_latency_ns_ m in
  MkMetrics published processed dropped transitions ticks last max.

Definition count_processed (m : RuntimeMetrics) : RuntimeMetrics :=
  MkMetrics (events_published_ m) (u64_incr (events_processed_ m)) (events_dropped_ m)
    (transitions_ m) (monitor_ticks_ m) (last_event_latency_ns_ m) (max_event_latency_ns_ m).
Definition store_last (v : Z) (m : RuntimeMetrics) : RuntimeMetrics :=
  MkMetrics (events_published_ m) (events_processed_ m) (events_dropped_ m)
    (transitions_ m) (monitor_ticks_ m) v (max_event_latency_ns_ m).
Definition store_max (v : Z) (m : RuntimeMetrics) : RuntimeMetrics :=
  MkMetrics (events_published_ m) (events_processed_ m) (events_dropped_ m)
    (transitions_ m) (monitor_ticks_ m) (last_event_latency_ns_ m) v.

(** ** [record_processed], one atomic access per step *)

Inductive RecordCall :=
| RecBegin (latency_ns : Z)
| RecStore (latency_ns : Z)
| RecLoad (latency_ns : Z)
| RecLoop (latency_ns observed : Z)       (* at the loop condition *)
| RecEnd (latency_ns : Z).

(** [spurious]: the weak exchange may fail although the values are equal. *)
Definition record_step (spurious : bool) (m : RuntimeMetrics) (c : RecordCall)
  : option (RuntimeMetrics * RecordCall) :=
  match c with
  | RecBegin l => Some (count_processed m, RecStore l)
  | RecStore l => Some (store_last l m, RecLoad l)
  | RecLoad l => Some (m, RecLoop l (max_event_latency_ns_ m))
  | RecLoop l observed =>
      if observed <? l then
        if (max_event_latency_ns_ m =? observed) && negb spurious
        then Some (store_max l m, RecEnd l)
        else Some (m, RecLoop l (max_event_latency_ns_ m))
      else Some (m, RecEnd l)
  | RecEnd l => None
  end.

(** The call as one thread sees it when no other thread calls it and no exchange
    fails; five steps. *)
Fixpoint record_run (fuel : nat) (m : RuntimeMetrics) (c : RecordCall) : RuntimeMetrics :=
  match fuel with
  | O => m
  | S fuel => match record_step false m c with
              | Some (m, c) => record_run fuel m c
              | None => m
              end
  end.

Definition record_processed (latency_ns : Z) (m : RuntimeMetrics) : RuntimeMetrics :=
  record_run 5 m (RecBegin latency_ns).

Lemma record_processed_eq (l : Z) (m : RuntimeMetrics) :
  record_processed l m
  = store_max (Z.max (max_event_latency_ns_ m) l) (store_last l (count_processed m)).
Proof.
  unfold record_processed. simpl. destruct (Z.ltb_spec (max_event_latency_ns_ m) l) as [Hlt|Hge].
  - rewrite Z.eqb_refl. simpl. by rewrite Z.max_r by lia.
  - by rewrite Z.max_l by lia.
Qed.

(** ** Any number of threads *)

Definition latency (c : RecordCall) : Z :=
  match c with RecBegin l | RecStore l | RecLoad l | RecLoop l _ | RecEnd l => l end.

Definition finished (c : RecordCall) : bool := match c with RecEnd _ => true | _ => false end.
Definition counted (c : RecordCall) : bool := match c with RecBegin _ => false | _ => true end.

Inductive calls_step : RuntimeMetrics * list RecordCall → RuntimeMetrics * list RecordCall → Prop :=
| calls_move m cs i c spurious m' c' :
    cs !! i = Some c → record_step spurious m c = Some (m', c') →
    calls_step (m, cs) (m', <[i := c']> cs).

Definition calls_reachable (latencies : list Z) (s : RuntimeMetrics * list RecordCall) : Prop :=
  rtc calls_step (metrics_init, RecBegin <$> latencies) s.

(** What has been recorded and what is still on its way. *)
Record calls_inv (latencies : list Z) (s : RuntimeMetrics * list RecordCall) : Prop := {
  ci_latencies : latency <$> s.2 = latencies;
  ci_done : ∀ i l, s.2 !! i = Some (RecEnd l) → l ≤ max_event_latency_ns_ s.1;
  ci_observed : ∀ i l o, s.2 !! i = Some (RecLoop l o) → o ≤ max_event_latency_ns_ s.1;
  ci_max : max_event_latency_ns_ s.1 = 0 ∨ max_event_latency_ns_ s.1 ∈ latencies;
  ci_nonneg : 0 ≤ max_event_latency_ns_ s.1;
  ci_count : events_processed_ s.1 = count counted s.2 mod u64_modulus
}.

Lemma latency_step (spurious : bool) (m m' : RuntimeMetrics) (c c' : RecordCall) :
  record_step spurious m c = Some (m', c') → latency c' = latency c.
Proof. destruct c; simpl; intros; repeat case_match; by simplify_eq. Qed.

(** The maximum only grows, and to the latency of the call that stores it. *)
Lemma max_step (spurious : bool) (m m' : RuntimeMetrics) (c c' : RecordCall) :
  record_step spurious m c = Some (m', c') →
  max_event_latency_ns_ m' = max_event_latency_ns_ m ∨
  max_event_latency_ns_ m < latency c ∧ max_event_latency_ns_ m' = latency c.
Proof.
  destruct c; simpl; intros; repeat case_match; simplify_eq; simpl; auto.
  right. destruct (Z.eqb_spec (max_event_latency_ns_ m) observed); [|done]. lia.
Qed.

Lemma calls_preserved (ls : list Z) (s s' : RuntimeMetrics * list RecordCall) :
  Forall (λ l, 0 ≤ l) ls → calls_inv ls s → calls_step s s' → calls_inv ls s'.
Proof.
  intros Hls [Hlat Hdone Hobs Hmax Hnn Hcount] Hstep.
  destruct Hstep as [m cs i c spurious m' c' Hi Hs]. cbn [fst snd] in *.
  pose proof (latency_step _ _ _ _ _ Hs) as Hl. pose proof (max_step _ _ _ _ _ Hs) as Hm.
  assert (Hmono : max_event_latency_ns_ m ≤ max_event_latency_ns_ m') by lia.
  assert (Hin : latency c ∈ ls).
  { rewrite <- Hlat. apply list_elem_of_fmap. exists c. split; [done|]. by eapply list_elem_of_lookup_2. }
  split; cbn [fst snd].
  - rewrite list_fmap_insert, Hl, list_insert_id; [done|]. by rewrite list_lookup_fmap, Hi.
  - intros j l Hj. destruct (decide (i = j)) as [<-|Hne].
    + rewrite list_lookup_insert_eq in Hj by (by eapply lookup_lt_Some). simplify_eq.
      destruct c; simpl in Hs; repeat case_match; simplify_eq; simpl; try lia.
      pose proof (Hobs i _ _ Hi). lia.
    + rewrite list_lookup_insert_ne in Hj by done. specialize (Hdone j l Hj). lia.
  - intros j l o Hj. destruct (decide (i = j)) as [<-|Hne].
    + rewrite list_lookup_insert_eq in Hj by (by eapply lookup_lt_Some). simplify_eq.
      destruct c; simpl in Hs; repeat case_match; simplify_eq; simpl; lia.
    + rewrite list_lookup_insert_ne in Hj by done. specialize (Hobs j l o Hj). lia.
  - destruct Hm as [->|[_ ->]]; auto.
  - lia.
  - rewrite (count_insert counted cs i c c' Hi). destruct c; simpl in Hs; repeat case_match;
      simplify_eq; cbn [counted Z.b2z events_processed_ count_processed store_last store_max];
      rewrite ?Z.sub_add, ?Z.sub_0_r, ?Hcount; try done.
    unfold u64_incr. by rewrite Zplus_mod_idemp_l.
Qed.

Lemma calls_init (ls : list Z) : Forall (λ l, 0 ≤ l) ls → calls_inv ls (metrics_init, RecBegin <$> ls).
Proof.
  intros Hls. split; cbn [fst snd]; try done.
  - rewrite <- list_fmap_compose. apply list_fmap_id.
  - intros i l Hi. rewrite list_lookup_fmap in Hi. by destruct (ls !! i).
  - intros i l o Hi. rewrite list_lookup_fmap in Hi. by destruct (ls !! i).
  - by left.
  - assert (count counted (RecBegin <$> ls) = 0) as ->; [|done]. by apply count_fmap_none.
Qed.

Lemma calls_reachable_inv (ls : list Z) (s : RuntimeMetrics * list RecordCall) :
  Forall (λ l, 0 ≤ l) ls → calls_reachable ls s → calls_inv ls s.
Proof.
  intros Hls Hr. unfold calls_reachable in Hr.
  remember (metrics_init, RecBegin <$> ls) as s0 eqn:Hs0.
  assert (Hinv : calls_inv ls s0) by (subst; by apply calls_init). clear Hs0.
  induction Hr as [s|s s1 s2 Hstep _ IH]; [done|]. eauto using calls_preserved.
Qed.

Lemma foldr_max (ls : list Z) (x : Z) :
  0 ≤ x → (x = 0 ∨ x ∈ ls) → Forall (λ l, l ≤ x) ls → x = foldr Z.max 0 ls.
Proof.
  intros Hx Hin Hle. assert (Hub : foldr Z.max 0 ls ≤ x).
  { clear Hin. induction Hle; simpl; lia. }
  assert (Hlb : x ≤ foldr Z.max 0 ls); [|lia]. destruct Hin as [->|Hin].
  - clear. induction ls; simpl; lia.
  - clear -Hin. induction ls as [|l ls IH]; [by apply not_elem_of_nil in Hin|].
    apply elem_of_cons in Hin as [->|Hin]; simpl; [lia|]. specialize (IH Hin). lia.
Qed.

(** C15: the latency statistics under concurrency.  When any number of threads
    record latencies at the same time, in any interleaving of their atomic
    accesses and with any number of failed exchanges, the maximum is the greatest
    of the recorded latencies and the counter their number (modulo [2^64]) once
    all calls have returned; a call that runs alone takes five steps. *)
Theorem max_latency_correct (ls : list Z) (m : RuntimeMetrics) (cs : list RecordCall)
    (Hls : Forall (λ l, 0 ≤ l) ls)
    (Hr : calls_reachable ls (m, cs)) (Hend : Forall (λ c, finished c = true) cs) :
  max_event_latency_ns_ m = foldr Z.max 0 ls ∧
  events_processed_ m = Z.of_nat (length ls) mod u64_modulus ∧
  ∀ l m0, record_processed l m0
    = store_max (Z.max (max_event_latency_ns_ m0) l) (store_last l (count_processed m0)).
Proof.
  destruct (calls_reachable_inv ls _ Hls Hr) as [Hlat Hdone _ Hmax Hnn Hcount]. cbn [fst snd] in *.
  split; [|split; [|apply record_processed_eq]].
  - apply foldr_max; [done|done|]. apply Forall_lookup. intros i l Hi.
    rewrite <- Hlat, list_lookup_fmap in Hi. destruct (cs !! i) as [c|] eqn:Hc; [|done].
    pose proof (proj1 (Forall_lookup _ _) Hend i c Hc) as Hf. destruct c; try done.
    injection Hi as <-. by apply (Hdone i).
  - rewrite Hcount. f_equal. rewrite <- Hlat, length_fmap. clear -Hend.
    induction Hend as [|c cs Hc _ IH]; [done|]. rewrite count_cons, IH.
    destruct c; try done. simpl. lia.
Qed.

(** Two calls race: the slower thread's exchange fails once and it gives up. *)
Lemma max_latency_correct_witness :
  max_event_latency_ns_ (MkMetrics 0 2 0 0 0 5 9) = 9.
Proof.
  apply (max_latency_correct [5; 9] (MkMetrics 0 2 0 0 0 5 9) [RecEnd 5; RecEnd 9]).
  - repeat constructor; lia.
  - unfold calls_reachable. simpl.
    eapply rtc_l; [apply (calls_move _ _ 1 (RecBegin 9) false); reflexivity|].
    eapply rtc_l; [apply (calls_move _ _ 1 (RecStore 9) false); reflexivity|].
    eapply rtc_l; [apply (calls_move _ _ 0 (RecBegin 5) false); reflexivity|].
    eapply rtc_l; [apply (calls_move _ _ 0 (RecStore 5) false); reflexivity|].
    eapply rtc_l; [apply (calls_move _ _ 0 (RecLoad 5) false); reflexivity|].
    eapply rtc_l; [apply (calls_move _ _ 1 (RecLoad 9) false); reflexivity|].
    eapply rtc_l; [apply (calls_move _ _ 1 (RecLoop 9 0) false); reflexivity|].
    eapply rtc_l; [apply (calls_move _ _ 0 (RecLoop 5 0) false); reflexivity|].
    eapply rtc_l; [apply (calls_move _ _ 0 (RecLoop 5 9) false); reflexivity|].
    apply rtc_refl.
  - repeat constructor.
Defined.
