(* ===== verification/Uart.v ===== *)
(** * The UART protocol ([protocols/uart_protocol.hpp])

    Frames of twelve bytes: two magic bytes, a version, the kind, a 16-bit
    sequence number, a 32-bit milli-unit value and the checksum of the first ten
    bytes.  The decoder is a byte-at-a-time state machine over a buffer. *)
From S2P Require Import Prelude Bytes Double Domain Measurement Crc.

Local Open Scope Z_scope.

Definition kUartMagicFirst : Z := 0xAA.
Definition kUartMagicSecond : Z := 0x55.
Definition kUartProtocolVersion : Z := 0x01.
Definition kUartFrameSize : nat := 12.

Record UartFrame := MkUartFrame {
  uart_kind : MeasurementKind;
  uart_sequence : Z;      (* std::uint16_t *)
  milli_value : Z         (* std::int32_t *)
}.

Definition frame_ok (f : UartFrame) : Prop := u16_ok (uart_sequence f) ∧ i32_ok (milli_value f).

Definition encode_uart_frame (frame : UartFrame) : list Z :=
  let raw := bit_cast_u32 (milli_value frame) in
  let bytes :=
    [kUartMagicFirst; kUartMagicSecond; kUartProtocolVersion;
     u8 (MeasurementKind_value (uart_kind frame));
     byte_of (uart_sequence frame) 1; byte_of (uart_sequence frame) 0;
     byte_of raw 3; byte_of raw 2; byte_of raw 1; byte_of raw 0] in
  let crc := crc16_ccitt bytes in
  bytes ++ [byte_of crc 1; byte_of crc 0].

Record UartFrameDecoder := MkDecoder {
  buffer_ : list Z;        (* std::array<std::byte, kUartFrameSize> *)
  position_ : nat;
  crc_errors_ : Z;
  format_errors_ : Z
}.

Definition decoder_init : UartFrameDecoder := MkDecoder (replicate kUartFrameSize 0) 0 0 0.

(** [buffer_[position_++] = byte] *)
Definition store (byte : Z) (d : UartFrameDecoder) : UartFrameDecoder :=
  MkDecoder (<[position_ d := byte]> (buffer_ d)) (S (position_ d)) (crc_errors_ d) (format_errors_ d).

Definition set_position (n : nat) (d : UartFrameDecoder) : UartFrameDecoder :=
  MkDecoder (buffer_ d) n (crc_errors_ d) (format_errors_ d).
Definition count_crc_error (d : UartFrameDecoder) : UartFrameDecoder :=
  MkDecoder (buffer_ d) (position_ d) (u64_incr (crc_errors_ d)) (format_errors_ d).
Definition count_format_error (d : UartFrameDecoder) : UartFrameDecoder :=
  MkDecoder (buffer_ d) (position_ d) (crc_errors_ d) (u64_incr (format_errors_ d)).

(** The part of [feed] that runs when the buffer is complete. *)
Definition finish (d : UartFrameDecoder) : UartFrameDecoder * option UartFrame :=
  let at_ i := nth i (buffer_ d) 0 in
  let expected_crc := u16 (be16 (at_ 10%nat) (at_ 11%nat)) in
  let actual_crc := crc16_ccitt (take 10 (buffer_ d)) in
  if negb (expected_crc =? actual_crc) then (count_crc_error d, None)
  else if negb (at_ 2%nat =? kUartProtocolVersion) then (count_format_error d, None)
  else
    let kind_value := at_ 3%nat in
    if (kind_value <? MeasurementKind_value Mk_temperature) ||
       (MeasurementKind_value Mk_online <? kind_value)
    then (count_format_error d, None)
    else
      let sequence := u16 (be16 (at_ 4%nat) (at_ 5%nat)) in
      let raw := be32 (at_ 6%nat) (at_ 7%nat) (at_ 8%nat) (at_ 9%nat) in
      match MeasurementKind_of_value kind_value with
      | Some kind => (d, Some (MkUartFrame kind sequence (bit_cast_i32 raw)))
      | None => (d, None)       (* excluded by the test above *)
      end.

Definition feed (byte : Z) (d : UartFrameDecoder) : UartFrameDecoder * option UartFrame :=
  match position_ d with
  | O => ((if byte =? kUartMagicFirst then store byte d else d), None)
  | S O =>
      ((if byte =? kUartMagicSecond then store byte d
        else if negb (byte =? kUartMagicFirst) then set_position 0 d
        else d), None)
  | _ =>
      let d := store byte d in
      if (position_ d <? length (buffer_ d))%nat then (d, None)
      else finish (set_position 0 d)
  end.

Definition decode_uart_measurement (frame : UartFrame) : Measurement :=
  if decide (uart_kind frame = Mk_online) then
    MkMeasurement (uart_kind frame)
      (if milli_value frame =? 0 then Double.of_Z 0 else Double.of_Z 1)
  else MkMeasurement (uart_kind frame)
         (Double.div (Double.of_Z (milli_value frame)) (Double.of_Z 1000)).

(** A stream of bytes, and the frames it yields. *)
Definition feed_all (bytes : list Z) (d : UartFrameDecoder)
  : UartFrameDecoder * list (option UartFrame) := run feed bytes d.

Definition frames (rs : list (option UartFrame)) : list UartFrame := omap id rs.

(** ** Encoding *)

Lemma encode_length (f : UartFrame) : length (encode_uart_frame f) = kUartFrameSize.
Proof. done. Qed.

Lemma kind_byte (k : MeasurementKind) : u8 (MeasurementKind_value k) = MeasurementKind_value k.
Proof. by destruct k. Qed.

Lemma encode_bytes_ok (f : UartFrame) : Forall byte_ok (encode_uart_frame f).
Proof.
  unfold encode_uart_frame. cbn [app]. repeat apply Forall_cons_2; try apply Forall_nil_2;
    try apply byte_of_ok; try (unfold byte_ok, kUartMagicFirst, kUartMagicSecond,
      kUartProtocolVersion; lia). unfold u8, byte_ok. apply Z.mod_pos_bound. lia.
Qed.

Lemma crc16_ok (bytes : list Z) : u16_ok (crc16_ccitt bytes).
Proof. unfold crc16_ccitt, u16. apply Z.mod_pos_bound. lia. Qed.

Lemma u16_id (z : Z) : u16_ok z → u16 z = z.
Proof. apply Z.mod_small. Qed.

(** ** The window in the buffer

    A complete buffer is accepted exactly when it is, byte for byte, the encoding
    of the frame that is returned. *)

Definition window (b2 b3 b4 b5 b6 b7 b8 b9 b10 b11 : Z) : list Z :=
  [kUartMagicFirst; kUartMagicSecond; b2; b3; b4; b5; b6; b7; b8; b9; b10; b11].

Lemma finish_encoded (d : UartFrameDecoder) (f : UartFrame) :
  frame_ok f → buffer_ d = encode_uart_frame f → finish d = (d, Some f).
Proof.
  intros [Hs Hm] Hb. unfold finish. rewrite Hb. unfold encode_uart_frame.
  cbn [nth app take]. set (body := [kUartMagicFirst; _; _; _; _; _; _; _; _; _]).
  rewrite be16_byte_of by apply crc16_ok. rewrite u16_id by apply crc16_ok.
  rewrite Z.eqb_refl. cbn [negb]. rewrite kind_byte, MeasurementKind_value_of.
  rewrite be16_byte_of, u16_id by done. rewrite be32_byte_of by apply bit_cast_u32_ok.
  rewrite bit_cast_i32_u32 by done.
  destruct f as [k s m]. by destruct k.
Qed.

Lemma finish_accepts (d : UartFrameDecoder) (b2 b3 b4 b5 b6 b7 b8 b9 b10 b11 : Z) (f : UartFrame) :
  buffer_ d = window b2 b3 b4 b5 b6 b7 b8 b9 b10 b11 →
  Forall byte_ok (buffer_ d) → snd (finish d) = Some f →
  frame_ok f ∧ buffer_ d = encode_uart_frame f ∧ fst (finish d) = d.
Proof.
  intros Hb Hok. unfold finish. rewrite Hb in *. unfold window in *. cbn [nth take].
  rewrite !Forall_cons in Hok. destruct Hok as (_&_&H2&H3&H4&H5&H6&H7&H8&H9&H10&H11&_).
  destruct (byte_of_be16 b10 b11 H10 H11) as (Hc & Hc1 & Hc0).
  destruct (byte_of_be16 b4 b5 H4 H5) as (Hs & Hs1 & Hs0).
  destruct (byte_of_be32 b6 b7 b8 b9 H6 H7 H8 H9) as (Hr & Hr3 & Hr2 & Hr1 & Hr0).
  destruct (bit_cast_u32_i32 _ Hr) as [Hi Hraw].
  rewrite (u16_id _ Hc), (u16_id _ Hs).
  destruct (Z.eqb_spec (be16 b10 b11)
    (crc16_ccitt [kUartMagicFirst; kUartMagicSecond; b2; b3; b4; b5; b6; b7; b8; b9]))
    as [Hcrc|]; [|done]. cbn [negb].
  destruct (Z.eqb_spec b2 kUartProtocolVersion) as [->|]; [|done]. cbn [negb].
  destruct (_ || _); [done|]. destruct (MeasurementKind_of_value b3) as [k|] eqn:Hk; [|done].
  cbn [snd fst]. intros [= <-]. apply MeasurementKind_of_value_Some in Hk as ->.
  split; [exact (conj Hs Hi)|]. split; [|reflexivity]. unfold encode_uart_frame. cbn [uart_kind uart_sequence milli_value].
  rewrite kind_byte, Hraw, Hs1, Hs0, Hr3, Hr2, Hr1, Hr0, <- Hcrc, Hc1, Hc0. reflexivity.
Qed.

(** The other verdicts on a complete buffer. *)
Lemma window_residue (b2 b3 b4 b5 b6 b7 b8 b9 b10 b11 : Z) :
  let w := window b2 b3 b4 b5 b6 b7 b8 b9 b10 b11 in
  Forall byte_ok w → residue w = 0 ↔ crc16_ccitt (take 10 w) = be16 b10 b11.
Proof.
  intros w Hok.
  change w with ([kUartMagicFirst; kUartMagicSecond; b2; b3; b4; b5; b6; b7; b8; b9] ++ [b10; b11]) in *.
  apply Forall_app in Hok as [Hbody Hcrc]. rewrite !Forall_cons in Hcrc. destruct Hcrc as (Hhi & Hlo & _).
  by apply residue_zero.
Qed.

Lemma finish_verdict (d : UartFrameDecoder) (b2 b3 b4 b5 b6 b7 b8 b9 b10 b11 : Z) :
  let w := window b2 b3 b4 b5 b6 b7 b8 b9 b10 b11 in
  buffer_ d = w → Forall byte_ok w →
  (crc16_ccitt (take 10 w) ≠ be16 b10 b11 → finish d = (count_crc_error d, None)) ∧
  (crc16_ccitt (take 10 w) = be16 b10 b11 → b2 ≠ kUartProtocolVersion ∨ ¬ (1 ≤ b3 ≤ 4) →
   finish d = (count_format_error d, None)) ∧
  (crc16_ccitt (take 10 w) = be16 b10 b11 → b2 = kUartProtocolVersion → 1 ≤ b3 ≤ 4 →
   ∃ f, finish d = (d, Some f)).
Proof.
  intros w Hb Hok. unfold finish. rewrite Hb.
  assert (Hcrc : u16_ok (be16 b10 b11)).
  { unfold w, window in Hok. rewrite !Forall_cons in Hok. apply byte_of_be16; tauto. }
  unfold w, window. cbn [nth]. rewrite (u16_id _ Hcrc). fold w.
  split; [intros Hne; by rewrite (proj2 (Z.eqb_neq _ _))|]. split; intros ->; rewrite Z.eqb_refl; cbn [negb].
  - intros Hbad. destruct (Z.eqb_spec b2 kUartProtocolVersion); [|done]. cbn [negb].
    assert (Hk : ¬ (1 ≤ b3 ≤ 4)) by tauto.
    destruct (Z.ltb_spec b3 (MeasurementKind_value Mk_temperature)); [done|].
    destruct (Z.ltb_spec (MeasurementKind_value Mk_online) b3); [done|]. simpl in *. lia.
  - intros -> Hk. rewrite Z.eqb_refl. cbn [negb].
    destruct (Z.ltb_spec b3 (MeasurementKind_value Mk_temperature)); [simpl in *; lia|].
    destruct (Z.ltb_spec (MeasurementKind_value Mk_online) b3); [simpl in *; lia|]. cbn [orb].
    apply MeasurementKind_of_value_range in Hk as [k ->]. by eexists.
Qed.

(** ** The decoder follows the stream *)

(** [past] is what has been read; the filled part of the buffer is its end, and
    starts with the magic bytes. *)
Record tracks (d : UartFrameDecoder) (past : list Z) : Prop := {
  tr_length : length (buffer_ d) = kUartFrameSize;
  tr_position : (position_ d < kUartFrameSize)%nat;
  tr_past : Forall byte_ok past;
  tr_suffix : take (position_ d) (buffer_ d) `suffix_of` past;
  tr_first : (1 ≤ position_ d)%nat → buffer_ d !! 0%nat = Some kUartMagicFirst;
  tr_second : (2 ≤ position_ d)%nat → buffer_ d !! 1%nat = Some kUartMagicSecond
}.

Lemma take_store (p : nat) (b : Z) (l : list Z) :
  (p < length l)%nat → take (S p) (<[p := b]> l) = take p l ++ [b].
Proof.
  intros Hp. rewrite (take_S_r _ _ b) by (by apply list_lookup_insert_eq).
  by rewrite take_insert_ge.
Qed.

Lemma finish_state (d : UartFrameDecoder) :
  buffer_ (fst (finish d)) = buffer_ d ∧ position_ (fst (finish d)) = position_ d.
Proof. unfold finish. repeat case_match; done. Qed.

Lemma tracks_reset (d : UartFrameDecoder) (past : list Z) :
  length (buffer_ d) = kUartFrameSize → position_ d = 0%nat → Forall byte_ok past → tracks d past.
Proof.
  intros Hl Hp Hb. split; rewrite ?Hp; auto; try lia; [unfold kUartFrameSize; lia|].
  apply suffix_nil.
Qed.

Lemma tracks_store (d : UartFrameDecoder) (past : list Z) (b : Z) :
  tracks d past → byte_ok b →
  (position_ d = 0%nat → b = kUartMagicFirst) → (position_ d = 1%nat → b = kUartMagicSecond) →
  (S (position_ d) < kUartFrameSize)%nat → tracks (store b d) (past ++ [b]).
Proof.
  intros [Hl Hp Hpast Hs H1 H2] Hb Hb0 Hb1 Hlt. split; cbn [store buffer_ position_].
  - by rewrite length_insert.
  - done.
  - apply Forall_app. by rewrite Forall_singleton.
  - rewrite take_store by lia. by apply suffix_snoc_alt.
  - intros _. destruct (position_ d) as [|p] eqn:Hpos.
    + rewrite list_lookup_insert_eq by (rewrite Hl; unfold kUartFrameSize; lia). f_equal. by apply Hb0.
    + rewrite list_lookup_insert_ne by lia. apply H1. lia.
  - intros H. destruct (position_ d) as [|[|p]] eqn:Hpos; [lia|..].
    + rewrite list_lookup_insert_eq by (rewrite Hl; unfold kUartFrameSize; lia). f_equal. by apply Hb1.
    + rewrite list_lookup_insert_ne by lia. apply H2. lia.
Qed.

(** The full buffer as the twelve bytes it holds. *)
Lemma full_window (l : list Z) :
  length l = kUartFrameSize → l !! 0%nat = Some kUartMagicFirst → l !! 1%nat = Some kUartMagicSecond →
  ∃ b2 b3 b4 b5 b6 b7 b8 b9 b10 b11,
    l = window b2 b3 b4 b5 b6 b7 b8 b9 b10 b11.
Proof.
  intros Hl H0 H1. do 12 (destruct l as [|? l]; [discriminate Hl|]). destruct l; [|discriminate Hl].
  injection H0 as ->. injection H1 as ->. by repeat eexists.
Qed.

Lemma feed_tracks (d : UartFrameDecoder) (past : list Z) (b : Z) :
  tracks d past → byte_ok b →
  tracks (fst (feed b d)) (past ++ [b]) ∧
  (∀ f, snd (feed b d) = Some f → frame_ok f ∧ encode_uart_frame f `suffix_of` (past ++ [b])).
Proof.
  intros Ht Hb. pose proof Ht as [Hl Hp Hpast Hs H1 H2].
  assert (Hpast' : Forall byte_ok (past ++ [b])) by (apply Forall_app; by rewrite Forall_singleton).
  unfold feed. destruct (position_ d) as [|[|p]] eqn:Hpos; cbn [fst snd].
  - split; [|done]. destruct (Z.eqb_spec b kUartMagicFirst); [|by apply tracks_reset].
    apply tracks_store; rewrite ?Hpos; auto; [done|unfold kUartFrameSize; lia].
  - split; [|done]. destruct (Z.eqb_spec b kUartMagicSecond);
      [apply tracks_store; rewrite ?Hpos; auto; [done|unfold kUartFrameSize; lia]|].
    destruct (Z.eqb_spec b kUartMagicFirst) as [->|]; cbn [negb]; [|by apply tracks_reset].
    split; rewrite ?Hpos; auto; try lia.
    rewrite (take_S_r _ _ kUartMagicFirst) by (apply H1; lia). by apply suffix_app_r.
  - cbn [store buffer_ position_]. rewrite length_insert, Hl, Hpos.
    destruct (Nat.ltb_spec (S (S (S p))) kUartFrameSize) as [Hlt|Hge]; cbn [fst snd].
    { split; [|done]. apply tracks_store; rewrite ?Hpos; auto; lia. }
    set (d' := set_position 0 (store b d)). destruct (finish_state d') as [Hfb Hfp].
    assert (Hwin : buffer_ d' `suffix_of` past ++ [b]).
    { assert (HS : S (S (S p)) = kUartFrameSize) by lia.
      replace (buffer_ d') with (take (S (S (S p))) (<[S (S p) := b]> (buffer_ d))).
      - rewrite take_store by (rewrite Hl; lia). by apply suffix_snoc_alt.
      - rewrite take_ge by (rewrite length_insert, Hl; lia). unfold d', store, set_position. simpl.
        by rewrite Hpos. }
    assert (Hl' : length (buffer_ d') = kUartFrameSize) by (simpl; by rewrite length_insert).
    split; [apply tracks_reset; rewrite ?Hfb, ?Hfp; auto|]. intros f Hf.
    destruct (full_window (buffer_ d')) as (b2&b3&b4&b5&b6&b7&b8&b9&b10&b11&Hw); [done|..].
    1,2: simpl; rewrite Hpos, list_lookup_insert_ne by lia; (apply H1 || apply H2); lia.
    assert (Hok : Forall byte_ok (buffer_ d')).
    { destruct Hwin as [k Hk]. rewrite Hk, Forall_app in Hpast'. tauto. }
    destruct (finish_accepts d' _ _ _ _ _ _ _ _ _ _ f Hw Hok Hf) as (Hfo & Henc & _).
    split; [done|]. by rewrite <- Henc.
Qed.

Lemma feed_all_tracks (bytes past : list Z) (d : UartFrameDecoder) :
  tracks d past → Forall byte_ok bytes →
  tracks (fst (feed_all bytes d)) (past ++ bytes) ∧
  ∀ i f, snd (feed_all bytes d) !! i = Some (Some f) →
    frame_ok f ∧ encode_uart_frame f `suffix_of` (past ++ take (S i) bytes).
Proof.
  revert past d. induction bytes as [|b bytes IH]; intros past d Ht Hbs.
  { rewrite app_nil_r. by split; [|intros []]. }
  apply Forall_cons in Hbs as [Hb Hbs]. destruct (feed_tracks d past b Ht Hb) as [Ht' Hr].
  unfold feed_all in *. cbn [run]. destruct (feed b d) as [d' r]. cbn [fst snd] in *.
  destruct (IH _ _ Ht' Hbs) as [Hd Hrs]. destruct (run feed bytes d') as [d'' rs]. cbn [fst snd] in *.
  rewrite <- app_assoc in Hd. split; [done|]. intros [|i] f Hi; cbn in Hi.
  - injection Hi as ->. by apply Hr.
  - destruct (Hrs i f Hi) as [Hok Hsuf]. split; [done|]. by rewrite <- app_assoc in Hsuf.
Qed.

Lemma init_tracks : tracks decoder_init [].
Proof. by apply tracks_reset. Qed.

(** ** Feeding a whole window, noise and silence *)

Definition idle (d : UartFrameDecoder) : Prop :=
  length (buffer_ d) = kUartFrameSize ∧ position_ d = 0%nat.

Lemma feed_window (d : UartFrameDecoder) (b2 b3 b4 b5 b6 b7 b8 b9 b10 b11 : Z) :
  idle d →
  let w := window b2 b3 b4 b5 b6 b7 b8 b9 b10 b11 in
  let res := finish (MkDecoder w 0 (crc_errors_ d) (format_errors_ d)) in
  feed_all w d = (fst res, replicate 11 None ++ [snd res]).
Proof.
  destruct d as [buf pos crc fmt]. intros [Hl Hp]. cbn [buffer_ position_] in *. subst pos.
  do 12 (destruct buf as [|? buf]; [discriminate Hl|]). destruct buf; [|discriminate Hl].
  unfold feed_all. cbn -[finish]. by destruct (finish _).
Qed.

Lemma feed_encoded (d : UartFrameDecoder) (f : UartFrame) :
  idle d → frame_ok f →
  feed_all (encode_uart_frame f) d
  = (MkDecoder (encode_uart_frame f) 0 (crc_errors_ d) (format_errors_ d),
     replicate 11 None ++ [Some f]).
Proof.
  intros Hd Hf. destruct (full_window (encode_uart_frame f)) as (b2&b3&b4&b5&b6&b7&b8&b9&b10&b11&Hw);
    [done..|]. rewrite Hw, feed_window by done. by rewrite (finish_encoded _ f).
Qed.

Lemma feed_noise (d : UartFrameDecoder) (noise : list Z) :
  idle d → Forall (λ b, b ≠ kUartMagicFirst) noise →
  feed_all noise d = (d, replicate (length noise) None).
Proof.
  intros [Hl Hp] Hn. unfold feed_all. induction Hn as [|b noise Hb _ IH]; [done|].
  cbn [run]. unfold feed at 1. rewrite Hp. apply Z.eqb_neq in Hb. rewrite Hb. by rewrite IH.
Qed.

Lemma feed_all_app (xs ys : list Z) (d : UartFrameDecoder) :
  feed_all (xs ++ ys) d
  = (fst (feed_all ys (fst (feed_all xs d))), snd (feed_all xs d) ++ snd (feed_all ys (fst (feed_all xs d)))).
Proof.
  unfold feed_all. rewrite run_app. destruct (run feed xs d) as [d' rs]. cbn [fst snd].
  by destruct (run feed ys d').
Qed.

Lemma frames_app (rs rs' : list (option UartFrame)) : frames (rs ++ rs') = frames rs ++ frames rs'.
Proof. apply omap_app. Qed.

Lemma frames_none (n : nat) : frames (replicate n None) = [].
Proof. by induction n. Qed.

(** Bytes that cannot start a frame complete the pending window, if any. *)
Definition pending (d : UartFrameDecoder) : nat :=
  match position_ d with O => 0 | p => kUartFrameSize - p end.

Lemma feed_silence_step (d : UartFrameDecoder) (b : Z) :
  length (buffer_ d) = kUartFrameSize → (position_ d < kUartFrameSize)%nat → b ≠ kUartMagicFirst →
  let d' := fst (feed b d) in
  length (buffer_ d') = kUartFrameSize ∧ (position_ d' < kUartFrameSize)%nat ∧
  (pending d' ≤ pending d - 1)%nat.
Proof.
  intros Hl Hp Hb. apply Z.eqb_neq in Hb. unfold feed, pending in *. cbv zeta.
  destruct (position_ d) as [|[|p]] eqn:Hpos; cbn [fst].
  - rewrite Hb, Hpos. split_and!; [done|done|lia].
  - rewrite Hb. destruct (b =? kUartMagicSecond); cbn [negb store set_position buffer_ position_];
      rewrite ?Hpos, ?length_insert; unfold kUartFrameSize in *; split_and!; (done || lia).
  - cbn [store buffer_ position_]. rewrite length_insert, Hl, Hpos.
    destruct (Nat.ltb_spec (S (S (S p))) kUartFrameSize); cbn [fst buffer_ position_ store].
    + rewrite length_insert, Hpos. split_and!; [done|done|lia].
    + destruct (finish_state (set_position 0 (store b d))) as [-> ->].
      cbn [set_position store buffer_ position_]. rewrite length_insert.
      unfold kUartFrameSize in *. split_and!; [done|lia|lia].
Qed.

Lemma feed_silence (d : UartFrameDecoder) (bytes : list Z) :
  length (buffer_ d) = kUartFrameSize → (position_ d < kUartFrameSize)%nat →
  Forall (λ b, b ≠ kUartMagicFirst) bytes → (pending d ≤ length bytes)%nat →
  idle (fst (feed_all bytes d)).
Proof.
  intros Hl Hp Hbs. revert d Hl Hp. unfold feed_all.
  induction Hbs as [|b bytes Hb _ IH]; intros d Hl Hp Hlen; cbn [run length] in *.
  { change (idle d). split; [done|]. unfold pending in Hlen. destruct (position_ d); [done|]. lia. }
  destruct (feed_silence_step d b Hl Hp Hb) as (Hl' & Hp' & Hlt). cbv zeta in *.
  destruct (feed b d) as [d' r]. cbn [fst] in *. specialize (IH d' Hl' Hp' ltac:(lia)).
  by destruct (run feed bytes d').
Qed.

(** ** The checksum of a frame *)

Lemma encode_residue (f : UartFrame) : residue (encode_uart_frame f) = 0.
Proof.
  pose proof (encode_bytes_ok f) as Hok. unfold encode_uart_frame in *. cbv zeta in *.
  set (body := [kUartMagicFirst; _; _; _; _; _; _; _; _; _]) in *.
  apply Forall_app in Hok as [Hbody _]. apply residue_zero; [done|apply byte_of_ok..|].
  by rewrite be16_byte_of by apply crc16_ok.
Qed.

Lemma corrupted_residue (f : UartFrame) (e : list Z) :
  length e = kUartFrameSize → detectable (bits_of e) →
  residue (zip_with Z.lxor (encode_uart_frame f) e) ≠ 0.
Proof.
  intros Hl Hd. rewrite residue_lxor, encode_residue, Z.lxor_0_l by (by rewrite encode_length).
  apply detectable_residue; [done|]. rewrite length_bits_of, Hl. unfold kUartFrameSize. lia.
Qed.

Lemma magic_kept (f : UartFrame) (e : list Z) :
  length e = kUartFrameSize → take 2 e = [0; 0] →
  zip_with Z.lxor (encode_uart_frame f) e !! 0%nat = Some kUartMagicFirst ∧
  zip_with Z.lxor (encode_uart_frame f) e !! 1%nat = Some kUartMagicSecond.
Proof.
  intros Hl He. destruct e as [|e0 [|e1 e]]; [discriminate Hl..|]. injection He as -> ->. done.
Qed.

Lemma frames_all_none (rs : list (option UartFrame)) :
  (∀ i g, rs !! i ≠ Some (Some g)) → frames rs = [].
Proof.
  induction rs as [|[g|] rs IH]; intros H; [done|by destruct (H 0%nat g)|].
  apply IH. intros i g. apply (H (S i) g).
Qed.

Lemma suffix_same_length {A} (xs ys : list A) :
  xs `suffix_of` ys → (length ys ≤ length xs)%nat → xs = ys.
Proof.
  intros [k ->] Hl. rewrite length_app in Hl. destruct k; [done|]. simpl in Hl. lia.
Qed.

Lemma zip_lxor_ok (xs ys : list Z) :
  Forall byte_ok xs → Forall byte_ok ys → Forall byte_ok (zip_with Z.lxor xs ys).
Proof.
  intros Hx. revert ys. induction Hx as [|x xs Hx _ IH]; intros ys Hy; [constructor|].
  destruct Hy as [|y ys Hy Hys]; [constructor|]. constructor; [|by apply IH].
  by apply (lxor_bounds x y 8).
Qed.
