(* ===== verification/UartProps.v ===== *)
(** * Properties of the UART protocol *)
From S2P Require Import Prelude Bytes Double Domain Measurement Crc Uart.

Local Open Scope Z_scope.

(** A line that carries frames with bytes between them that cannot start one. *)
Definition noisy_line (chunks : list (list Z * UartFrame)) : list Z :=
  chunks ≫= λ c, c.1 ++ encode_uart_frame c.2.

Definition chunk_ok (c : list Z * UartFrame) : Prop :=
  Forall (λ b, b ≠ kUartMagicFirst) c.1 ∧ frame_ok c.2.

Lemma noisy_line_decoded (d : UartFrameDecoder) (chunks : list (list Z * UartFrame)) :
  idle d → Forall chunk_ok chunks →
  let '(d', rs) := feed_all (noisy_line chunks) d in
  frames rs = chunks.*2 ∧ idle d' ∧
  crc_errors_ d' = crc_errors_ d ∧ format_errors_ d' = format_errors_ d.
Proof.
  intros Hd Hc. revert d Hd. induction Hc as [|[noise f] chunks [Hn Hf] _ IH]; intros d Hd; [done|].
  unfold noisy_line in *. rewrite bind_cons. cbn [fst snd] in *. rewrite <- app_assoc.
  rewrite feed_all_app, feed_noise by done. cbn [fst snd].
  rewrite feed_all_app, feed_encoded by done. cbn [fst snd].
  specialize (IH (MkDecoder (encode_uart_frame f) 0 (crc_errors_ d) (format_errors_ d)) ltac:(done)).
  destruct (feed_all (chunks ≫= _) _) as [d' rs]. destruct IH as (Hrs & Hd' & Hce & Hfe).
  cbn [fst snd]. rewrite !frames_app, frames_none, Hrs. done.
Qed.

(** C11: round trip over a stream.  A decoder between frames that is fed any
    number of encoded frames, each preceded by any bytes other than the first
    magic byte, delivers exactly those frames in order, counts no error and is
    between frames again. *)
Theorem uart_stream_roundtrip (d : UartFrameDecoder) (chunks : list (list Z * UartFrame))
    (Hd : idle d) (Hc : Forall chunk_ok chunks) :
  let '(d', rs) := feed_all (noisy_line chunks) d in
  frames rs = chunks.*2 ∧ idle d' ∧
  crc_errors_ d' = crc_errors_ d ∧ format_errors_ d' = format_errors_ d.
Proof. by apply noisy_line_decoded. Qed.

(** C12: soundness.  Whatever bytes are on the line, a frame that the decoder
    delivers is well formed and its encoding is, byte for byte, the last twelve
    bytes read: nothing is delivered that was not sent, and every delivered value
    carries a matching checksum, version and kind. *)
Theorem uart_decoder_sound (bytes : list Z) (i : nat) (f : UartFrame)
    (Hbytes : Forall byte_ok bytes)
    (Hi : snd (feed_all bytes decoder_init) !! i = Some (Some f)) :
  frame_ok f ∧ (11 ≤ i)%nat ∧
  take kUartFrameSize (drop (i - 11) bytes) = encode_uart_frame f.
Proof.
  destruct (feed_all_tracks bytes [] decoder_init init_tracks Hbytes) as [_ Hrs].
  destruct (Hrs i f Hi) as [Hf [pre Hpre]]. cbn [app] in Hpre.
  pose proof (f_equal length Hpre) as Hl. rewrite length_app, encode_length, length_take in Hl.
  assert (Hlt : (S i ≤ length bytes)%nat).
  { apply lookup_lt_Some in Hi. unfold feed_all in Hi. rewrite length_run in Hi. lia. }
  unfold kUartFrameSize in *. rewrite Nat.min_l in Hl by lia.
  split; [done|]. split; [lia|]. rewrite <- (take_drop (S i) bytes), Hpre.
  assert (Hp : (i - 11 = length pre)%nat) by lia. rewrite Hp, <- app_assoc, drop_app_length.
  by rewrite take_app_length' by (by rewrite encode_length).
Qed.

(** C13: error detection.  A frame in which one to three bits are flipped
    anywhere, or any bits within sixteen consecutive positions, delivers nothing;
    when its magic bytes survive, it is counted as one checksum error and the
    decoder is ready for the next frame. *)
Theorem uart_detects_errors (d : UartFrameDecoder) (f : UartFrame) (e : list Z)
    (Hd : idle d) (Hf : frame_ok f) (He : length e = kUartFrameSize) (Heok : Forall byte_ok e)
    (Hdet : detectable (bits_of e)) :
  let '(d', rs) := feed_all (zip_with Z.lxor (encode_uart_frame f) e) d in
  frames rs = [] ∧
  (take 2 e = [0; 0] →
   crc_errors_ d' = u64_incr (crc_errors_ d) ∧ format_errors_ d' = format_errors_ d ∧ idle d').
Proof.
  set (w := zip_with Z.lxor (encode_uart_frame f) e).
  assert (Hw : Forall byte_ok w) by (apply zip_lxor_ok; [apply encode_bytes_ok|done]).
  assert (Hwl : length w = kUartFrameSize) by (unfold w; by rewrite length_zip_with, encode_length, He).
  destruct Hd as [Hdl Hdp].
  destruct (feed_all_tracks w [] d (tracks_reset d [] Hdl Hdp (Forall_nil_2 _)) Hw) as [_ Hrs].
  assert (Hnone : ∀ i g, snd (feed_all w d) !! i ≠ Some (Some g)).
  { intros i g Hi. destruct (Hrs i g Hi) as [Hg Hsuf]. cbn [app] in Hsuf.
    assert (Hlt := lookup_lt_Some _ _ _ Hi). unfold feed_all in Hlt. rewrite length_run in Hlt.
    pose proof (suffix_length _ _ Hsuf) as Hsl. rewrite encode_length, length_take in Hsl.
    rewrite take_ge in Hsuf by lia. apply (corrupted_residue f e He Hdet). fold w.
    rewrite <- (suffix_same_length _ _ Hsuf); [apply encode_residue|by rewrite Hwl, encode_length]. }
  assert (Hframes : frames (snd (feed_all w d)) = []) by (by apply frames_all_none).
  destruct (feed_all w d) as [d' rs] eqn:Hrun. cbn [snd] in *. split; [done|]. intros He2.
  destruct (magic_kept f e He He2) as [Hm0 Hm1].
  destruct (full_window w) as (b2&b3&b4&b5&b6&b7&b8&b9&b10&b11&Hwin);
    [done..|].
  assert (Hres : residue w ≠ 0) by (by apply corrupted_residue).
  rewrite Hwin in Hrun. rewrite feed_window in Hrun by done.
  rewrite Hwin in Hw, Hres. rewrite (window_residue b2 b3 b4 b5 b6 b7 b8 b9 b10 b11 Hw) in Hres.
  set (d0 := MkDecoder _ 0 _ _) in Hrun.
  rewrite (proj1 (finish_verdict d0 _ _ _ _ _ _ _ _ _ _ eq_refl Hw) Hres) in Hrun.
  by injection Hrun as <- _.
Qed.

(** The verdict on a window.  A decoder between frames that reads the two
    magic bytes and any ten bytes after them answers only at the last byte: a
    wrong checksum counts a checksum error, otherwise a wrong version or an
    unknown kind counts a format error, otherwise the frame encoded by the window
    is delivered; it is between frames again in all cases. *)
Theorem uart_window_verdict (d : UartFrameDecoder) (b2 b3 b4 b5 b6 b7 b8 b9 b10 b11 : Z)
    (Hd : idle d)
    (Hok : Forall byte_ok (window b2 b3 b4 b5 b6 b7 b8 b9 b10 b11)) :
  let w := window b2 b3 b4 b5 b6 b7 b8 b9 b10 b11 in
  let '(d', rs) := feed_all w d in
  idle d' ∧
  if decide (crc16_ccitt (take 10 w) ≠ b10 * 256 + b11) then
    rs = replicate 12 None ∧
    crc_errors_ d' = u64_incr (crc_errors_ d) ∧ format_errors_ d' = format_errors_ d
  else if decide (b2 ≠ kUartProtocolVersion ∨ ¬ (1 ≤ b3 ≤ 4)) then
    rs = replicate 12 None ∧
    crc_errors_ d' = crc_errors_ d ∧ format_errors_ d' = u64_incr (format_errors_ d)
  else ∃ f, rs = replicate 11 None ++ [Some f] ∧ encode_uart_frame f = w ∧
    crc_errors_ d' = crc_errors_ d ∧ format_errors_ d' = format_errors_ d.
Proof.
  intros w. unfold w. rewrite feed_window by done. set (d0 := MkDecoder _ 0 _ _).
  destruct (finish_state d0) as [Hfb Hfp]. split; [by split; [rewrite Hfb|rewrite Hfp]|].
  destruct (finish_verdict d0 b2 b3 b4 b5 b6 b7 b8 b9 b10 b11 eq_refl Hok) as (Hcrc & Hfmt & Hacc).
  assert (Hbe : be16 b10 b11 = b10 * 256 + b11) by (unfold window in Hok; rewrite !Forall_cons in Hok; apply be16_eq; tauto).
  rewrite Hbe in *. case_decide as Hc.
  { rewrite (Hcrc Hc). by split_and!. }
  case_decide as Hv.
  { rewrite (Hfmt Hc Hv). by split_and!. }
  destruct Hacc as (f & Hf); [exact Hc|lia|lia|].
  exists f. rewrite Hf. split_and!; [reflexivity| |reflexivity..]. symmetry.
  apply (finish_accepts d0 b2 b3 b4 b5 b6 b7 b8 b9 b10 b11 f eq_refl Hok). by rewrite Hf.
Qed.

(** C14: resynchronisation.  Whatever the decoder has read, eleven bytes of
    silence (or more, none of them the first magic byte) bring it between frames
    again, so that every frame sent after them is delivered. *)
Theorem uart_resynchronises (bytes silence : list Z) (chunks : list (list Z * UartFrame))
    (Hbytes : Forall byte_ok bytes)
    (Hlen : (11 ≤ length silence)%nat)
    (Hs : Forall (λ b, b ≠ kUartMagicFirst) silence) (Hc : Forall chunk_ok chunks) :
  let d := fst (feed_all (bytes ++ silence) decoder_init) in
  idle d ∧ frames (snd (feed_all (noisy_line chunks) d)) = chunks.*2.
Proof.
  destruct (feed_all_tracks bytes [] decoder_init init_tracks Hbytes) as [Ht _].
  rewrite feed_all_app. cbn [fst]. set (d := fst (feed_all bytes decoder_init)) in *.
  assert (Hidle : idle (fst (feed_all silence d))).
  { apply feed_silence; [apply Ht|apply Ht|done|]. unfold pending, kUartFrameSize.
    destruct (position_ d); lia. }
  split; [done|]. pose proof (noisy_line_decoded _ _ Hidle Hc) as H.
  destruct (feed_all (noisy_line chunks) _). apply H.
Qed.

(** ** Instances *)

Definition sample_frame : UartFrame := MkUartFrame Mk_temperature 7 (-36600).
Definition sample_line : list (list Z * UartFrame) :=
  [([0x13; 0x55], sample_frame); ([], MkUartFrame Mk_online 8 1)].

Lemma sample_frame_ok : frame_ok sample_frame.
Proof. unfold frame_ok, u16_ok, i32_ok. simpl. lia. Qed.

Lemma sample_line_ok : Forall chunk_ok sample_line.
Proof.
  unfold sample_line, chunk_ok, frame_ok, u16_ok, i32_ok, kUartMagicFirst.
  repeat constructor; simpl; lia.
Qed.

Lemma uart_stream_roundtrip_witness :
  idle decoder_init ∧ frames (snd (feed_all (noisy_line sample_line) decoder_init)) = sample_line.*2.
Proof.
  split; [done|].
  pose proof (uart_stream_roundtrip decoder_init sample_line ltac:(done) sample_line_ok) as H.
  destruct (feed_all (noisy_line sample_line) decoder_init). exact (proj1 H).
Defined.

Lemma uart_decoder_sound_witness :
  snd (feed_all (noisy_line sample_line) decoder_init) !! 13%nat = Some (Some sample_frame) ∧
  take kUartFrameSize (drop 2 (noisy_line sample_line)) = encode_uart_frame sample_frame.
Proof.
  assert (H : snd (feed_all (noisy_line sample_line) decoder_init) !! 13%nat
              = Some (Some sample_frame)) by (vm_compute; reflexivity).
  split; [exact H|]. apply (uart_decoder_sound (noisy_line sample_line) 13 sample_frame); [|exact H].
  apply (bool_decide_unpack _). vm_compute. exact I.
Defined.

(** Two bits flipped in the checksummed value. *)
Definition sample_error : list Z := [0; 0; 0; 0; 0; 0; 0x10; 0; 0x01; 0; 0; 0].

Lemma uart_detects_errors_witness :
  frames (snd (feed_all (zip_with Z.lxor (encode_uart_frame sample_frame) sample_error) decoder_init))
  = [].
Proof.
  pose proof (uart_detects_errors decoder_init sample_frame sample_error ltac:(done) sample_frame_ok
    ltac:(done) ltac:(apply (bool_decide_unpack _); vm_compute; exact I)
    ltac:(split; [vm_compute; lia|left; vm_compute; lia])) as H.
  destruct (feed_all _ decoder_init). exact (proj1 H).
Defined.

Lemma uart_window_verdict_witness :
  let w := window 2 1 0 7 0 0 0 0 0 0 in
  Forall byte_ok w ∧ crc_errors_ (fst (feed_all w decoder_init)) = 1.
Proof.
  intros w. assert (Hok : Forall byte_ok w) by (apply (bool_decide_unpack _); vm_compute; exact I).
  split; [exact Hok|].
  pose proof (uart_window_verdict decoder_init 2 1 0 7 0 0 0 0 0 0 ltac:(done) Hok) as H.
  fold w in H. cbv zeta in H. destruct (feed_all w decoder_init) as [d' rs].
  rewrite decide_True in H by (vm_compute; discriminate).
  exact (proj1 (proj2 (proj2 H))).
Defined.

Lemma uart_resynchronises_witness :
  frames (snd (feed_all (noisy_line sample_line)
    (fst (feed_all ([0xAA; 0x55; 1; 2] ++ replicate 11 0) decoder_init)))) = sample_line.*2.
Proof.
  apply (uart_resynchronises [0xAA; 0x55; 1; 2] (replicate 11 0) sample_line).
  - apply (bool_decide_unpack _). vm_compute. exact I.
  - simpl. lia.
  - apply (bool_decide_unpack _). vm_compute. exact I.
  - exact sample_line_ok.
Defined.
