(* ===== verification/Buses.v ===== *)
(** * The CAN messages and the I2C register map
    ([protocols/can_protocol.hpp], [protocols/i2c_sensor.hpp]) *)
From S2P Require Import Prelude Bytes Double Domain Measurement Crc Uart.

Local Open Scope Z_scope.

(** ** CAN *)

Definition kCanTemperatureId : Z := 0x101.
Definition kCanVibrationId : Z := 0x102.
Definition kCanCurrentId : Z := 0x103.
Definition kCanOnlineId : Z := 0x104.

Record CanMessage := MkCanMessage {
  can_message_id : Z;         (* std::uint32_t *)
  can_length : Z;             (* std::uint8_t *)
  can_data : list Z           (* std::array<std::uint8_t, 8> *)
}.

Definition can_ok (m : CanMessage) : Prop :=
  byte_ok (can_length m) ∧ length (can_data m) = 8%nat ∧ Forall byte_ok (can_data m).

Definition decode_can_message (message : CanMessage) : option Measurement :=
  let data i := nth i (can_data message) 0 in
  if can_message_id message =? kCanOnlineId then
    if can_length message <? 1 then None
    else Some (MkMeasurement Mk_online (if data 0%nat =? 0 then Double.of_Z 0 else Double.of_Z 1))
  else if can_length message <? 4 then None
  else
    let kind :=
      if can_message_id message =? kCanTemperatureId then Some Mk_temperature
      else if can_message_id message =? kCanVibrationId then Some Mk_vibration
      else if can_message_id message =? kCanCurrentId then Some Mk_current
      else None in
    match kind with
    | None => None
    | Some kind =>
        let raw := be32 (data 0%nat) (data 1%nat) (data 2%nat) (data 3%nat) in
        let milli_value := bit_cast_i32 raw in
        Some (MkMeasurement kind (Double.div (Double.of_Z milli_value) (Double.of_Z 1000)))
    end.

(** The identifier that carries a kind. *)
Definition can_id_of (k : MeasurementKind) : Z :=
  match k with
  | Mk_temperature => kCanTemperatureId
  | Mk_vibration => kCanVibrationId
  | Mk_current => kCanCurrentId
  | Mk_online => kCanOnlineId
  end.

(** The bytes a sender puts in the data field: the milli-unit value, most
    significant byte first; one byte for [online]. *)
Definition can_payload (k : MeasurementKind) (milli : Z) : list Z :=
  let raw := bit_cast_u32 milli in
  match k with
  | Mk_online => [if milli =? 0 then 0 else 1]
  | _ => [byte_of raw 3; byte_of raw 2; byte_of raw 1; byte_of raw 0]
  end.

(** ** I2C *)

Definition kTemperatureRegister : Z := 0x01.
Definition kVibrationRegister : Z := 0x03.
Definition kCurrentRegister : Z := 0x05.
Definition kStatusRegister : Z := 0x07.

(** [II2cBus::read_register(reg, output)]: [None] when it returns [false]; the
    bus may change state. *)
Class II2cBus (B : Type) := read_register : Z → nat → B → B * option (list Z).

(** A bus fills the whole output with bytes. *)
Class II2cBusLaws (B : Type) `{II2cBus B} :=
  read_register_fills (reg : Z) (n : nat) (b : B) (bytes : list Z) :
    snd (read_register reg n b) = Some bytes → length bytes = n ∧ Forall byte_ok bytes.

Definition decode_u16 (bytes : list Z) : Z := u16 (be16 (nth 0 bytes 0) (nth 1 bytes 0)).

Record I2cSensorReader := MkI2cReader {
  i2c_last_sample_ : SensorSample;
  i2c_sequence_ : Z
}.

Definition i2c_reader_init : I2cSensorReader := MkI2cReader default_sample 0.

Section I2c.
Context {B : Type} `{!II2cBus B}.

(** The four reads joined by [||]: the first that fails ends the chain. *)
Definition read_registers (bus : B) : B * option (list Z * list Z * list Z * list Z) :=
  let '(bus, temperature) := read_register kTemperatureRegister 2 bus in
  match temperature with
  | None => (bus, None)
  | Some temperature =>
      let '(bus, vibration) := read_register kVibrationRegister 2 bus in
      match vibration with
      | None => (bus, None)
      | Some vibration =>
          let '(bus, current) := read_register kCurrentRegister 2 bus in
          match current with
          | None => (bus, None)
          | Some current =>
              let '(bus, status) := read_register kStatusRegister 1 bus in
              match status with
              | None => (bus, None)
              | Some status => (bus, Some (temperature, vibration, current, status))
              end
          end
      end
  end.

Definition centi (z : Z) : double := Double.div (Double.of_Z z) (Double.of_Z 100).

Definition i2c_read (bus : B) (r : I2cSensorReader) : B * I2cSensorReader * SensorSample :=
  let sequence := u64_incr (i2c_sequence_ r) in
  let '(bus, regs) := read_registers bus in
  match regs with
  | None =>
      let last := set_sequence sequence (set_online false (i2c_last_sample_ r)) in
      (bus, MkI2cReader last sequence, last)
  | Some (temperature, vibration, current, status) =>
      let temperature_raw := decode_u16 temperature in
      let temperature_signed := bit_cast_i16 temperature_raw in
      let last := MkSample (centi temperature_signed) (centi (decode_u16 vibration))
                    (centi (decode_u16 current))
                    (negb (Z.land (nth 0 status 0) 0x01 =? 0)) sequence in
      (bus, MkI2cReader last sequence, last)
  end.

End I2c.

(** ** Properties *)

Lemma can_payload_value (k : MeasurementKind) (milli : Z) :
  i32_ok milli → k ≠ Mk_online →
  bit_cast_i32 (be32 (nth 0 (can_payload k milli) 0) (nth 1 (can_payload k milli) 0)
                     (nth 2 (can_payload k milli) 0) (nth 3 (can_payload k milli) 0)) = milli.
Proof.
  intros Hm Hk. destruct k; try done; cbn [can_payload nth];
    rewrite be32_byte_of by apply bit_cast_u32_ok; by apply bit_cast_i32_u32.
Qed.

(** The two serial protocols agree.  A measurement sent as a CAN message and
    the same measurement sent as a UART frame decode to the same value, bit for
    bit, for every kind and every 32-bit milli-unit value; further data bytes of
    the message are ignored. *)
Theorem can_agrees_with_uart (f : UartFrame) (rest : list Z) (len : Z)
    (Hf : frame_ok f)
    (Hlen : Z.of_nat (length (can_payload (uart_kind f) (milli_value f))) ≤ len) :
  decode_can_message
    (MkCanMessage (can_id_of (uart_kind f)) len
       (can_payload (uart_kind f) (milli_value f) ++ rest))
  = Some (decode_uart_measurement f).
Proof.
  destruct f as [k s m]. destruct Hf as [_ Hm]. cbn [uart_kind milli_value] in *.
  unfold decode_can_message, decode_uart_measurement. cbn [can_message_id can_length can_data].
  destruct k; simpl in Hlen; cbn [can_id_of].
  4: { destruct (Z.ltb_spec len 1); [lia|]. cbn. by destruct (m =? 0). }
  all: destruct (Z.ltb_spec len 4); [lia|]; pose proof (can_payload_value Mk_temperature m Hm ltac:(done)) as Hv;
    cbn [can_payload app nth] in *; rewrite Hv; reflexivity.
Qed.

(** The bytes of a 16-bit register. *)
Definition register_bytes (z : Z) : list Z := [byte_of (u16 z) 1; byte_of (u16 z) 0].

Lemma decode_register_bytes (z : Z) : decode_u16 (register_bytes z) = u16 z.
Proof.
  assert (Hz : u16_ok (u16 z)) by (apply Z.mod_pos_bound; lia).
  unfold decode_u16, register_bytes. cbn [nth]. rewrite be16_byte_of by done. by apply u16_id.
Qed.

Lemma bit_cast_i16_u16 (z : Z) : - 2 ^ 15 ≤ z < 2 ^ 15 → bit_cast_i16 (u16 z) = z.
Proof. unfold bit_cast_i16, u16. intros H. case_match; lia_div. Qed.

(** Reading the register map.  When all four registers can be read, a sample
    is what the device stored: the signed temperature and the unsigned vibration
    and current in hundredths, and bit 0 of the status; when any register fails,
    the previous readings are kept and the sample is offline.  The samples are
    numbered consecutively either way. *)
Theorem i2c_read_behaviour {B : Type} `{!II2cBus B} (bus bus' : B) (r : I2cSensorReader)
    (t v c st : Z) (regs : option (list Z * list Z * list Z * list Z))
    (Ht : - 2 ^ 15 ≤ t < 2 ^ 15) (Hv : u16_ok v) (Hc : u16_ok c)
    (Hregs : read_registers bus = (bus', regs))
    (Hstored : regs = None ∨
               regs = Some (register_bytes t, register_bytes v, register_bytes c, [st])) :
  let '(b, r', smp) := i2c_read bus r in
  b = bus' ∧ i2c_last_sample_ r' = smp ∧ i2c_sequence_ r' = u64_incr (i2c_sequence_ r) ∧
  sequence smp = u64_incr (i2c_sequence_ r) ∧
  match regs with
  | Some _ => temperature_c smp = centi t ∧ vibration_mm_s smp = centi v ∧
              current_a smp = centi c ∧ online smp = Z.odd st
  | None => temperature_c smp = temperature_c (i2c_last_sample_ r) ∧
            vibration_mm_s smp = vibration_mm_s (i2c_last_sample_ r) ∧
            current_a smp = current_a (i2c_last_sample_ r) ∧ online smp = false
  end.
Proof.
  unfold i2c_read. rewrite Hregs. destruct Hstored as [-> | ->]; [by split_and!|].
  rewrite !decode_register_bytes, bit_cast_i16_u16, (u16_id v), (u16_id c) by done.
  split_and!; try done. cbn [online nth]. change 0x01 with (2 ^ 0). rewrite land_pow2_zero by lia.
  by rewrite negb_involutive, Z.bit0_odd.
Qed.

(** A device whose registers all read, except those listed. *)
Record FakeDevice := MkDevice { dev_regs : Z → list Z; dev_broken : list Z }.

#[export] Instance fake_bus : II2cBus FakeDevice := λ reg n b,
  (b, if decide (reg ∈ dev_broken b) then None else Some (take n (dev_regs b reg))).

Definition demo_device : FakeDevice :=
  MkDevice (λ reg, if reg =? kTemperatureRegister then register_bytes (-1250)
                   else if reg =? kVibrationRegister then register_bytes 420
                   else if reg =? kCurrentRegister then register_bytes 999 else [1]) [].

Lemma can_agrees_with_uart_witness :
  decode_can_message (MkCanMessage 0x101 8 ([0xFF; 0xFF; 0x71; 0x08] ++ [0; 0; 0; 0]))
  = Some (decode_uart_measurement (MkUartFrame Mk_temperature 7 (-36600))).
Proof.
  apply (can_agrees_with_uart (MkUartFrame Mk_temperature 7 (-36600)) [0; 0; 0; 0] 8).
  - unfold frame_ok, u16_ok, i32_ok. simpl. lia.
  - simpl. lia.
Defined.

Lemma i2c_read_behaviour_witness :
  temperature_c (snd (i2c_read demo_device i2c_reader_init)) = centi (-1250).
Proof.
  pose proof (i2c_read_behaviour (II2cBus0 := fake_bus) demo_device demo_device i2c_reader_init (-1250) 420 999 1
    (Some (register_bytes (-1250), register_bytes 420, register_bytes 999, [1]))
    ltac:(lia) ltac:(unfold u16_ok; lia) ltac:(unfold u16_ok; lia) ltac:(vm_compute; reflexivity)
    ltac:(by right)) as H.
  destruct (i2c_read demo_device i2c_reader_init) as [[b r] smp].
  exact (proj1 (proj2 (proj2 (proj2 (proj2 H))))).
Defined.
