(* ===== verification/Fsm.v ===== *)
(** * The motor protection state machine

    [include/edge_sentinel/fsm/motor_state_machine.hpp].  The private members
    of [MotorStateMachine] are the record below; [handle] is the public event
    handler with its early returns, [handle_sample] the private sample handler.
    The four counters are [std::size_t]: their increments wrap modulo [2^64]. *)
From S2P Require Import Prelude Double Domain.

Local Open Scope Z_scope.

(** ** Data *)

Record ProtectionConfig := MkConfig {
  temperature_warning_c : double;
  temperature_recovery_c : double;
  temperature_critical_c : double;
  vibration_warning_mm_s : double;
  vibration_recovery_mm_s : double;
  vibration_critical_mm_s : double;
  current_warning_a : double;
  current_recovery_a : double;
  current_critical_a : double;
  warning_samples : Z;
  critical_samples : Z;
  recovery_samples : Z;
  offline_samples : Z
}.

(** The default member initialisers of [ProtectionConfig]. *)
Definition default_config : ProtectionConfig :=
  MkConfig (Double.of_Z 80) (Double.of_Z 75) (Double.of_Z 95)
           (Double.of_Z 7) (Double.of_Z 5) (Double.of_Z 10)
           (Double.of_Z 15) (Double.of_Z 13) (Double.of_Z 20)
           3 2 5 3.

Record MotorStateMachine := MkMachine {
  config_ : ProtectionConfig;
  state_ : MotorState;
  last_sample_ : SensorSample;
  has_sample_ : bool;
  warning_count_ : Z;
  critical_count_ : Z;
  recovery_count_ : Z;
  offline_count_ : Z
}.

(** The constructor [MotorStateMachine(config)]. *)
Definition machine_init (config : ProtectionConfig) : MotorStateMachine :=
  MkMachine config booting default_sample false 0 0 0 0.

Record MachineSnapshot := MkMachineSnapshot {
  snap_state : MotorState;
  snap_last_sample : SensorSample;
  snap_has_sample : bool;
  snap_warning_count : Z;
  snap_critical_count : Z;
  snap_recovery_count : Z;
  snap_offline_count : Z
}.

Definition machine_snapshot (m : MotorStateMachine) : MachineSnapshot :=
  MkMachineSnapshot (state_ m) (last_sample_ m) (has_sample_ m)
    (warning_count_ m) (critical_count_ m) (recovery_count_ m) (offline_count_ m).

(** ** Classification of a sample *)

Definition is_warning (c : ProtectionConfig) (s : SensorSample) : bool :=
  Double.geb (temperature_c s) (temperature_warning_c c)
  || Double.geb (vibration_mm_s s) (vibration_warning_mm_s c)
  || Double.geb (current_a s) (current_warning_a c).

Definition is_critical (c : ProtectionConfig) (s : SensorSample) : bool :=
  Double.geb (temperature_c s) (temperature_critical_c c)
  || Double.geb (vibration_mm_s s) (vibration_critical_mm_s c)
  || Double.geb (current_a s) (current_critical_a c).

Definition is_recovered (c : ProtectionConfig) (s : SensorSample) : bool :=
  Double.leb (temperature_c s) (temperature_recovery_c c)
  && Double.leb (vibration_mm_s s) (vibration_recovery_mm_s c)
  && Double.leb (current_a s) (current_recovery_a c).

(** ** Transitions *)

Definition reset_counters (m : MotorStateMachine) : MotorStateMachine :=
  MkMachine (config_ m) (state_ m) (last_sample_ m) (has_sample_ m) 0 0 0 0.

Definition transition_to (next : MotorState) (r : TransitionReason)
    (m : MotorStateMachine) : MotorStateMachine * StateTransition :=
  let prev := state_ m in
  let m := MkMachine (config_ m) next (last_sample_ m) (has_sample_ m)
             (warning_count_ m) (critical_count_ m) (recovery_count_ m)
             (offline_count_ m) in
  let m := reset_counters m in
  (m, MkTransition prev (state_ m) r (bool_decide (prev ≠ state_ m))).

Definition unchanged (m : MotorStateMachine) : StateTransition :=
  MkTransition (state_ m) (state_ m) R_none false.

(** Assignments to the four counters, the other members kept. *)
Definition set_counts (w c r o : Z) (m : MotorStateMachine) : MotorStateMachine :=
  MkMachine (config_ m) (state_ m) (last_sample_ m) (has_sample_ m) w c r o.

Definition state_is (s : MotorState) (m : MotorStateMachine) : bool :=
  bool_decide (state_ m = s).

Definition handle_sample (smp : SensorSample) (m : MotorStateMachine)
    : MotorStateMachine * StateTransition :=
  let c := config_ m in
  let m := MkMachine c (state_ m) smp true (warning_count_ m) (critical_count_ m)
             (recovery_count_ m) (offline_count_ m) in
  if negb (state_is healthy m) && negb (state_is degraded m) then
    (m, unchanged m)
  else if negb (online smp) then
    let m := set_counts 0 0 0 (u64_incr (offline_count_ m)) m in
    if offline_samples c <=? offline_count_ m then
      transition_to fault_latched R_sensor_offline m
    else (m, unchanged m)
  else
    let m := set_counts (warning_count_ m) (critical_count_ m) (recovery_count_ m) 0 m in
    let m := set_counts (warning_count_ m)
               (if is_critical c smp then u64_incr (critical_count_ m) else 0)
               (recovery_count_ m) (offline_count_ m) m in
    if critical_samples c <=? critical_count_ m then
      transition_to fault_latched R_critical_reading m
    else
      let m :=
        if is_warning c smp then
          set_counts (u64_incr (warning_count_ m)) (critical_count_ m) 0 (offline_count_ m) m
        else
          set_counts 0 (critical_count_ m)
            (if state_is degraded m && is_recovered c smp
             then u64_incr (recovery_count_ m) else 0) (offline_count_ m) m in
      if state_is healthy m && (warning_samples c <=? warning_count_ m) then
        transition_to degraded R_warning_persisted m
      else if state_is degraded m && (recovery_samples c <=? recovery_count_ m) then
        transition_to healthy R_readings_recovered m
      else (m, unchanged m).

Definition handle (e : Event) (m : MotorStateMachine)
    : MotorStateMachine * StateTransition :=
  if state_is safe_shutdown m then (m, unchanged m)
  else if bool_decide (kind e = Ev_shutdown_requested) then
    transition_to safe_shutdown R_shutdown_requested m
  else if bool_decide (kind e = Ev_internal_fault) then
    transition_to fault_latched R_internal_resource_failure m
  else
    match kind e with
    | Ev_startup =>
        if state_is booting m then transition_to self_test R_startup_requested m
        else (m, unchanged m)
    | Ev_self_test_passed =>
        if state_is self_test m then transition_to healthy R_self_test_succeeded m
        else (m, unchanged m)
    | Ev_sensor_sample => handle_sample (sample e) m
    | Ev_reset_requested =>
        if state_is fault_latched m then transition_to self_test R_manual_reset m
        else (m, unchanged m)
    | Ev_shutdown_requested | Ev_internal_fault => (m, unchanged m)
    end.

(** A sequence of events, and the machine it leaves behind. *)
Definition handle_all (es : list Event) (m : MotorStateMachine) : MotorStateMachine :=
  foldl (λ m e, fst (handle e m)) m es.

(** A machine that is shut down takes no event any more, and a shutdown request
    shuts it down. *)
Lemma shutdown_absorbs (es : list Event) (m : MotorStateMachine) :
  state_ m = safe_shutdown → handle_all es m = m.
Proof.
  intros Hs. induction es as [|e es IH]; [done|]. simpl.
  unfold handle, state_is. by rewrite bool_decide_eq_true_2.
Qed.

Lemma shutdown_enters (e : Event) (m : MotorStateMachine) :
  kind e = Ev_shutdown_requested → state_ (fst (handle e m)) = safe_shutdown.
Proof. destruct e as [k s]. simpl. intros ->. by destruct m as [c [] ls hs wc cc rc oc]. Qed.

Lemma shutdown_in_log (es : list Event) (m : MotorStateMachine) :
  Event_shutdown_requested ∈ es → state_ (handle_all es m) = safe_shutdown.
Proof.
  intros (es1 & es2 & ->)%list_elem_of_split. unfold handle_all. rewrite foldl_app. simpl.
  pose proof (shutdown_enters Event_shutdown_requested
    (foldl (λ m e, fst (handle e m)) m es1) eq_refl) as Hs.
  pose proof (shutdown_absorbs es2 _ Hs) as Ha. unfold handle_all in Ha. by rewrite Ha.
Qed.

(** ** The state diagram

    One constructor per arrow: the state left, the reason reported, the event
    kind that triggers it and the state entered.  A shutdown request leads to
    [safe_shutdown] and an internal fault to [fault_latched] from every state
    but [safe_shutdown], which has no outgoing arrow. *)
Inductive diagram : MotorState → EventKind → TransitionReason → MotorState → Prop :=
| arrow_startup : diagram booting Ev_startup R_startup_requested self_test
| arrow_self_test : diagram self_test Ev_self_test_passed R_self_test_succeeded healthy
| arrow_warning : diagram healthy Ev_sensor_sample R_warning_persisted degraded
| arrow_recovered : diagram degraded Ev_sensor_sample R_readings_recovered healthy
| arrow_critical s : s = healthy ∨ s = degraded →
    diagram s Ev_sensor_sample R_critical_reading fault_latched
| arrow_offline s : s = healthy ∨ s = degraded →
    diagram s Ev_sensor_sample R_sensor_offline fault_latched
| arrow_internal s : s ≠ safe_shutdown →
    diagram s Ev_internal_fault R_internal_resource_failure fault_latched
| arrow_reset : diagram fault_latched Ev_reset_requested R_manual_reset self_test
| arrow_shutdown s : s ≠ safe_shutdown →
    diagram s Ev_shutdown_requested R_shutdown_requested safe_shutdown.

Create HintDb fsm.
#[export] Hint Constructors diagram : fsm.
#[export] Hint Extern 1 (_ ≠ _) => discriminate : fsm.

(** Evaluates [handle] on a machine whose state is known: record projections,
    local definitions and the tests on states are computed, the arithmetic and
    the classification of the sample are left. *)
Ltac fsm_eval :=
  cbv beta iota zeta delta
    [handle handle_sample transition_to reset_counters unchanged state_is set_counts
     config_ state_ last_sample_ has_sample_ warning_count_ critical_count_
     recovery_count_ offline_count_ kind sample previous current changed reason
     bool_decide decide_rel decide not_dec MotorState_eq_dec MotorState_rec
     MotorState_rect EventKind_eq_dec EventKind_rec EventKind_rect sumbool_rec
     sumbool_rect negb andb].

(** Runs a goal about [handle] or [handle_sample] through every branch. *)
Ltac fsm_branches :=
  repeat (match goal with
  | |- context [online ?s] => destruct (online s) eqn:?
  | |- context [is_critical ?c ?s] => destruct (is_critical c s) eqn:?
  | |- context [is_warning ?c ?s] => destruct (is_warning c s) eqn:?
  | |- context [is_recovered ?c ?s] => destruct (is_recovered c s) eqn:?
  | |- context [if ?b then _ else _] => destruct b eqn:?
  end; simpl).

(** The report of [handle] describes the two states, whatever the branch. *)
Lemma handle_report (e : Event) (m : MotorStateMachine) :
  let '(m', t) := handle e m in
  previous t = state_ m ∧ current t = state_ m' ∧
  changed t = bool_decide (state_ m ≠ state_ m') ∧ config_ m' = config_ m.
Proof.
  destruct m as [c [] ls hs wc cc rc oc], e as [[] s];
    fsm_eval;
    fsm_branches; auto.
Qed.

Lemma handle_arrow (e : Event) (m : MotorStateMachine) :
  let '(m', t) := handle e m in
  (reason t = R_none ∧ state_ m' = state_ m) ∨
  diagram (state_ m) (kind e) (reason t) (state_ m').
Proof.
  destruct m as [c [] ls hs wc cc rc oc], e as [[] s];
    fsm_eval;
    fsm_branches; auto with fsm.
Qed.

(** Counters are cleared by every transition. *)
Lemma handle_transition_resets (e : Event) (m : MotorStateMachine) :
  let '(m', t) := handle e m in
  reason t ≠ R_none →
  warning_count_ m' = 0 ∧ critical_count_ m' = 0 ∧
  recovery_count_ m' = 0 ∧ offline_count_ m' = 0.
Proof.
  destruct m as [c [] ls hs wc cc rc oc], e as [[] s];
    fsm_eval;
    fsm_branches; auto; congruence.
Qed.

(** ** What the machine promises: a specification on the history of samples

    The specification keeps no counter.  It remembers the samples received
    since the last transition, newest first, and decides on the length of the
    run of consecutive samples of each class at the front of that window. *)

Fixpoint run_length {A} (p : A → bool) (l : list A) : Z :=
  match l with
  | [] => 0
  | x :: l => if p x then 1 + run_length p l else 0
  end.

Section Spec.
Context (c : ProtectionConfig).

Definition offline_sample (s : SensorSample) : bool := negb (online s).
Definition critical_sample (s : SensorSample) : bool := online s && is_critical c s.
Definition warning_sample (s : SensorSample) : bool := online s && is_warning c s.
Definition recovered_sample (s : SensorSample) : bool :=
  online s && negb (is_warning c s) && is_recovered c s.

Definition active (st : MotorState) : bool :=
  match st with healthy | degraded => true | _ => false end.

(** The transition the window [s :: w] calls for in state [st]. *)
Definition spec_decide (st : MotorState) (s : SensorSample) (w : list SensorSample)
    : option (TransitionReason * MotorState) :=
  let w := s :: w in
  if offline_sample s then
    if offline_samples c <=? run_length offline_sample w
    then Some (R_sensor_offline, fault_latched) else None
  else if critical_samples c <=? run_length critical_sample w then
    Some (R_critical_reading, fault_latched)
  else
    match st with
    | healthy =>
        if warning_samples c <=? run_length warning_sample w
        then Some (R_warning_persisted, degraded) else None
    | degraded =>
        if recovery_samples c <=? run_length recovered_sample w
        then Some (R_readings_recovered, healthy) else None
    | _ => None
    end.

Record History := MkHistory {
  h_state : MotorState;
  h_window : list SensorSample;
  h_last : option SensorSample
}.

Definition history_init : History := MkHistory booting [] None.

Definition spec_goto (r : TransitionReason) (st : MotorState) (h : History)
    : History * StateTransition :=
  (MkHistory st [] (h_last h), MkTransition (h_state h) st r (bool_decide (h_state h ≠ st))).

Definition spec_stay (h : History) : History * StateTransition :=
  (h, MkTransition (h_state h) (h_state h) R_none false).

Definition spec_handle (e : Event) (h : History) : History * StateTransition :=
  match h_state h, kind e with
  | safe_shutdown, _ => spec_stay h
  | _, Ev_shutdown_requested => spec_goto R_shutdown_requested safe_shutdown h
  | _, Ev_internal_fault => spec_goto R_internal_resource_failure fault_latched h
  | booting, Ev_startup => spec_goto R_startup_requested self_test h
  | self_test, Ev_self_test_passed => spec_goto R_self_test_succeeded healthy h
  | fault_latched, Ev_reset_requested => spec_goto R_manual_reset self_test h
  | st, Ev_sensor_sample =>
      if active st then
        let h' := MkHistory st (sample e :: h_window h) (Some (sample e)) in
        match spec_decide st (sample e) (h_window h) with
        | Some (r, st') => spec_goto r st' h'
        | None => spec_stay h'
        end
      else spec_stay (MkHistory st (h_window h) (Some (sample e)))
  | _, _ => spec_stay h
  end.

Definition spec_all (es : list Event) (h : History) : History :=
  foldl (λ h e, fst (spec_handle e h)) h es.

(** ** The refinement relation *)

(** A run that has not triggered its transition yet. *)
Definition below (n threshold : Z) : Prop := n = 0 ∨ n < threshold.

Record refines (m : MotorStateMachine) (h : History) : Prop := {
  ref_config : config_ m = c;
  ref_state : state_ m = h_state h;
  ref_sample :
    match h_last h with
    | None => has_sample_ m = false ∧ last_sample_ m = default_sample
    | Some s => has_sample_ m = true ∧ last_sample_ m = s
    end;
  ref_window : active (h_state h) = false → h_window h = [];
  ref_offline : offline_count_ m = run_length offline_sample (h_window h)
                ∧ below (offline_count_ m) (offline_samples c);
  ref_critical : critical_count_ m = run_length critical_sample (h_window h)
                 ∧ below (critical_count_ m) (critical_samples c);
  ref_warning : warning_count_ m
                = run_length warning_sample (h_window h) mod u64_modulus;
  ref_warning_below :
    h_state h = healthy → below (run_length warning_sample (h_window h)) (warning_samples c);
  ref_recovery :
    recovery_count_ m =
      (if bool_decide (h_state h = degraded)
       then run_length recovered_sample (h_window h) else 0)
    ∧ below (recovery_count_ m) (recovery_samples c)
}.

End Spec.

(** The thresholds are [std::size_t] values. *)
Definition config_ok (c : ProtectionConfig) : Prop :=
  u64_ok (warning_samples c) ∧ u64_ok (critical_samples c) ∧
  u64_ok (recovery_samples c) ∧ u64_ok (offline_samples c).

Lemma run_length_nonneg {A} (p : A → bool) (l : list A) : 0 ≤ run_length p l.
Proof. induction l as [|x l IH]; simpl; [lia|]. destruct (p x); lia. Qed.

Lemma below_incr (n threshold : Z) :
  0 ≤ n → u64_ok threshold → below n threshold → u64_incr n = 1 + n.
Proof.
  unfold below, u64_ok. rewrite u64_modulus_val. intros Hn Ht Hb.
  rewrite u64_incr_small; rewrite ?u64_modulus_val; lia.
Qed.

Lemma u64_incr_mod (n : Z) : u64_incr (n mod u64_modulus) = (1 + n) mod u64_modulus.
Proof. unfold u64_incr. rewrite Zplus_mod_idemp_l. f_equal. lia. Qed.

Lemma refines_enter (c : ProtectionConfig) (st : MotorState) (ls : SensorSample)
    (hs : bool) (last : option SensorSample) :
  match last with
  | None => hs = false ∧ ls = default_sample
  | Some s => hs = true ∧ ls = s
  end →
  refines c (MkMachine c st ls hs 0 0 0 0) (MkHistory st [] last).
Proof.
  intros Hl. split; simpl; auto; unfold below; auto.
  split; [by destruct (bool_decide _)|auto].
Qed.

(** What one more sample does to the counters of an active state: exactly what
    it does to the runs of the window. *)
Lemma count_offline (c : ProtectionConfig) (m : MotorStateMachine) (h : History)
    (s : SensorSample) :
  config_ok c → refines c m h → online s = false →
  u64_incr (offline_count_ m) = run_length offline_sample (s :: h_window h).
Proof.
  intros (_ & _ & _ & Hok) [] Hon. destruct ref_offline0 as [-> Hb]. simpl.
  unfold offline_sample at 2. rewrite Hon. simpl.
  eapply below_incr; eauto using run_length_nonneg.
Qed.

Lemma count_critical (c : ProtectionConfig) (m : MotorStateMachine) (h : History)
    (s : SensorSample) :
  config_ok c → refines c m h → online s = true →
  (if is_critical c s then u64_incr (critical_count_ m) else 0)
  = run_length (critical_sample c) (s :: h_window h).
Proof.
  intros (_ & Hok & _ & _) [] Hon. destruct ref_critical0 as [-> Hb]. simpl.
  unfold critical_sample at 2. rewrite Hon. simpl.
  destruct (is_critical c s); [|done].
  eapply below_incr; eauto using run_length_nonneg.
Qed.

Lemma count_warning (c : ProtectionConfig) (m : MotorStateMachine) (h : History)
    (s : SensorSample) :
  refines c m h → online s = true →
  (if is_warning c s then u64_incr (warning_count_ m) else 0)
  = run_length (warning_sample c) (s :: h_window h) mod u64_modulus.
Proof.
  intros [] Hon. rewrite ref_warning0. simpl.
  unfold warning_sample at 2. rewrite Hon. simpl.
  destruct (is_warning c s); [|done]. apply u64_incr_mod.
Qed.

Lemma count_recovery (c : ProtectionConfig) (m : MotorStateMachine) (h : History)
    (s : SensorSample) :
  config_ok c → refines c m h → online s = true → h_state h = degraded →
  (if is_warning c s then 0
   else if is_recovered c s then u64_incr (recovery_count_ m) else 0)
  = run_length (recovered_sample c) (s :: h_window h).
Proof.
  intros (_ & _ & Hok & _) [] Hon Hst. destruct ref_recovery0 as [Hr Hb].
  rewrite Hst in Hr. simpl in Hr. rewrite Hr in Hb |- *. simpl.
  unfold recovered_sample at 2. rewrite Hon. simpl.
  destruct (is_warning c s); [done|]. destruct (is_recovered c s); [|done]. simpl.
  eapply below_incr; eauto using run_length_nonneg.
Qed.

Lemma warning_mod_test (c : ProtectionConfig) (m : MotorStateMachine) (h : History)
    (s : SensorSample) :
  config_ok c → refines c m h → h_state h = healthy →
  run_length (warning_sample c) (s :: h_window h) mod u64_modulus
  = run_length (warning_sample c) (s :: h_window h).
Proof.
  intros (Hok & _ & _ & _) [] Hst. specialize (ref_warning_below0 Hst).
  pose proof (run_length_nonneg (warning_sample c) (h_window h)).
  unfold below, u64_ok in *. rewrite u64_modulus_val in *. simpl.
  destruct (warning_sample c s); apply Z.mod_small; lia.
Qed.

Lemma below_threshold (n threshold : Z) : (threshold <=? n) = false → below n threshold.
Proof. unfold below. lia. Qed.

Lemma below_zero (threshold : Z) : below 0 threshold.
Proof. by left. Qed.
#[export] Hint Resolve below_threshold below_zero : fsm.

(** A sample of another class ends a run. *)
Lemma run_length_reset {A} (p : A → bool) (x : A) (l : list A) :
  p x = false → run_length p (x :: l) = 0.
Proof. simpl. by intros ->. Qed.

(** Staying in an active state after sample [s]: the counters must be the runs
    of the extended window. *)
Lemma refines_stay (c : ProtectionConfig) (st : MotorState) (s : SensorSample)
    (w : list SensorSample) (wc cc rc oc : Z) :
  active st = true →
  oc = run_length offline_sample (s :: w) → below oc (offline_samples c) →
  cc = run_length (critical_sample c) (s :: w) → below cc (critical_samples c) →
  wc = run_length (warning_sample c) (s :: w) mod u64_modulus →
  (st = healthy → below (run_length (warning_sample c) (s :: w)) (warning_samples c)) →
  rc = (if bool_decide (st = degraded)
        then run_length (recovered_sample c) (s :: w) else 0) →
  below rc (recovery_samples c) →
  refines c (MkMachine c st s true wc cc rc oc) (MkHistory st (s :: w) (Some s)).
Proof. intros. split; cbn [h_state h_window h_last]; auto; congruence. Qed.

Lemma classes_online (s : SensorSample) (w : list SensorSample) :
  online s = true → run_length offline_sample (s :: w) = 0.
Proof. intros H. apply run_length_reset. unfold offline_sample. by rewrite H. Qed.

Lemma classes_offline (c : ProtectionConfig) (s : SensorSample) (w : list SensorSample) :
  online s = false →
  run_length (critical_sample c) (s :: w) = 0 ∧
  run_length (warning_sample c) (s :: w) = 0 ∧
  run_length (recovered_sample c) (s :: w) = 0.
Proof.
  intros H. split_and!; apply run_length_reset;
    unfold critical_sample, warning_sample, recovered_sample; by rewrite H.
Qed.

(** A sample in an active state. *)
Lemma handle_sample_refines (c : ProtectionConfig) (s : SensorSample)
    (m : MotorStateMachine) (h : History) :
  config_ok c → refines c m h → active (h_state h) = true →
  let '(m', t) := handle_sample s m in
  let '(h', t') := spec_handle c (Event_sensor_sample s) h in
  refines c m' h' ∧ t = t'.
Proof.
  intros Hok Hr Hact.
  pose proof (count_offline c m h s Hok Hr) as Ho.
  pose proof (count_critical c m h s Hok Hr) as Hc.
  pose proof (count_warning c m h s Hr) as Hw.
  pose proof (count_recovery c m h s Hok Hr) as Hrec.
  pose proof (warning_mod_test c m h s Hok Hr) as Hmod.
  destruct Hr, h as [st w last], m as [c' st' ls hs wc cc rc oc].
  cbn [h_state h_window h_last config_ state_ last_sample_ has_sample_ warning_count_
       critical_count_ recovery_count_ offline_count_] in *; subst c' st'.
  unfold spec_handle, spec_decide, Event_sensor_sample; cbn [h_state h_window kind sample].
  change (offline_sample s) with (negb (online s)).
  destruct st; try discriminate Hact; cbn [active]; clear Hact;
    fsm_eval; destruct (online s) eqn:Hon; cbn [negb].
  all: try pose proof (classes_online s w Hon) as Hoff;
       try pose proof (classes_offline c s w Hon) as (Hcr & Hwr & Hrr).
  all: try (specialize (Hc eq_refl); rewrite <- Hc);
       try (specialize (Ho eq_refl); rewrite <- Ho);
       try (specialize (Hw eq_refl); specialize (Hmod eq_refl); rewrite Hmod in Hw);
       try specialize (Hw eq_refl); try specialize (Hrec eq_refl eq_refl).
  all: destruct (is_critical c s), (is_warning c s), (is_recovered c s); cbn [andb] in *;
       try match type of Hw with _ = run_length _ _ => rewrite <- Hw end;
       try match type of Hrec with _ = run_length _ _ => rewrite <- Hrec end.
  all: repeat match goal with |- context [?a <=? ?b] => destruct (a <=? b) eqn:? end.
  all: split; [|reflexivity].
  all: try (by apply refines_enter).
  all: apply refines_stay; auto with fsm; try congruence; intros; rewrite ?Hwr; auto with fsm.
  all: rewrite <- Hw; auto with fsm.
Qed.

(** Every event keeps the machine and its history specification together, with
    equal reports. *)
Lemma handle_refines (c : ProtectionConfig) (e : Event) (m : MotorStateMachine)
    (h : History) :
  config_ok c → refines c m h →
  let '(m', t) := handle e m in
  let '(h', t') := spec_handle c e h in
  refines c m' h' ∧ t = t'.
Proof.
  intros Hok Hr. destruct e as [k s].
  destruct (active (h_state h)) eqn:Hact; destruct k.
  all: try (pose proof (handle_sample_refines c s m h Hok Hr Hact) as Hs).
  all: destruct Hr as [], h as [st w last], m as [c' st' ls hs wc cc rc oc];
       cbn [h_state h_window h_last config_ state_ last_sample_ has_sample_ warning_count_
       critical_count_ recovery_count_ offline_count_] in *; subst c' st'.
  all: destruct st; try discriminate Hact; clear Hact;
       unfold spec_handle; cbn [h_state kind active]; unfold spec_goto, spec_stay;
       cbn [h_state h_last]; try exact Hs; fsm_eval.
  all: split; [|reflexivity].
  all: try (by apply refines_enter).
  all: split; cbn [h_state h_window h_last]; auto.
Qed.

Lemma init_refines (c : ProtectionConfig) : refines c (machine_init c) history_init.
Proof. by apply refines_enter. Qed.

Lemma handle_all_refines (c : ProtectionConfig) (es : list Event)
    (m : MotorStateMachine) (h : History) :
  config_ok c → refines c m h →
  refines c (handle_all es m) (spec_all c es h).
Proof.
  intros Hok. revert m h. induction es as [|e es IH]; intros m h Hr; [done|].
  simpl. apply IH. pose proof (handle_refines c e m h Hok Hr) as Hs.
  destruct (handle e m), (spec_handle c e h). by destruct Hs.
Qed.
