(* ===== verification/FsmProps.v ===== *)
(** * Properties of the motor protection state machine

    What the handlers of [Fsm.v] guarantee: the refinement of the history
    specification, the state diagram, the latch and the shutdown, and the
    debouncing of samples in both directions (no transition without a run of
    consecutive samples, a transition after one). *)
From S2P Require Import Prelude Double Domain Fsm.

Local Open Scope Z_scope.

(** The samples carried by a sequence of events, newest first. *)
Definition event_sample (e : Event) : option SensorSample :=
  if bool_decide (kind e = Ev_sensor_sample) then Some (sample e) else None.

Definition recent_samples (es : list Event) : list SensorSample :=
  rev (omap event_sample es).

(** Warning thresholds lie between the recovery and the critical thresholds. *)
Definition thresholds_ordered (c : ProtectionConfig) : bool :=
  Double.ltb (temperature_recovery_c c) (temperature_warning_c c)
  && Double.leb (temperature_warning_c c) (temperature_critical_c c)
  && Double.ltb (vibration_recovery_mm_s c) (vibration_warning_mm_s c)
  && Double.leb (vibration_warning_mm_s c) (vibration_critical_mm_s c)
  && Double.ltb (current_recovery_a c) (current_warning_a c)
  && Double.leb (current_warning_a c) (current_critical_a c).

Lemma default_config_ok : config_ok default_config.
Proof. split_and!; unfold u64_ok; rewrite u64_modulus_val; simpl; lia. Qed.

Lemma default_thresholds_ordered : thresholds_ordered default_config = true.
Proof. reflexivity. Qed.

(** ** Lemmas *)

Lemma handle_all_app (es es' : list Event) (m : MotorStateMachine) :
  handle_all (es ++ es') m = handle_all es' (handle_all es m).
Proof. apply foldl_app. Qed.

Lemma handle_all_config (es : list Event) (m : MotorStateMachine) :
  config_ (handle_all es m) = config_ m.
Proof.
  revert m. induction es as [|e es IH]; intros m; [done|]. simpl. rewrite IH.
  pose proof (handle_report e m) as H. by destruct (handle e m), H as (_ & _ & _ & ?).
Qed.

Lemma reachable_refines (c : ProtectionConfig) (es : list Event) :
  config_ok c →
  refines c (handle_all es (machine_init c)) (spec_all c es history_init).
Proof. intros Hok. apply handle_all_refines; auto using init_refines. Qed.

Lemma recent_samples_snoc (es : list Event) (e : Event) :
  recent_samples (es ++ [e]) =
  match event_sample e with
  | Some s => s :: recent_samples es
  | None => recent_samples es
  end.
Proof.
  unfold recent_samples. rewrite omap_app. simpl.
  destruct (event_sample e); simpl; by rewrite ?rev_app_distr, ?app_nil_r.
Qed.

Lemma run_length_prefix {A} (p : A → bool) (l k : list A) :
  l `prefix_of` k → run_length p l ≤ run_length p k.
Proof.
  intros [r ->]. induction l as [|x l IH]; simpl; [apply run_length_nonneg|].
  destruct (p x); lia.
Qed.

(** One step of the specification: the window is extended by the sample of the
    event or emptied, and a transition on readings reports a run in it. *)
Definition run_reported (c : ProtectionConfig) (r : TransitionReason)
    (w : list SensorSample) : Prop :=
  match r with
  | R_critical_reading => critical_samples c ≤ run_length (critical_sample c) w
  | R_sensor_offline => offline_samples c ≤ run_length offline_sample w
  | R_warning_persisted => warning_samples c ≤ run_length (warning_sample c) w
  | R_readings_recovered => recovery_samples c ≤ run_length (recovered_sample c) w
  | _ => True
  end.

Lemma spec_handle_window (c : ProtectionConfig) (e : Event) (h : History)
    (past : list SensorSample) :
  h_window h `prefix_of` past →
  (active (h_state h) = false → h_window h = []) →
  let now := match event_sample e with Some s => s :: past | None => past end in
  let '(h', t) := spec_handle c e h in
  h_window h' `prefix_of` now ∧ run_reported c (reason t) now.
Proof.
  destruct h as [st w last], e as [k s]. cbn [h_window h_state]. intros Hp Hw.
  destruct (decide (k = Ev_sensor_sample)) as [->|Hk].
  - change (event_sample _) with (Some s). cbv beta iota zeta.
    assert (Hc : s :: w `prefix_of` s :: past) by by apply prefix_cons.
    pose proof (run_length_prefix offline_sample _ _ Hc);
    pose proof (run_length_prefix (critical_sample c) _ _ Hc);
    pose proof (run_length_prefix (warning_sample c) _ _ Hc);
    pose proof (run_length_prefix (recovered_sample c) _ _ Hc).
    generalize dependent (s :: past). intros now Hc; intros.
    unfold spec_handle, spec_decide; destruct st;
      cbn [h_state kind active spec_stay spec_goto h_window sample];
      try (rewrite (Hw eq_refl); split; [apply prefix_nil|done]).
    all: unfold spec_goto, spec_stay; repeat case_match; simplify_eq;
      cbn [h_window reason run_reported]; split; auto using prefix_nil; lia.
  - assert (event_sample (MkEvent k s) = None) as ->
      by (unfold event_sample; simpl; by rewrite bool_decide_eq_false_2).
    unfold spec_handle; destruct st, k; try congruence;
      cbn [h_state kind spec_stay spec_goto h_window reason run_reported];
      auto using prefix_nil.
Qed.

Lemma spec_all_app (c : ProtectionConfig) (es es' : list Event) (h : History) :
  spec_all c (es ++ es') h = spec_all c es' (spec_all c es h).
Proof. apply foldl_app. Qed.

(** The window of the specification is the recent part of the sample history. *)
Lemma spec_all_window (c : ProtectionConfig) (es : list Event) :
  config_ok c →
  h_window (spec_all c es history_init) `prefix_of` recent_samples es.
Proof.
  intros Hok. induction es as [|e es IH] using rev_ind; [apply prefix_nil|].
  rewrite spec_all_app, recent_samples_snoc. simpl.
  pose proof (spec_handle_window c e _ _ IH
    (ref_window _ _ _ (reachable_refines c es Hok))) as H.
  by destruct (spec_handle c e _), H.
Qed.

(** Every count of consecutive samples is at least one. *)
Definition counts_positive (c : ProtectionConfig) : Prop :=
  1 ≤ warning_samples c ∧ 1 ≤ critical_samples c ∧
  1 ≤ recovery_samples c ∧ 1 ≤ offline_samples c.

Lemma ordered_critical_warning (c : ProtectionConfig) (s : SensorSample) :
  thresholds_ordered c = true → is_critical c s = true → is_warning c s = true.
Proof.
  unfold thresholds_ordered, is_critical, is_warning, Double.geb.
  rewrite !andb_true_iff, !orb_true_iff. intros Ho Hc. destruct_and!.
  destruct Hc as [[Hc|Hc]|Hc]; eauto using Double.leb_trans.
Qed.

Lemma ordered_recovered_not_warning (c : ProtectionConfig) (s : SensorSample) :
  thresholds_ordered c = true → is_recovered c s = true → is_warning c s = false.
Proof.
  unfold thresholds_ordered, is_recovered, is_warning, Double.geb.
  rewrite !andb_true_iff, !orb_false_iff. intros Ho Hr. destruct_and!.
  split_and!; apply Double.ltb_leb_false; eauto using Double.leb_ltb_trans.
Qed.

(** How many more offline samples, and how many more critical ones, latch the
    fault: read off the samples since the last transition.  A critical sample
    counts as a warning too, so a healthy machine may be degraded on the way; that
    transition clears the counters, and the critical count starts over. *)
Definition offline_to_latch (c : ProtectionConfig) (h : History) : Z :=
  offline_samples c - run_length offline_sample (h_window h).

Definition critical_to_latch (c : ProtectionConfig) (h : History) : Z :=
  let to_critical := critical_samples c - run_length (critical_sample c) (h_window h) in
  let to_degraded := warning_samples c - run_length (warning_sample c) (h_window h) in
  match h_state h with
  | healthy => if to_critical <=? to_degraded then to_critical else to_degraded + critical_samples c
  | _ => to_critical
  end.

Lemma latched_stays (es : list Event) (m : MotorStateMachine) :
  state_ m = fault_latched →
  Forall (λ e, kind e ≠ Ev_reset_requested ∧ kind e ≠ Ev_shutdown_requested) es →
  state_ (handle_all es m) = fault_latched.
Proof.
  intros Hm Hes. revert m Hm. induction Hes as [|e es [Hr Hs] _ IH]; intros m Hm; [done|].
  simpl. apply IH. destruct e as [[] s], m as [c st ls hs wc cc rc oc]; simpl in *;
    subst st; try congruence; by fsm_eval.
Qed.

(** One sample of the class: the last missing one latches, an earlier one leaves an
    active state with one sample less to go. *)
Definition counts_down (need : History → Z) (p : SensorSample → bool) (c : ProtectionConfig) : Prop :=
  ∀ m h, refines c m h → active (h_state h) = true → 1 ≤ need h ∧
  ∀ s, p s = true →
  let h' := fst (spec_handle c (Event_sensor_sample s) h) in
  (need h = 1 → h_state h' = fault_latched) ∧
  (1 < need h → active (h_state h') = true ∧ need h' = need h - 1).

Lemma offline_counts_down (c : ProtectionConfig) :
  counts_positive c → counts_down (offline_to_latch c) offline_sample c.
Proof.
  intros (_ & _ & _ & Hpos) m h Hr Hact. destruct (ref_offline _ _ _ Hr) as [Ho Hb]. rewrite Ho in Hb.
  destruct h as [st w last]. unfold offline_to_latch, below in *. cbn [h_window h_state] in *.
  pose proof (run_length_nonneg offline_sample w) as Hn. split; [lia|]. intros s Hs.
  assert (Hrun : run_length offline_sample (s :: w) = 1 + run_length offline_sample w) by (simpl; by rewrite Hs).
  destruct st; try discriminate Hact; unfold spec_handle, spec_decide, Event_sensor_sample;
    cbn [h_state kind sample active h_window]; rewrite Hs, Hrun;
    destruct (Z.leb_spec (offline_samples c) (1 + run_length offline_sample w));
    cbn [spec_goto spec_stay fst h_state h_window]; rewrite ?Hrun; split_and!; (done || lia || (intros; split; [done|lia])).
Qed.

Lemma critical_counts_down (c : ProtectionConfig) :
  thresholds_ordered c = true → counts_positive c → counts_down (critical_to_latch c) (critical_sample c) c.
Proof.
  intros Hord (Hwp & Hcp & Hrp & _) m h Hr Hact.
  destruct (ref_critical _ _ _ Hr) as [Hc Hb]. rewrite Hc in Hb. pose proof (ref_warning_below _ _ _ Hr) as Hwb.
  destruct h as [st w last]. unfold critical_to_latch, below in *. cbn [h_window h_state] in *.
  pose proof (run_length_nonneg (critical_sample c) w) as Hn.
  pose proof (run_length_nonneg (warning_sample c) w) as Hn'. split.
  { destruct st; try discriminate Hact; [specialize (Hwb eq_refl); case_match; lia|lia]. }
  intros s Hs.
  destruct (proj1 (andb_true_iff _ _) Hs) as [Hon Hcr]. pose proof (ordered_critical_warning c s Hord Hcr) as Hw.
  assert (Hc1 : run_length (critical_sample c) (s :: w) = 1 + run_length (critical_sample c) w)
    by (simpl; by rewrite Hs).
  assert (Hw1 : run_length (warning_sample c) (s :: w) = 1 + run_length (warning_sample c) w)
    by (cbn [run_length]; unfold warning_sample at 1; by rewrite Hon, Hw).
  assert (Hr0 : run_length (recovered_sample c) (s :: w) = 0)
    by (apply run_length_reset; unfold recovered_sample; by rewrite Hon, Hw).
  destruct st; try discriminate Hact; unfold spec_handle, spec_decide, Event_sensor_sample, offline_sample;
    cbn [h_state kind sample active h_window]; rewrite Hon, Hc1, ?Hw1, ?Hr0; cbn [negb];
    try specialize (Hwb eq_refl);
    repeat (case_match; cbn [spec_goto spec_stay fst h_state h_window] in *); simplify_eq;
    cbn [run_length] in *; rewrite ?Hc1, ?Hw1 in *;
    split_and!; (done || lia || (intros; split; [done|lia])).
Qed.

(** A whole run: latched exactly when it is long enough, active until then. *)
Lemma run_latches_iff (need : History → Z) (p : SensorSample → bool) (c : ProtectionConfig)
    (ss : list SensorSample) (m : MotorStateMachine) (h : History) :
  config_ok c → counts_down need p c →
  refines c m h → active (state_ m) = true → Forall (λ s, p s = true) ss →
  let m' := handle_all (Event_sensor_sample <$> ss) m in
  (state_ m' = fault_latched ↔ need h ≤ Z.of_nat (length ss)) ∧
  (Z.of_nat (length ss) < need h → active (state_ m') = true).
Proof.
  intros Hok Hdown. revert m h. induction ss as [|s ss IH]; intros m h Hr Hact Hss.
  all: pose proof Hact as Hact'; rewrite (ref_state _ _ _ Hr) in Hact';
       destruct (Hdown m h Hr Hact') as [Hpos Hstep].
  - simpl. split; [split; [|lia]|done]. intros Hl. rewrite Hl in Hact. discriminate Hact.
  - apply Forall_cons in Hss as [Hs Hss]. destruct (Hstep s Hs) as [Hlast Hmore].
    pose proof (handle_refines c (Event_sensor_sample s) m h Hok Hr) as Hr'.
    cbn [fmap list_fmap handle_all foldl length]. fold (handle_all (Event_sensor_sample <$> ss)).
    destruct (handle _ m) as [m' t], (spec_handle _ _ _) as [h' t'], Hr' as [Hr' _].
    cbn [fst] in *. pose proof (ref_state _ _ _ Hr') as Hst.
    destruct (decide (need h = 1)) as [H1|H1].
    + assert (Hl : state_ (handle_all (Event_sensor_sample <$> ss) m') = fault_latched).
      { apply latched_stays; [by rewrite Hst, Hlast|]. apply Forall_fmap, Forall_true. intros; by split. }
      unfold handle_all in Hl. rewrite Hl. split; [split; [lia|done]|lia].
    + destruct Hmore as [Ha Hn]; [lia|]. rewrite <- Hst in Ha.
      destruct (IH m' h' Hr' Ha Hss) as [IH1 IH2]. unfold handle_all in IH1, IH2.
      split; [rewrite IH1; lia|intros; apply IH2; lia].
Qed.

(** ** Claims *)

(** C1: the counter machine implements the history specification.  For every
    sequence of events from power-on and every further event, [handle] reports
    the transition that the specification decides on the runs of consecutive
    samples since the last transition, and ends in the specified state; the
    specification has no counter, so this covers the resets, the order of the
    checks and the wrap-around of the counters. *)
Theorem handle_implements_history (c : ProtectionConfig) (es : list Event) (e : Event)
    (Hc : config_ok c) :
  let m := handle_all es (machine_init c) in
  let h := spec_all c es history_init in
  snd (handle e m) = snd (spec_handle c e h) ∧
  state_ (fst (handle e m)) = h_state (fst (spec_handle c e h)) ∧
  refines c (fst (handle e m)) (fst (spec_handle c e h)).
Proof.
  intros m h. pose proof (handle_refines c e m h Hc (reachable_refines c es Hc)) as H.
  destruct (handle e m) as [m' t], (spec_handle c e h) as [h' t'], H as [H ->].
  simpl. split_and!; [done|apply (ref_state _ _ _ H)|done].
Qed.

Lemma handle_implements_history_witness :
  config_ok default_config ∧
  snd (handle Event_startup (handle_all [] (machine_init default_config)))
  = snd (spec_handle default_config Event_startup history_init).
Proof.
  split; [exact default_config_ok|].
  exact (proj1 (handle_implements_history default_config [] Event_startup default_config_ok)).
Defined.

(** Every call of [handle] reports the states truthfully ([previous] is the
    state before, [current] the state after, [changed] tells whether they
    differ), and either reports no reason and keeps the state, or takes an
    arrow of the state diagram triggered by the kind of the event. *)
Theorem handle_follows_diagram (e : Event) (m : MotorStateMachine) :
  let '(m', t) := handle e m in
  previous t = state_ m ∧ current t = state_ m' ∧
  changed t = bool_decide (state_ m ≠ state_ m') ∧
  ((reason t = R_none ∧ state_ m' = state_ m) ∨
   diagram (state_ m) (kind e) (reason t) (state_ m')).
Proof.
  pose proof (handle_report e m) as Hr. pose proof (handle_arrow e m) as Ha.
  destruct (handle e m). intuition.
Qed.

(** Samples leave the self-test alone. *)
Lemma self_test_waits (ss : list SensorSample) (m : MotorStateMachine) :
  state_ m = self_test → state_ (handle_all (Event_sensor_sample <$> ss) m) = self_test.
Proof.
  revert m. induction ss as [|s ss IH]; intros m Hm; [done|]. rewrite fmap_cons. cbn [handle_all foldl].
  apply IH. destruct m as [c st ls hs wc cc rc oc]. simpl in Hm. by subst st.
Qed.

(** C2: the two safe states hold.  [SafeShutdown] is always one event away and
    final: a shutdown request enters it from every state, and from then on no event
    changes any member of the machine.  A latched fault stays latched through any
    sequence of events that holds neither a manual reset nor a shutdown request, in
    particular through any number of normal samples; and a reset leads to the
    self-test, where samples change nothing until it has passed. *)
Theorem safe_states_hold (m : MotorStateMachine) (s : SensorSample) (es : list Event) (ss : list SensorSample) :
  let m' := fst (handle (MkEvent Ev_shutdown_requested s) m) in
  (state_ m' = safe_shutdown ∧ handle_all es m' = m') ∧
  (state_ m = fault_latched →
   (Forall (λ e, kind e ≠ Ev_reset_requested ∧ kind e ≠ Ev_shutdown_requested) es →
    state_ (handle_all es m) = fault_latched) ∧
   state_ (handle_all (Event_reset_requested :: (Event_sensor_sample <$> ss)) m) = self_test).
Proof.
  assert (Hs : state_ (fst (handle (MkEvent Ev_shutdown_requested s) m)) = safe_shutdown)
    by (by apply shutdown_enters).
  split; [split; [exact Hs|by apply shutdown_absorbs]|]. intros Hm. split; [by apply latched_stays|].
  apply self_test_waits. destruct m as [c st ls hs wc cc rc oc]. simpl in Hm. by subst st.
Qed.

Definition normal_sample : SensorSample :=
  MkSample (Double.of_Z 45) (Double.of_Z 2) (Double.of_Z 6) true 1.

Definition hot_sample (t : Z) : SensorSample := set_temperature_c (Double.of_Z t) normal_sample.

Definition latched_machine : MotorStateMachine :=
  handle_all [Event_startup; Event_self_test_passed; Event_internal_fault]
    (machine_init default_config).

Lemma safe_states_hold_witness :
  state_ (handle_all [Event_sensor_sample normal_sample; Event_startup] latched_machine) = fault_latched ∧
  state_ (handle_all [Event_reset_requested; Event_sensor_sample (hot_sample 105)] latched_machine) = self_test.
Proof.
  destruct (safe_states_hold latched_machine normal_sample
    [Event_sensor_sample normal_sample; Event_startup] [hot_sample 105]) as [_ H].
  destruct (H eq_refl) as [H1 H2]. split; [|exact H2].
  apply H1. repeat constructor; simpl; discriminate.
Defined.

(** C3: no transition without its run of consecutive samples.  Whatever events
    came before, a transition reported for critical readings, for a sensor
    offline, for warnings or for recovery is preceded by at least as many
    consecutive samples of that class, counted back from the sample that
    triggered it, as the configuration asks for. *)
Theorem transition_needs_run (c : ProtectionConfig) (es : list Event) (e : Event)
    (Hc : config_ok c) :
  run_reported c (reason (snd (handle e (handle_all es (machine_init c)))))
    (recent_samples (es ++ [e])).
Proof.
  pose proof (reachable_refines c es Hc) as Hr.
  pose proof (handle_refines c e _ _ Hc Hr) as H.
  pose proof (spec_handle_window c e _ _ (spec_all_window c es Hc) (ref_window _ _ _ Hr)) as Hw.
  rewrite recent_samples_snoc.
  destruct (handle e _) as [m' t], (spec_handle c e _) as [h' t'], H as [_ ->], Hw as [_ Hw].
  exact Hw.
Qed.

Lemma transition_needs_run_witness :
  2 ≤ run_length (critical_sample default_config) [hot_sample 105; hot_sample 100].
Proof.
  exact (transition_needs_run default_config
    [Event_startup; Event_self_test_passed; Event_sensor_sample (hot_sample 100)]
    (Event_sensor_sample (hot_sample 105)) default_config_ok).
Defined.

(** C4: a persistent fault is latched, after exactly so many samples.  Assume that
    the thresholds fit [std::size_t], that every count is at least one and that the
    recovery, warning and critical thresholds are ordered.  From any reachable
    active state, with [h] the samples since the last transition, a run of offline
    samples ends in [fault_latched] if and only if it is at least
    [offline_to_latch] long, that is, [offline_samples] less the offline samples
    that end [h]; until then the state stays active.  Likewise a run of critical
    samples and [critical_to_latch]: [critical_samples] less the critical samples
    that end [h], except that a healthy machine which reaches [warning_samples]
    first is degraded there and needs [critical_samples] more.  So at most
    [offline_samples] offline samples, and at most [critical_samples] (degraded) or
    [2 * critical_samples - 1] (healthy) critical ones are needed. *)
Theorem persistent_fault_latches (c : ProtectionConfig) (es : list Event)
    (ss : list SensorSample)
    (Hc : config_ok c) (Hord : thresholds_ordered c = true) (Hpos : counts_positive c)
    (Hact : active (state_ (handle_all es (machine_init c))) = true) :
  let m := handle_all es (machine_init c) in
  let h := spec_all c es history_init in
  let m' := handle_all (Event_sensor_sample <$> ss) m in
  (Forall (λ s, online s = false) ss →
   (state_ m' = fault_latched ↔ offline_to_latch c h ≤ Z.of_nat (length ss)) ∧
   (Z.of_nat (length ss) < offline_to_latch c h → active (state_ m') = true)) ∧
  (Forall (λ s, critical_sample c s = true) ss →
   (state_ m' = fault_latched ↔ critical_to_latch c h ≤ Z.of_nat (length ss)) ∧
   (Z.of_nat (length ss) < critical_to_latch c h → active (state_ m') = true)) ∧
  offline_to_latch c h ≤ offline_samples c ∧
  (state_ m = degraded → critical_to_latch c h ≤ critical_samples c) ∧
  (state_ m = healthy → critical_to_latch c h ≤ 2 * critical_samples c - 1).
Proof.
  intros m h m'. pose proof (reachable_refines c es Hc) as Hr. fold m h in Hr, Hact.
  pose proof (run_length_nonneg offline_sample (h_window h)).
  pose proof (run_length_nonneg (critical_sample c) (h_window h)).
  split_and!.
  - intros Hss. apply (run_latches_iff (offline_to_latch c) offline_sample c); auto using offline_counts_down.
    eapply Forall_impl; [exact Hss|]. intros s Hs. unfold offline_sample. simpl in Hs. by rewrite Hs.
  - intros Hss. apply (run_latches_iff (critical_to_latch c) (critical_sample c) c); auto using critical_counts_down.
  - unfold offline_to_latch. lia.
  - rewrite (ref_state _ _ _ Hr). unfold critical_to_latch. intros ->. lia.
  - rewrite (ref_state _ _ _ Hr). unfold critical_to_latch. intros ->. case_match; destruct Hpos; lia.
Qed.

Lemma persistent_fault_latches_witness :
  let m := handle_all [Event_startup; Event_self_test_passed] (machine_init default_config) in
  state_ (handle_all (Event_sensor_sample <$> [hot_sample 105; hot_sample 96]) m) = fault_latched ∧
  active (state_ (handle_all (Event_sensor_sample <$> [hot_sample 105]) m)) = true.
Proof.
  assert (Hpos : counts_positive default_config) by (unfold counts_positive; simpl; lia).
  split.
  - destruct (persistent_fault_latches default_config [Event_startup; Event_self_test_passed]
      [hot_sample 105; hot_sample 96] default_config_ok eq_refl Hpos eq_refl) as (_ & H & _).
    apply H; [by repeat constructor|vm_compute; discriminate].
  - destruct (persistent_fault_latches default_config [Event_startup; Event_self_test_passed]
      [hot_sample 105] default_config_ok eq_refl Hpos eq_refl) as (_ & H & _).
    apply H; [by repeat constructor|vm_compute; reflexivity].
Defined.

(** Hysteresis.  With ordered thresholds no sample is both a warning and a
    recovery, and an online sample between the two keeps an active state,
    reports nothing and restarts the counts of warnings and of recoveries. *)
Theorem in_band_keeps_state (m : MotorStateMachine) (s : SensorSample)
    (Hord : thresholds_ordered (config_ m) = true)
    (Hpos : counts_positive (config_ m)) :
  ¬ (is_warning (config_ m) s = true ∧ is_recovered (config_ m) s = true) ∧
  (active (state_ m) = true → online s = true →
   is_warning (config_ m) s = false → is_recovered (config_ m) s = false →
   let '(m', t) := handle (Event_sensor_sample s) m in
   state_ m' = state_ m ∧ reason t = R_none ∧
   warning_count_ m' = 0 ∧ recovery_count_ m' = 0).
Proof.
  split.
  { intros [Hw Hr]. rewrite (ordered_recovered_not_warning _ _ Hord Hr) in Hw. discriminate. }
  intros Hact Hon Hw Hr.
  assert (Hcr : is_critical (config_ m) s = false).
  { destruct (is_critical (config_ m) s) eqn:Hcr; [|done].
    rewrite (ordered_critical_warning _ _ Hord Hcr) in Hw. discriminate. }
  destruct m as [c [] ls hs wc cc rc oc]; try discriminate Hact;
    unfold Event_sensor_sample, counts_positive in *; simpl in Hpos, Hw, Hr, Hcr; fsm_eval;
    rewrite Hon, Hcr, Hw, ?Hr; fsm_eval;
    rewrite (proj2 (Z.leb_gt (critical_samples c) 0)) by lia;
    rewrite ?(proj2 (Z.leb_gt (warning_samples c) 0)) by lia;
    rewrite ?(proj2 (Z.leb_gt (recovery_samples c) 0)) by lia; auto.
Qed.

Definition degraded_machine : MotorStateMachine :=
  MkMachine default_config degraded (hot_sample 80) true 0 0 3 0.

Lemma in_band_keeps_state_witness :
  state_ (fst (handle (Event_sensor_sample (hot_sample 78)) degraded_machine)) = degraded.
Proof.
  pose proof (in_band_keeps_state degraded_machine (hot_sample 78)) as H.
  destruct H as [_ H]; [reflexivity|unfold counts_positive; simpl; lia|].
  specialize (H eq_refl eq_refl eq_refl eq_refl).
  destruct (handle _ degraded_machine). simpl. exact (proj1 H).
Defined.

(** The counters stay below the thresholds that consume them, in every
    reachable state, and are all zero outside [healthy] and [degraded]: no
    counter that is compared ever wraps around. *)
Theorem counters_bounded (c : ProtectionConfig) (es : list Event) (Hc : config_ok c) :
  let m := handle_all es (machine_init c) in
  (0 ≤ offline_count_ m ∧ below (offline_count_ m) (offline_samples c)) ∧
  (0 ≤ critical_count_ m ∧ below (critical_count_ m) (critical_samples c)) ∧
  (0 ≤ recovery_count_ m ∧ below (recovery_count_ m) (recovery_samples c)) ∧
  (0 ≤ warning_count_ m ∧ (state_ m = healthy → below (warning_count_ m) (warning_samples c))) ∧
  (active (state_ m) = false →
   offline_count_ m = 0 ∧ critical_count_ m = 0 ∧ recovery_count_ m = 0 ∧ warning_count_ m = 0).
Proof.
  intros m. destruct (reachable_refines c es Hc) as [_ Hs _ Hw [Ho Hob] [Hcr Hcb] Hwc Hwb [Hr Hrb]].
  fold m in Hs, Ho, Hob, Hcr, Hcb, Hwc, Hr, Hrb. set (h := spec_all c es history_init) in *.
  pose proof (run_length_nonneg offline_sample (h_window h)).
  pose proof (run_length_nonneg (critical_sample c) (h_window h)).
  pose proof (run_length_nonneg (recovered_sample c) (h_window h)).
  pose proof (run_length_nonneg (warning_sample c) (h_window h)).
  pose proof (Z.mod_pos_bound (run_length (warning_sample c) (h_window h)) u64_modulus eq_refl).
  pose proof (Z.mod_le (run_length (warning_sample c) (h_window h)) u64_modulus).
  rewrite Hs in *. split_and!; auto; try lia.
  - destruct (bool_decide _); lia.
  - intros Hh. specialize (Hwb Hh). unfold below in *. rewrite Hwc. lia.
  - intros Hact. rewrite (Hw Hact) in *. simpl in *. rewrite Ho, Hcr, Hr, Hwc.
    by destruct (bool_decide _).
Qed.

Definition warning_events : list Event :=
  [Event_startup; Event_self_test_passed]
  ++ (Event_sensor_sample <$> [hot_sample 85; hot_sample 80; hot_sample 80]).

Lemma counters_bounded_witness :
  below (critical_count_ (handle_all warning_events (machine_init default_config)))
    (critical_samples default_config).
Proof.
  exact (proj2 (proj1 (proj2 (counters_bounded default_config warning_events
    default_config_ok)))).
Defined.

(** Two consecutive critical samples do not always latch the fault: when the
    first of them completes the run of warnings, the transition to [degraded]
    clears the critical count, and the default machine is still [degraded]
    after both, with a critical count of one. *)
Theorem two_criticals_may_only_degrade :
  let m := handle_all
    ([Event_startup; Event_self_test_passed]
     ++ (Event_sensor_sample <$> [hot_sample 85; hot_sample 85; hot_sample 105; hot_sample 105]))
    (machine_init default_config) in
  state_ m = degraded ∧ critical_count_ m = 1 ∧
  is_critical default_config (hot_sample 105) = true ∧ critical_samples default_config = 2.
Proof. vm_compute. auto. Qed.

(** An internal fault latches the machine even while it boots or tests itself. *)
Theorem internal_fault_while_booting (c : ProtectionConfig) :
  state_ (fst (handle Event_internal_fault (machine_init c))) = fault_latched ∧
  state_ (fst (handle Event_internal_fault
    (fst (handle Event_startup (machine_init c))))) = fault_latched.
Proof. split; reflexivity. Qed.
