(* ===== verification/Pool.v ===== *)
(** * The fixed object pool

    [include/edge_sentinel/memory/fixed_object_pool.hpp].  A pool is an array of
    slots; a slot holds raw storage (an object of type [T] when one is alive),
    the index of the next free slot and the [occupied] flag.  Pointers are
    addresses: the object of slot [i] lives at [slots_base + i * slot_size]
    (storage is the first member of [Slot]), and [0] is [nullptr].  Each public
    operation runs under [mutex_], so it is one atomic step.  The statistics are
    [std::size_t]; their increments wrap.

    The second half is the abstract allocator (a finite map of live objects and a
    LIFO list of free slots) and the simulation between the two. *)
From S2P Require Import Prelude.
From stdpp Require Export gmap.

Local Open Scope Z_scope.

(** ** Data *)

Inductive PoolReleaseResult := released | foreign_pointer | double_release.

Record PoolStats := MkPoolStats {
  capacity : Z;
  in_use : Z;
  high_watermark : Z;
  successful_allocations : Z;
  successful_releases : Z;
  allocation_failures : Z;
  invalid_releases : Z
}.

(** The template arguments and the layout the compiler chose. *)
Record PoolLayout := MkLayout {
  Capacity : nat;
  slots_base : Z;      (* address of [slots_[0].storage] *)
  slot_size : Z        (* [sizeof(Slot)] *)
}.

Definition kNoSlot (L : PoolLayout) : nat := Capacity L.

(** [static_assert(Capacity > 0)]; [Capacity] is a [std::size_t]; the array has
    a non-null address and slots of positive size. *)
Definition layout_ok (L : PoolLayout) : Prop :=
  (0 < Capacity L)%nat ∧ Z.of_nat (Capacity L) < u64_modulus ∧
  0 < slots_base L ∧ 0 < slot_size L.

Section Pool.
Context {T : Type} (L : PoolLayout).

Record Slot := MkSlot {
  storage : option T;
  next : nat;
  occupied : bool
}.

Record FixedObjectPool := MkPool {
  slots_ : list Slot;
  free_head_ : nat;
  stats_ : PoolStats
}.

(** [slots_[index].object()] *)
Definition slot_object (index : nat) : Z := slots_base L + Z.of_nat index * slot_size L.

Definition set_next (n : nat) (s : Slot) : Slot := MkSlot (storage s) n (occupied s).

(** The constructor: the loop that links every slot to its successor, then the
    last slot to [kNoSlot]. *)
Definition pool_init : FixedObjectPool :=
  let slots := replicate (Capacity L) (MkSlot None (kNoSlot L) false) in
  let slots := foldl (λ slots index, alter (set_next (index + 1)) index slots)
                 slots (seq 0 (Capacity L)) in
  let slots := alter (set_next (kNoSlot L)) (Capacity L - 1)%nat slots in
  MkPool slots 0 (MkPoolStats 0 0 0 0 0 0 0).

(** [Handle]: [pool_] is either this pool or null. *)
Record Handle := MkHandle {
  pool_ : bool;
  object_ : Z
}.

Definition empty_handle : Handle := MkHandle false 0.

(** [Handle::operator bool] *)
Definition handle_valid (h : Handle) : bool := negb (object_ h =? 0).

(** [try_create(arguments...)].  [object] is what [std::construct_at] produces
    from the arguments, [None] when the constructor of [T] throws; the result is
    [None] when the exception leaves [try_create]. *)
Definition try_create (object : option T) (p : FixedObjectPool)
    : FixedObjectPool * option Handle :=
  let st := stats_ p in
  if (free_head_ p =? kNoSlot L)%nat then
    (MkPool (slots_ p) (free_head_ p)
       (MkPoolStats (capacity st) (in_use st) (high_watermark st)
          (successful_allocations st) (successful_releases st)
          (u64_incr (allocation_failures st)) (invalid_releases st)),
     Some empty_handle)
  else
    match slots_ p !! free_head_ p, object with
    | Some slot, Some v =>
        let index := free_head_ p in
        let head := next slot in
        let slots := <[index := MkSlot (Some v) (kNoSlot L) true]> (slots_ p) in
        let used := u64_incr (in_use st) in
        let high := if high_watermark st <? used then used else high_watermark st in
        (MkPool slots head
           (MkPoolStats (capacity st) used high
              (u64_incr (successful_allocations st)) (successful_releases st)
              (allocation_failures st) (invalid_releases st)),
         Some (MkHandle true (slot_object index)))
    | Some _, None => (p, None)
    | None, _ => (p, None)     (* out of bounds: excluded by the invariant *)
    end.

(** The scan of [find_slot]: [n] slots remain from [index] on. *)
Fixpoint find_slot_loop (object : Z) (n index : nat) : nat :=
  match n with
  | O => kNoSlot L
  | S n => if slot_object index =? object then index
           else find_slot_loop object n (index + 1)
  end.

Definition find_slot (object : Z) : nat :=
  if object =? 0 then kNoSlot L else find_slot_loop object (Capacity L) 0.

Definition count_invalid_release (st : PoolStats) : PoolStats :=
  MkPoolStats (capacity st) (in_use st) (high_watermark st) (successful_allocations st)
    (successful_releases st) (allocation_failures st) (u64_incr (invalid_releases st)).

Definition destroy (object : Z) (p : FixedObjectPool) : FixedObjectPool * PoolReleaseResult :=
  let st := stats_ p in
  let index := find_slot object in
  if (index =? kNoSlot L)%nat then
    (MkPool (slots_ p) (free_head_ p) (count_invalid_release st), foreign_pointer)
  else
    match slots_ p !! index with
    | Some slot =>
        if negb (occupied slot) then
          (MkPool (slots_ p) (free_head_ p) (count_invalid_release st), double_release)
        else
          (MkPool (<[index := MkSlot None (free_head_ p) false]> (slots_ p)) index
             (MkPoolStats (capacity st) (u64_decr (in_use st)) (high_watermark st)
                (successful_allocations st) (u64_incr (successful_releases st))
                (allocation_failures st) (invalid_releases st)),
           released)
    | None => (p, foreign_pointer)   (* out of bounds: excluded by [find_slot] *)
    end.

(** [stats()] and [outstanding()]. *)
Definition pool_stats (p : FixedObjectPool) : PoolStats :=
  let st := stats_ p in
  MkPoolStats (Z.of_nat (Capacity L)) (in_use st) (high_watermark st)
    (successful_allocations st) (successful_releases st)
    (allocation_failures st) (invalid_releases st).

Definition outstanding (p : FixedObjectPool) : Z := in_use (pool_stats p).

(** [*handle], [handle->]: the object a pointer designates. *)
Definition deref (object : Z) (p : FixedObjectPool) : option T :=
  slots_ p !! find_slot object ≫= storage.

(** The loop of the destructor from [index] on: the slots, and the objects it has
    destroyed. *)
Fixpoint pool_finalize_loop (slots : list Slot) (index : nat) : list Slot * list Z :=
  match slots with
  | [] => ([], [])
  | slot :: rest =>
      let '(rest, destroyed) := pool_finalize_loop rest (index + 1) in
      if occupied slot
      then (MkSlot None (next slot) (occupied slot) :: rest, slot_object index :: destroyed)
      else (slot :: rest, destroyed)
  end.

Definition pool_finalize (p : FixedObjectPool) : FixedObjectPool * list Z :=
  let '(slots, destroyed) := pool_finalize_loop (slots_ p) 0 in
  (MkPool slots (free_head_ p) (stats_ p), destroyed).

(** ** [Handle] operations

    A handle operation may release its object into the pool, so it takes and
    returns the pool. *)

Definition handle_reset (h : Handle) (p : FixedObjectPool) : FixedObjectPool * Handle :=
  let object := object_ h in
  let pool := pool_ h in
  let h := empty_handle in
  if negb (object =? 0) && pool then (fst (destroy object p), h) else (p, h).

(** [Handle(Handle&& other)]: the new handle and what is left in [other]. *)
Definition handle_move (other : Handle) : Handle * Handle := (other, empty_handle).

(** [*this = std::move(other)] for two distinct objects: [this], [other]. *)
Definition handle_move_assign (this other : Handle) (p : FixedObjectPool)
    : FixedObjectPool * Handle * Handle :=
  let '(p, this) := handle_reset this p in
  (p, other, empty_handle).

(** [release()]: the raw pointer leaves the handle. *)
Definition handle_release (h : Handle) : Handle * Z := (empty_handle, object_ h).

(** ** The abstract allocator *)

Record Allocator := MkAllocator {
  live : gmap nat T;
  free : list nat
}.

Definition alloc_init : Allocator := MkAllocator ∅ (seq 0 (Capacity L)).

(** The slot a pointer designates, by arithmetic. *)
Definition slot_of (object : Z) : option nat :=
  let d := object - slots_base L in
  let i := Z.to_nat (d / slot_size L) in
  if bool_decide (0 ≤ d) && (d mod slot_size L =? 0) && bool_decide (i < Capacity L)%nat
  then Some i else None.

Definition alloc_create (object : option T) (a : Allocator) : Allocator * option Handle :=
  match free a, object with
  | [], _ => (a, Some empty_handle)
  | _ :: _, None => (a, None)
  | i :: f, Some v => (MkAllocator (<[i := v]> (live a)) f, Some (MkHandle true (slot_object i)))
  end.

Definition alloc_destroy (object : Z) (a : Allocator) : Allocator * PoolReleaseResult :=
  match slot_of object with
  | None => (a, foreign_pointer)
  | Some i =>
      match live a !! i with
      | None => (a, double_release)
      | Some _ => (MkAllocator (delete i (live a)) (i :: free a), released)
      end
  end.

End Pool.

Arguments Slot : clear implicits.
Arguments FixedObjectPool : clear implicits.
Arguments Allocator : clear implicits.

(** ** The representation invariant *)

Section Repr.
Context {T : Type} (L : PoolLayout).
Implicit Types (p : FixedObjectPool T) (a : Allocator T) (sl : list (Slot T)).

(** The free list: the indices met from [head] along [next], up to [kNoSlot]. *)
Fixpoint chain (sl : list (Slot T)) (head : nat) (l : list nat) : Prop :=
  match l with
  | [] => head = kNoSlot L
  | i :: l => head = i ∧ ∃ s, sl !! i = Some s ∧ chain sl (next s) l
  end.

(** A slot and the abstract state agree: it is on the free list exactly when it
    is not occupied, and then holds no object. *)
Definition slot_agrees (a : Allocator T) (i : nat) (s : Slot T) : Prop :=
  storage s = live a !! i ∧
  (occupied s = true ↔ is_Some (live a !! i)) ∧
  (i ∈ free a ↔ live a !! i = None).

Record stats_agree (st : PoolStats) (a : Allocator T) : Prop := {
  sa_in_use : in_use st = Z.of_nat (size (live a));
  sa_high : in_use st ≤ high_watermark st ≤ Z.of_nat (Capacity L);
  sa_balance : (successful_allocations st - successful_releases st) mod u64_modulus
               = in_use st mod u64_modulus
}.

Record pool_repr (p : FixedObjectPool T) (a : Allocator T) : Prop := {
  pr_length : length (slots_ p) = Capacity L;
  pr_chain : chain (slots_ p) (free_head_ p) (free a);
  pr_nodup : NoDup (free a);
  pr_slots : ∀ i s, slots_ p !! i = Some s → slot_agrees a i s;
  pr_live : ∀ i, is_Some (live a !! i) → (i < Capacity L)%nat;
  pr_size : (size (live a) + length (free a))%nat = Capacity L;
  pr_stats : stats_agree (stats_ p) a
}.

(** *** The free list and updates outside of it *)

Lemma chain_insert_other sl (head i : nat) (l : list nat) (s : Slot T) :
  i ∉ l → chain sl head l → chain (<[i := s]> sl) head l.
Proof.
  revert head. induction l as [|j l IH]; intros head Hi; simpl; [done|].
  intros [-> (s' & Hs & Hc)]. apply not_elem_of_cons in Hi as [Hne Hi].
  split; [done|]. exists s'. rewrite list_lookup_insert_ne by done. auto.
Qed.

Lemma chain_bound sl (head : nat) (l : list nat) :
  length sl = Capacity L → chain sl head l → Forall (λ i, (i < Capacity L)%nat) l.
Proof.
  intros Hl. revert head. induction l as [|j l IH]; intros head; simpl; [constructor|].
  intros [-> (s & Hs & Hc)]. constructor; eauto. rewrite <- Hl. by eapply lookup_lt_Some.
Qed.

(** *** Addresses *)

Hypothesis HL : layout_ok L.

Lemma slot_object_inj (i j : nat) : slot_object L i = slot_object L j → i = j.
Proof. destruct HL as (_ & _ & _ & Hs). unfold slot_object. intros. nia. Qed.

Lemma slot_object_pos (i : nat) : 0 < slot_object L i.
Proof. destruct HL as (_ & _ & Hb & Hs). unfold slot_object. nia. Qed.

Lemma find_slot_loop_spec (object : Z) (n index : nat) :
  (index + n = Capacity L)%nat →
  let r := find_slot_loop L object n index in
  ((index ≤ r < Capacity L)%nat ∧ slot_object L r = object) ∨
  (r = kNoSlot L ∧ ∀ i, (index ≤ i < Capacity L)%nat → slot_object L i ≠ object).
Proof.
  revert index. induction n as [|n IH]; intros index Hn; simpl.
  { right. split; [done|]. intros. lia. }
  destruct (Z.eqb_spec (slot_object L index) object) as [He|He].
  { left. split; [lia|done]. }
  specialize (IH (index + 1)%nat ltac:(lia)) as [[Hb Hr]|[Hr Hn']].
  - left. split; [lia|done].
  - right. split; [done|]. intros i Hi.
    destruct (decide (i = index)) as [->|]; [done|]. apply Hn'. lia.
Qed.

(** The linear scan finds the slot with the given address. *)
Lemma find_slot_object (i : nat) :
  (i < Capacity L)%nat → find_slot L (slot_object L i) = i.
Proof.
  intros Hi. unfold find_slot.
  destruct (Z.eqb_spec (slot_object L i) 0) as [He|_]; [pose proof (slot_object_pos i); lia|].
  destruct (find_slot_loop_spec (slot_object L i) (Capacity L) 0 eq_refl) as [[_ Hr]|[_ Hn]].
  - by apply slot_object_inj.
  - exfalso. by apply (Hn i); [lia|].
Qed.

Lemma slot_of_object (i : nat) :
  (i < Capacity L)%nat → slot_of L (slot_object L i) = Some i.
Proof.
  intros Hi. destruct HL as (_ & _ & Hb & Hs). unfold slot_of, slot_object.
  replace (slots_base L + Z.of_nat i * slot_size L - slots_base L)
    with (Z.of_nat i * slot_size L) by lia.
  rewrite Z.div_mul, Z.mod_mul, Nat2Z.id by lia.
  by rewrite !bool_decide_eq_true_2 by nia.
Qed.

Lemma slot_of_Some (object : Z) (i : nat) :
  slot_of L object = Some i → (i < Capacity L)%nat ∧ object = slot_object L i.
Proof.
  destruct HL as (_ & _ & Hb & Hs). unfold slot_of, slot_object.
  destruct (bool_decide_reflect (0 ≤ object - slots_base L)) as [Hd|]; [|done].
  destruct (Z.eqb_spec ((object - slots_base L) mod slot_size L) 0) as [Hm|]; [|done].
  case_bool_decide as Hi; simpl; [|done]. intros [= <-]. split; [done|].
  rewrite Z2Nat.id by (apply Z.div_pos; lia).
  pose proof (Z.div_mod (object - slots_base L) (slot_size L)). lia.
Qed.

(** The scan of the code and the arithmetic of the specification agree. *)
Lemma find_slot_slot_of (object : Z) :
  find_slot L object = default (kNoSlot L) (slot_of L object).
Proof.
  destruct (slot_of L object) as [i|] eqn:Ho; simpl.
  { apply slot_of_Some in Ho as [Hi ->]. by apply find_slot_object. }
  unfold find_slot. destruct (Z.eqb_spec object 0); [done|].
  destruct (find_slot_loop_spec object (Capacity L) 0 eq_refl) as [[Hb Hr]|[-> _]]; [|done].
  rewrite <- Hr, slot_of_object in Ho by lia. discriminate.
Qed.

(** *** The constructor *)

Lemma init_links (sl : list (Slot T)) (n k : nat) :
  (k + n ≤ length sl)%nat →
  ∀ i, foldl (λ sl index, alter (set_next (index + 1)) index sl) sl (seq k n) !! i
       = (if decide (k ≤ i < k + n)%nat then set_next (i + 1) <$> sl !! i else sl !! i).
Proof.
  revert sl k. induction n as [|n IH]; intros sl k Hk i; simpl.
  { rewrite decide_False by lia. done. }
  rewrite IH by (rewrite length_alter; lia).
  destruct (decide (i = k)) as [->|Hne].
  - rewrite decide_False, decide_True by lia. by rewrite list_lookup_alter_eq.
  - rewrite list_lookup_alter_ne by done.
    by destruct (decide (S k ≤ i < S k + n)%nat), (decide (k ≤ i < k + S n)%nat); try lia.
Qed.

Lemma init_slots (i : nat) :
  (i < Capacity L)%nat → slots_ (pool_init (T:=T) L) !! i = Some (MkSlot None (S i) false).
Proof.
  intros Hi. simpl. set (sl := foldl _ _ _).
  assert (Hsl : ∀ j, (j < Capacity L)%nat → sl !! j = Some (MkSlot (T:=T) None (j + 1) false)).
  { intros j Hj. unfold sl. rewrite init_links by (rewrite length_replicate; lia).
    rewrite decide_True by lia. by rewrite lookup_replicate_2. }
  destruct (decide (i = Capacity L - 1)%nat) as [->|Hne].
  - rewrite list_lookup_alter_eq, Hsl by lia. simpl. unfold set_next, kNoSlot. simpl.
    do 2 f_equal. lia.
  - rewrite list_lookup_alter_ne, Hsl by (done || lia). do 2 f_equal. lia.
Qed.

Lemma foldl_alter_length (sl : list (Slot T)) (l : list nat) :
  length (foldl (λ sl index, alter (set_next (index + 1)) index sl) sl l) = length sl.
Proof. revert sl. induction l; intros; simpl; [done|]. by rewrite IHl, length_alter. Qed.

Lemma init_length : length (slots_ (pool_init (T:=T) L)) = Capacity L.
Proof. simpl. by rewrite length_alter, foldl_alter_length, length_replicate. Qed.

Lemma init_chain (k n : nat) :
  (k + n = Capacity L)%nat → chain (slots_ (pool_init L)) k (seq k n).
Proof.
  revert k. induction n as [|n IH]; intros k Hk; simpl; [unfold kNoSlot; lia|].
  split; [done|]. eexists. split; [apply init_slots; lia|]. simpl. apply IH. lia.
Qed.

Lemma pool_init_repr : pool_repr (pool_init L) (alloc_init L).
Proof.
  split.
  - apply init_length.
  - apply (init_chain 0 (Capacity L)). lia.
  - apply NoDup_seq.
  - intros i s Hs. assert (i < Capacity L)%nat as Hi.
    { rewrite <- init_length. by eapply lookup_lt_Some. }
    rewrite init_slots in Hs by done. simplify_eq. unfold slot_agrees. simpl.
    rewrite lookup_empty, elem_of_seq. split; [done|split].
    + by split; [|intros [? ?]].
    + split; [done|lia].
  - intros i [? Hi]. simpl in Hi. by rewrite lookup_empty in Hi.
  - simpl. rewrite map_size_empty, length_seq. lia.
  - split; simpl; rewrite ?map_size_empty; try done; lia.
Qed.

(** *** Simulation of the operations *)

(** Reporting a failure changes the statistics only. *)
Lemma repr_stats p a (st : PoolStats) :
  pool_repr p a → stats_agree st a →
  pool_repr (MkPool (slots_ p) (free_head_ p) st) a.
Proof. intros [] Hst. by split. Qed.

Lemma free_slot p a (i : nat) (f : list nat) :
  pool_repr p a → free a = i :: f →
  free_head_ p = i ∧ (i < Capacity L)%nat ∧ live a !! i = None ∧
  ∃ s, slots_ p !! i = Some s ∧ chain (slots_ p) (next s) f.
Proof.
  intros Hr Hf. pose proof (pr_chain _ _ Hr) as Hc. rewrite Hf in Hc.
  destruct Hc as [Hh (s & Hs & Hc)]. split; [done|].
  assert (i < Capacity L)%nat by (rewrite <- (pr_length _ _ Hr); by eapply lookup_lt_Some).
  split_and!; eauto. apply (pr_slots _ _ Hr i s Hs). rewrite Hf. left.
Qed.

Lemma stats_agree_create (st : PoolStats) a (i : nat) (v : T) (f : list nat) :
  stats_agree st a → live a !! i = None → (size (live a) < Capacity L)%nat →
  let used := u64_incr (in_use st) in
  let high := if high_watermark st <? used then used else high_watermark st in
  stats_agree (MkPoolStats (capacity st) used high (u64_incr (successful_allocations st))
                 (successful_releases st) (allocation_failures st) (invalid_releases st))
    (MkAllocator (<[i := v]> (live a)) f).
Proof.
  intros [Hu Hh Hb] Hi Hs. destruct HL as (_ & HC & _ & _).
  assert (Hinc : u64_incr (in_use st) = in_use st + 1) by (apply u64_incr_small; lia).
  split; simpl; rewrite Hinc.
  - rewrite map_size_insert_None by done. lia.
  - destruct (Z.ltb_spec (high_watermark st) (in_use st + 1)); lia.
  - unfold u64_incr. rewrite Zminus_mod_idemp_l.
    replace (successful_allocations st + 1 - successful_releases st)
      with (successful_allocations st - successful_releases st + 1) by lia.
    rewrite <- Zplus_mod_idemp_l, Hb. apply Zplus_mod_idemp_l.
Qed.

Lemma try_create_repr (object : option T) p a :
  pool_repr p a →
  let '(p', r) := try_create L object p in
  let '(a', r') := alloc_create L object a in
  r = r' ∧ pool_repr p' a'.
Proof.
  intros Hr. unfold try_create, alloc_create. destruct (free a) as [|i f] eqn:Hf.
  { pose proof (pr_chain _ _ Hr) as Hc. rewrite Hf in Hc. simpl in Hc.
    rewrite Hc, Nat.eqb_refl. split; [done|]. rewrite <- Hc. apply repr_stats; [done|].
    destruct (pr_stats _ _ Hr). by split. }
  destruct (free_slot p a i f Hr Hf) as (Hh & Hi & Hlive & s & Hs & Hc).
  rewrite Hh, Hs. destruct (Nat.eqb_spec i (kNoSlot L)) as [He|_]; [unfold kNoSlot in He; lia|].
  destruct object as [v|]; [|done]. split; [done|].
  pose proof (pr_nodup _ _ Hr) as Hnd. rewrite Hf in Hnd. apply NoDup_cons in Hnd as [Hif Hnd].
  pose proof (pr_size _ _ Hr) as Hsz. rewrite Hf in Hsz. simpl in Hsz.
  split; simpl.
  - rewrite length_insert. apply Hr.
  - by apply chain_insert_other.
  - done.
  - intros j sj Hj. destruct (decide (j = i)) as [->|Hne].
    + rewrite list_lookup_insert_eq in Hj by (rewrite (pr_length _ _ Hr); done).
      simplify_eq. unfold slot_agrees. simpl. rewrite lookup_insert_eq. by split_and!.
    + rewrite list_lookup_insert_ne in Hj by done.
      destruct (pr_slots _ _ Hr j sj Hj) as (H1 & H2 & H3). unfold slot_agrees. simpl.
      rewrite lookup_insert_ne by done. rewrite Hf, elem_of_cons in H3.
      split; [done|]. split; [done|]. rewrite <- H3. split; [by right|]. by intros [->|?].
  - intros j [x Hj]. apply lookup_insert_Some in Hj as [[<- _]|[_ Hj]]; [done|].
    apply (pr_live _ _ Hr). eauto.
  - rewrite map_size_insert_None by done. lia.
  - apply stats_agree_create; [apply Hr|done|lia].
Qed.

Lemma stats_agree_destroy (st : PoolStats) a (i : nat) (x : T) (f : list nat) :
  stats_agree st a → live a !! i = Some x → (size (live a) ≤ Capacity L)%nat →
  stats_agree (MkPoolStats (capacity st) (u64_decr (in_use st)) (high_watermark st)
                 (successful_allocations st) (u64_incr (successful_releases st))
                 (allocation_failures st) (invalid_releases st))
    (MkAllocator (delete i (live a)) f).
Proof.
  intros [Hu Hh Hb] Hi Hs. destruct HL as (_ & HC & _ & _).
  assert (Hpos : (size (live a) ≠ 0)%nat) by (apply (map_size_ne_0_lookup_2 _ i); eauto).
  assert (Hdec : u64_decr (in_use st) = in_use st - 1) by (apply u64_decr_small; lia).
  split; simpl; rewrite Hdec.
  - rewrite map_size_delete_Some by eauto. lia.
  - lia.
  - unfold u64_incr. rewrite Zminus_mod_idemp_r.
    replace (successful_allocations st - (successful_releases st + 1))
      with (successful_allocations st - successful_releases st - 1) by lia.
    rewrite <- Zminus_mod_idemp_l, Hb. apply Zminus_mod_idemp_l.
Qed.

Lemma destroy_repr (object : Z) p a :
  pool_repr p a →
  let '(p', r) := destroy L object p in
  let '(a', r') := alloc_destroy L object a in
  r = r' ∧ pool_repr p' a'.
Proof.
  intros Hr. unfold destroy, alloc_destroy. rewrite find_slot_slot_of.
  assert (Hbad : stats_agree (count_invalid_release (stats_ p)) a)
    by (destruct (pr_stats _ _ Hr); by split).
  destruct (slot_of L object) as [i|] eqn:Ho; simpl.
  2:{ rewrite Nat.eqb_refl. split; [done|]. by apply repr_stats. }
  apply slot_of_Some in Ho as [Hi _].
  destruct (Nat.eqb_spec i (kNoSlot L)) as [He|_]; [unfold kNoSlot in He; lia|].
  destruct (slots_ p !! i) as [s|] eqn:Hs.
  2:{ apply lookup_ge_None in Hs. rewrite (pr_length _ _ Hr) in Hs. lia. }
  destruct (pr_slots _ _ Hr i s Hs) as (_ & Hocc & Hfree).
  destruct (live a !! i) as [x|] eqn:Hx.
  2:{ destruct (occupied s); [destruct (proj1 Hocc eq_refl); done|].
      split; [done|]. by apply repr_stats. }
  rewrite (proj2 Hocc) by eauto. split; [done|].
  pose proof (pr_size _ _ Hr) as Hsz.
  assert (Hnf : i ∉ free a) by (rewrite Hfree; congruence).
  assert (Hpos : (size (live a) ≠ 0)%nat) by (apply (map_size_ne_0_lookup_2 _ i); eauto).
  split; simpl.
  - rewrite length_insert. apply Hr.
  - split; [done|]. eexists. rewrite list_lookup_insert_eq by (rewrite (pr_length _ _ Hr); done).
    split; [done|]. apply chain_insert_other; [done|apply Hr].
  - apply NoDup_cons. split; [done|apply Hr].
  - intros j sj Hj. destruct (decide (j = i)) as [->|Hne].
    + rewrite list_lookup_insert_eq in Hj by (rewrite (pr_length _ _ Hr); done).
      simplify_eq. unfold slot_agrees. simpl. rewrite lookup_delete_eq, elem_of_cons.
      split; [done|split; [by split; [|intros [? ?]]|split; auto]].
    + rewrite list_lookup_insert_ne in Hj by done.
      destruct (pr_slots _ _ Hr j sj Hj) as (H1 & H2 & H3). unfold slot_agrees. simpl.
      rewrite lookup_delete_ne, elem_of_cons by done.
      split; [done|]. split; [done|]. rewrite <- H3. split; [by intros [->|?]|by right].
  - intros j [y Hj]. apply lookup_delete_Some in Hj as [_ Hj]. apply (pr_live _ _ Hr). eauto.
  - rewrite map_size_delete_Some by eauto. lia.
  - eapply stats_agree_destroy; [apply Hr|done|lia].
Qed.

End Repr.
