(* ===== verification/PoolProps.v ===== *)
(** * Properties of the fixed object pool and of its handles

    Sequences of pool operations against the abstract allocator, the functional
    behaviour of [try_create] and [destroy] on every branch, the statistics, and
    the ownership discipline of [Handle]: programs that move, reset, release and
    destroy handles in any order never release a slot twice and lose none. *)
From S2P Require Import Prelude Pool.

Local Open Scope Z_scope.

Section Traces.
Context {T : Type} (L : PoolLayout).

Inductive PoolOp :=
| OpCreate (object : option T)      (* [try_create]; [None]: the constructor throws *)
| OpDestroy (object : Z).           (* [destroy] on any pointer *)

Definition PoolResult : Type := option Handle + PoolReleaseResult.

Definition pool_step (op : PoolOp) (p : FixedObjectPool T) : FixedObjectPool T * PoolResult :=
  match op with
  | OpCreate object => let '(p, r) := try_create L object p in (p, inl r)
  | OpDestroy object => let '(p, r) := destroy L object p in (p, inr r)
  end.

Definition alloc_step (op : PoolOp) (a : Allocator T) : Allocator T * PoolResult :=
  match op with
  | OpCreate object => let '(a, r) := alloc_create L object a in (a, inl r)
  | OpDestroy object => let '(a, r) := alloc_destroy L object a in (a, inr r)
  end.

Definition pool_after (ops : list PoolOp) : FixedObjectPool T := fst (run pool_step ops (pool_init L)).
Definition alloc_after (ops : list PoolOp) : Allocator T := fst (run alloc_step ops (alloc_init L)).

Lemma pool_step_repr (op : PoolOp) (p : FixedObjectPool T) (a : Allocator T) :
  layout_ok L → pool_repr L p a →
  snd (pool_step op p) = snd (alloc_step op a) ∧
  pool_repr L (fst (pool_step op p)) (fst (alloc_step op a)).
Proof.
  intros HL Hr. destruct op as [object|object]; simpl.
  - pose proof (try_create_repr L HL object p a Hr) as H.
    destruct (try_create L object p), (alloc_create L object a), H as [-> H]. auto.
  - pose proof (destroy_repr L HL object p a Hr) as H.
    destruct (destroy L object p), (alloc_destroy L object a), H as [-> H]. auto.
Qed.

Lemma pool_run_repr (ops : list PoolOp) (p : FixedObjectPool T) (a : Allocator T) :
  layout_ok L → pool_repr L p a →
  snd (run pool_step ops p) = snd (run alloc_step ops a) ∧
  pool_repr L (fst (run pool_step ops p)) (fst (run alloc_step ops a)).
Proof. intros HL. apply run_simulation. intros. by apply pool_step_repr. Qed.

Lemma pool_after_repr (ops : list PoolOp) :
  layout_ok L → pool_repr L (pool_after ops) (alloc_after ops).
Proof. intros HL. by apply pool_run_repr, pool_init_repr. Qed.

(** What a pointer designates, in terms of the allocator. *)
Lemma deref_live (p : FixedObjectPool T) (a : Allocator T) (object : Z) :
  layout_ok L → pool_repr L p a →
  deref L object p = slot_of L object ≫= λ i, live a !! i.
Proof.
  intros HL Hr. unfold deref. rewrite find_slot_slot_of by done.
  destruct (slot_of L object) as [i|] eqn:Ho; simpl.
  - apply slot_of_Some in Ho as [Hi _]; [|done].
    destruct (slots_ p !! i) as [s|] eqn:Hs; simpl.
    + apply (pr_slots _ _ _ Hr i s Hs).
    + apply lookup_ge_None in Hs. rewrite (pr_length _ _ _ Hr) in Hs. lia.
  - unfold kNoSlot. rewrite lookup_ge_None_2; [done|]. by rewrite (pr_length _ _ _ Hr).
Qed.

Lemma deref_slot (p : FixedObjectPool T) (a : Allocator T) (i : nat) :
  layout_ok L → pool_repr L p a → (i < Capacity L)%nat →
  deref L (slot_object L i) p = live a !! i.
Proof. intros HL Hr Hi. rewrite (deref_live p a), slot_of_object by done. done. Qed.

Lemma slot_of_other (object : Z) (i j : nat) :
  layout_ok L → slot_of L object = Some j → object ≠ slot_object L i → i ≠ j.
Proof. intros HL [_ ->]%slot_of_Some Hne; [|done]. by intros ->. Qed.

End Traces.

Arguments PoolOp : clear implicits.

(** ** Claims on the pool *)

Section Claims.
Context {T : Type} (L : PoolLayout) (HL : layout_ok L).

(** C5: the intrusive free list implements the abstract allocator.  Every
    sequence of [try_create] and [destroy] calls on arbitrary pointers, from a
    fresh pool, returns exactly the results of a finite map of live objects with
    a LIFO list of free slots, and the arrays, the links and the flags of the
    pool represent that map at the end. *)
Theorem pool_implements_allocator (ops : list (PoolOp T)) :
  snd (run (pool_step L) ops (pool_init L)) = snd (run (alloc_step L) ops (alloc_init L)) ∧
  pool_repr L (pool_after L ops) (alloc_after L ops).
Proof. by apply pool_run_repr, pool_init_repr. Qed.

(** [try_create] in any reachable pool.  It returns an empty handle exactly
    when all slots are in use, counting a failure and changing nothing else; it
    lets a constructor exception through with the pool unchanged; otherwise the
    handle it returns points to an object that was not live before, holds the
    constructed value, and no other object is affected. *)
Theorem try_create_behaviour (ops : list (PoolOp T)) (object : option T) :
  let p := pool_after L ops in
  let '(p', r) := try_create L object p in
  (outstanding L p = Z.of_nat (Capacity L) →
     r = Some empty_handle ∧ slots_ p' = slots_ p ∧ free_head_ p' = free_head_ p ∧
     allocation_failures (stats_ p') = u64_incr (allocation_failures (stats_ p))) ∧
  (outstanding L p ≠ Z.of_nat (Capacity L) →
     match object with
     | None => r = None ∧ p' = p
     | Some v => ∃ q, r = Some (MkHandle true q) ∧ q ≠ 0 ∧
         deref L q p = None ∧ deref L q p' = Some v ∧
         outstanding L p' = outstanding L p + 1 ∧
         ∀ q', q' ≠ q → deref L q' p' = deref L q' p
     end).
Proof.
  intros p. set (a := alloc_after L ops).
  pose proof (pool_after_repr L ops HL : pool_repr L p a) as Hr.
  pose proof (try_create_repr L HL object p a Hr) as H.
  pose proof (pr_size _ _ _ Hr) as Hsz. pose proof (sa_in_use _ _ _ (pr_stats _ _ _ Hr)) as Hu.
  pose proof (pr_chain _ _ _ Hr) as Hc.
  destruct (free a) as [|i f] eqn:Hf.
  - unfold try_create. simpl in Hc, Hsz. rewrite Hc, Nat.eqb_refl. split; [auto|].
    unfold outstanding. simpl. lia.
  - destruct (free_slot L p a i f Hr Hf) as (_ & Hi & Hlive & _).
    unfold alloc_create in H. rewrite Hf in H.
    assert (Hne : outstanding L p ≠ Z.of_nat (Capacity L)).
    { unfold outstanding. simpl in *. lia. }
    destruct object as [v|].
    + destruct (try_create L (Some v) p) as [p' r], H as [-> Hr'].
      split; [done|]. intros _. exists (slot_object L i).
      pose proof (slot_object_pos L HL i).
      rewrite (deref_slot L p a i HL Hr Hi), (deref_slot L p' _ i HL Hr' Hi). simpl.
      rewrite lookup_insert_eq.
      split; [done|]. split; [lia|]. split; [done|]. split; [done|]. split.
      * unfold outstanding. simpl.
        rewrite (sa_in_use _ _ _ (pr_stats _ _ _ Hr')), Hu. simpl.
        rewrite map_size_insert_None by done. lia.
      * intros q' Hq. rewrite (deref_live L p a q' HL Hr), (deref_live L p' _ q' HL Hr').
        destruct (slot_of L q') as [j|] eqn:Hj; [|done]. simpl.
        by rewrite lookup_insert_ne by (by eapply slot_of_other).
    + assert (try_create L None p = (p, None)) as ->; [|done]. unfold try_create.
      destruct (free_slot L p a i f Hr Hf) as (-> & _ & _ & s & -> & _).
      destruct (Nat.eqb_spec i (kNoSlot L)) as [He|]; [unfold kNoSlot in He; lia|done].
Qed.

(** [destroy] in any reachable pool, on any pointer.  A pointer that is not
    the address of a slot is reported as foreign, the address of a slot without a
    live object as a double release; both count an invalid release and leave
    slots, free list and [in_use] alone.  The address of a live object is
    released: the object ends, every other object stays, and the slot is the one
    the next [try_create] uses. *)
Theorem destroy_behaviour (ops : list (PoolOp T)) (q : Z) :
  let p := pool_after L ops in
  let '(p', r) := destroy L q p in
  let rejected := slots_ p' = slots_ p ∧ free_head_ p' = free_head_ p ∧
    outstanding L p' = outstanding L p ∧
    invalid_releases (stats_ p') = u64_incr (invalid_releases (stats_ p)) in
  match slot_of L q with
  | None => r = foreign_pointer ∧ rejected
  | Some i =>
      match deref L q p with
      | None => r = double_release ∧ rejected
      | Some _ => r = released ∧ deref L q p' = None ∧ free_head_ p' = i ∧
          outstanding L p' = outstanding L p - 1 ∧
          invalid_releases (stats_ p') = invalid_releases (stats_ p) ∧
          ∀ q', q' ≠ q → deref L q' p' = deref L q' p
      end
  end.
Proof.
  intros p. set (a := alloc_after L ops).
  pose proof (pool_after_repr L ops HL : pool_repr L p a) as Hr.
  pose proof (destroy_repr L HL q p a Hr) as H.
  pose proof (sa_in_use _ _ _ (pr_stats _ _ _ Hr)) as Hu.
  destruct (slot_of L q) as [i|] eqn:Hq.
  2:{ unfold destroy. rewrite find_slot_slot_of, Hq by done. simpl.
      rewrite Nat.eqb_refl. done. }
  rewrite (deref_live L p a q HL Hr), Hq. simpl.
  destruct (slot_of_Some L HL q i Hq) as [Hi ->].
  unfold alloc_destroy in H. rewrite Hq in H.
  destruct (slots_ p !! i) as [s|] eqn:Hs.
  2:{ apply lookup_ge_None in Hs. rewrite (pr_length _ _ _ Hr) in Hs. lia. }
  destruct (pr_slots _ _ _ Hr i s Hs) as (_ & Hocc & _).
  assert (Hd : destroy L (slot_object L i) p = destroy L (slot_object L i) p) by done.
  unfold destroy in Hd at 2. rewrite find_slot_object, Hs in Hd by done.
  destruct (Nat.eqb_spec i (kNoSlot L)) as [He|_]; [unfold kNoSlot in He; lia|].
  destruct (live a !! i) as [x|] eqn:Hx.
  - rewrite (proj2 Hocc) in Hd by eauto. simpl in Hd.
    destruct (destroy L (slot_object L i) p) as [p' r], H as [-> Hr'].
    rewrite (deref_slot L p' _ i HL Hr' Hi). simpl. rewrite lookup_delete_eq.
    injection Hd as Hp'. split; [done|]. split; [done|]. split; [by rewrite Hp'|]. split.
    + unfold outstanding. simpl. rewrite (sa_in_use _ _ _ (pr_stats _ _ _ Hr')), Hu. simpl.
      rewrite map_size_delete_Some by eauto.
      assert (size (live a) ≠ 0)%nat by (apply (map_size_ne_0_lookup_2 _ i); eauto). lia.
    + split; [by rewrite Hp'|]. intros q' Hne.
      rewrite (deref_live L p a q' HL Hr), (deref_live L p' _ q' HL Hr').
      destruct (slot_of L q') as [j|] eqn:Hj; [|done]. simpl.
      by rewrite lookup_delete_ne by (by eapply slot_of_other).
  - destruct (occupied s); [destruct (proj1 Hocc eq_refl); done|].
    simpl in Hd. rewrite Hd. done.
Qed.

Lemma step_watermark (op : PoolOp T) (p : FixedObjectPool T) (a : Allocator T) :
  pool_repr L p a →
  let p' := fst (pool_step L op p) in
  high_watermark (stats_ p') = Z.max (high_watermark (stats_ p)) (in_use (stats_ p')).
Proof.
  intros Hr. pose proof (sa_high _ _ _ (pr_stats _ _ _ Hr)) as Hh.
  pose proof (sa_in_use _ _ _ (pr_stats _ _ _ Hr)) as Hu.
  destruct (pool_step_repr L op p a HL Hr) as [_ Hr'].
  pose proof (sa_high _ _ _ (pr_stats _ _ _ Hr')) as Hh'.
  destruct op as [[v|]|q]; revert Hh'; simpl; unfold try_create, destroy;
    repeat case_match; simpl; intros; simplify_eq; simpl in *; try lia.
Qed.

Lemma finalize_loop_spec (slots : list (Slot T)) (index : nat) :
  let '(slots', destroyed) := pool_finalize_loop L slots index in
  (∀ q, q ∈ destroyed ↔ ∃ i s, slots !! i = Some s ∧ occupied s = true ∧ q = slot_object L (index + i)) ∧
  NoDup destroyed ∧ Forall2 (λ s s', storage s' = if occupied s then None else storage s) slots slots'.
Proof.
  revert index. induction slots as [|s slots IH]; intros index; simpl.
  { split; [|by repeat constructor]. intros q. split; [by intros ?%not_elem_of_nil|]. by intros (i & s & Hi & _). }
  specialize (IH (index + 1)%nat). destruct (pool_finalize_loop L slots (index + 1)) as [slots' destroyed].
  destruct IH as (Hd & Hnd & Hs).
  assert (Hrest : ∀ q, q ∈ destroyed ↔ ∃ i s', (s :: slots) !! S i = Some s' ∧ occupied s' = true ∧
    q = slot_object L (index + S i)).
  { intros q. rewrite Hd. split; intros (i & s' & H1 & H2 & ->); exists i, s';
      (split_and!; [done|done|f_equal; lia]). }
  destruct (occupied s) eqn:Ho.
  - split_and!; [|constructor; [|done]|constructor; [by rewrite Ho|done]].
    + intros q. rewrite elem_of_cons, Hrest. split.
      * intros [->|(i & s' & H)]; [|by exists (S i), s']. exists 0%nat, s. by rewrite Nat.add_0_r.
      * intros ([|i] & s' & H1 & H2 & H3); [left; by rewrite Nat.add_0_r in H3|right; by exists i, s'].
    + rewrite Hrest. intros (i & s' & _ & _ & Hq). apply (slot_object_inj L HL) in Hq. lia.
  - split_and!; [|done|constructor; [by rewrite Ho|done]].
    intros q. rewrite Hrest. split; [intros (i & s' & H); by exists (S i), s'|].
    intros ([|i] & s' & H1 & H2 & H3); [simpl in H1; congruence|by exists i, s'].
Qed.

Lemma finalize_repr (p : FixedObjectPool T) (a : Allocator T) :
  pool_repr L p a →
  let '(p', destroyed) := pool_finalize L p in
  NoDup destroyed ∧ (∀ q, q ∈ destroyed ↔ is_Some (deref L q p)) ∧ Forall (λ s, storage s = None) (slots_ p').
Proof.
  intros Hr. unfold pool_finalize. pose proof (finalize_loop_spec (slots_ p) 0) as H.
  destruct (pool_finalize_loop L (slots_ p) 0) as [slots' destroyed]. destruct H as (Hd & Hnd & Hs).
  split; [done|]. split.
  - intros q. rewrite Hd, (deref_live L p a q HL Hr). split.
    + intros (i & s & Hi & Ho & ->). simpl.
      assert (HiC : (i < Capacity L)%nat) by (rewrite <- (pr_length _ _ _ Hr); by eapply lookup_lt_Some).
      rewrite slot_of_object by done. simpl. by apply (pr_slots _ _ _ Hr i s Hi).
    + intros [v Hv]. destruct (slot_of L q) as [i|] eqn:Hq; [|done]. simpl in Hv.
      apply slot_of_Some in Hq as [HiC ->]; [|done].
      destruct (lookup_lt_is_Some_2 (slots_ p) i) as [s Hi]; [by rewrite (pr_length _ _ _ Hr)|].
      exists i, s. split_and!; [done| |done]. apply (pr_slots _ _ _ Hr i s Hi). eauto.
  - simpl. apply Forall_lookup. intros i s' Hi'.
    destruct (Forall2_lookup_r _ _ _ _ _ Hs Hi') as (s & Hi & ->).
    destruct (pr_slots _ _ _ Hr i s Hi) as (Hst & Hocc & _). destruct (occupied s); [done|].
    rewrite Hst. destruct (live a !! i) eqn:Hl; [|done]. discriminate (proj2 Hocc (mk_is_Some _ _ eq_refl)).
Qed.

(** C6: the statistics mean what they say.  In any reachable pool [in_use] is
    the number of live objects, at most the capacity; successful allocations
    minus successful releases equal [in_use] modulo [2^64]; and
    [high_watermark] is the greatest value [in_use] has had so far.  The
    destructor destroys each of the live objects once and nothing else. *)
Theorem pool_statistics (ops : list (PoolOp T)) :
  let st := pool_stats L (pool_after L ops) in
  in_use st = Z.of_nat (size (live (alloc_after L ops))) ∧
  0 ≤ in_use st ≤ capacity st ∧
  (successful_allocations st - successful_releases st) mod u64_modulus = in_use st ∧
  (∀ k, outstanding L (pool_after L (take k ops)) ≤ high_watermark st) ∧
  (∃ k, outstanding L (pool_after L (take k ops)) = high_watermark st) ∧
  (let '(p', destroyed) := pool_finalize L (pool_after L ops) in
   NoDup destroyed ∧ (∀ q, q ∈ destroyed ↔ is_Some (deref L q (pool_after L ops))) ∧
   Forall (λ s, storage s = None) (slots_ p')).
Proof.
  pose proof (pool_after_repr L ops HL) as Hr. destruct (pr_stats _ _ _ Hr) as [Hu Hh Hb].
  pose proof (finalize_repr _ _ Hr) as Hf.
  simpl. split; [done|]. split; [lia|]. split.
  { rewrite Hb. apply Z.mod_small. destruct HL as (_ & ? & _). lia. }
  assert (Hpeak : ∀ P Q R : Prop, P ∧ Q → R → P ∧ Q ∧ R) by tauto. apply Hpeak; [|exact Hf].
  apply (run_peak (pool_step L) (pool_init L) (λ p, high_watermark (stats_ p)) (outstanding L));
    [done|]. intros ops' op. apply (step_watermark op _ _ (pool_after_repr L ops' HL)).
Qed.

End Claims.

(** A pool of two slots, for the witnesses. *)
Definition small_layout : PoolLayout := MkLayout 2 4096 32.

Lemma small_layout_ok : layout_ok small_layout.
Proof. unfold layout_ok. rewrite u64_modulus_val. simpl. lia. Qed.

Definition small_ops : list (PoolOp nat) :=
  [OpCreate (Some 11%nat); OpCreate (Some 22%nat); OpDestroy 4096; OpDestroy 4096; OpDestroy 7].

Lemma pool_implements_allocator_witness :
  layout_ok small_layout ∧
  snd (run (pool_step small_layout) small_ops (pool_init small_layout))
  = [inl (Some (MkHandle true 4096)); inl (Some (MkHandle true 4128));
     inr released; inr double_release; inr foreign_pointer].
Proof.
  split; [exact small_layout_ok|].
  rewrite (proj1 (pool_implements_allocator small_layout small_layout_ok small_ops)).
  reflexivity.
Defined.

Lemma try_create_behaviour_witness :
  layout_ok small_layout ∧
  snd (try_create small_layout (Some 33%nat) (pool_after small_layout (take 2 small_ops)))
  = Some empty_handle.
Proof.
  split; [exact small_layout_ok|].
  pose proof (try_create_behaviour small_layout small_layout_ok (take 2 small_ops) (Some 33%nat)) as H.
  cbv zeta in H. destruct (try_create _ _ _) as [p' r].
  exact (proj1 (proj1 H eq_refl)).
Defined.

Lemma destroy_behaviour_witness :
  layout_ok small_layout ∧
  snd (destroy small_layout 4128 (pool_after small_layout (take 2 small_ops))) = released.
Proof.
  split; [exact small_layout_ok|].
  pose proof (destroy_behaviour small_layout small_layout_ok (take 2 small_ops) 4128) as H.
  cbv zeta in H. destruct (destroy _ _ _) as [p' r]. exact (proj1 H).
Defined.

Lemma pool_statistics_witness :
  layout_ok small_layout ∧
  in_use (pool_stats small_layout (pool_after small_layout small_ops)) = 1.
Proof.
  split; [exact small_layout_ok|].
  exact (proj1 (pool_statistics small_layout small_layout_ok small_ops)).
Defined.
