(* ===== verification/Owners.v ===== *)
(** * Variables that own resources

    A program has variables in scope, each owning at most a few resources named by
    integers (slots of the pool by address, file descriptors by number).  These
    lemmas say how what all variables own together changes with one of them. *)
From stdpp Require Import gmap.
From S2P Require Import Prelude.

Section Owners.
Context {A : Type} (own : A → list Z).

(** What the variables of [m] own. *)
Definition gathered (m : gmap nat A) : list Z := map_to_list m ≫= λ kx, own kx.2.

Lemma gathered_empty : gathered ∅ = [].
Proof. unfold gathered. by rewrite map_to_list_empty. Qed.

Lemma gathered_fresh (m : gmap nat A) (h : nat) (x : A) :
  m !! h = None → gathered (<[h := x]> m) ≡ₚ own x ++ gathered m.
Proof. intros Hh. unfold gathered. by rewrite map_to_list_insert. Qed.

Lemma gathered_update (m : gmap nat A) (h : nat) (x : A) :
  gathered (<[h := x]> m) ≡ₚ own x ++ gathered (delete h m).
Proof. rewrite <- insert_delete_eq. apply gathered_fresh, lookup_delete_eq. Qed.

Lemma gathered_split (m : gmap nat A) (h : nat) (x : A) :
  m !! h = Some x → gathered m ≡ₚ own x ++ gathered (delete h m).
Proof. intros Hh. rewrite <- (insert_id m h x Hh) at 1. apply gathered_update. Qed.

Lemma gathered_elem (m : gmap nat A) (h : nat) (x : A) (r : Z) :
  m !! h = Some x → r ∈ own x → r ∈ gathered m.
Proof. intros Hh Hr. rewrite (gathered_split _ _ _ Hh). apply elem_of_app. by left. Qed.

(** Without duplicates, a resource has one owner. *)
Lemma gathered_unique (m : gmap nat A) (rest : list Z) (h h' : nat) (x x' : A) (r : Z) :
  NoDup (gathered m ++ rest) → m !! h = Some x → m !! h' = Some x' →
  r ∈ own x → r ∈ own x' → h = h'.
Proof.
  intros Hnd Hh Hh' Hr Hr'. destruct (decide (h = h')) as [|Hne]; [done|]. exfalso.
  rewrite (gathered_split _ _ _ Hh), <- app_assoc in Hnd. apply NoDup_app in Hnd as (_ & Hnot & _).
  apply (Hnot r Hr), elem_of_app. left. eapply gathered_elem; [|exact Hr']. by rewrite lookup_delete_ne.
Qed.

End Owners.
