(* ===== verification/Handles.v ===== *)
(** * Programs that use pool handles

    [FixedObjectPool::Handle] is the only owner of a slot.  A program is a
    sequence of C++ statements on named handle variables (definition, creation
    from the pool, move construction and assignment, [reset], [release], end of
    scope) and on the raw pointers [release] gave out; the theorem is the
    ownership discipline: no such program releases a slot twice, dereferences a
    dead object or leaks a slot. *)
From S2P Require Import Prelude Pool Owners.

Local Open Scope Z_scope.

Section Handles.
Context {T : Type} (L : PoolLayout).

Record World := MkWorld {
  w_pool : FixedObjectPool T;
  w_handles : gmap nat Handle;      (* the handle variables in scope *)
  w_raw : list Z                    (* pointers taken out by [release] *)
}.

Inductive HandleOp :=
| HNew (h : nat)                           (* Handle h; *)
| HCreate (h : nat) (object : option T)    (* Handle h = pool.try_create(...); *)
| HMove (dst src : nat)                    (* Handle dst{std::move(src)}; *)
| HAssign (dst src : nat)                  (* dst = std::move(src); *)
| HReset (h : nat)                         (* h.reset(); *)
| HRelease (h : nat)                       (* raw = h.release(); *)
| HDestroyRaw                              (* pool.destroy(raw), the last one taken *)
| HScopeEnd (h : nat).                     (* ~Handle *)

(** Only a variable in scope can be used, only a fresh one defined: the rest is
    not a C++ program. *)
Definition handle_exec (op : HandleOp) (w : World) : option World :=
  let p := w_pool w in
  let hs := w_handles w in
  match op with
  | HNew h =>
      match hs !! h with
      | None => Some (MkWorld p (<[h := empty_handle]> hs) (w_raw w))
      | Some _ => None
      end
  | HCreate h object =>
      match hs !! h with
      | None =>
          let '(p, r) := try_create L object p in
          match r with
          | Some x => Some (MkWorld p (<[h := x]> hs) (w_raw w))
          | None => Some (MkWorld p hs (w_raw w))          (* the exception propagates *)
          end
      | Some _ => None
      end
  | HMove dst src =>
      match hs !! dst, hs !! src with
      | None, Some x =>
          let '(y, x) := handle_move x in
          Some (MkWorld p (<[dst := y]> (<[src := x]> hs)) (w_raw w))
      | _, _ => None
      end
  | HAssign dst src =>
      match hs !! dst, hs !! src with
      | Some y, Some x =>
          if decide (dst = src) then Some w        (* if (this != &other) *)
          else
            let '(p, y, x) := handle_move_assign L y x p in
            Some (MkWorld p (<[dst := y]> (<[src := x]> hs)) (w_raw w))
      | _, _ => None
      end
  | HReset h =>
      match hs !! h with
      | Some x => let '(p, x) := handle_reset L x p in
                  Some (MkWorld p (<[h := x]> hs) (w_raw w))
      | None => None
      end
  | HRelease h =>
      match hs !! h with
      | Some x =>
          let '(x, q) := handle_release x in
          Some (MkWorld p (<[h := x]> hs) (if q =? 0 then w_raw w else q :: w_raw w))
      | None => None
      end
  | HDestroyRaw =>
      match w_raw w with
      | q :: raw => Some (MkWorld (fst (destroy L q p)) hs raw)
      | [] => None
      end
  | HScopeEnd h =>
      match hs !! h with
      | Some x => Some (MkWorld (fst (handle_reset L x p)) (delete h hs) (w_raw w))
      | None => None
      end
  end.

Fixpoint handle_program (ops : list HandleOp) (w : World) : option World :=
  match ops with
  | [] => Some w
  | op :: ops => w ← handle_exec op w; handle_program ops w
  end.

Definition world_init : World := MkWorld (pool_init L) ∅ [].

(** ** Ownership *)

(** The pointer a handle owns, as a list of at most one address. *)
Definition owned_by (x : Handle) : list Z := if object_ x =? 0 then [] else [object_ x].

#[local] Abbreviation owned := (gathered owned_by).

Lemma owned_empty : owned_by empty_handle = [].
Proof. reflexivity. Qed.

(** The addresses of the live objects. *)
Definition live_pointers (a : Allocator T) : list Z :=
  (λ ix, slot_object L ix.1) <$> map_to_list (live a).

(** A handle is empty or points into the pool. *)
Definition handle_ok (x : Handle) : Prop := x = empty_handle ∨ pool_ x = true ∧ object_ x ≠ 0.

Record owns (w : World) (a : Allocator T) : Prop := {
  ow_repr : pool_repr L (w_pool w) a;
  ow_handles : map_Forall (λ _ x, handle_ok x) (w_handles w);
  ow_pointers : owned (w_handles w) ++ w_raw w ≡ₚ live_pointers a;
  ow_invalid : invalid_releases (stats_ (w_pool w)) = 0
}.

Hypothesis HL : layout_ok L.

Lemma live_pointers_insert (a : Allocator T) (i : nat) (v : T) (f : list nat) :
  live a !! i = None →
  live_pointers (MkAllocator (<[i := v]> (live a)) f) ≡ₚ slot_object L i :: live_pointers a.
Proof. intros Hi. unfold live_pointers. simpl. by rewrite map_to_list_insert. Qed.

Lemma live_pointers_delete (a : Allocator T) (i : nat) (v : T) (f : list nat) :
  live a !! i = Some v →
  live_pointers a ≡ₚ slot_object L i :: live_pointers (MkAllocator (delete i (live a)) f).
Proof.
  intros Hi. unfold live_pointers. simpl. by rewrite <- (map_to_list_delete _ _ _ Hi).
Qed.

Lemma live_pointers_elem (a : Allocator T) (q : Z) :
  q ∈ live_pointers a → ∃ i v, q = slot_object L i ∧ live a !! i = Some v.
Proof.
  unfold live_pointers. intros ([i v] & -> & Hi%elem_of_map_to_list)%list_elem_of_fmap. eauto.
Qed.

(** Releasing an owned pointer always succeeds. *)
Lemma destroy_owned (p : FixedObjectPool T) (a : Allocator T) (q : Z) (rest : list Z) :
  pool_repr L p a → q :: rest ≡ₚ live_pointers a →
  invalid_releases (stats_ p) = 0 →
  ∃ a', pool_repr L (fst (destroy L q p)) a' ∧ rest ≡ₚ live_pointers a' ∧
        invalid_releases (stats_ (fst (destroy L q p))) = 0 ∧
        snd (destroy L q p) = released.
Proof.
  intros Hr Hq Hinv.
  destruct (live_pointers_elem a q) as (i & v & -> & Hi); [rewrite <- Hq; left|].
  assert (HiC : (i < Capacity L)%nat) by (apply (pr_live _ _ _ Hr); eauto).
  pose proof (destroy_repr L HL (slot_object L i) p a Hr) as H.
  unfold alloc_destroy in H. rewrite slot_of_object, Hi in H by done.
  assert (Hkeep : snd (destroy L (slot_object L i) p) = released →
                  invalid_releases (stats_ (fst (destroy L (slot_object L i) p)))
                  = invalid_releases (stats_ p))
    by (unfold destroy; repeat case_match; simpl; congruence).
  destruct (destroy L (slot_object L i) p) as [p' r], H as [-> Hr']. simpl in *.
  eexists. split; [exact Hr'|]. split; [|rewrite Hkeep; auto].
  apply (Permutation_cons_inv (a := slot_object L i)).
  rewrite Hq. by apply live_pointers_delete with v.
Qed.

Lemma reset_owned (p : FixedObjectPool T) (a : Allocator T) (x : Handle) (rest : list Z) :
  pool_repr L p a → handle_ok x → owned_by x ++ rest ≡ₚ live_pointers a →
  invalid_releases (stats_ p) = 0 →
  ∃ a', pool_repr L (fst (handle_reset L x p)) a' ∧ rest ≡ₚ live_pointers a' ∧
        invalid_releases (stats_ (fst (handle_reset L x p))) = 0 ∧
        snd (handle_reset L x p) = empty_handle.
Proof.
  intros Hr [->|[Hp Ho]] Hq Hinv; [by exists a|].
  unfold handle_reset, owned_by in *. rewrite Hp. apply Z.eqb_neq in Ho. rewrite Ho in *. simpl in *.
  destruct (destroy_owned p a (object_ x) rest Hr Hq Hinv) as (a' & ? & ? & ? & _). eauto.
Qed.

(** The pool changed its state under operations that keep ownership elsewhere. *)
Lemma owns_intro (p : FixedObjectPool T) (hs : gmap nat Handle) (raw : list Z) (a : Allocator T) :
  pool_repr L p a → map_Forall (λ _ x, handle_ok x) hs →
  owned hs ++ raw ≡ₚ live_pointers a → invalid_releases (stats_ p) = 0 →
  owns (MkWorld p hs raw) a.
Proof. by split. Qed.

Lemma empty_ok : handle_ok empty_handle.
Proof. by left. Qed.
Lemma handles_set (hs : gmap nat Handle) (h : nat) (x : Handle) :
  handle_ok x → map_Forall (λ _ x, handle_ok x) hs →
  map_Forall (λ _ x, handle_ok x) (<[h := x]> hs).
Proof. intros. by apply (map_Forall_insert_2 (λ _ x, handle_ok x)). Qed.

Lemma handles_drop (hs : gmap nat Handle) (h : nat) :
  map_Forall (λ _ x, handle_ok x) hs → map_Forall (λ _ x, handle_ok x) (delete h hs).
Proof. apply (map_Forall_delete (λ _ x, handle_ok x)). Qed.
Hint Resolve empty_ok handles_set handles_drop : core.

Lemma create_owns (w : World) (a : Allocator T) (h : nat) (object : option T) (w' : World) :
  owns w a → handle_exec (HCreate h object) w = Some w' → ∃ a', owns w' a'.
Proof.
  intros [Hr Hok Hq Hinv]. simpl. destruct (w_handles w !! h) eqn:Hh; [done|].
  pose proof (try_create_repr L HL object _ a Hr) as H.
  assert (Hkeep : invalid_releases (stats_ (fst (try_create L object (w_pool w)))) = 0)
    by (unfold try_create; repeat case_match; simpl; congruence).
  destruct (try_create L object (w_pool w)) as [p r] eqn:Hc. simpl in Hkeep. revert H.
  unfold alloc_create. destruct (free a) as [|i f] eqn:Hf; [|destruct object as [v|]];
    intros [-> Hr'] [= <-].
  - exists a. apply owns_intro; auto. by rewrite gathered_fresh.
  - destruct (free_slot L _ a i f Hr Hf) as (_ & Hi & Hlive & _).
    pose proof (slot_object_pos L HL i).
    eexists. apply owns_intro; [exact Hr'| | |done].
    + apply handles_set; [|done]. right. simpl. split; [done|lia].
    + rewrite gathered_fresh, live_pointers_insert, <- Hq by done. unfold owned_by. simpl.
      destruct (Z.eqb_spec (slot_object L i) 0); [lia|done].
  - exists a. by apply owns_intro.
Qed.

Lemma move_owns (w : World) (a : Allocator T) (dst src : nat) (w' : World) :
  owns w a → handle_exec (HMove dst src) w = Some w' → ∃ a', owns w' a'.
Proof.
  intros [Hr Hok Hq Hinv]. simpl. destruct (w_handles w !! dst) eqn:Hd; [done|].
  destruct (w_handles w !! src) as [x|] eqn:Hs; [|done]. intros [= <-].
  exists a. apply owns_intro; [done| | |done].
  - apply handles_set; [by eapply Hok|]. auto.
  - assert (dst ≠ src) by congruence.
    rewrite gathered_fresh by (by rewrite lookup_insert_ne).
    rewrite gathered_update, owned_empty, app_nil_l.
    by rewrite <- (gathered_split _ _ _ _ Hs).
Qed.

Lemma assign_owns (w : World) (a : Allocator T) (dst src : nat) (w' : World) :
  owns w a → handle_exec (HAssign dst src) w = Some w' → ∃ a', owns w' a'.
Proof.
  intros Hw. pose proof Hw as [Hr Hok Hq Hinv]. simpl.
  destruct (w_handles w !! dst) as [y|] eqn:Hd; [|done].
  destruct (w_handles w !! src) as [x|] eqn:Hs; [|done].
  destruct (decide (dst = src)) as [->|Hne]; [intros [= <-]; by exists a|].
  unfold handle_move_assign.
  assert (Hsd : delete dst (w_handles w) !! src = Some x) by (by rewrite lookup_delete_ne).
  rewrite (gathered_split _ _ _ _ Hd), (gathered_split _ _ _ _ Hsd), <- !app_assoc in Hq.
  destruct (reset_owned _ a y _ Hr (Hok _ _ Hd) Hq Hinv) as (a' & Hr' & Hq' & Hinv' & _).
  destruct (handle_reset L y (w_pool w)) as [p' y']. simpl in *. intros [= <-].
  exists a'. apply owns_intro; [done| | |done].
  - apply handles_set; [by eapply Hok|]. auto.
  - rewrite gathered_update, delete_insert_ne, gathered_update, owned_empty by done. simpl.
    by rewrite <- Hq', <- !app_assoc.
Qed.

Lemma reset_owns (w : World) (a : Allocator T) (h : nat) (w' : World) :
  owns w a → handle_exec (HReset h) w = Some w' → ∃ a', owns w' a'.
Proof.
  intros [Hr Hok Hq Hinv]. simpl. destruct (w_handles w !! h) as [x|] eqn:Hh; [|done].
  rewrite (gathered_split _ _ _ _ Hh), <- app_assoc in Hq.
  destruct (reset_owned _ a x _ Hr (Hok _ _ Hh) Hq Hinv) as (a' & Hr' & Hq' & Hinv' & He).
  destruct (handle_reset L x (w_pool w)) as [p' x']. simpl in *. subst x'. intros [= <-].
  exists a'. apply owns_intro; auto. by rewrite gathered_update.
Qed.

Lemma release_owns (w : World) (a : Allocator T) (h : nat) (w' : World) :
  owns w a → handle_exec (HRelease h) w = Some w' → ∃ a', owns w' a'.
Proof.
  intros [Hr Hok Hq Hinv]. simpl. destruct (w_handles w !! h) as [x|] eqn:Hh; [|done].
  intros [= <-]. exists a. apply owns_intro; auto.
  rewrite gathered_update, owned_empty, app_nil_l, <- Hq, (gathered_split _ _ _ _ Hh).
  unfold owned_by. destruct (object_ x =? 0); simpl; [done|]. by rewrite Permutation_middle.
Qed.

Lemma destroy_raw_owns (w : World) (a : Allocator T) (w' : World) :
  owns w a → handle_exec HDestroyRaw w = Some w' → ∃ a', owns w' a'.
Proof.
  intros [Hr Hok Hq Hinv]. simpl. destruct (w_raw w) as [|q raw] eqn:Hw; [done|].
  intros [= <-]. rewrite <- Permutation_middle in Hq.
  destruct (destroy_owned _ a q _ Hr Hq Hinv) as (a' & ? & ? & ? & _).
  exists a'. by apply owns_intro.
Qed.

Lemma scope_end_owns (w : World) (a : Allocator T) (h : nat) (w' : World) :
  owns w a → handle_exec (HScopeEnd h) w = Some w' → ∃ a', owns w' a'.
Proof.
  intros [Hr Hok Hq Hinv]. simpl. destruct (w_handles w !! h) as [x|] eqn:Hh; [|done].
  rewrite (gathered_split _ _ _ _ Hh), <- app_assoc in Hq.
  destruct (reset_owned _ a x _ Hr (Hok _ _ Hh) Hq Hinv) as (a' & Hr' & Hq' & Hinv' & He).
  intros [= <-]. exists a'. apply owns_intro; auto.
Qed.

Hint Resolve create_owns move_owns assign_owns reset_owns release_owns destroy_raw_owns
  scope_end_owns : core.

Lemma exec_owns (op : HandleOp) (w : World) (a : Allocator T) (w' : World) :
  owns w a → handle_exec op w = Some w' → ∃ a', owns w' a'.
Proof.
  destruct op as [h| | | | | | |]; eauto.
  intros [Hr Hok Hq Hinv]. simpl. destruct (w_handles w !! h) eqn:Hh; [done|].
  intros [= <-]. exists a. apply owns_intro; auto. by rewrite gathered_fresh.
Qed.

Lemma program_owns (ops : list HandleOp) (w : World) (a : Allocator T) (w' : World) :
  owns w a → handle_program ops w = Some w' → ∃ a', owns w' a'.
Proof.
  revert w a. induction ops as [|op ops IH]; intros w a Hw; simpl.
  { intros [= <-]. by exists a. }
  destruct (handle_exec op w) as [w1|] eqn:Hop; simpl; [|done].
  destruct (exec_owns op w a w1 Hw Hop) as [a1 Hw1]. by apply IH with a1.
Qed.

Lemma init_owns : owns world_init (alloc_init L).
Proof.
  apply owns_intro; [by apply pool_init_repr|done| |done].
  unfold live_pointers. simpl. by rewrite gathered_empty, !map_to_list_empty.
Qed.

(** Distinct owners hold distinct pointers, each to a live object. *)
Lemma live_pointers_NoDup (a : Allocator T) : NoDup (live_pointers a).
Proof.
  unfold live_pointers. apply NoDup_fmap_2_strong.
  - intros [i v] [j u] Hi%elem_of_map_to_list Hj%elem_of_map_to_list H%slot_object_inj; [|done].
    simpl in *. congruence.
  - apply NoDup_map_to_list.
Qed.

Lemma owned_by_object (x : Handle) : object_ x ≠ 0 → object_ x ∈ owned_by x.
Proof. intros Hx. unfold owned_by. apply Z.eqb_neq in Hx. rewrite Hx. left. Qed.

(** C7: the ownership discipline of handles.  After any program that defines,
    creates, moves, assigns, resets, releases and ends handles, no release was
    ever invalid; two handles never share an object; every non-empty handle
    dereferences to a live object; and the number of slots in use is the number
    of non-empty handles and raw pointers, so that when none is left the pool is
    empty. *)
Theorem handles_are_unique_owners (ops : list HandleOp) (w : World)
    (Hrun : handle_program ops world_init = Some w) :
  invalid_releases (stats_ (w_pool w)) = 0 ∧
  (∀ h h' x x', w_handles w !! h = Some x → w_handles w !! h' = Some x' →
     object_ x ≠ 0 → object_ x = object_ x' → h = h') ∧
  (∀ h x, w_handles w !! h = Some x → handle_valid x = true →
     is_Some (deref L (object_ x) (w_pool w))) ∧
  outstanding L (w_pool w) = Z.of_nat (length (owned (w_handles w)) + length (w_raw w)).
Proof.
  destruct (program_owns ops _ _ w init_owns Hrun) as [a [Hr Hok Hq Hinv]].
  split; [done|]. split; [|split].
  - intros h h' x x' Hh Hh' Hx Heq.
    apply (gathered_unique owned_by (w_handles w) (w_raw w) h h' x x' (object_ x)); try done.
    + rewrite Hq. apply live_pointers_NoDup.
    + by apply owned_by_object.
    + rewrite Heq. apply owned_by_object. congruence.
  - intros h x Hh Hv. assert (Hx : object_ x ≠ 0) by (unfold handle_valid in Hv; lia).
    destruct (live_pointers_elem a (object_ x)) as (i & v & -> & Hi).
    { rewrite <- Hq. apply elem_of_app. left. eapply gathered_elem; [done|by apply owned_by_object]. }
    assert (HiC : (i < Capacity L)%nat) by (apply (pr_live _ _ _ Hr); eauto).
    unfold deref. rewrite find_slot_object by done.
    destruct (slots_ (w_pool w) !! i) as [s|] eqn:Hs.
    + simpl. destruct (pr_slots _ _ _ Hr i s Hs) as [-> _]. rewrite Hi. eauto.
    + apply lookup_ge_None in Hs. rewrite (pr_length _ _ _ Hr) in Hs. lia.
  - unfold outstanding. simpl. rewrite (sa_in_use _ _ _ (pr_stats _ _ _ Hr)).
    apply Permutation_length in Hq. rewrite length_app in Hq. rewrite Hq.
    unfold live_pointers. by rewrite length_fmap, length_map_to_list.
Qed.

End Handles.

Definition demo_layout : PoolLayout := MkLayout 2 4096 32.

(** Two handles, a move, a failed creation, a raw pointer given back. *)
Definition demo_program : list (HandleOp (T := nat)) :=
  [HCreate 0 (Some 11); HCreate 1 (Some 22); HCreate 2 (Some 33); HMove 3 0;
   HAssign 1 3; HRelease 1; HDestroyRaw; HScopeEnd 2]%nat.

Lemma handles_are_unique_owners_witness :
  layout_ok demo_layout ∧
  ∃ w, handle_program demo_layout demo_program (world_init demo_layout) = Some w ∧
       invalid_releases (stats_ (w_pool w)) = 0 ∧ outstanding demo_layout (w_pool w) = 0.
Proof.
  assert (HL : layout_ok demo_layout)
    by (unfold layout_ok; rewrite u64_modulus_val; simpl; lia).
  split; [exact HL|].
  destruct (handle_program demo_layout demo_program (world_init demo_layout)) as [w|] eqn:Hw;
    [|vm_compute in Hw; discriminate].
  exists w. split; [reflexivity|].
  destruct (handles_are_unique_owners demo_layout HL demo_program w Hw) as (Hi & _ & _ & Ho).
  split; [exact Hi|]. vm_compute in Hw. injection Hw as <-. reflexivity.
Defined.
