(* ===== verification/Queue.v ===== *)
(** * The bounded queue

    [include/edge_sentinel/concurrency/bounded_queue.hpp].  A ring buffer of
    [std::optional<T>] slots with [head_], [tail_] and [size_].  Every operation
    is a critical section under [mutex_]; the blocking ones are modelled at the
    moment their wait ends: [None] means the wait goes on, [expired] that the
    timeout has passed.  [QueueSync.v] adds the condition variables.

    The second half is the abstract queue (a list and a flag) and the simulation
    between the two. *)
From S2P Require Import Prelude.

Local Open Scope Z_scope.

(** ** Data *)

Inductive QueuePushResult := pushed | full | timeout | closed.

#[global] Instance QueuePushResult_eq_dec : EqDecision QueuePushResult.
Proof. solve_decision. Defined.

Record QueueStats := MkQueueStats {
  stat_capacity : Z;
  stat_size : Z;
  stat_high_watermark : Z;
  stat_pushed : Z;
  stat_popped : Z;
  stat_rejected_full : Z;
  stat_push_timeouts : Z
}.

Section Queue.
Context {T : Type} (Capacity : nat).

Record BoundedQueue := MkQueue {
  slots_ : list (option T);
  head_ : nat;
  tail_ : nat;
  size_ : Z;
  closed_ : bool;
  stats_ : QueueStats
}.

Definition queue_init : BoundedQueue :=
  MkQueue (replicate Capacity None) 0 0 0 false (MkQueueStats 0 0 0 0 0 0 0).

(** ** Private members *)

Definition push_locked (value : T) (q : BoundedQueue) : BoundedQueue :=
  let st := stats_ q in
  let slots := <[tail_ q := Some value]> (slots_ q) in
  let tail := ((tail_ q + 1) mod Capacity)%nat in
  let size := u64_incr (size_ q) in
  let high := if stat_high_watermark st <? size then size else stat_high_watermark st in
  MkQueue slots (head_ q) tail size (closed_ q)
    (MkQueueStats (stat_capacity st) (stat_size st) high (u64_incr (stat_pushed st))
       (stat_popped st) (stat_rejected_full st) (stat_push_timeouts st)).

(** The value is [None] only if [*slots_[head_]] reads an empty optional, which
    the callers exclude by testing [size_]. *)
Definition pop_locked (q : BoundedQueue) : BoundedQueue * option T :=
  let st := stats_ q in
  let value := default None (slots_ q !! head_ q) in
  (MkQueue (<[head_ q := None]> (slots_ q)) ((head_ q + 1) mod Capacity)%nat (tail_ q)
     (u64_decr (size_ q)) (closed_ q)
     (MkQueueStats (stat_capacity st) (stat_size st) (stat_high_watermark st)
        (stat_pushed st) (u64_incr (stat_popped st)) (stat_rejected_full st)
        (stat_push_timeouts st)),
   value).

(** ** Public operations *)

Definition try_push (value : T) (q : BoundedQueue) : BoundedQueue * QueuePushResult :=
  if closed_ q then (q, closed)
  else if size_ q =? Z.of_nat Capacity then
    let st := stats_ q in
    (MkQueue (slots_ q) (head_ q) (tail_ q) (size_ q) (closed_ q)
       (MkQueueStats (stat_capacity st) (stat_size st) (stat_high_watermark st)
          (stat_pushed st) (stat_popped st) (u64_incr (stat_rejected_full st))
          (stat_push_timeouts st)),
     full)
  else (push_locked value q, pushed).

(** The predicates of the two condition variables. *)
Definition not_full_ready (q : BoundedQueue) : bool :=
  closed_ q || (size_ q <? Z.of_nat Capacity).
Definition not_empty_ready (q : BoundedQueue) : bool := closed_ q || (0 <? size_ q).

Definition wait_push (expired : bool) (value : T) (q : BoundedQueue)
    : option (BoundedQueue * QueuePushResult) :=
  let ready := not_full_ready q in
  if negb ready && negb expired then None
  else if negb ready then
    let st := stats_ q in
    Some (MkQueue (slots_ q) (head_ q) (tail_ q) (size_ q) (closed_ q)
            (MkQueueStats (stat_capacity st) (stat_size st) (stat_high_watermark st)
               (stat_pushed st) (stat_popped st) (stat_rejected_full st)
               (u64_incr (stat_push_timeouts st))),
          timeout)
  else if closed_ q then Some (q, closed)
  else Some (push_locked value q, pushed).

Definition try_pop (q : BoundedQueue) : BoundedQueue * option T :=
  if size_ q =? 0 then (q, None) else pop_locked q.

Definition wait_pop (q : BoundedQueue) : option (BoundedQueue * option T) :=
  if negb (not_empty_ready q) then None
  else if size_ q =? 0 then Some (q, None)
  else Some (pop_locked q).

Definition wait_pop_for (expired : bool) (q : BoundedQueue) : option (BoundedQueue * option T) :=
  let ready := not_empty_ready q in
  if negb ready && negb expired then None
  else if negb ready || (size_ q =? 0) then Some (q, None)
  else Some (pop_locked q).

Definition close (q : BoundedQueue) : BoundedQueue :=
  MkQueue (slots_ q) (head_ q) (tail_ q) (size_ q) true (stats_ q).

Definition is_closed (q : BoundedQueue) : bool := closed_ q.

Definition queue_stats (q : BoundedQueue) : QueueStats :=
  let st := stats_ q in
  MkQueueStats (Z.of_nat Capacity) (size_ q) (stat_high_watermark st) (stat_pushed st)
    (stat_popped st) (stat_rejected_full st) (stat_push_timeouts st).

(** ** The abstract queue *)

Record Fifo := MkFifo { contents : list T; f_closed : bool }.

Definition fifo_init : Fifo := MkFifo [] false.

Definition fifo_full (f : Fifo) : bool := bool_decide (length (contents f) = Capacity).
Definition fifo_empty (f : Fifo) : bool := bool_decide (contents f = []).

(** [on_full]: what a push reports when there is no room. *)
Definition fifo_push (on_full : QueuePushResult) (v : T) (f : Fifo) : Fifo * QueuePushResult :=
  if f_closed f then (f, closed)
  else if fifo_full f then (f, on_full)
  else (MkFifo (contents f ++ [v]) false, pushed).

Definition fifo_pop (f : Fifo) : Fifo * option T :=
  match contents f with
  | [] => (f, None)
  | x :: l => (MkFifo l (f_closed f), Some x)
  end.

(** A push may block when the queue is open and full, a pop when it is open and
    empty. *)
Definition fifo_wait_push (expired : bool) (v : T) (f : Fifo) : option (Fifo * QueuePushResult) :=
  if negb (f_closed f) && fifo_full f && negb expired then None
  else Some (fifo_push timeout v f).

Definition fifo_wait_pop (expired : bool) (f : Fifo) : option (Fifo * option T) :=
  if negb (f_closed f) && fifo_empty f && negb expired then None else Some (fifo_pop f).

Definition fifo_close (f : Fifo) : Fifo := MkFifo (contents f) true.

(** ** The representation invariant *)

Definition ring (head i : nat) : nat := ((head + i) mod Capacity)%nat.

Record queue_stats_ok (st : QueueStats) (size : Z) : Prop := {
  qs_high : size ≤ stat_high_watermark st ≤ Z.of_nat Capacity;
  qs_balance : (stat_pushed st - stat_popped st) mod u64_modulus = size
}.

Record queue_repr (q : BoundedQueue) (f : Fifo) : Prop := {
  qr_length : length (slots_ q) = Capacity;
  qr_head : (head_ q < Capacity)%nat;
  qr_fits : (length (contents f) ≤ Capacity)%nat;
  qr_size : size_ q = Z.of_nat (length (contents f));
  qr_tail : tail_ q = ring (head_ q) (length (contents f));
  qr_slots : ∀ i, (i < Capacity)%nat → slots_ q !! ring (head_ q) i = Some (contents f !! i);
  qr_closed : closed_ q = f_closed f;
  qr_stats : queue_stats_ok (stats_ q) (size_ q)
}.

Hypothesis HC : (0 < Capacity)%nat.
Hypothesis HC64 : Z.of_nat Capacity < u64_modulus.

Lemma ring_lt (head i : nat) : (ring head i < Capacity)%nat.
Proof. apply Nat.mod_upper_bound. lia. Qed.

Lemma ring_inj (head i j : nat) :
  (i < Capacity)%nat → (j < Capacity)%nat → ring head i = ring head j → i = j.
Proof.
  unfold ring. intros Hi Hj H.
  pose proof (Nat.div_mod_eq (head + i) Capacity) as Hi'.
  pose proof (Nat.div_mod_eq (head + j) Capacity) as Hj'.
  set (a := ((head + i) / Capacity)%nat) in *. set (b := ((head + j) / Capacity)%nat) in *.
  destruct (Nat.lt_trichotomy a b) as [Hab|[Hab|Hab]]; [nia|rewrite Hab in *; lia|nia].
Qed.

Lemma ring_next (head i : nat) : ring ((head + 1) mod Capacity) i = ring head (S i).
Proof. unfold ring. rewrite Nat.Div0.add_mod_idemp_l. f_equal. lia. Qed.

Lemma ring_wrap (head : nat) : (head < Capacity)%nat → ring head Capacity = head.
Proof. intros H. unfold ring. rewrite Nat.Div0.add_mod, Nat.Div0.mod_same, Nat.add_0_r, Nat.Div0.mod_mod. by apply Nat.mod_small. Qed.

Lemma ring_zero (head : nat) : (head < Capacity)%nat → ring head 0 = head.
Proof. intros H. unfold ring. rewrite Nat.add_0_r. by apply Nat.mod_small. Qed.

Lemma queue_init_repr : queue_repr queue_init fifo_init.
Proof.
  split; simpl; try done; try lia.
  - by rewrite length_replicate.
  - unfold ring. by rewrite Nat.Div0.mod_0_l.
  - intros i Hi. rewrite lookup_replicate_2 by apply ring_lt. by rewrite lookup_nil.
  - split; simpl; [lia|done].
Qed.

Lemma push_stats (st : QueueStats) (size : Z) :
  queue_stats_ok st size → 0 ≤ size < Z.of_nat Capacity →
  let size' := u64_incr size in
  let high := if stat_high_watermark st <? size' then size' else stat_high_watermark st in
  queue_stats_ok (MkQueueStats (stat_capacity st) (stat_size st) high (u64_incr (stat_pushed st))
       (stat_popped st) (stat_rejected_full st) (stat_push_timeouts st)) size'.
Proof.
  intros [Hh Hb] Hs. assert (Hi : u64_incr size = size + 1) by (apply u64_incr_small; lia).
  split; cbn [stat_high_watermark stat_pushed stat_popped]; rewrite Hi.
  - destruct (Z.ltb_spec (stat_high_watermark st) (size + 1)); lia.
  - unfold u64_incr. rewrite Zminus_mod_idemp_l.
    replace (stat_pushed st + 1 - stat_popped st)
      with (stat_pushed st - stat_popped st + 1) by lia.
    rewrite <- Zplus_mod_idemp_l, Hb. apply Z.mod_small. lia.
Qed.

Lemma pop_stats (st : QueueStats) (size : Z) :
  queue_stats_ok st size → 0 < size ≤ Z.of_nat Capacity →
  queue_stats_ok (MkQueueStats (stat_capacity st) (stat_size st) (stat_high_watermark st)
        (stat_pushed st) (u64_incr (stat_popped st)) (stat_rejected_full st)
        (stat_push_timeouts st)) (u64_decr size).
Proof.
  intros [Hh Hb] Hs. assert (Hi : u64_decr size = size - 1) by (apply u64_decr_small; lia).
  split; cbn [stat_high_watermark stat_pushed stat_popped]; rewrite Hi; [lia|].
  unfold u64_incr. rewrite Zminus_mod_idemp_r.
  replace (stat_pushed st - (stat_popped st + 1))
    with (stat_pushed st - stat_popped st - 1) by lia.
  rewrite <- Zminus_mod_idemp_l, Hb. apply Z.mod_small. lia.
Qed.

Lemma push_repr (v : T) (q : BoundedQueue) (f : Fifo) :
  queue_repr q f → (length (contents f) < Capacity)%nat →
  queue_repr (push_locked v q) (MkFifo (contents f ++ [v]) (f_closed f)).
Proof.
  intros [Hl Hh Hf Hs Ht Hsl Hc Hst] Hlt.
  assert (Hi : u64_incr (size_ q) = size_ q + 1) by (apply u64_incr_small; lia).
  split; cbn [contents f_closed]; try done.
  - simpl. by rewrite length_insert.
  - rewrite length_app. simpl. lia.
  - simpl. rewrite Hi, length_app. simpl. lia.
  - simpl. rewrite length_app, Ht. unfold ring. rewrite Nat.Div0.add_mod_idemp_l. f_equal. simpl. lia.
  - simpl. intros i HiC. destruct (decide (i = length (contents f))) as [->|Hne].
    + rewrite Ht, list_lookup_insert_eq by (rewrite Hl; apply ring_lt).
      by rewrite lookup_app_r, Nat.sub_diag by lia.
    + rewrite Ht, list_lookup_insert_ne by (intros ?%ring_inj; lia).
      rewrite Hsl by done. f_equal.
      destruct (decide (i < length (contents f))%nat); [by rewrite lookup_app_l|].
      rewrite lookup_ge_None_2, lookup_ge_None_2; [done|rewrite length_app; simpl; lia|lia].
  - apply push_stats; [done|lia].
Qed.

Lemma pop_repr (x : T) (l : list T) (q : BoundedQueue) (f : Fifo) :
  queue_repr q f → contents f = x :: l →
  snd (pop_locked q) = Some x ∧
  queue_repr (fst (pop_locked q)) (MkFifo l (f_closed f)).
Proof.
  intros [Hl Hh Hf Hs Ht Hsl Hc Hst] Hx. rewrite Hx in *. simpl length in *.
  assert (Hi : u64_decr (size_ q) = size_ q - 1) by (apply u64_decr_small; lia).
  split.
  { simpl. rewrite <- (ring_zero (head_ q)), Hsl by lia. done. }
  split; cbn [contents f_closed]; try done.
  - simpl. by rewrite length_insert.
  - simpl. apply ring_lt.
  - lia.
  - simpl. lia.
  - simpl. by rewrite ring_next.
  - simpl. intros i HiC. rewrite ring_next. destruct (decide (S i = Capacity)) as [He|Hne].
    + rewrite He, ring_wrap, list_lookup_insert_eq by (rewrite ?Hl; done).
      rewrite lookup_ge_None_2; [done|lia].
    + rewrite list_lookup_insert_ne.
      * rewrite Hsl by lia. done.
      * rewrite <- (ring_zero (head_ q)) at 1 by done. intros ?%ring_inj; lia.
  - apply pop_stats; [done|lia].
Qed.

(** Reports that only touch the statistics. *)
Lemma stats_repr (q : BoundedQueue) (f : Fifo) (st : QueueStats) :
  queue_repr q f → queue_stats_ok st (size_ q) →
  queue_repr (MkQueue (slots_ q) (head_ q) (tail_ q) (size_ q) (closed_ q) st) f.
Proof. intros [] Hst. by split. Qed.

Lemma repr_full (q : BoundedQueue) (f : Fifo) :
  queue_repr q f → (size_ q =? Z.of_nat Capacity) = fifo_full f.
Proof.
  intros Hr. unfold fifo_full. rewrite (qr_size _ _ Hr).
  case_bool_decide; [apply Z.eqb_eq|apply Z.eqb_neq]; lia.
Qed.

Lemma repr_not_full (q : BoundedQueue) (f : Fifo) :
  queue_repr q f → (size_ q <? Z.of_nat Capacity) = negb (fifo_full f).
Proof.
  intros Hr. pose proof (qr_fits _ _ Hr). unfold fifo_full. rewrite (qr_size _ _ Hr).
  case_bool_decide; [apply Z.ltb_ge|apply Z.ltb_lt]; lia.
Qed.

Lemma repr_empty (q : BoundedQueue) (f : Fifo) :
  queue_repr q f → (size_ q =? 0) = fifo_empty f.
Proof.
  intros Hr. unfold fifo_empty. rewrite (qr_size _ _ Hr).
  destruct (contents f); [done|]. rewrite bool_decide_eq_false_2 by done.
  apply Z.eqb_neq. simpl. lia.
Qed.

Lemma repr_not_empty (q : BoundedQueue) (f : Fifo) :
  queue_repr q f → (0 <? size_ q) = negb (fifo_empty f).
Proof.
  intros Hr. rewrite <- (repr_empty q f Hr). pose proof (qr_size _ _ Hr).
  destruct (Z.eqb_spec (size_ q) 0); simpl; [apply Z.ltb_ge|apply Z.ltb_lt]; lia.
Qed.

Lemma fifo_full_lt (q : BoundedQueue) (f : Fifo) :
  queue_repr q f → fifo_full f = false → (length (contents f) < Capacity)%nat.
Proof.
  intros Hr Hf. pose proof (qr_fits _ _ Hr). apply bool_decide_eq_false in Hf. lia.
Qed.

Lemma try_push_repr (v : T) (q : BoundedQueue) (f : Fifo) :
  queue_repr q f →
  snd (try_push v q) = snd (fifo_push full v f) ∧
  queue_repr (fst (try_push v q)) (fst (fifo_push full v f)).
Proof.
  intros Hr. unfold try_push, fifo_push. rewrite (qr_closed _ _ Hr), (repr_full q f Hr).
  destruct (f_closed f) eqn:Hc; [done|]. destruct (fifo_full f) eqn:Hf.
  - split; [done|]. rewrite <- (qr_closed _ _ Hr) in Hc. rewrite <- Hc. apply stats_repr; [done|].
    destruct (qr_stats _ _ Hr). by split.
  - split; [done|]. simpl. rewrite <- Hc. apply push_repr; [done|by eapply fifo_full_lt].
Qed.

Lemma wait_push_repr (expired : bool) (v : T) (q : BoundedQueue) (f : Fifo) :
  queue_repr q f →
  match wait_push expired v q, fifo_wait_push expired v f with
  | Some (q', r), Some (f', r') => r = r' ∧ queue_repr q' f'
  | None, None => True
  | _, _ => False
  end.
Proof.
  intros Hr. unfold wait_push, fifo_wait_push, fifo_push, not_full_ready.
  rewrite (qr_closed _ _ Hr), (repr_not_full q f Hr).
  destruct (f_closed f) eqn:Hc; simpl; [done|].
  destruct (fifo_full f) eqn:Hf, expired; simpl; try done.
  - split; [done|]. rewrite <- (qr_closed _ _ Hr) in Hc. rewrite <- Hc. apply stats_repr; [done|].
    destruct (qr_stats _ _ Hr). by split.
  - split; [done|]. rewrite <- Hc. apply push_repr; [done|by eapply fifo_full_lt].
  - split; [done|]. rewrite <- Hc. apply push_repr; [done|by eapply fifo_full_lt].
Qed.

Lemma try_pop_repr (q : BoundedQueue) (f : Fifo) :
  queue_repr q f →
  snd (try_pop q) = snd (fifo_pop f) ∧ queue_repr (fst (try_pop q)) (fst (fifo_pop f)).
Proof.
  intros Hr. unfold try_pop, fifo_pop. rewrite (repr_empty q f Hr). unfold fifo_empty.
  destruct (contents f) as [|x l] eqn:Hx; [done|].
  rewrite bool_decide_eq_false_2 by done. by apply pop_repr.
Qed.

Lemma wait_pop_for_repr (expired : bool) (q : BoundedQueue) (f : Fifo) :
  queue_repr q f →
  match wait_pop_for expired q, fifo_wait_pop expired f with
  | Some (q', r), Some (f', r') => r = r' ∧ queue_repr q' f'
  | None, None => True
  | _, _ => False
  end.
Proof.
  intros Hr. pose proof (try_pop_repr q f Hr) as Hp. revert Hp.
  unfold wait_pop_for, try_pop, fifo_wait_pop, not_empty_ready.
  rewrite (qr_closed _ _ Hr), (repr_not_empty q f Hr), (repr_empty q f Hr).
  destruct (f_closed f), (fifo_empty f), expired; simpl; try done;
    destruct (fifo_pop f); try destruct (pop_locked q); simpl; intros [-> ?]; done.
Qed.

(** [wait_pop] is [wait_pop_for] with a timeout that never expires. *)
Lemma wait_pop_never (q : BoundedQueue) : wait_pop q = wait_pop_for false q.
Proof. unfold wait_pop, wait_pop_for. by destruct (not_empty_ready q). Qed.

Lemma close_repr (q : BoundedQueue) (f : Fifo) :
  queue_repr q f → queue_repr (close q) (fifo_close f).
Proof. intros []. by split. Qed.

End Queue.

Arguments BoundedQueue : clear implicits.
Arguments Fifo : clear implicits.
