(* ===== verification/QueueProps.v ===== *)
(** * Properties of the bounded queue

    Sequences of queue operations against the abstract FIFO, the order and
    conservation of values, the meaning of [close], the statistics. *)
From S2P Require Import Prelude Queue.

Local Open Scope Z_scope.

Section Traces.
Context {T : Type} (Capacity : nat).

Inductive QueueOp :=
| QTryPush (v : T)
| QWaitPush (expired : bool) (v : T)
| QTryPop
| QWaitPop
| QWaitPopFor (expired : bool)
| QClose.

(** [QBlocked]: the call is still waiting and has changed nothing. *)
Inductive QueueResult :=
| QPush (r : QueuePushResult)
| QPop (v : option T)
| QBlocked
| QUnit.

Definition queue_step (op : QueueOp) (q : BoundedQueue T) : BoundedQueue T * QueueResult :=
  match op with
  | QTryPush v => let '(q, r) := try_push Capacity v q in (q, QPush r)
  | QWaitPush expired v =>
      match wait_push Capacity expired v q with
      | Some (q, r) => (q, QPush r) | None => (q, QBlocked)
      end
  | QTryPop => let '(q, v) := try_pop Capacity q in (q, QPop v)
  | QWaitPop =>
      match wait_pop Capacity q with
      | Some (q, v) => (q, QPop v) | None => (q, QBlocked)
      end
  | QWaitPopFor expired =>
      match wait_pop_for Capacity expired q with
      | Some (q, v) => (q, QPop v) | None => (q, QBlocked)
      end
  | QClose => (close q, QUnit)
  end.

Definition fifo_step (op : QueueOp) (f : Fifo T) : Fifo T * QueueResult :=
  match op with
  | QTryPush v => let '(f, r) := fifo_push Capacity full v f in (f, QPush r)
  | QWaitPush expired v =>
      match fifo_wait_push Capacity expired v f with
      | Some (f, r) => (f, QPush r) | None => (f, QBlocked)
      end
  | QTryPop => let '(f, v) := fifo_pop f in (f, QPop v)
  | QWaitPop =>
      match fifo_wait_pop false f with
      | Some (f, v) => (f, QPop v) | None => (f, QBlocked)
      end
  | QWaitPopFor expired =>
      match fifo_wait_pop expired f with
      | Some (f, v) => (f, QPop v) | None => (f, QBlocked)
      end
  | QClose => (fifo_close f, QUnit)
  end.

Definition queue_after (ops : list QueueOp) : BoundedQueue T :=
  fst (run queue_step ops (queue_init Capacity)).
Definition fifo_after (ops : list QueueOp) : Fifo T := fst (run fifo_step ops fifo_init).

(** What is in the ring, from [head_] on. *)
Definition queue_contents (q : BoundedQueue T) : list T :=
  omap (λ i, default None (slots_ q !! ring Capacity (head_ q) i)) (seq 0 (Z.to_nat (size_ q))).

(** The values the queue accepted, in order, and the values it delivered. *)
Definition accepted (ops : list QueueOp) (rs : list QueueResult) : list T :=
  omap (λ x, match x with
             | (QTryPush v, QPush pushed) | (QWaitPush _ v, QPush pushed) => Some v
             | _ => None
             end) (zip ops rs).
Definition delivered (rs : list QueueResult) : list T :=
  omap (λ r, match r with QPop v => v | _ => None end) rs.

Lemma accepted_cons (op : QueueOp) (ops : list QueueOp) (r : QueueResult)
    (rs : list QueueResult) :
  accepted (op :: ops) (r :: rs) = accepted [op] [r] ++ accepted ops rs.
Proof. unfold accepted. simpl. by destruct (match op with QTryPush _ => _ | _ => _ end). Qed.

Lemma delivered_cons (r : QueueResult) (rs : list QueueResult) :
  delivered (r :: rs) = delivered [r] ++ delivered rs.
Proof. unfold delivered. simpl. by destruct (match r with QPop v => v | _ => None end). Qed.

Definition capacity_ok : Prop := (0 < Capacity)%nat ∧ Z.of_nat Capacity < u64_modulus.

Lemma queue_step_repr (op : QueueOp) (q : BoundedQueue T) (f : Fifo T) :
  capacity_ok → queue_repr Capacity q f →
  snd (queue_step op q) = snd (fifo_step op f) ∧
  queue_repr Capacity (fst (queue_step op q)) (fst (fifo_step op f)).
Proof.
  intros [HC HC64] Hr. destruct op as [v|expired v| | |expired|]; simpl.
  - pose proof (try_push_repr Capacity HC HC64 v q f Hr) as H.
    destruct (try_push Capacity v q), (fifo_push Capacity full v f), H; simpl in *. by subst.
  - pose proof (wait_push_repr Capacity HC HC64 expired v q f Hr) as H.
    destruct (wait_push Capacity expired v q) as [[]|],
      (fifo_wait_push Capacity expired v f) as [[]|]; try done. by destruct H as [-> ?].
  - pose proof (try_pop_repr Capacity HC HC64 q f Hr) as H.
    destruct (try_pop Capacity q), (fifo_pop f), H; simpl in *. by subst.
  - rewrite wait_pop_never. pose proof (wait_pop_for_repr Capacity HC HC64 false q f Hr) as H.
    destruct (wait_pop_for Capacity false q) as [[]|], (fifo_wait_pop false f) as [[]|];
      try done. by destruct H as [-> ?].
  - pose proof (wait_pop_for_repr Capacity HC HC64 expired q f Hr) as H.
    destruct (wait_pop_for Capacity expired q) as [[]|], (fifo_wait_pop expired f) as [[]|];
      try done. by destruct H as [-> ?].
  - split; [done|]. by apply close_repr.
Qed.

Lemma queue_run_repr (ops : list QueueOp) (q : BoundedQueue T) (f : Fifo T) :
  capacity_ok → queue_repr Capacity q f →
  snd (run queue_step ops q) = snd (run fifo_step ops f) ∧
  queue_repr Capacity (fst (run queue_step ops q)) (fst (run fifo_step ops f)).
Proof. intros HC. apply run_simulation. intros. by apply queue_step_repr. Qed.

Lemma queue_after_repr (ops : list QueueOp) :
  capacity_ok → queue_repr Capacity (queue_after ops) (fifo_after ops).
Proof. intros HC. apply queue_run_repr; [done|]. apply queue_init_repr, HC. Qed.

Lemma omap_seq_lookup (l : list T) (g : nat → option T) (n : nat) :
  (∀ i, (i < length l)%nat → g (n + i)%nat = l !! i) →
  omap g (seq n (length l)) = l.
Proof.
  revert n. induction l as [|x l IH]; intros n Hg; simpl; [done|].
  pose proof (Hg 0%nat) as H0. simpl in H0. rewrite Nat.add_0_r in H0. rewrite H0 by lia.
  f_equal. apply IH. intros i Hi. specialize (Hg (S i)). simpl in Hg.
  rewrite <- Hg by lia. f_equal. lia.
Qed.

Lemma repr_contents (q : BoundedQueue T) (f : Fifo T) :
  queue_repr Capacity q f → queue_contents q = contents f.
Proof.
  intros Hr. unfold queue_contents. rewrite (qr_size _ _ _ Hr), Nat2Z.id.
  apply omap_seq_lookup. intros i Hi. simpl.
  pose proof (qr_fits _ _ _ Hr). rewrite (qr_slots _ _ _ Hr) by lia. done.
Qed.

(** One step of the FIFO conserves values. *)
Lemma fifo_step_conserves (op : QueueOp) (f : Fifo T) :
  let '(f', r) := fifo_step op f in
  contents f ++ accepted [op] [r] = delivered [r] ++ contents f'.
Proof.
  destruct f as [l c], op as [v|expired v| | |expired|]; simpl;
    unfold fifo_push, fifo_wait_push, fifo_wait_pop, fifo_pop; simpl;
    repeat case_match; simplify_eq; simpl; rewrite ?app_nil_r; try done.
  all: unfold fifo_push, fifo_pop in *; simpl in *; repeat case_match; simplify_eq; simpl;
    rewrite ?app_nil_r; done.
Qed.

Lemma fifo_run_conserves (ops : list QueueOp) (f : Fifo T) :
  let '(f', rs) := run fifo_step ops f in
  contents f ++ accepted ops rs = delivered rs ++ contents f'.
Proof.
  revert f. induction ops as [|op ops IH]; intros f; simpl; [by rewrite app_nil_r|].
  pose proof (fifo_step_conserves op f) as H. destruct (fifo_step op f) as [f1 r].
  specialize (IH f1). destruct (run fifo_step ops f1) as [f2 rs].
  rewrite accepted_cons, delivered_cons, app_assoc, H, <- !app_assoc. by rewrite IH.
Qed.

(** A closed FIFO accepts nothing and never blocks. *)
Definition closed_result (r : QueueResult) : Prop :=
  match r with QPush r => r = closed | QBlocked => False | _ => True end.

Lemma fifo_step_closed (op : QueueOp) (f : Fifo T) :
  f_closed f = true →
  f_closed (fst (fifo_step op f)) = true ∧ closed_result (snd (fifo_step op f)) ∧
  (∀ v, snd (fifo_step op f) = QPop v → v = head (contents f)).
Proof.
  destruct f as [l c]. simpl. intros ->.
  destruct op as [v|expired v| | |expired|]; simpl;
    unfold fifo_push, fifo_wait_push, fifo_wait_pop, fifo_pop; simpl;
    repeat case_match; simplify_eq; simpl; split_and!; try done; by intros v' [= <-].
Qed.

Lemma fifo_run_closed (ops : list QueueOp) (f : Fifo T) :
  f_closed f = true → Forall closed_result (snd (run fifo_step ops f)).
Proof.
  revert f. induction ops as [|op ops IH]; intros f Hc; simpl; [constructor|].
  destruct (fifo_step_closed op f Hc) as (Hc' & Hr & _).
  destruct (fifo_step op f) as [f1 r]. simpl in *. specialize (IH f1 Hc').
  destruct (run fifo_step ops f1) as [f2 rs]. by constructor.
Qed.

Lemma fifo_run_stays_closed (ops : list QueueOp) (f : Fifo T) :
  f_closed f = true → f_closed (fst (run fifo_step ops f)) = true.
Proof.
  revert f. induction ops as [|op ops IH]; intros f Hc; simpl; [done|].
  destruct (fifo_step_closed op f Hc) as (Hc' & _).
  destruct (fifo_step op f) as [f1 r]. specialize (IH f1 Hc').
  by destruct (run fifo_step ops f1).
Qed.

Lemma closed_accepts_nothing (ops : list QueueOp) (rs : list QueueResult) :
  Forall closed_result rs → accepted ops rs = [].
Proof.
  intros Hrs. revert ops. induction Hrs as [|r rs Hr _ IH]; intros [|op ops]; try done.
  rewrite accepted_cons, IH, app_nil_r.
  destruct op, r as [[]|[]| |]; simpl in *; try done.
Qed.

End Traces.

Arguments QueueOp : clear implicits.
Arguments QueueResult : clear implicits.

(** ** Claims *)

Section Claims.
Context {T : Type} (Capacity : nat) (HC : capacity_ok Capacity).

(** C8: the ring buffer implements a bounded FIFO.  Every sequence of
    operations from an empty queue, blocking calls that expire or keep waiting
    included, returns exactly the results of a list bounded by the capacity with
    a closed flag; the ring, its two indices and its size represent that list. *)
Theorem queue_implements_fifo (ops : list (QueueOp T)) :
  snd (run (queue_step Capacity) ops (queue_init Capacity))
  = snd (run (fifo_step Capacity) ops fifo_init) ∧
  queue_repr Capacity (queue_after Capacity ops) (fifo_after Capacity ops).
Proof. apply queue_run_repr; [done|]. apply queue_init_repr, HC. Qed.

(** First in, first out, nothing lost and nothing invented.  After any
    sequence of operations the values accepted so far are the values delivered
    so far followed by what is in the ring, in the same order. *)
Theorem queue_conserves_order (ops : list (QueueOp T)) :
  let '(q, rs) := run (queue_step Capacity) ops (queue_init Capacity) in
  accepted ops rs = delivered rs ++ queue_contents Capacity q.
Proof.
  destruct (queue_run_repr Capacity ops _ _ HC (queue_init_repr Capacity (proj1 HC))) as [Hrs Hr].
  pose proof (fifo_run_conserves Capacity ops fifo_init) as Hc.
  destruct (run (queue_step Capacity) ops (queue_init Capacity)) as [q rs],
    (run (fifo_step Capacity) ops fifo_init) as [f rs']. simpl in *. subst rs'.
  by rewrite (repr_contents Capacity q f Hr).
Qed.

(** What [close] means.  Whatever happened before, after [close] every push
    is refused with [closed], no call blocks, the values still queued are
    delivered in order, and a pop returns nothing only when the ring is empty. *)
Theorem close_refuses_and_drains (ops : list (QueueOp T)) (ops' : list (QueueOp T)) :
  let q := close (queue_after Capacity ops) in
  let '(q', rs) := run (queue_step Capacity) ops' q in
  Forall closed_result rs ∧
  queue_contents Capacity (queue_after Capacity ops) = delivered rs ++ queue_contents Capacity q' ∧
  snd (queue_step Capacity QWaitPop q') = QPop (head (queue_contents Capacity q')).
Proof.
  intros q. pose proof (queue_after_repr Capacity ops HC) as Hr.
  pose proof (close_repr Capacity _ _ Hr) as Hr0.
  destruct (queue_run_repr Capacity ops' _ _ HC Hr0) as [Hrs Hr'].
  pose proof (fifo_run_conserves Capacity ops' (fifo_close (fifo_after Capacity ops))) as Hc.
  pose proof (fifo_run_closed Capacity ops' (fifo_close (fifo_after Capacity ops)) eq_refl) as Hcl.
  pose proof (fifo_run_stays_closed Capacity ops' (fifo_close (fifo_after Capacity ops)) eq_refl) as Hcf.
  fold q in Hrs, Hr'.
  destruct (run (queue_step Capacity) ops' q) as [q' rs],
    (run (fifo_step Capacity) ops' _) as [f rs']. cbn [fst snd] in *. subst rs'.
  rewrite (closed_accepts_nothing ops' rs Hcl), app_nil_r in Hc.
  rewrite (repr_contents Capacity q' f Hr'), (repr_contents Capacity _ _ Hr).
  split; [done|]. split; [done|].
  rewrite (proj1 (queue_step_repr Capacity QWaitPop q' f HC Hr')). simpl.
  unfold fifo_wait_pop. rewrite Hcf. simpl. unfold fifo_pop. by destruct (contents f).
Qed.

Lemma step_high (op : QueueOp T) (q : BoundedQueue T) (f : Fifo T) :
  queue_repr Capacity q f →
  let q' := fst (queue_step Capacity op q) in
  stat_high_watermark (stats_ q') = Z.max (stat_high_watermark (stats_ q)) (size_ q').
Proof.
  intros Hr. pose proof (qs_high _ _ _ (qr_stats _ _ _ Hr)) as Hh.
  destruct (queue_step_repr Capacity op q f HC Hr) as [_ Hr'].
  pose proof (qs_high _ _ _ (qr_stats _ _ _ Hr')) as Hh'. revert Hh'.
  destruct op as [v|expired v| | |expired|]; simpl;
    unfold try_push, wait_push, try_pop, wait_pop, wait_pop_for, push_locked, pop_locked;
    repeat case_match; simplify_eq; simpl; intros; lia.
Qed.

(** C9: bounds and statistics.  After any sequence of operations the indices
    are inside the array, the size is at most the capacity, pushes minus pops
    equal the size modulo [2^64], and the high watermark is the greatest size
    the queue has had so far. *)
Theorem queue_bounds_and_statistics (ops : list (QueueOp T)) :
  let q := queue_after Capacity ops in
  let st := queue_stats Capacity q in
  (head_ q < Capacity)%nat ∧ (tail_ q < Capacity)%nat ∧
  0 ≤ stat_size st ≤ stat_capacity st ∧
  (stat_pushed st - stat_popped st) mod u64_modulus = stat_size st ∧
  (∀ k, size_ (queue_after Capacity (take k ops)) ≤ stat_high_watermark st) ∧
  (∃ k, size_ (queue_after Capacity (take k ops)) = stat_high_watermark st).
Proof.
  pose proof (queue_after_repr Capacity ops HC) as Hr.
  pose proof (qr_stats _ _ _ Hr) as [Hh Hb]. pose proof (qr_fits _ _ _ Hr) as Hf.
  pose proof (qr_size _ _ _ Hr) as Hs. simpl.
  split; [apply Hr|]. split; [rewrite (qr_tail _ _ _ Hr); apply ring_lt, HC|].
  split; [lia|]. split; [done|].
  apply (run_peak (queue_step Capacity) (queue_init Capacity)
    (λ q, stat_high_watermark (stats_ q)) size_); [done|].
  intros ops' op. apply (step_high op _ _ (queue_after_repr Capacity ops' HC)).
Qed.

End Claims.

Lemma two_slots_ok : capacity_ok 2.
Proof. split; [lia|]. rewrite u64_modulus_val. lia. Qed.

Definition demo_ops : list (QueueOp nat) :=
  [QTryPush 10; QTryPush 20; QTryPush 30; QWaitPush true 40; QTryPop; QWaitPop; QWaitPop;
   QWaitPush false 50]%nat.

Lemma queue_implements_fifo_witness :
  capacity_ok 2 ∧
  snd (run (queue_step 2) demo_ops (queue_init 2))
  = [QPush pushed; QPush pushed; QPush full; QPush timeout; QPop (Some 10%nat);
     QPop (Some 20%nat); QBlocked; QPush pushed].
Proof.
  split; [exact two_slots_ok|].
  rewrite (proj1 (queue_implements_fifo 2 two_slots_ok demo_ops)). reflexivity.
Defined.

Lemma queue_conserves_order_witness :
  capacity_ok 2 ∧
  accepted demo_ops (snd (run (queue_step 2) demo_ops (queue_init 2))) = [10; 20; 50]%nat.
Proof.
  split; [exact two_slots_ok|].
  pose proof (queue_conserves_order 2 two_slots_ok demo_ops) as H.
  destruct (run (queue_step 2) demo_ops (queue_init 2)) as [q rs] eqn:Hrun.
  simpl. rewrite H. vm_compute in Hrun. injection Hrun as <- <-. reflexivity.
Defined.

Lemma close_refuses_and_drains_witness :
  capacity_ok 2 ∧
  Forall closed_result (snd (run (queue_step 2) demo_ops (close (queue_after 2 (take 2 demo_ops))))).
Proof.
  split; [exact two_slots_ok|].
  pose proof (close_refuses_and_drains 2 two_slots_ok (take 2 demo_ops) demo_ops) as H.
  cbv zeta in H. destruct (run _ _ _) as [q rs]. exact (proj1 H).
Defined.

Lemma queue_bounds_and_statistics_witness :
  capacity_ok 2 ∧ (head_ (queue_after 2 demo_ops) < 2)%nat.
Proof.
  split; [exact two_slots_ok|].
  exact (proj1 (queue_bounds_and_statistics 2 two_slots_ok demo_ops)).
Defined.
