(* ===== verification/QueueSync.v ===== *)
(** * Threads and condition variables of the bounded queue

    Any number of threads call the operations of [Queue.v] on one queue.  A
    critical section is one step; a call whose predicate does not hold goes to
    sleep in the same step (the wait releases the mutex atomically), and is
    woken by a notification, by its timeout or spuriously, after which it tests
    the predicate again.  [notify_one] and [notify_all] run after the mutex is
    released, as in the code, so other threads run between a push and its
    notification. *)
From S2P Require Import Prelude Queue.
From Stdlib Require Import ZifyBool.

Local Open Scope Z_scope.

Section Sync.
Context {T : Type} (Capacity : nat).

Inductive Thread :=
| Idle
| TryPushing (v : T)                       (* [try_push], before the lock *)
| TryPopping                               (* [try_pop], before the lock *)
| Closing                                  (* [close], before the lock *)
| PushAwake (v : T) (expired : bool)       (* [wait_push], about to test the predicate *)
| PushAsleep (v : T)                       (* [wait_push], waiting on [not_full_] *)
| PopAwake (timed expired : bool)          (* [wait_pop], [wait_pop_for] when [timed] *)
| PopAsleep (timed : bool)                 (* waiting on [not_empty_] *)
| NotifyNotEmpty                           (* about to call [not_empty_.notify_one()] *)
| NotifyNotFull                            (* about to call [not_full_.notify_one()] *)
| NotifyAllNotEmpty                        (* [close], about to call the first [notify_all] *)
| NotifyAllNotFull.                        (* [close], about to call the second one *)

Record System := MkSystem { sys_queue : BoundedQueue T; sys_threads : list Thread }.

(** The critical section of a blocked call. *)
Definition push_section (v : T) (expired : bool) (q : BoundedQueue T) : BoundedQueue T * Thread :=
  match wait_push Capacity expired v q with
  | None => (q, PushAsleep v)
  | Some (q, pushed) => (q, NotifyNotEmpty)
  | Some (q, _) => (q, Idle)
  end.

Definition pop_section (timed expired : bool) (q : BoundedQueue T) : BoundedQueue T * Thread :=
  match (if timed then wait_pop_for Capacity expired q else wait_pop Capacity q) with
  | None => (q, PopAsleep timed)
  | Some (q, Some _) => (q, NotifyNotFull)
  | Some (q, None) => (q, Idle)
  end.

(** A notified thread tests its predicate again. *)
Definition wake_pop (t : Thread) : Thread :=
  match t with PopAsleep timed => PopAwake timed false | t => t end.
Definition wake_push (t : Thread) : Thread :=
  match t with PushAsleep v => PushAwake v false | t => t end.

Definition pop_asleep (t : Thread) : bool := match t with PopAsleep _ => true | _ => false end.
Definition push_asleep (t : Thread) : bool := match t with PushAsleep _ => true | _ => false end.
Definition pop_awake (t : Thread) : bool := match t with PopAwake _ _ => true | _ => false end.
Definition push_awake (t : Thread) : bool := match t with PushAwake _ _ => true | _ => false end.
Definition notifies_not_empty (t : Thread) : bool :=
  match t with NotifyNotEmpty => true | _ => false end.
Definition notifies_not_full (t : Thread) : bool :=
  match t with NotifyNotFull => true | _ => false end.
Definition closes_not_empty (t : Thread) : bool :=
  match t with NotifyAllNotEmpty => true | _ => false end.
Definition closes_not_full (t : Thread) : bool :=
  match t with NotifyAllNotEmpty | NotifyAllNotFull => true | _ => false end.

(** Thread [i] moves from [t] to [t'], the queue from [q] to [q']. *)
Inductive local_step : BoundedQueue T → Thread → BoundedQueue T → Thread → Prop :=
| step_call q t' :
    (∃ v, t' = TryPushing v ∨ t' = PushAwake v false) ∨
    t' = TryPopping ∨ t' = Closing ∨ (∃ timed, t' = PopAwake timed false) →
    local_step q Idle q t'
| step_try_push q v :
    local_step q (TryPushing v) (fst (try_push Capacity v q))
      (if decide (snd (try_push Capacity v q) = pushed) then NotifyNotEmpty else Idle)
| step_try_pop q :
    local_step q TryPopping (fst (try_pop Capacity q))
      (match snd (try_pop Capacity q) with Some _ => NotifyNotFull | None => Idle end)
| step_close q : local_step q Closing (close q) NotifyAllNotEmpty
| step_push q v expired :
    local_step q (PushAwake v expired) (fst (push_section v expired q))
      (snd (push_section v expired q))
| step_pop q timed expired :
    local_step q (PopAwake timed expired) (fst (pop_section timed expired q))
      (snd (pop_section timed expired q))
| step_push_wakes q v expired :                 (* spuriously, or the timeout expires *)
    local_step q (PushAsleep v) q (PushAwake v expired)
| step_pop_wakes q timed expired :              (* only a timed wait can expire *)
    (expired = true → timed = true) →
    local_step q (PopAsleep timed) q (PopAwake timed expired)
| step_notify_none_empty q : local_step q NotifyNotEmpty q Idle
| step_notify_none_full q : local_step q NotifyNotFull q Idle.

Inductive sync_step : System → System → Prop :=
| sync_local q ts i t q' t' :
    ts !! i = Some t → local_step q t q' t' →
    (* a notification is lost only when nobody waits *)
    (t = NotifyNotEmpty → Forall (λ u, pop_asleep u = false) ts) →
    (t = NotifyNotFull → Forall (λ u, push_asleep u = false) ts) →
    sync_step (MkSystem q ts) (MkSystem q' (<[i := t']> ts))
| sync_notify_not_empty q ts i j u :
    ts !! i = Some NotifyNotEmpty → ts !! j = Some u → pop_asleep u = true →
    sync_step (MkSystem q ts) (MkSystem q (<[j := wake_pop u]> (<[i := Idle]> ts)))
| sync_notify_not_full q ts i j u :
    ts !! i = Some NotifyNotFull → ts !! j = Some u → push_asleep u = true →
    sync_step (MkSystem q ts) (MkSystem q (<[j := wake_push u]> (<[i := Idle]> ts)))
| sync_notify_all_not_empty q ts i :
    ts !! i = Some NotifyAllNotEmpty →
    sync_step (MkSystem q ts) (MkSystem q (wake_pop <$> <[i := NotifyAllNotFull]> ts))
| sync_notify_all_not_full q ts i :
    ts !! i = Some NotifyAllNotFull →
    sync_step (MkSystem q ts) (MkSystem q (wake_push <$> <[i := Idle]> ts)).

(** [n] threads, none of them in a call. *)
Definition sync_init (n : nat) : System := MkSystem (queue_init Capacity) (replicate n Idle).

Definition reachable (n : nat) (s : System) : Prop := rtc sync_step (sync_init n) s.

(** ** What a critical section does to the size and to the flag *)

Hypothesis HC : (0 < Capacity)%nat.
Hypothesis HC64 : Z.of_nat Capacity < u64_modulus.

Definition well_formed (q : BoundedQueue T) : Prop := ∃ f, queue_repr Capacity q f.

Lemma well_formed_size (q : BoundedQueue T) :
  well_formed q → 0 ≤ size_ q ≤ Z.of_nat Capacity.
Proof. intros [f Hr]. pose proof (qr_fits _ _ _ Hr). rewrite (qr_size _ _ _ Hr). lia. Qed.

Lemma push_size (v : T) (q : BoundedQueue T) :
  0 ≤ size_ q ≤ Z.of_nat Capacity → size_ q ≠ Z.of_nat Capacity →
  size_ (push_locked Capacity v q) = size_ q + 1.
Proof. intros H1 H2. simpl. apply u64_incr_small. lia. Qed.

Lemma pop_size (q : BoundedQueue T) :
  0 ≤ size_ q ≤ Z.of_nat Capacity → size_ q ≠ 0 →
  size_ (fst (pop_locked Capacity q)) = size_ q - 1.
Proof. intros H1 H2. simpl. apply u64_decr_small. lia. Qed.

Lemma push_section_effect (v : T) (expired : bool) (q : BoundedQueue T) :
  well_formed q →
  let '(q', t') := push_section v expired q in
  well_formed q' ∧ closed_ q' = closed_ q ∧
  match t' with
  | PushAsleep _ => size_ q' = size_ q ∧ closed_ q = false ∧ size_ q = Z.of_nat Capacity
  | NotifyNotEmpty => size_ q' = size_ q + 1
  | Idle => size_ q' = size_ q ∧ (closed_ q = true ∨ size_ q = Z.of_nat Capacity)
  | _ => False
  end.
Proof.
  intros Hwf. pose proof (well_formed_size q Hwf) as Hs. pose proof (push_size v q Hs) as Hp.
  destruct Hwf as [f Hr]. pose proof (wait_push_repr Capacity HC HC64 expired v q f Hr) as H.
  unfold push_section. revert H. destruct (wait_push Capacity expired v q) as [[q' r]|] eqn:Hw.
  - destruct (fifo_wait_push Capacity expired v f) as [[f' r']|]; [|done]. intros [_ Hr'].
    revert Hw. unfold wait_push, not_full_ready.
    destruct (closed_ q) eqn:Hcl, (Z.ltb_spec (size_ q) (Z.of_nat Capacity)), expired; simpl;
      intros Hw; simplify_eq; cbn [closed_ size_ push_locked] in *;
      (split; [by exists f'|]); split; auto; try (split; [done|]; auto; right; lia); apply Hp; lia.
  - intros _. split; [by exists f|]. split; [done|]. revert Hw. unfold wait_push, not_full_ready.
    destruct (closed_ q), (Z.ltb_spec (size_ q) (Z.of_nat Capacity)), expired; simpl;
      intros; simplify_eq; split_and!; auto; lia.
Qed.

Lemma pop_section_effect (timed expired : bool) (q : BoundedQueue T) :
  well_formed q →
  let '(q', t') := pop_section timed expired q in
  well_formed q' ∧ closed_ q' = closed_ q ∧
  match t' with
  | PopAsleep _ => size_ q' = size_ q ∧ closed_ q = false ∧ size_ q = 0
  | NotifyNotFull => size_ q' = size_ q - 1
  | Idle => size_ q' = size_ q ∧ size_ q = 0
  | _ => False
  end.
Proof.
  intros Hwf. pose proof (well_formed_size q Hwf) as Hs. pose proof (pop_size q Hs) as Hp.
  destruct Hwf as [f Hr]. unfold pop_section. rewrite wait_pop_never.
  set (e := if timed then expired else false).
  assert ((if timed then wait_pop_for Capacity expired q else wait_pop_for Capacity false q)
          = wait_pop_for Capacity e q) as -> by (by destruct timed).
  pose proof (wait_pop_for_repr Capacity HC HC64 e q f Hr) as H. revert H.
  destruct (wait_pop_for Capacity e q) as [[q' r]|] eqn:Hw.
  - destruct (fifo_wait_pop e f) as [[f' r']|] eqn:Hf; [|done]. intros [-> Hr'].
    assert (Hv : is_Some r' ↔ size_ q ≠ 0).
    { revert Hf. unfold fifo_wait_pop, fifo_pop, fifo_empty. rewrite (qr_size _ _ _ Hr).
      destruct (contents f), (f_closed f), e; simpl; intros; simplify_eq;
        split; try (by intros [? ?]); try done; intros; eauto. }
    assert (Hq : closed_ q' = closed_ q ∧
                 size_ q' = if decide (size_ q = 0) then size_ q else size_ q - 1).
    { revert Hw. unfold wait_pop_for, not_empty_ready.
      destruct (closed_ q) eqn:Hcl, (Z.ltb_spec 0 (size_ q)), (Z.eqb_spec (size_ q) 0), e; simpl;
        intros Hw; simplify_eq; try lia; case_decide; try lia; auto;
        rewrite Hw in Hp; specialize (Hp n); injection Hw as <- _; auto. }
    destruct Hq as [Hcl Hsz], r' as [x|]; (split; [by exists f'|]); split; auto.
    + rewrite decide_False in Hsz; [done|]. apply Hv. eauto.
    + case_decide; [done|]. destruct (proj2 Hv) as [? ?]; done.
  - intros _. split; [by exists f|]. split; [done|]. revert Hw. unfold wait_pop_for, not_empty_ready.
    destruct (closed_ q), (Z.ltb_spec 0 (size_ q)), (Z.eqb_spec (size_ q) 0), e; simpl;
      intros; simplify_eq; split_and!; auto; lia.
Qed.

Lemma try_push_effect (v : T) (q : BoundedQueue T) :
  well_formed q →
  let '(q', r) := try_push Capacity v q in
  well_formed q' ∧ closed_ q' = closed_ q ∧
  size_ q' = size_ q + (if decide (r = pushed) then 1 else 0).
Proof.
  intros Hwf. pose proof (well_formed_size q Hwf) as Hs. pose proof (push_size v q Hs) as Hp.
  destruct Hwf as [f Hr]. pose proof (try_push_repr Capacity HC HC64 v q f Hr) as [_ Hr'].
  assert (Hwf' : well_formed (fst (try_push Capacity v q))) by (by eexists). clear Hr'.
  revert Hwf'. unfold try_push. destruct (closed_ q) eqn:Hcl; simpl; [intros; split_and!; auto; lia|].
  destruct (Z.eqb_spec (size_ q) (Z.of_nat Capacity)); simpl; intros; split_and!; auto; try lia;
    apply Hp; lia.
Qed.

Lemma try_pop_effect (q : BoundedQueue T) :
  well_formed q →
  let '(q', r) := try_pop Capacity q in
  well_formed q' ∧ closed_ q' = closed_ q ∧
  size_ q' = size_ q - match r with Some _ => 1 | None => 0 end.
Proof.
  intros Hwf. pose proof (well_formed_size q Hwf) as Hs. pose proof (pop_size q Hs) as Hp.
  destruct Hwf as [f Hr]. pose proof (try_pop_repr Capacity HC HC64 q f Hr) as [Hv Hr'].
  assert (Hwf' : well_formed (fst (try_pop Capacity q))) by (by eexists). clear Hr'.
  assert (Hn : is_Some (snd (fifo_pop f)) ↔ size_ q ≠ 0).
  { unfold fifo_pop. rewrite (qr_size _ _ _ Hr). destruct (contents f); simpl; split; intros;
      eauto; try lia. by destruct H. }
  rewrite <- Hv in Hn. clear Hv. revert Hwf' Hn. unfold try_pop.
  destruct (Z.eqb_spec (size_ q) 0) as [Hz|Hz]; [simpl; intros; split_and!; auto; lia|].
  specialize (Hp Hz). destruct (pop_locked Capacity q) as [q' r] eqn:Hl. simpl in *.
  intros Hwf' Hn. split; [done|]. split; [by injection Hl as <- _|].
  destruct r; [lia|]. destruct (proj2 Hn Hz); done.
Qed.

(** ** The invariant: no wake-up is lost *)

Record sync_inv (s : System) : Prop := {
  inv_queue : well_formed (sys_queue s);
  (* sleeping consumers: every queued value has a consumer or a notification on its way *)
  inv_pop : count pop_asleep (sys_threads s) = 0 ∨
    size_ (sys_queue s) ≤ count pop_awake (sys_threads s) + count notifies_not_empty (sys_threads s);
  (* sleeping producers: so has every free slot of an open queue *)
  inv_push : closed_ (sys_queue s) = true ∨ count push_asleep (sys_threads s) = 0 ∨
    Z.of_nat Capacity - size_ (sys_queue s)
    ≤ count push_awake (sys_threads s) + count notifies_not_full (sys_threads s);
  (* a closed queue has sleepers only until [close] has notified them *)
  inv_close_pop : closed_ (sys_queue s) = true →
    count pop_asleep (sys_threads s) = 0 ∨ 1 ≤ count closes_not_empty (sys_threads s);
  inv_close_push : closed_ (sys_queue s) = true →
    count push_asleep (sys_threads s) = 0 ∨ 1 ≤ count closes_not_full (sys_threads s)
}.

Lemma init_inv (n : nat) : sync_inv (sync_init n).
Proof.
  assert (Hz : ∀ p, p Idle = false → count p (replicate n Idle) = 0).
  { intros p Hp. apply count_zero, Forall_replicate. done. }
  split; simpl; rewrite ?Hz by done; auto. exists fifo_init. by apply queue_init_repr.
Qed.

Ltac close_counts Hc :=
  split; cbn [sys_queue sys_threads]; rewrite ?Hc; simpl; try done; lia.

Lemma local_inv (q : BoundedQueue T) (ts : list Thread) (i : nat) (t : Thread)
    (q' : BoundedQueue T) (t' : Thread) :
  sync_inv (MkSystem q ts) → ts !! i = Some t → local_step q t q' t' →
  (t = NotifyNotEmpty → Forall (λ u, pop_asleep u = false) ts) →
  (t = NotifyNotFull → Forall (λ u, push_asleep u = false) ts) →
  sync_inv (MkSystem q' (<[i := t']> ts)).
Proof.
  intros [Hq Hpop Hpush Hcpop Hcpush] Hi Hstep Hne Hnf. cbn [sys_queue sys_threads] in *.
  pose proof (well_formed_size q Hq) as Hsz.
  pose proof (count_nonneg pop_awake ts). pose proof (count_nonneg push_awake ts).
  pose proof (count_nonneg notifies_not_empty ts). pose proof (count_nonneg notifies_not_full ts).
  pose proof (count_nonneg closes_not_empty ts). pose proof (count_nonneg closes_not_full ts).
  pose proof (count_pos pop_asleep ts i t Hi). pose proof (count_pos push_asleep ts i t Hi).
  pose proof (count_pos pop_awake ts i t Hi). pose proof (count_pos push_awake ts i t Hi).
  assert (Hc := count_insert_all ts i t t' Hi).
  destruct Hstep as [q t' Hcall|q v|q|q|q v expired|q timed expired|q v expired|q timed expired|q|q];
    simpl in *.
  - destruct Hcall as [(v & [-> | ->])|[->|[->|[timed ->]]]]; close_counts Hc.
  - pose proof (try_push_effect v q Hq) as He.
    destruct (try_push Capacity v q) as [q' r], He as (? & Hcl & ?).
    simpl in *. destruct (decide (r = pushed)); close_counts Hc.
  - pose proof (try_pop_effect q Hq) as He.
    destruct (try_pop Capacity q) as [q' r], He as (? & Hcl & ?).
    simpl in *. destruct r; close_counts Hc.
  - destruct Hq as [f Hr]. assert (well_formed (close q)) by (eexists; by apply close_repr).
    close_counts Hc.
  - pose proof (push_section_effect v expired q Hq) as He.
    destruct (push_section v expired q) as [q' t'], He as (? & Hcl & He). simpl in *.
    destruct t'; try done; close_counts Hc.
  - pose proof (pop_section_effect timed expired q Hq) as He.
    destruct (pop_section timed expired q) as [q' t'], He as (? & Hcl & He). simpl in *.
    destruct t'; try done; close_counts Hc.
  - close_counts Hc.
  - close_counts Hc.
  - pose proof (count_zero _ _ (Hne eq_refl)). close_counts Hc.
  - pose proof (count_zero _ _ (Hnf eq_refl)). close_counts Hc.
Qed.

(** A notification is handed to thread [j]; the notifying thread [i] returns. *)
Lemma counts_wake (ts : list Thread) (i j : nat) (n u u' : Thread) :
  ts !! i = Some n → ts !! j = Some u → i ≠ j →
  ∀ p, count p (<[j := u']> (<[i := Idle]> ts))
       = count p ts - Z.b2z (p n) + Z.b2z (p Idle) - Z.b2z (p u) + Z.b2z (p u').
Proof.
  intros Hi Hj Hij p. rewrite (count_insert p _ j u u'); [|by rewrite list_lookup_insert_ne].
  by rewrite (count_insert p ts i n Idle Hi).
Qed.

Lemma sync_preserves (s s' : System) : sync_inv s → sync_step s s' → sync_inv s'.
Proof.
  intros Hinv Hstep.
  destruct Hstep as [q ts i t q' t' Hi Hl Hne Hnf|q ts i j u Hi Hj Hu|q ts i j u Hi Hj Hu
                    |q ts i Hi|q ts i Hi]; [by eapply local_inv|..];
    destruct Hinv as [Hq Hpop Hpush Hcpop Hcpush]; cbn [sys_queue sys_threads] in *.
  - assert (i ≠ j) by (intros ->; simplify_eq). destruct u; try done.
    assert (Hc := counts_wake ts i j _ _ (PopAwake timed false) Hi Hj ltac:(done)).
    pose proof (count_pos pop_asleep ts j _ Hj eq_refl). close_counts Hc.
  - assert (i ≠ j) by (intros ->; simplify_eq). destruct u; try done.
    assert (Hc := counts_wake ts i j _ _ (PushAwake v false) Hi Hj ltac:(done)).
    pose proof (count_pos push_asleep ts j _ Hj eq_refl). close_counts Hc.
  - assert (Hc := count_insert_all ts i _ NotifyAllNotFull Hi).
    split; cbn [sys_queue sys_threads]; [done|left; by apply count_fmap_none; intros []|..].
    + rewrite !(count_fmap_same _ wake_pop) by (by intros []). rewrite !Hc. simpl. lia.
    + left. by apply count_fmap_none; intros [].
    + rewrite !(count_fmap_same _ wake_pop) by (by intros []). rewrite !Hc. simpl. lia.
  - assert (Hc := count_insert_all ts i _ Idle Hi).
    split; cbn [sys_queue sys_threads]; [done|..].
    + rewrite !(count_fmap_same _ wake_push) by (by intros []). rewrite !Hc. simpl. lia.
    + right. left. by apply count_fmap_none; intros [].
    + rewrite !(count_fmap_same _ wake_push) by (by intros []). rewrite !Hc. simpl. lia.
    + left. by apply count_fmap_none; intros [].
Qed.

Lemma reachable_inv (n : nat) (s : System) : reachable n s → sync_inv s.
Proof.
  unfold reachable. intros H. remember (sync_init n) as s0 eqn:Hs0.
  assert (Hinv : sync_inv s0) by (subst; apply init_inv). clear Hs0.
  induction H as [s|s s1 s2 Hstep _ IH]; [done|]. eauto using sync_preserves.
Qed.

(** ** No wake-up is lost *)

(** Some thread is going to test the predicate of the consumers, or to notify them. *)
Definition serves_consumers (t : Thread) : bool :=
  pop_awake t || notifies_not_empty t || closes_not_empty t.
Definition serves_producers (t : Thread) : bool :=
  push_awake t || notifies_not_full t || closes_not_full t.

Lemma count_in_or (p q r : Thread → bool) (ts : list Thread) :
  1 ≤ count p ts + count q ts + count r ts →
  ∃ t, t ∈ ts ∧ p t || q t || r t = true.
Proof.
  intros H. assert (Hor : 1 ≤ count p ts ∨ 1 ≤ count q ts ∨ 1 ≤ count r ts) by lia_count.
  destruct Hor as [Hc|[Hc|Hc]]; apply count_exists in Hc as (k & t & Hk & Ht);
    exists t; (split; [by eapply list_elem_of_lookup_2|]);
    rewrite Ht; by rewrite ?orb_true_r.
Qed.

(** C10: In every configuration that any interleaving of pushes, pops and
    closes by any number of threads can reach (spurious wake-ups and timeouts
    included, notifications sent after the mutex is released), a wake-up is
    never lost: while a consumer sleeps on a queue that holds a value or is
    closed, and while a producer sleeps on a queue that has a free slot or is
    closed, some thread is awake to take it or is about to notify. *)
Theorem no_lost_wakeup (n : nat) (s : System) :
  reachable n s →
  ((∃ timed, PopAsleep timed ∈ sys_threads s) → not_empty_ready (sys_queue s) = true →
   ∃ t, t ∈ sys_threads s ∧ serves_consumers t = true) ∧
  ((∃ v, PushAsleep v ∈ sys_threads s) → not_full_ready Capacity (sys_queue s) = true →
   ∃ t, t ∈ sys_threads s ∧ serves_producers t = true).
Proof.
  intros Hr. destruct (reachable_inv n s Hr) as [Hq Hpop Hpush Hcpop Hcpush].
  pose proof (well_formed_size _ Hq) as Hsz.
  split; intros [x Hx] Hready; apply list_elem_of_lookup in Hx as [i Hi].
  - pose proof (count_pos pop_asleep _ _ _ Hi eq_refl).
    apply count_in_or. unfold not_empty_ready in Hready. lia_count.
  - pose proof (count_pos push_asleep _ _ _ Hi eq_refl).
    apply count_in_or. unfold not_full_ready in Hready. lia_count.
Qed.

End Sync.

Arguments Thread : clear implicits.
Arguments System : clear implicits.

(** A consumer sleeps on the empty queue, then a producer pushes and releases
    the mutex: the queue holds a value, the consumer still sleeps, and the
    producer is about to notify it. *)
Definition pushed_system : System nat :=
  MkSystem (fst (try_push 1 7%nat (queue_init 1))) [PopAsleep false; NotifyNotEmpty].

Lemma no_lost_wakeup_witness :
  reachable 1 2 pushed_system ∧
  ∃ t, t ∈ sys_threads pushed_system ∧ serves_consumers t = true.
Proof.
  assert (Hr : reachable 1 2 pushed_system).
  { unfold reachable, sync_init, pushed_system.
    eapply rtc_l; [eapply (sync_local 1 _ _ 0 Idle _ (PopAwake false false));
      [done|apply step_call; eauto 6|done|done]|].
    eapply rtc_l; [eapply (sync_local 1 _ _ 0); [done|apply step_pop|done|done]|].
    eapply rtc_l; [eapply (sync_local 1 _ _ 1 Idle _ (TryPushing 7%nat));
      [done|apply step_call; eauto 6|done|done]|].
    eapply rtc_l; [eapply (sync_local 1 _ _ 1); [done|apply step_try_push|done|done]|].
    apply rtc_refl. }
  split; [done|]. apply (no_lost_wakeup 1 ltac:(lia) ltac:(reflexivity) 2 pushed_system Hr).
  - exists false. apply list_elem_of_here.
  - reflexivity.
Defined.
