(* ===== verification/Interfaces.v ===== *)
(** * What the runtime relies on

    [EdgeRuntime] uses its pool through three operations of [Handle] and
    [try_create], and its queue through [wait_push], [wait_pop] and [close].  The
    classes state these operations and what each promises in terms of the live
    objects and of the queued values; the runtime is verified against them.  The
    instances discharge them with the theorems on the pool and on the queue. *)
From stdpp Require Import gmap.
From S2P Require Import Prelude Pool PoolProps Queue QueueProps.

Local Open Scope Z_scope.

(** ** Pool *)

Class ObjectPool (P T : Type) := {
  op_init : P;
  op_create : T → P → P * Handle;
  op_deref : Handle → P → option T;
  op_drop : Handle → P → P;               (* the destructor of a handle *)
  op_in_use : P → Z;
  op_invalid_releases : P → Z;
  op_stats : P → PoolStats
}.

(** [op_holds p m]: the live objects of [p] are [m], by address. *)
Class ObjectPoolLaws (P T : Type) `{ObjectPool P T} (capacity : nat) := {
  op_holds : P → gmap Z T → Prop;
  op_init_law : op_holds op_init ∅;
  op_create_law (v : T) (p : P) (m : gmap Z T) :
    op_holds p m →
    let '(p', h) := op_create v p in
    if decide (size m = capacity) then h = empty_handle ∧ op_holds p' m
    else ∃ q, h = MkHandle true q ∧ q ≠ 0 ∧ m !! q = None ∧ op_holds p' (<[q := v]> m);
  op_deref_law (h : Handle) (p : P) (m : gmap Z T) :
    op_holds p m → op_deref h p = m !! object_ h;
  op_drop_law (h : Handle) (p : P) (m : gmap Z T) :
    op_holds p m → pool_ h = true → is_Some (m !! object_ h) →
    op_holds (op_drop h p) (delete (object_ h) m);
  op_in_use_law (p : P) (m : gmap Z T) : op_holds p m → op_in_use p = Z.of_nat (size m);
  op_capacity_law (p : P) (m : gmap Z T) : op_holds p m → (size m ≤ capacity)%nat;
  op_valid_law (p : P) (m : gmap Z T) : op_holds p m → op_invalid_releases p = 0;
  op_init_stats_law : allocation_failures (op_stats op_init) = 0 ∧ high_watermark (op_stats op_init) = 0;
  op_create_stats_law (v : T) (p : P) (m : gmap Z T) :
    op_holds p m → size m ≠ capacity →
    allocation_failures (op_stats (op_create v p).1) = allocation_failures (op_stats p) ∧
    high_watermark (op_stats (op_create v p).1) = Z.max (high_watermark (op_stats p)) (Z.of_nat (S (size m)));
  op_drop_stats_law (h : Handle) (p : P) :
    allocation_failures (op_stats (op_drop h p)) = allocation_failures (op_stats p) ∧
    high_watermark (op_stats (op_drop h p)) = high_watermark (op_stats p)
}.

(** ** Queue *)

Class EventQueue (Q T : Type) := {
  eq_init : Q;
  eq_push : bool → T → Q → option (Q * QueuePushResult);    (* the flag: the timeout expired *)
  eq_pop : Q → option (Q * option T);
  eq_close : Q → Q;
  eq_contents : Q → list T;
  eq_closed : Q → bool;
  eq_stats : Q → QueueStats
}.

(** [eq_holds q l c]: [q] holds [l] in order, and is closed when [c]. *)
Class EventQueueLaws (Q T : Type) `{EventQueue Q T} (capacity : nat) := {
  eq_holds : Q → list T → bool → Prop;
  eq_init_law : eq_holds eq_init [] false;
  eq_push_law (expired : bool) (v : T) (q : Q) (l : list T) (c : bool) :
    eq_holds q l c →
    match eq_push expired v q with
    | None => c = false ∧ length l = capacity ∧ expired = false
    | Some (q', pushed) => c = false ∧ (length l < capacity)%nat ∧ eq_holds q' (l ++ [v]) c
    | Some (q', timeout) => c = false ∧ length l = capacity ∧ expired = true ∧ eq_holds q' l c
    | Some (q', closed) => c = true ∧ eq_holds q' l c
    | Some (_, full) => False
    end;
  eq_pop_law (q : Q) (l : list T) (c : bool) :
    eq_holds q l c →
    match eq_pop q with
    | None => l = [] ∧ c = false
    | Some (q', Some v) => ∃ l', l = v :: l' ∧ eq_holds q' l' c
    | Some (q', None) => l = [] ∧ c = true ∧ eq_holds q' l c
    end;
  eq_close_law (q : Q) (l : list T) (c : bool) : eq_holds q l c → eq_holds (eq_close q) l true;
  eq_capacity_law (q : Q) (l : list T) (c : bool) : eq_holds q l c → (length l ≤ capacity)%nat;
  eq_view_law (q : Q) (l : list T) (c : bool) :
    eq_holds q l c → eq_contents q = l ∧ eq_closed q = c;
  eq_stats_law (q : Q) (l : list T) (c : bool) :
    eq_holds q l c → Z.of_nat (length l) ≤ stat_high_watermark (eq_stats q) ≤ Z.of_nat capacity
}.

(** ** The bounded queue as an event queue *)

Section QueueInstance.
Context {T : Type} (Capacity : nat).

#[local] Instance bounded_queue_ops : EventQueue (BoundedQueue T) T := {|
  eq_init := queue_init Capacity;
  eq_push := λ expired v q, wait_push Capacity expired v q;
  eq_pop := λ q, wait_pop Capacity q;
  eq_close := λ q, close q;
  eq_contents := λ q, queue_contents Capacity q;
  eq_closed := λ q, is_closed q;
  eq_stats := λ q, queue_stats Capacity q
|}.

Context (HC : (0 < Capacity)%nat) (HC64 : Z.of_nat Capacity < u64_modulus).

Definition bounded_queue_holds (q : BoundedQueue T) (l : list T) (c : bool) : Prop :=
  queue_repr Capacity q (MkFifo l c).

#[local] Instance bounded_queue_laws : EventQueueLaws (BoundedQueue T) T Capacity.
Proof.
  refine {| eq_holds := bounded_queue_holds |}; unfold bounded_queue_holds.
  - by apply queue_init_repr.
  - intros expired v q l c Hr. pose proof (wait_push_repr Capacity HC HC64 expired v q _ Hr) as H.
    pose proof (qr_fits _ _ _ Hr) as Hf. simpl in *.
    unfold fifo_wait_push, fifo_push, fifo_full in H. simpl in H.
    destruct (wait_push Capacity expired v q) as [[q' r]|];
      (destruct c; simpl in H; [|case_bool_decide; [destruct expired|]; simpl in H]);
      try done; destruct H as [-> H]; split_and!; auto; lia.
  - intros q l c Hr. simpl. rewrite wait_pop_never.
    pose proof (wait_pop_for_repr Capacity HC HC64 false q _ Hr) as H.
    unfold fifo_wait_pop, fifo_pop, fifo_empty in H. simpl in H.
    destruct l as [|x l]; simpl in H.
    + destruct c; simpl in H; destruct (wait_pop_for Capacity false q) as [[q' r]|]; try done.
      destruct H as [-> H]. done.
    + destruct c; simpl in H; destruct (wait_pop_for Capacity false q) as [[q' r]|]; try done;
        destruct H as [-> H]; eauto.
  - intros q l c Hr. apply (close_repr Capacity q _ Hr).
  - intros q l c Hr. apply (qr_fits _ _ _ Hr).
  - intros q l c Hr. split; [by apply (repr_contents Capacity _ _ Hr)|apply (qr_closed _ _ _ Hr)].
  - intros q l c Hr. pose proof (qs_high _ _ _ (qr_stats _ _ _ Hr)) as Hh.
    by rewrite (qr_size _ _ _ Hr) in Hh.
Qed.

End QueueInstance.

(** ** The fixed object pool as an object pool *)

Section PoolInstance.
Context {T : Type} (L : PoolLayout).

#[local] Instance fixed_pool_ops : ObjectPool (FixedObjectPool T) T := {|
  op_init := pool_init L;
  op_create := λ v p, let '(p, r) := try_create L (Some v) p in (p, default empty_handle r);
  op_deref := λ h p, deref L (object_ h) p;
  op_drop := λ h p, fst (handle_reset L h p);
  op_in_use := λ p, outstanding L p;
  op_invalid_releases := λ p, invalid_releases (Pool.stats_ p);
  op_stats := λ p, pool_stats L p
|}.

Context (HL : layout_ok L).

(** The live objects of the abstract allocator, by address. *)
Definition by_address (a : Allocator T) : gmap Z T := kmap (slot_object L) (live a).

Definition fixed_pool_holds (p : FixedObjectPool T) (m : gmap Z T) : Prop :=
  ∃ a, pool_repr L p a ∧ m = by_address a ∧ invalid_releases (Pool.stats_ p) = 0.

Lemma slot_object_injective : Inj (=) (=) (slot_object L).
Proof. intros i j. by apply slot_object_inj. Qed.

Lemma by_address_lookup (a : Allocator T) (i : nat) : by_address a !! slot_object L i = live a !! i.
Proof. pose proof slot_object_injective. apply (lookup_kmap (slot_object L)). Qed.

Lemma by_address_Some (a : Allocator T) (q : Z) (v : T) :
  by_address a !! q = Some v → ∃ i, q = slot_object L i ∧ live a !! i = Some v.
Proof. pose proof slot_object_injective. by apply lookup_kmap_Some. Qed.

Lemma by_address_size (a : Allocator T) : size (by_address a) = size (live a).
Proof.
  pose proof slot_object_injective. unfold by_address.
  by rewrite <- !length_map_to_list, map_to_list_kmap, length_fmap.
Qed.

(** The statistics a create and a drop leave. *)
Lemma create_counts (v : T) (p : FixedObjectPool T) (a : Allocator T) :
  pool_repr L p a → size (live a) ≠ Capacity L →
  let p' := (let '(p', r) := try_create L (Some v) p in (p', default empty_handle r)).1 in
  allocation_failures (pool_stats L p') = allocation_failures (pool_stats L p) ∧
  high_watermark (pool_stats L p')
  = Z.max (high_watermark (pool_stats L p)) (Z.of_nat (S (size (live a)))).
Proof.
  intros Hr Hne. pose proof (try_create_repr L HL (Some v) p a Hr) as H. pose proof (pr_size _ _ _ Hr) as Hsz.
  unfold alloc_create in H. destruct (free a) as [|i f] eqn:Hf; [simpl in Hsz; lia|].
  destruct (free_slot L p a i f Hr Hf) as (_ & _ & Hlive & _).
  unfold try_create in *. destruct (free_head_ p =? kNoSlot L)%nat; [by destruct H|].
  destruct (Pool.slots_ p !! free_head_ p) as [slot|]; [|by destruct H]. destruct H as [_ Hr'].
  pose proof (sa_in_use _ _ _ (pr_stats _ _ _ Hr')) as Hu. simpl in Hu. rewrite map_size_insert_None in Hu by done.
  unfold pool_stats. simpl. rewrite Hu. split; [done|]. destruct (Z.ltb_spec (high_watermark (Pool.stats_ p))
    (Z.of_nat (S (size (live a))))); lia.
Qed.

Lemma drop_counts (h : Handle) (p : FixedObjectPool T) :
  allocation_failures (pool_stats L (fst (handle_reset L h p))) = allocation_failures (pool_stats L p) ∧
  high_watermark (pool_stats L (fst (handle_reset L h p))) = high_watermark (pool_stats L p).
Proof.
  unfold handle_reset. destruct (_ && _); [|done]. simpl. unfold destroy. by repeat case_match.
Qed.

#[local] Instance fixed_pool_laws : ObjectPoolLaws (FixedObjectPool T) T (Capacity L).
Proof.
  pose proof slot_object_injective as Hinj.
  refine {| op_holds := fixed_pool_holds |}; unfold fixed_pool_holds.
  - exists (alloc_init L). split; [by apply pool_init_repr|done].
  - intros v p m (a & Hr & -> & Hv). simpl. pose proof (try_create_repr L HL (Some v) p a Hr) as H.
    assert (Hkeep : invalid_releases (Pool.stats_ (fst (try_create L (Some v) p))) = 0)
      by (unfold try_create; repeat case_match; simpl; congruence).
    rewrite by_address_size. pose proof (pr_size _ _ _ Hr) as Hsz.
    destruct (try_create L (Some v) p) as [p' r]. unfold alloc_create in H. simpl in Hkeep.
    destruct (free a) as [|i f] eqn:Hf; destruct H as [-> Hr']; simpl in *.
    + rewrite decide_True by lia. split; [done|]. by exists a.
    + rewrite decide_False by lia. exists (slot_object L i).
      destruct (free_slot L p a i f Hr Hf) as (_ & _ & Hlive & _).
      pose proof (slot_object_pos L HL i). split_and!; [done|lia|by rewrite by_address_lookup|].
      eexists. split; [exact Hr'|]. split; [|done]. unfold by_address. simpl. by rewrite kmap_insert.
  - intros h p m (a & Hr & -> & _). simpl. rewrite (deref_live L p a) by done.
    destruct (by_address a !! object_ h) as [v|] eqn:Hq.
    + apply by_address_Some in Hq as (i & -> & Hi).
      rewrite slot_of_object; [done|done|]. apply (pr_live _ _ _ Hr). eauto.
    + destruct (slot_of L (object_ h)) as [i|] eqn:Hi; [|done]. simpl.
      apply slot_of_Some in Hi as [_ Hi]; [|done]. by rewrite Hi, by_address_lookup in Hq.
  - intros h p m (a & Hr & -> & Hv) Hh [v Hq]. apply by_address_Some in Hq as (i & Hi & Hlive).
    pose proof (destroy_repr L HL (object_ h) p a Hr) as H. unfold alloc_destroy in H.
    assert (HiC : (i < Capacity L)%nat) by (apply (pr_live _ _ _ Hr); eauto).
    rewrite Hi, slot_of_object, Hlive in H by done. simpl. unfold handle_reset. rewrite Hi, Hh.
    pose proof (slot_object_pos L HL i). destruct (Z.eqb_spec (slot_object L i) 0); [lia|]. simpl.
    assert (Hkeep : snd (destroy L (slot_object L i) p) = released →
                    invalid_releases (Pool.stats_ (fst (destroy L (slot_object L i) p)))
                    = invalid_releases (Pool.stats_ p))
      by (unfold destroy; repeat case_match; simpl; congruence).
    destruct (destroy L (slot_object L i) p) as [p' r]. simpl in *. destruct H as [-> Hr'].
    eexists. split; [exact Hr'|]. split; [|by rewrite Hkeep].
    unfold by_address. simpl. by rewrite kmap_delete.
  - intros p m (a & Hr & -> & _). rewrite by_address_size. apply (sa_in_use _ _ _ (pr_stats _ _ _ Hr)).
  - intros p m (a & Hr & -> & _). rewrite by_address_size. pose proof (pr_size _ _ _ Hr). lia.
  - by intros p m (a & _ & _ & Hv).
  - done.
  - intros v p m (a & Hr & -> & _) Hne. rewrite by_address_size in *. by apply create_counts.
  - intros h p. apply drop_counts.
Qed.

End PoolInstance.
