(* ===== verification/Descriptors.v ===== *)
(** * File descriptors ([linux/unique_fd.hpp])

    The descriptors of the process as the kernel sees them, and [UniqueFd], which
    owns one of them.  A call that creates a descriptor succeeds or fails as the
    environment decides; on success it gets the lowest number not in use. *)
From stdpp Require Import gmap.
From S2P Require Import Prelude Owners.

Local Open Scope Z_scope.

(** ** The descriptor table *)

Record Os := MkOs {
  os_open : gset Z;          (* the descriptors in use *)
  os_bad_closes : nat        (* calls of [close] on a number not in use *)
}.

(** The first number from [n] on that is not in use, among [fuel] of them. *)
Fixpoint first_unused (fuel : nat) (n : Z) (used : gset Z) : Z :=
  match fuel with
  | O => n
  | S fuel => if decide (n ∈ used) then first_unused fuel (n + 1) used else n
  end.

Definition lowest_unused (os : Os) : Z := first_unused (size (os_open os)) 0 (os_open os).

(** [open], [socket], [accept4]: [Some e] when the call fails with [errno = e].
    The new descriptor, or -1, and [errno]. *)
Definition sys_create (failure : option Z) (os : Os) : Os * (Z * Z) :=
  match failure with
  | Some e => (os, (-1, e))
  | None => let fd := lowest_unused os in (MkOs ({[fd]} ∪ os_open os) (os_bad_closes os), (fd, 0))
  end.

Definition sys_close (fd : Z) (os : Os) : Os :=
  if decide (fd ∈ os_open os) then MkOs (os_open os ∖ {[fd]}) (os_bad_closes os)
  else MkOs (os_open os) (S (os_bad_closes os)).

(** ** [UniqueFd] *)

Record UniqueFd := MkUniqueFd { descriptor_ : Z }.

Definition no_fd : UniqueFd := MkUniqueFd (-1).

Definition fd_valid (u : UniqueFd) : bool := 0 <=? descriptor_ u.

(** [reset(descriptor)] *)
Definition fd_reset (descriptor : Z) (u : UniqueFd) (os : Os) : Os * UniqueFd :=
  ((if 0 <=? descriptor_ u then sys_close (descriptor_ u) os else os), MkUniqueFd descriptor).

(** The destructor. *)
Definition fd_destroy (u : UniqueFd) (os : Os) : Os := fst (fd_reset (-1) u os).

(** [UniqueFd(UniqueFd&& other)]: the new object, and what is left of [other]. *)
Definition fd_move (other : UniqueFd) : UniqueFd * UniqueFd :=
  (MkUniqueFd (descriptor_ other), no_fd).

(** [*this = std::move(other)] for two different objects. *)
Definition fd_move_assign (this other : UniqueFd) (os : Os) : Os * UniqueFd * UniqueFd :=
  let '(taken, other) := fd_move other in
  let '(os, this) := fd_reset (descriptor_ taken) this os in (os, this, other).

(** ** Lemmas *)

Lemma first_unused_spec (fuel : nat) (n : Z) (used : gset Z) :
  0 ≤ n → (∀ k, 0 ≤ k < n → k ∈ used) → (size used ≤ fuel + Z.to_nat n)%nat →
  0 ≤ first_unused fuel n used ∧ first_unused fuel n used ∉ used.
Proof.
  revert n. induction fuel as [|fuel IH]; intros n Hn Hbelow Hsize; simpl.
  - split; [done|]. intros Hin.
    assert (Hsub : list_to_set (seqZ 0 (n + 1)) ⊆ used).
    { intros k Hk. apply elem_of_list_to_set, elem_of_seqZ in Hk.
      destruct (decide (k = n)) as [->|]; [done|]. apply Hbelow. lia. }
    apply subseteq_size in Hsub. rewrite size_list_to_set, length_seqZ in Hsub by apply NoDup_seqZ. lia.
  - case_decide as Hin; [|done]. apply IH; [lia| |lia].
    intros k Hk. destruct (decide (k = n)) as [->|]; [done|]. apply Hbelow. lia.
Qed.

Lemma lowest_unused_fresh (os : Os) : 0 ≤ lowest_unused os ∧ lowest_unused os ∉ os_open os.
Proof. apply first_unused_spec; [lia|lia|simpl; lia]. Qed.

Lemma sys_close_created (os os' : Os) (fd e : Z) :
  sys_create None os = (os', (fd, e)) → sys_close fd os' = os ∧ 0 ≤ fd.
Proof.
  unfold sys_create. intros [= <- <- <-]. destruct (lowest_unused_fresh os) as [Hpos Hfresh].
  split; [|done]. unfold sys_close. simpl. rewrite decide_True by set_solver.
  destruct os as [used bad]. simpl in *. f_equal. apply leibniz_equiv. set_solver.
Qed.

(** A descriptor created and owned by a [UniqueFd] that goes out of scope leaves
    the table as it was; a failed creation never closes anything. *)
Lemma create_destroy (failure : option Z) (os : Os) :
  let '(os', (fd, e)) := sys_create failure os in
  fd_destroy (MkUniqueFd fd) os' = os ∧ (fd_valid (MkUniqueFd fd) = true ↔ failure = None).
Proof.
  destruct (sys_create failure os) as [os' [fd e]] eqn:Hc. destruct failure as [e'|].
  - injection Hc as <- <- <-. done.
  - destruct (sys_close_created _ _ _ _ Hc) as [Hclose Hpos]. unfold fd_destroy, fd_valid, fd_reset. simpl.
    destruct (Z.leb_spec 0 fd); [done|lia].
Qed.

Lemma create_open (failure : option Z) (os os' : Os) (fd e : Z) :
  sys_create failure os = (os', (fd, e)) → fd_valid (MkUniqueFd fd) = true → fd ∈ os_open os'.
Proof. destruct failure; intros [= <- <- <-] Hv; [done|]. simpl. set_solver. Qed.

(** ** Programs that own descriptors

    Sequences of C++ statements on [UniqueFd] variables, with the outcome of every
    creating call. *)

Inductive FdOp :=
| UDefault (x : nat)                            (* UniqueFd x; *)
| UCreate (x : nat) (failure : option Z)        (* UniqueFd x{::open(...)}; *)
| UMove (dst src : nat)                         (* UniqueFd dst{std::move(src)}; *)
| UAssign (dst src : nat)                       (* dst = std::move(src); *)
| UReset (x : nat)                              (* x.reset(); *)
| UResetTo (x : nat) (failure : option Z)       (* x.reset(::open(...)); *)
| UScopeEnd (x : nat).                          (* ~UniqueFd *)

Record FdWorld := MkFdWorld { fw_os : Os; fw_vars : gmap nat UniqueFd }.

(** Only a variable in scope can be used, only a fresh one defined. *)
Definition fd_exec (op : FdOp) (w : FdWorld) : option FdWorld :=
  let os := fw_os w in
  let vs := fw_vars w in
  match op with
  | UDefault x =>
      match vs !! x with None => Some (MkFdWorld os (<[x := no_fd]> vs)) | Some _ => None end
  | UCreate x failure =>
      match vs !! x with
      | None => let '(os, (fd, _)) := sys_create failure os in
                Some (MkFdWorld os (<[x := MkUniqueFd fd]> vs))
      | Some _ => None
      end
  | UMove dst src =>
      match vs !! dst, vs !! src with
      | None, Some v => let '(u, v) := fd_move v in Some (MkFdWorld os (<[dst := u]> (<[src := v]> vs)))
      | _, _ => None
      end
  | UAssign dst src =>
      match vs !! dst, vs !! src with
      | Some u, Some v =>
          if decide (dst = src) then Some w        (* if (this != &other) *)
          else let '(os, u, v) := fd_move_assign u v os in
               Some (MkFdWorld os (<[dst := u]> (<[src := v]> vs)))
      | _, _ => None
      end
  | UReset x =>
      match vs !! x with
      | Some u => let '(os, u) := fd_reset (-1) u os in Some (MkFdWorld os (<[x := u]> vs))
      | None => None
      end
  | UResetTo x failure =>
      match vs !! x with
      | Some u => let '(os, (fd, _)) := sys_create failure os in
                  let '(os, u) := fd_reset fd u os in Some (MkFdWorld os (<[x := u]> vs))
      | None => None
      end
  | UScopeEnd x =>
      match vs !! x with
      | Some u => Some (MkFdWorld (fd_destroy u os) (delete x vs))
      | None => None
      end
  end.

Fixpoint fd_program (ops : list FdOp) (w : FdWorld) : option FdWorld :=
  match ops with
  | [] => Some w
  | op :: ops => w ← fd_exec op w; fd_program ops w
  end.

Definition owned_fd (u : UniqueFd) : list Z := if fd_valid u then [descriptor_ u] else [].

(** The table holds [base] and, besides, exactly [l]. *)
Record holds (base : gset Z) (l : list Z) (os : Os) : Prop := {
  hd_open : os_open os = base ∪ list_to_set l;
  hd_distinct : NoDup l;
  hd_disjoint : ∀ fd, fd ∈ l → fd ∉ base;
  hd_good : os_bad_closes os = 0%nat
}.

#[global] Instance holds_proper (base : gset Z) : Proper ((≡ₚ) ==> (=) ==> iff) (holds base).
Proof.
  assert (H : ∀ l l' os, l ≡ₚ l' → holds base l os → holds base l' os).
  { intros l l' os Hl [H1 H2 H3 H4]. split; [|by rewrite <- Hl| |done].
    - rewrite H1. f_equal. apply leibniz_equiv. by rewrite Hl.
    - intros fd Hfd. apply H3. by rewrite Hl. }
  intros l l' Hl os ? <-. split; apply H; [done|by symmetry].
Qed.

Lemma holds_create (base : gset Z) (l : list Z) (failure : option Z) (os : Os) :
  holds base l os →
  let '(os', (fd, _)) := sys_create failure os in holds base (owned_fd (MkUniqueFd fd) ++ l) os'.
Proof.
  intros [H1 H2 H3 H4]. destruct failure as [e|]; simpl; [done|].
  destruct (lowest_unused_fresh os) as [Hpos Hfresh]. unfold owned_fd, fd_valid. simpl.
  destruct (Z.leb_spec 0 (lowest_unused os)); [|lia]. rewrite H1 in Hfresh. split; simpl; [| | |done].
  - rewrite H1. apply leibniz_equiv. set_solver.
  - apply NoDup_cons. split; [|done]. set_solver.
  - intros fd Hfd. set_solver.
Qed.

Lemma holds_destroy (base : gset Z) (l : list Z) (u : UniqueFd) (os : Os) :
  holds base (owned_fd u ++ l) os → holds base l (fd_destroy u os).
Proof.
  unfold owned_fd, fd_valid, fd_destroy, fd_reset. simpl. destruct (0 <=? descriptor_ u); [|done].
  intros [H1 [Hnot Hnd]%NoDup_cons H3 H4]. unfold sys_close. simpl.
  assert (Hb : descriptor_ u ∉ base) by (apply H3; left).
  rewrite decide_True by (rewrite H1; set_solver). split; simpl; [|done| |done].
  - rewrite H1. apply leibniz_equiv. set_solver.
  - intros fd Hfd. apply H3. by right.
Qed.

Lemma owned_no_fd : owned_fd no_fd = [].
Proof. done. Qed.

(** The variables own exactly the descriptors the program has opened. *)
Definition fd_inv (base : gset Z) (w : FdWorld) : Prop :=
  holds base (gathered owned_fd (fw_vars w)) (fw_os w).

Lemma exec_holds (base : gset Z) (op : FdOp) (w w' : FdWorld) :
  fd_inv base w → fd_exec op w = Some w' → fd_inv base w'.
Proof.
  unfold fd_inv. intros Hw. destruct op as [x|x failure|dst src|dst src|x|x failure|x]; simpl.
  - destruct (fw_vars w !! x) eqn:Hx; [done|]. intros [= <-]. simpl. by rewrite gathered_fresh.
  - destruct (fw_vars w !! x) eqn:Hx; [done|]. pose proof (holds_create _ _ failure _ Hw) as Hc.
    destruct (sys_create failure (fw_os w)) as [os [fd e]]. intros [= <-]. simpl. by rewrite gathered_fresh.
  - destruct (fw_vars w !! dst) eqn:Hd; [done|]. destruct (fw_vars w !! src) as [v|] eqn:Hs; [|done].
    intros [= <-]. cbn [fw_os fw_vars]. rewrite gathered_fresh by (rewrite lookup_insert_ne; congruence).
    rewrite gathered_update, owned_no_fd, app_nil_l. destruct v.
    by rewrite <- (gathered_split _ _ _ _ Hs).
  - destruct (fw_vars w !! dst) as [u|] eqn:Hd; [|done]. destruct (fw_vars w !! src) as [v|] eqn:Hs; [|done].
    case_decide as Hne; [congruence|]. intros [= <-]. cbn [fw_os fw_vars].
    rewrite gathered_update, delete_insert_ne, gathered_update, owned_no_fd, app_nil_l by done.
    assert (Hsd : delete dst (fw_vars w) !! src = Some v) by (by rewrite lookup_delete_ne).
    destruct v. rewrite <- (gathered_split _ _ _ _ Hsd).
    apply (holds_destroy _ _ u). by rewrite <- (gathered_split _ _ _ _ Hd).
  - destruct (fw_vars w !! x) as [u|] eqn:Hx; [|done]. intros [= <-]. cbn [fw_os fw_vars].
    change (MkUniqueFd (-1)) with no_fd. rewrite gathered_update, owned_no_fd, app_nil_l.
    apply (holds_destroy _ _ u). by rewrite <- (gathered_split _ _ _ _ Hx).
  - destruct (fw_vars w !! x) as [u|] eqn:Hx; [|done]. pose proof (holds_create _ _ failure _ Hw) as Hc.
    destruct (sys_create failure (fw_os w)) as [os [fd e]]. intros [= <-]. cbn [fw_os fw_vars].
    rewrite gathered_update. apply (holds_destroy _ _ u).
    by rewrite app_assoc, (Permutation_app_comm (owned_fd u)), <- app_assoc, <- (gathered_split _ _ _ _ Hx).
  - destruct (fw_vars w !! x) as [u|] eqn:Hx; [|done]. intros [= <-]. cbn [fw_os fw_vars].
    apply (holds_destroy _ _ u). by rewrite <- (gathered_split _ _ _ _ Hx).
Qed.

Lemma program_holds (base : gset Z) (ops : list FdOp) (w w' : FdWorld) :
  fd_inv base w → fd_program ops w = Some w' → fd_inv base w'.
Proof.
  revert w. induction ops as [|op ops IH]; intros w Hw Hp; simpl in Hp; [by simplify_eq|].
  destruct (fd_exec op w) as [w1|] eqn:Hop; [|done]. apply (IH w1); [|done]. by eapply exec_holds.
Qed.

(** C23: descriptors have one owner.  After any program of [UniqueFd] definitions,
    moves, assignments (to itself too), resets and scope ends, with any outcome of
    the calls that open descriptors: no number was closed that was not open, two
    variables never own the same descriptor, and the open descriptors are those
    that were open before and those the variables own; when every variable is out
    of scope the table is the original one. *)
Theorem descriptors_have_one_owner (base : gset Z) (ops : list FdOp) (w : FdWorld)
    (Hp : fd_program ops (MkFdWorld (MkOs base 0) ∅) = Some w) :
  os_bad_closes (fw_os w) = 0%nat ∧
  (∀ x y u v, fw_vars w !! x = Some u → fw_vars w !! y = Some v → fd_valid u = true →
     descriptor_ u = descriptor_ v → x = y) ∧
  (∀ fd, fd ∈ os_open (fw_os w) ↔
     fd ∈ base ∨ ∃ x u, fw_vars w !! x = Some u ∧ fd_valid u = true ∧ descriptor_ u = fd) ∧
  (fw_vars w = ∅ → os_open (fw_os w) = base).
Proof.
  assert (H0 : fd_inv base (MkFdWorld (MkOs base 0) ∅)).
  { unfold fd_inv. simpl. rewrite gathered_empty.
    split; [by rewrite right_id_L by apply _|constructor|set_solver|done]. }
  destruct (program_holds base ops _ w H0 Hp) as [Hopen Hnd Hdis Hgood]. split; [done|].
  assert (Hown : ∀ u, fd_valid u = true → descriptor_ u ∈ owned_fd u).
  { intros u Hu. unfold owned_fd. rewrite Hu. left. }
  split; [|split].
  - intros x y u v Hx Hy Hu Heq.
    apply (gathered_unique owned_fd (fw_vars w) [] x y u v (descriptor_ u)); try done.
    + by rewrite app_nil_r.
    + by apply Hown.
    + rewrite Heq. apply Hown. unfold fd_valid in *. congruence.
  - intros fd. rewrite Hopen, elem_of_union, elem_of_list_to_set. apply or_iff_compat_l. split.
    + unfold gathered. intros ([x u] & Hfd & Hx%elem_of_map_to_list)%list_elem_of_bind. simpl in Hfd.
      unfold owned_fd in Hfd. destruct (fd_valid u) eqn:Hu; [|by apply elem_of_nil in Hfd].
      apply list_elem_of_singleton in Hfd. eauto.
    + intros (x & u & Hx & Hu & <-). eapply gathered_elem; [done|by apply Hown].
  - intros He. rewrite Hopen, He, gathered_empty. set_solver.
Qed.

(** A failed and a successful creation, a self-assignment, a move and a reset. *)
Definition demo_fd_program : list FdOp :=
  [UCreate 0 (Some 2%Z); UCreate 1 None; UAssign 1 1; UAssign 0 1; UCreate 2 None; UResetTo 2 None;
   UScopeEnd 1; UScopeEnd 0; UScopeEnd 2]%nat.

Lemma descriptors_have_one_owner_witness :
  ∃ w, fd_program demo_fd_program (MkFdWorld (MkOs {[0; 1; 2]} 0) ∅) = Some w ∧
       os_bad_closes (fw_os w) = 0%nat ∧ os_open (fw_os w) = {[0; 1; 2]}.
Proof.
  destruct (fd_program demo_fd_program (MkFdWorld (MkOs {[0; 1; 2]} 0) ∅)) as [w|] eqn:Hp;
    [|vm_compute in Hp; discriminate].
  exists w. split; [reflexivity|].
  destruct (descriptors_have_one_owner {[0; 1; 2]} demo_fd_program w Hp) as (Hgood & _ & _ & Hend).
  split; [exact Hgood|]. apply Hend. vm_compute in Hp. injection Hp as <-. reflexivity.
Defined.
