(* ===== verification/Sensors.v ===== *)
(** * Sensor sources ([hal/sensor_source.hpp], [simulation/simulated_sensor.hpp],
    [linux/sensor_adapters.hpp], [src/linux/sensor_adapters.cpp])

    Every source implements [ISensorSource::read].  What the operating system
    returns to a source during a read (the results of [poll], [read] and [ioctl],
    the bytes and [errno]) is the input of the read. *)
From S2P Require Import Prelude Bytes Double Domain Measurement Crc Uart Buses Descriptors.

Local Open Scope Z_scope.

(** The values of [errno] the sources test or set, on Linux. *)
Definition EINTR : Z := 4.
Definition EAGAIN : Z := 11.
Definition EINVAL : Z := 22.

(** ** [ISensorSource] *)

Class ISensorSource (S I : Type) := {
  source_read : I → S → S * SensorSample;
  source_sequence : S → Z
}.

(** What every source promises: consecutive numbers. *)
Class ISensorSourceLaws (S I : Type) `{ISensorSource S I} := {
  source_numbers (i : I) (s : S) :
    sequence (snd (source_read i s)) = u64_incr (source_sequence s) ∧
    source_sequence (fst (source_read i s)) = u64_incr (source_sequence s)
}.

(** ** [SimulatedSensor] *)

Record SimulatedSensor := MkSimulated {
  baseline_ : SensorSample;
  override_ : option SensorSample;
  sim_sequence_ : Z
}.

Definition simulated_init (baseline : SensorSample) : SimulatedSensor := MkSimulated baseline None 0.

Definition simulated_read (s : SimulatedSensor) : SimulatedSensor * SensorSample :=
  let result := default (baseline_ s) (override_ s) in
  let n := u64_incr (sim_sequence_ s) in
  (MkSimulated (baseline_ s) (override_ s) n, set_sequence n result).

Definition set_baseline (b : SensorSample) (s : SimulatedSensor) : SimulatedSensor :=
  MkSimulated b (override_ s) (sim_sequence_ s).
Definition set_override (b : SensorSample) (s : SimulatedSensor) : SimulatedSensor :=
  MkSimulated (baseline_ s) (Some b) (sim_sequence_ s).
Definition clear_override (s : SimulatedSensor) : SimulatedSensor :=
  MkSimulated (baseline_ s) None (sim_sequence_ s).

#[export] Instance simulated_source : ISensorSource SimulatedSensor unit := {|
  source_read := λ _ s, simulated_read s;
  source_sequence := sim_sequence_
|}.

#[export] Instance simulated_source_laws : ISensorSourceLaws SimulatedSensor unit.
Proof. split. by intros. Qed.

(** ** [UartSensorSource] *)

(** The speed constant of a rate, [None] where [baud_constant] returns 0. *)
Inductive Baud := B9600 | B57600 | B115200.
Definition baud_constant (baud_rate : Z) : option Baud :=
  if baud_rate =? 9600 then Some B9600
  else if baud_rate =? 57600 then Some B57600
  else if baud_rate =? 115200 then Some B115200
  else None.

(** [poll]: its return value and whether [POLLIN] is set in [revents]. *)
Record PollResult := MkPoll { poll_return : Z; poll_in : bool }.
Definition wait_for_input (p : PollResult) : bool := (0 <? poll_return p) && poll_in p.

(** [read] of raw bytes: its return value, the bytes it stored, and [errno]. *)
Record UartInput := MkUartInput {
  ui_poll : PollResult;
  ui_count : Z;
  ui_bytes : list Z;
  ui_errno : Z
}.

Definition uart_input_ok (i : UartInput) : Prop :=
  (0 ≤ ui_count i → Z.of_nat (length (ui_bytes i)) = ui_count i) ∧ Forall byte_ok (ui_bytes i).

Record UartSensorSource := MkUartSource {
  uart_descriptor_ : UniqueFd;
  decoder_ : UartFrameDecoder;
  uart_sample_ : SensorSample;
  uart_sequence_ : Z;
  uart_error_number_ : Z
}.

(** The settings of the serial line, and their Linux constants.  The flags are
    [tcflag_t], 32 bits; the speeds are kept apart from [c_cflag], as [cfsetispeed]
    and [cfsetospeed] present them. *)
Record Termios := MkTermios {
  c_iflag : Z;
  c_oflag : Z;
  c_cflag : Z;
  c_lflag : Z;
  c_cc_VMIN : Z;
  c_cc_VTIME : Z;
  c_ispeed : option Baud;
  c_ospeed : option Baud
}.
Definition IGNBRK : Z := 0x1.
Definition BRKINT : Z := 0x2.
Definition PARMRK : Z := 0x8.
Definition ISTRIP : Z := 0x20.
Definition INLCR : Z := 0x40.
Definition IGNCR : Z := 0x80.
Definition ICRNL : Z := 0x100.
Definition IXON : Z := 0x400.
Definition OPOST : Z := 0x1.
Definition ISIG : Z := 0x1.
Definition ICANON : Z := 0x2.
Definition ECHO : Z := 0x8.
Definition ECHONL : Z := 0x40.
Definition IEXTEN : Z := 0x8000.
Definition CSIZE : Z := 0x30.
Definition CS8 : Z := 0x30.
Definition PARENB : Z := 0x100.
Definition CSTOPB : Z := 0x40.
Definition CREAD : Z := 0x80.
Definition CLOCAL : Z := 0x800.
Definition CRTSCTS : Z := 0x80000000.

(** [~static_cast<tcflag_t>(x)] *)
Definition tcflag_not (x : Z) : Z := Z.lxor 0xFFFFFFFF x.

(** The flags that process the bytes of the line as text: on input (breaks, marks,
    stripping, line ends, flow control), and in the line discipline (echo, line
    editing, signals, extensions). *)
Definition text_iflags : Z :=
  Z.lor IGNBRK (Z.lor BRKINT (Z.lor PARMRK (Z.lor ISTRIP (Z.lor INLCR (Z.lor IGNCR (Z.lor ICRNL IXON)))))).
Definition text_lflags : Z := Z.lor ECHO (Z.lor ECHONL (Z.lor ICANON (Z.lor ISIG IEXTEN))).

(** [cfmakeraw] is the C library's.  What its manual page says it does: *)
Definition cfmakeraw_documented (cfmakeraw : Termios → Termios) : Prop :=
  ∀ t, let t' := cfmakeraw t in
  c_iflag t' = Z.land (c_iflag t) (tcflag_not text_iflags) ∧
  c_oflag t' = Z.land (c_oflag t) (tcflag_not OPOST) ∧
  c_lflag t' = Z.land (c_lflag t) (tcflag_not text_lflags) ∧
  c_cflag t' = Z.lor (Z.land (c_cflag t) (tcflag_not (Z.lor CSIZE PARENB))) CS8.

(** From [cfmakeraw] to the two entries of [c_cc]. *)
Definition uart_settings (cfmakeraw : Termios → Termios) (speed : Baud) (settings : Termios) : Termios :=
  let settings := cfmakeraw settings in
  let cflag := Z.lor (c_cflag settings) (Z.lor CLOCAL CREAD) in
  let cflag := Z.land cflag (tcflag_not CSTOPB) in
  let cflag := Z.land cflag (tcflag_not CRTSCTS) in
  MkTermios (c_iflag settings) (c_oflag settings) cflag (c_lflag settings) 0 1 (Some speed) (Some speed).

Definition uart_failed (error : Z) : UartSensorSource :=
  MkUartSource no_fd decoder_init default_sample 0 error.

(** The constructor, with the failures of [open] and [tcsetattr] and the result of
    [tcgetattr] (the settings, or [errno]).  It returns the settings applied to
    the line as well.  [candidate] is destroyed on every path. *)
Definition uart_source_init (cfmakeraw : Termios → Termios) (baud_rate : Z) (opening : option Z)
    (attributes : Termios + Z) (applying : option Z) (os : Os)
  : Os * UartSensorSource * option Termios :=
  match baud_constant baud_rate with
  | None => (os, uart_failed EINVAL, None)
  | Some speed =>
      let '(os, (fd, errno)) := sys_create opening os in
      let candidate := MkUniqueFd fd in
      if negb (fd_valid candidate) then (fd_destroy candidate os, uart_failed errno, None)
      else
        match attributes with
        | inr error => (fd_destroy candidate os, uart_failed error, None)
        | inl settings =>
            match applying with
            | Some error => (fd_destroy candidate os, uart_failed error, None)
            | None =>
                let '(os, descriptor, candidate) := fd_move_assign no_fd candidate os in
                (fd_destroy candidate os,
                 MkUartSource descriptor decoder_init (set_online true default_sample) 0 0,
                 Some (uart_settings cfmakeraw speed settings))
            end
        end
  end.

(** The decoded measurement goes into the sample; any reading but [online] shows
    that the sensor is there. *)
Definition apply_reading (m : Measurement) (smp : SensorSample) : SensorSample :=
  let smp := apply_measurement m smp in
  if decide (mkind m = Mk_online) then smp else set_online true smp.

(** The body of the loop over the bytes read. *)
Definition uart_byte (st : UartFrameDecoder * SensorSample * bool) (byte : Z)
  : UartFrameDecoder * SensorSample * bool :=
  let '(d, smp, received) := st in
  let '(d, frame) := feed byte d in
  match frame with
  | Some f => (d, apply_reading (decode_uart_measurement f) smp, true)
  | None => (d, smp, received)
  end.

Definition uart_read (i : UartInput) (s : UartSensorSource) : UartSensorSource * SensorSample :=
  let n := u64_incr (uart_sequence_ s) in
  let '(d, smp, received, error) :=
    if fd_valid (uart_descriptor_ s) && wait_for_input (ui_poll i) then
      if 0 <? ui_count i then
        (foldl uart_byte (decoder_ s, uart_sample_ s, false) (take (Z.to_nat (ui_count i)) (ui_bytes i)),
         uart_error_number_ s)
      else
        (decoder_ s, uart_sample_ s, false,
         if (ui_count i <? 0) && negb (ui_errno i =? EAGAIN) && negb (ui_errno i =? EINTR)
         then ui_errno i else uart_error_number_ s)
    else (decoder_ s, uart_sample_ s, false, uart_error_number_ s) in
  let smp := if negb received then set_online false smp else smp in
  let smp := set_sequence n smp in
  (MkUartSource (uart_descriptor_ s) d smp n error, smp).

Definition uart_valid (s : UartSensorSource) : bool := fd_valid (uart_descriptor_ s).

#[export] Instance uart_source : ISensorSource UartSensorSource UartInput := {|
  source_read := uart_read;
  source_sequence := uart_sequence_
|}.

#[export] Instance uart_source_laws : ISensorSourceLaws UartSensorSource UartInput.
Proof.
  split. intros i s. simpl. unfold uart_read.
  destruct (if _ && _ then _ else _) as [[[d smp] received] error]. done.
Qed.

(** ** [SocketCanSensorSource] *)

Definition IFNAMSIZ : Z := 16.
Definition CAN_EFF_MASK : Z := 0x1FFFFFFF.

(** [can_frame], as the kernel delivers it: the identifier carries the EFF, RTR
    and ERR flags in its top bits. *)
Record CanFrame := MkCanFrame { frame_can_id : Z; can_dlc : Z; frame_data : list Z }.
Definition can_frame_size : Z := 16.

Record CanInput := MkCanInput {
  ci_poll : PollResult;
  ci_count : Z;
  ci_frame : CanFrame;
  ci_errno : Z
}.

Record SocketCanSensorSource := MkCanSource {
  can_descriptor_ : UniqueFd;
  can_sample_ : SensorSample;
  can_sequence_ : Z;
  can_error_number_ : Z
}.

Definition can_failed (error : Z) : SocketCanSensorSource := MkCanSource no_fd default_sample 0 error.

(** The constructor.  [interface_length]: the length of the interface name;
    [opening], [index] and [binding]: the failures of [socket],
    [ioctl(SIOCGIFINDEX)] and [bind]. *)
Definition can_source_init (interface_length : Z) (opening index binding : option Z) (os : Os)
  : Os * SocketCanSensorSource :=
  if (interface_length =? 0) || (IFNAMSIZ <=? interface_length) then (os, can_failed EINVAL)
  else
    let '(os, (fd, errno)) := sys_create opening os in
    let candidate := MkUniqueFd fd in
    if negb (fd_valid candidate) then (fd_destroy candidate os, can_failed errno)
    else
      match index with
      | Some error => (fd_destroy candidate os, can_failed error)
      | None =>
          match binding with
          | Some error => (fd_destroy candidate os, can_failed error)
          | None =>
              let '(os, descriptor, candidate) := fd_move_assign no_fd candidate os in
              (fd_destroy candidate os, MkCanSource descriptor (set_online true default_sample) 0 0)
          end
      end.

Definition can_message_of (frame : CanFrame) : CanMessage :=
  MkCanMessage (Z.land (frame_can_id frame) CAN_EFF_MASK) (u8 (can_dlc frame)) (take 8 (frame_data frame)).

Definition can_read (i : CanInput) (s : SocketCanSensorSource) : SocketCanSensorSource * SensorSample :=
  let n := u64_incr (can_sequence_ s) in
  let '(smp, received, error) :=
    if fd_valid (can_descriptor_ s) && wait_for_input (ci_poll i) then
      if ci_count i =? can_frame_size then
        match decode_can_message (can_message_of (ci_frame i)) with
        | Some m => (apply_reading m (can_sample_ s), true, can_error_number_ s)
        | None => (can_sample_ s, false, can_error_number_ s)
        end
      else
        (can_sample_ s, false,
         if (ci_count i <? 0) && negb (ci_errno i =? EAGAIN) && negb (ci_errno i =? EINTR)
         then ci_errno i else can_error_number_ s)
    else (can_sample_ s, false, can_error_number_ s) in
  let smp := if negb received then set_online false smp else smp in
  let smp := set_sequence n smp in
  (MkCanSource (can_descriptor_ s) smp n error, smp).

Definition can_valid (s : SocketCanSensorSource) : bool := fd_valid (can_descriptor_ s).

#[export] Instance can_source : ISensorSource SocketCanSensorSource CanInput := {|
  source_read := can_read;
  source_sequence := can_sequence_
|}.

#[export] Instance can_source_laws : ISensorSourceLaws SocketCanSensorSource CanInput.
Proof.
  split. intros i s. simpl. unfold can_read.
  destruct (if _ && _ then _ else _) as [[smp received] error]. done.
Qed.

(** ** [LinuxI2cBus] and [I2cSensorSource] *)

(** One [ioctl(I2C_RDWR)]: its return value, the bytes of the second message, and
    [errno]. *)
Record IoctlResult := MkIoctl { ioctl_return : Z; ioctl_bytes : list Z; ioctl_errno : Z }.

(** The bus, with the results of the transactions to come. *)
Record LinuxI2cBus := MkI2cBus {
  i2c_descriptor_ : UniqueFd;
  device_address_ : Z;
  i2c_error_number_ : Z;
  i2c_results : list IoctlResult
}.

(** The constructor: [descriptor_.reset(::open(...))]. *)
Definition i2c_bus_init (device_address : Z) (opening : option Z) (results : list IoctlResult) (os : Os)
  : Os * LinuxI2cBus :=
  if 0x7F <? device_address then (os, MkI2cBus no_fd device_address EINVAL results)
  else
    let '(os, (fd, errno)) := sys_create opening os in
    let '(os, descriptor) := fd_reset fd no_fd os in
    (os, MkI2cBus descriptor device_address (if negb (fd_valid descriptor) then errno else 0) results).

Definition set_i2c_error (e : Z) (b : LinuxI2cBus) : LinuxI2cBus :=
  MkI2cBus (i2c_descriptor_ b) (device_address_ b) e (i2c_results b).

(** Without a recorded result the transaction fails. *)
Definition linux_read_register (reg : Z) (n : nat) (b : LinuxI2cBus) : LinuxI2cBus * option (list Z) :=
  if negb (fd_valid (i2c_descriptor_ b)) || (n =? 0)%nat || (2 ^ 16 - 1 <? Z.of_nat n) then
    (set_i2c_error EINVAL b, None)
  else
    let r := default (MkIoctl (-1) [] 0) (head (i2c_results b)) in
    let b := MkI2cBus (i2c_descriptor_ b) (device_address_ b) (i2c_error_number_ b) (tail (i2c_results b)) in
    if negb (ioctl_return r =? 2) then (set_i2c_error (ioctl_errno r) b, None)
    else (b, Some (ioctl_bytes r)).

#[export] Instance linux_i2c_bus : II2cBus LinuxI2cBus := linux_read_register.

Definition i2c_bus_valid (b : LinuxI2cBus) : bool := fd_valid (i2c_descriptor_ b).

Record I2cSensorSource := MkI2cSource { i2c_bus_ : LinuxI2cBus; i2c_reader_ : I2cSensorReader }.

(** [bus_(device_path, device_address), reader_(bus_)] *)
Definition i2c_source_init (device_address : Z) (opening : option Z) (results : list IoctlResult) (os : Os)
  : Os * I2cSensorSource :=
  let '(os, bus) := i2c_bus_init device_address opening results os in (os, MkI2cSource bus i2c_reader_init).
Definition i2c_source_valid (s : I2cSensorSource) : bool := i2c_bus_valid (i2c_bus_ s).
Definition i2c_source_error_number (s : I2cSensorSource) : Z := i2c_error_number_ (i2c_bus_ s).

Definition i2c_source_read (s : I2cSensorSource) : I2cSensorSource * SensorSample :=
  let '(b, r, smp) := i2c_read (i2c_bus_ s) (i2c_reader_ s) in (MkI2cSource b r, smp).

#[export] Instance i2c_source : ISensorSource I2cSensorSource unit := {|
  source_read := λ _ s, i2c_source_read s;
  source_sequence := λ s, i2c_sequence_ (i2c_reader_ s)
|}.

#[export] Instance i2c_source_laws : ISensorSourceLaws I2cSensorSource unit.
Proof.
  split. intros i s. simpl. unfold i2c_source_read, i2c_read.
  destruct (read_registers _) as [b [[[[t v] c] st]|]]; done.
Qed.
