(* ===== verification/SensorProps.v ===== *)
(** * Properties of the sensor sources *)
From S2P Require Import Prelude Bytes Double Domain Measurement Crc Uart Buses Descriptors Sensors Fsm FsmProps.

Local Open Scope Z_scope.

(** ** Reading a source repeatedly *)

Section Source.
Context {S I : Type} `{!ISensorSource S I}.

Definition reads (inputs : list I) (s : S) : list SensorSample := snd (run source_read inputs s).

Lemma reads_cons (i : I) (inputs : list I) (s : S) :
  reads (i :: inputs) s = snd (source_read i s) :: reads inputs (fst (source_read i s)).
Proof.
  unfold reads. simpl. destruct (source_read i s) as [s' smp]. simpl.
  by destruct (run source_read inputs s').
Qed.

(** The [k]-th sample of [inputs] has number [n + k + 1]. *)
Definition numbered_from (n : Z) (smps : list SensorSample) : Prop :=
  ∀ k smp, smps !! k = Some smp → sequence smp = (n + Z.of_nat k + 1) mod u64_modulus.

Lemma reads_numbered `{!ISensorSourceLaws S I} (inputs : list I) (s : S) :
  numbered_from (source_sequence s) (reads inputs s).
Proof.
  revert s. induction inputs as [|i inputs IH]; intros s; [by intros k smp H|].
  rewrite reads_cons. destruct (source_numbers i s) as [Hn Hs]. intros [|k] smp Hk.
  - injection Hk as <-. rewrite Hn. unfold u64_incr. f_equal. lia.
  - rewrite (IH _ k smp Hk), Hs. unfold u64_incr.
    replace ((source_sequence s + 1) mod u64_modulus + Z.of_nat k + 1)
      with ((source_sequence s + 1) mod u64_modulus + (Z.of_nat k + 1)) by lia.
    rewrite Zplus_mod_idemp_l. f_equal. lia.
Qed.

(** Reads that each return an offline sample. *)
Lemma reads_offline (silent : I → Prop) (inputs : list I) (s : S) :
  (∀ i s, silent i → online (snd (source_read i s)) = false) →
  Forall silent inputs → Forall (λ smp, online smp = false) (reads inputs s).
Proof.
  intros Hs Hi. revert s. induction Hi as [|i inputs Hi _ IH]; intros s; [constructor|].
  rewrite reads_cons. constructor; auto.
Qed.

Lemma length_reads (inputs : list I) (s : S) : length (reads inputs s) = length inputs.
Proof. apply length_run. Qed.

End Source.

(** Samples are numbered consecutively.  Whatever the bus and the operating
    system return, the [k]-th read of each of the four sources carries the number
    of the source plus [k + 1], modulo [2^64]. *)
Theorem sources_number_samples
    (sim : SimulatedSensor) (n : nat) (uart : UartSensorSource) (us : list UartInput)
    (can : SocketCanSensorSource) (cs : list CanInput) (i2c : I2cSensorSource) :
  numbered_from (sim_sequence_ sim) (reads (replicate n ()) sim) ∧
  numbered_from (uart_sequence_ uart) (reads us uart) ∧
  numbered_from (can_sequence_ can) (reads cs can) ∧
  numbered_from (i2c_sequence_ (i2c_reader_ i2c)) (reads (replicate n ()) i2c).
Proof.
  split_and!; [exact (reads_numbered (replicate n ()) sim)|exact (reads_numbered us uart)
              |exact (reads_numbered cs can)|exact (reads_numbered (replicate n ()) i2c)].
Qed.

(** ** The UART source *)

Lemma uart_bytes_batch (bytes : list Z) (d : UartFrameDecoder) (smp : SensorSample) (received : bool) :
  foldl uart_byte (d, smp, received) bytes
  = (fst (feed_all bytes d),
     foldl (λ smp f, apply_reading (decode_uart_measurement f) smp) smp (frames (snd (feed_all bytes d))),
     received || bool_decide (frames (snd (feed_all bytes d)) ≠ [])).
Proof.
  revert d smp received. induction bytes as [|b bytes IH]; intros d smp received.
  { simpl. by rewrite orb_false_r. }
  cbn [foldl]. unfold uart_byte at 2. unfold feed_all in *. cbn [run].
  destruct (feed b d) as [d' [f|]]; rewrite IH; destruct (run feed bytes d') as [d'' rs];
    cbn [fst snd frames omap list_omap id foldl]; f_equal.
  rewrite orb_true_l. symmetry. by rewrite bool_decide_eq_true_2, orb_true_r.
Qed.

(** What a read of the UART source does to the readings: [fs] are the frames that
    the bytes of this read completed. *)
Definition readings_after (fs : list UartFrame) (smp : SensorSample) : SensorSample :=
  match fs with
  | [] => set_online false smp
  | _ => foldl (λ smp f, apply_reading (decode_uart_measurement f) smp) smp fs
  end.

Definition uart_bytes_read (i : UartInput) (s : UartSensorSource) : list Z :=
  if uart_valid s && wait_for_input (ui_poll i) && (0 <? ui_count i)
  then take (Z.to_nat (ui_count i)) (ui_bytes i) else [].

(** One read of the UART source.  The decoder consumes exactly the bytes of
    this read and keeps a partial frame for the next one; the measurements of the
    completed frames are applied in order; a read that completes no frame keeps
    the readings and reports the sensor offline. *)
Theorem uart_read_batches (i : UartInput) (s : UartSensorSource) :
  let '(s', smp) := uart_read i s in
  let '(d', rs) := feed_all (uart_bytes_read i s) (decoder_ s) in
  decoder_ s' = d' ∧
  smp = set_sequence (u64_incr (uart_sequence_ s)) (readings_after (frames rs) (uart_sample_ s)) ∧
  uart_sample_ s' = smp.
Proof.
  unfold uart_read, uart_bytes_read, uart_valid.
  destruct (fd_valid (uart_descriptor_ s) && wait_for_input (ui_poll i)); [|done].
  cbn [andb]. destruct (0 <? ui_count i); [|done]. rewrite uart_bytes_batch.
  destruct (feed_all (take _ _) (decoder_ s)) as [d' rs]. cbn [fst snd].
  unfold readings_after. destruct (frames rs) as [|f fs]; [done|].
  rewrite bool_decide_eq_true_2 by done. done.
Qed.

(** ** Silence *)

(** Nothing arrives during the read; for CAN, nothing that is a measurement. *)
Definition uart_silent (i : UartInput) : Prop := wait_for_input (ui_poll i) = false ∨ ui_count i ≤ 0.
Definition can_silent (i : CanInput) : Prop :=
  wait_for_input (ci_poll i) = false ∨ ci_count i ≠ can_frame_size ∨
  decode_can_message (can_message_of (ci_frame i)) = None.

Lemma uart_silent_offline (i : UartInput) (s : UartSensorSource) :
  uart_silent i → online (snd (uart_read i s)) = false.
Proof.
  intros Hs. unfold uart_read. destruct (fd_valid (uart_descriptor_ s)), (wait_for_input (ui_poll i)) eqn:Hw;
    try done. simpl. destruct (Z.ltb_spec 0 (ui_count i)); [|done].
  destruct Hs; [congruence|lia].
Qed.

Lemma can_silent_offline (i : CanInput) (s : SocketCanSensorSource) :
  can_silent i → online (snd (can_read i s)) = false.
Proof.
  intros Hs. unfold can_read. destruct (fd_valid (can_descriptor_ s)), (wait_for_input (ci_poll i)) eqn:Hw;
    try done. simpl. destruct (Z.eqb_spec (ci_count i) can_frame_size); [|done].
  destruct Hs as [?|[?| ->]]; [congruence|done|done].
Qed.

(** The results of the transactions of one failing read: up to three registers are
    read, the next [ioctl] does not return 2. *)
Definition i2c_failing_read (rs : list IoctlResult) : Prop :=
  ∃ read bad, rs = read ++ [bad] ∧ (length read ≤ 3)%nat ∧
    Forall (λ r, ioctl_return r = 2) read ∧ ioctl_return bad ≠ 2.

(** [n] reads of the source fail: the bus was never opened, or it is open and in
    each of the reads a transaction fails. *)
Definition i2c_silent (n : nat) (s : I2cSensorSource) : Prop :=
  fd_valid (i2c_descriptor_ (i2c_bus_ s)) = false ∨
  ∃ rss rest, length rss = n ∧ Forall i2c_failing_read rss ∧ i2c_results (i2c_bus_ s) = concat rss ++ rest.

(** One transaction on an open bus, for the sizes the reader asks for. *)
Lemma open_bus_transaction (reg address error : Z) (n : nat) (fd : UniqueFd) (r : IoctlResult)
    (rs : list IoctlResult) :
  fd_valid fd = true → (n = 1 ∨ n = 2)%nat →
  read_register reg n (MkI2cBus fd address error (r :: rs))
  = (MkI2cBus fd address (if ioctl_return r =? 2 then error else ioctl_errno r) rs,
     if ioctl_return r =? 2 then Some (ioctl_bytes r) else None).
Proof.
  intros Hfd Hn. unfold read_register, linux_i2c_bus, linux_read_register. cbn [i2c_descriptor_ i2c_results head tail default].
  rewrite Hfd. destruct Hn as [-> | ->]; simpl; by destruct (ioctl_return r =? 2).
Qed.

(** A failing read uses up its results, records the error, and is offline. *)
Lemma i2c_failing_read_offline (rs rest : list IoctlResult) (s : I2cSensorSource) :
  fd_valid (i2c_descriptor_ (i2c_bus_ s)) = true → i2c_failing_read rs →
  i2c_results (i2c_bus_ s) = rs ++ rest →
  let '(s', smp) := i2c_source_read s in
  i2c_descriptor_ (i2c_bus_ s') = i2c_descriptor_ (i2c_bus_ s) ∧
  i2c_results (i2c_bus_ s') = rest ∧ online smp = false.
Proof.
  destruct s as [[fd address error results] reader]. cbn [i2c_bus_ i2c_descriptor_ i2c_results].
  intros Hfd (read & bad & -> & Hlen & Hread & Hbad) ->.
  apply Z.eqb_neq in Hbad. unfold i2c_source_read, i2c_read, read_registers.
  cbn [i2c_bus_ i2c_reader_].
  destruct read as [|r1 [|r2 [|r3 [|]]]]; simpl in Hlen; try lia; cbn [app];
    repeat match goal with
    | H : Forall _ (_ :: _) |- _ => apply Forall_cons in H as [?%Z.eqb_eq H]
    | H : (ioctl_return ?r =? 2) = _ |- context [read_register _ _ (MkI2cBus _ _ _ (?r :: _))] =>
        rewrite open_bus_transaction, H by auto; cbv beta iota
    end; done.
Qed.

Lemma i2c_dead_read (s : I2cSensorSource) :
  fd_valid (i2c_descriptor_ (i2c_bus_ s)) = false →
  fd_valid (i2c_descriptor_ (i2c_bus_ (fst (i2c_source_read s)))) = false ∧
  online (snd (i2c_source_read s)) = false.
Proof.
  unfold i2c_source_read, i2c_read, read_registers, read_register, linux_i2c_bus, linux_read_register. intros Hd.
  by rewrite Hd.
Qed.

Lemma i2c_silent_read (n : nat) (s : I2cSensorSource) :
  i2c_silent (S n) s →
  i2c_silent n (fst (i2c_source_read s)) ∧ online (snd (i2c_source_read s)) = false.
Proof.
  intros [Hd|(rss & rest & Hlen & Hrss & Hres)].
  { destruct (i2c_dead_read s Hd). split; [by left|done]. }
  destruct (fd_valid (i2c_descriptor_ (i2c_bus_ s))) eqn:Hfd.
  2: { destruct (i2c_dead_read s Hfd). split; [by left|done]. }
  destruct rss as [|rs rss]; [done|]. apply Forall_cons in Hrss as [Hrs Hrss].
  cbn [concat] in Hres. rewrite <- app_assoc in Hres.
  pose proof (i2c_failing_read_offline _ _ s Hfd Hrs Hres) as H.
  destruct (i2c_source_read s) as [s' smp], H as (_ & Hres' & Ho). split; [|done].
  right. exists rss, rest. simpl in Hlen. split_and!; [lia|done|done].
Qed.

Lemma i2c_silent_reads (n : nat) (s : I2cSensorSource) :
  i2c_silent n s → Forall (λ smp, online smp = false) (reads (replicate n ()) s).
Proof.
  revert s. induction n as [|n IH]; intros s Hd; [constructor|]. simpl replicate. rewrite reads_cons.
  destruct (i2c_silent_read n s Hd) as [Hd' Ho]. constructor; [done|]. by apply IH.
Qed.

Lemma offline_samples_latch (c : ProtectionConfig) (es : list Event) (ss : list SensorSample) :
  config_ok c → counts_positive c →
  active (state_ (handle_all es (machine_init c))) = true →
  Forall (λ s, online s = false) ss → offline_samples c ≤ Z.of_nat (length ss) →
  state_ (handle_all (Event_sensor_sample <$> ss) (handle_all es (machine_init c))) = fault_latched.
Proof.
  intros Hc Hpos Hact Hss Hn. pose proof (reachable_refines c es Hc) as Hr.
  apply (run_latches_iff (offline_to_latch c) offline_sample c ss _ _ Hc (offline_counts_down c Hpos) Hr Hact).
  { eapply Forall_impl; [exact Hss|]. intros s Hs. unfold offline_sample. simpl in Hs. by rewrite Hs. }
  unfold offline_to_latch. pose proof (run_length_nonneg offline_sample (h_window (spec_all c es history_init))). lia.
Qed.

(** C21: a silent sensor latches the fault.  For thresholds that fit [std::size_t]
    and counts of at least one: from any reachable active state of the protection
    machine, [offline_samples] consecutive reads lead to [FaultLatched] when in
    each of them a UART source receives no byte, a CAN source receives no
    measurement, or an I2C source fails (its bus could not be opened, or one of the
    up to four transactions of the read does not return 2). *)
Theorem silent_source_latches (c : ProtectionConfig) (es : list Event)
    (uart : UartSensorSource) (us : list UartInput)
    (can : SocketCanSensorSource) (cs : list CanInput) (i2c : I2cSensorSource) (n : nat)
    (Hc : config_ok c) (Hpos : counts_positive c)
    (Hact : active (state_ (handle_all es (machine_init c))) = true) :
  let after ss := state_ (handle_all (Event_sensor_sample <$> ss) (handle_all es (machine_init c))) in
  (Forall uart_silent us → offline_samples c ≤ Z.of_nat (length us) →
   after (reads us uart) = fault_latched) ∧
  (Forall can_silent cs → offline_samples c ≤ Z.of_nat (length cs) →
   after (reads cs can) = fault_latched) ∧
  (i2c_silent n i2c → offline_samples c ≤ Z.of_nat n →
   after (reads (replicate n ()) i2c) = fault_latched).
Proof.
  intros after. unfold after. split_and!; intros Hs Hn; apply offline_samples_latch; auto;
    rewrite ?length_reads, ?length_replicate; auto.
  - apply (reads_offline uart_silent us uart); [|done]. apply uart_silent_offline.
  - apply (reads_offline can_silent cs can); [|done]. apply can_silent_offline.
  - by apply i2c_silent_reads.
Qed.

(** ** Opening and closing *)

(** A descriptor that was created and moved into a member. *)
Lemma adopt_candidate (os os' : Os) (fd e : Z) :
  sys_create None os = (os', (fd, e)) →
  let '(os1, d, candidate) := fd_move_assign no_fd (MkUniqueFd fd) os' in
  fd_valid d = true ∧ fd_destroy d (fd_destroy candidate os1) = os.
Proof.
  intros Hc. pose proof (create_destroy None os) as H. rewrite Hc in H. simpl.
  destruct H as [H1 H2]. split; [by apply H2|exact H1].
Qed.

(** The line delivers every byte as it was received: no processing of input, output
    or lines, eight data bits, no parity. *)
Definition raw_mode (t : Termios) : Prop :=
  Z.land (c_iflag t) text_iflags = 0 ∧ Z.land (c_oflag t) OPOST = 0 ∧ Z.land (c_lflag t) text_lflags = 0 ∧
  Z.land (c_cflag t) CSIZE = CS8 ∧ Z.land (c_cflag t) PARENB = 0.

(** A mask picked from flags that were set or cleared by constants. *)
Lemma flags_cleared (x off mask : Z) : Z.land off mask = 0 → Z.land (Z.land x off) mask = 0.
Proof. intros H. by rewrite <- Z.land_assoc, H, Z.land_0_r. Qed.

Lemma flags_kept (x off mask : Z) : Z.land off mask = mask → Z.land (Z.land x off) mask = Z.land x mask.
Proof. intros H. by rewrite <- Z.land_assoc, H. Qed.

Lemma flags_set (x on mask : Z) : Z.land on mask = mask → Z.land (Z.lor x on) mask = mask.
Proof.
  intros H. rewrite Z.land_lor_distr_l, H. apply Z.bits_inj'. intros k _.
  rewrite Z.lor_spec, Z.land_spec. by destruct (Z.testbit x k), (Z.testbit mask k).
Qed.

Lemma flags_unset (x on mask : Z) : Z.land on mask = 0 → Z.land (Z.lor x on) mask = Z.land x mask.
Proof. intros H. by rewrite Z.land_lor_distr_l, H, Z.lor_0_r. Qed.

Lemma uart_settings_bits (cfmakeraw : Termios → Termios) (speed : Baud) (t : Termios) :
  cfmakeraw_documented cfmakeraw →
  let t' := uart_settings cfmakeraw speed t in
  raw_mode t' ∧
  Z.land (c_cflag t') CREAD = CREAD ∧ Z.land (c_cflag t') CLOCAL = CLOCAL ∧
  Z.land (c_cflag t') CSTOPB = 0 ∧ Z.land (c_cflag t') CRTSCTS = 0.
Proof.
  intros Hraw. destruct (Hraw t) as (Hi & Ho & Hl & Hc). unfold raw_mode, uart_settings.
  cbn [c_iflag c_oflag c_lflag c_cflag]. rewrite Hi, Ho, Hl, Hc. split_and!.
  all: try (by apply flags_cleared).
  all: rewrite ?(flags_kept _ (tcflag_not CRTSCTS)) by reflexivity; try (by apply flags_cleared).
  all: rewrite (flags_kept _ (tcflag_not CSTOPB)) by reflexivity; try (by apply flags_set).
  all: rewrite flags_unset by reflexivity; try (by apply flags_set).
  rewrite flags_unset by reflexivity. by apply flags_cleared.
Qed.

(** The branches that end without a descriptor. *)
Ltac close_source :=
  simpl; split_and!; try done; try (split; [done|]); intros; destruct_and?; try done; naive_solver.

(** The error of the first call that failed. *)
Definition first_failure (calls : list (option Z)) : option Z := head (omap id calls).

(** C22: opening a source leaks nothing and fails cleanly.  For every outcome of the
    system calls, each constructor either ends with an open descriptor that only
    the source holds, or leaves the table of descriptors as it found it and
    records the error; it is open exactly when no call failed.  Destroying the
    source restores the table in all cases.  Given that [cfmakeraw] does what its
    manual page says, an open serial line is in raw mode (bytes are neither
    translated nor dropped, no echo, no line editing, no signals, eight data bits,
    no parity), at the requested speed, with receiver on, modem control, second
    stop bit and hardware flow control off, and a read returns after a tenth of a
    second at the latest ([VMIN] 0, [VTIME] 1). *)
Theorem sources_open_and_close (cfmakeraw : Termios → Termios) (baud_rate length address : Z)
    (opening index binding applying : option Z) (attributes : Termios + Z)
    (results : list IoctlResult) (os : Os) (Hraw : cfmakeraw_documented cfmakeraw) :
  (let '(os', s, applied) := uart_source_init cfmakeraw baud_rate opening attributes applying os in
   let open := uart_valid s in
   fd_destroy (uart_descriptor_ s) os' = os ∧ (open = false → os' = os) ∧
   (open = true ↔ baud_constant baud_rate ≠ None ∧ opening = None ∧
                  (∃ t, attributes = inl t) ∧ applying = None) ∧
   match applied with
   | Some t => open = true ∧ c_ispeed t = baud_constant baud_rate ∧ c_ospeed t = baud_constant baud_rate ∧
               raw_mode t ∧
               Z.land (c_cflag t) CREAD = CREAD ∧ Z.land (c_cflag t) CLOCAL = CLOCAL ∧
               Z.land (c_cflag t) CSTOPB = 0 ∧ Z.land (c_cflag t) CRTSCTS = 0 ∧
               c_cc_VMIN t = 0 ∧ c_cc_VTIME t = 1
   | None => open = false ∧
             Some (uart_error_number_ s)
             = (if decide (baud_constant baud_rate = None) then Some EINVAL
                else match opening, attributes with
                     | Some e, _ => Some e
                     | None, inr e => Some e
                     | None, inl _ => applying
                     end)
   end) ∧
  (let '(os', s) := can_source_init length opening index binding os in
   fd_destroy (can_descriptor_ s) os' = os ∧ (can_valid s = false → os' = os) ∧
   (can_valid s = true ↔ 0 ≠ length ∧ length < IFNAMSIZ ∧ opening = None ∧ index = None ∧ binding = None) ∧
   can_error_number_ s = (if (length =? 0) || (IFNAMSIZ <=? length) then EINVAL
                          else default 0 (first_failure [opening; index; binding]))) ∧
  (let '(os', s) := i2c_source_init address opening results os in
   fd_destroy (i2c_descriptor_ (i2c_bus_ s)) os' = os ∧ (i2c_source_valid s = false → os' = os) ∧
   (i2c_source_valid s = true ↔ address ≤ 0x7F ∧ opening = None) ∧
   i2c_source_error_number s = (if 0x7F <? address then EINVAL else default 0 opening)).
Proof.
  split_and!.
  - unfold uart_source_init. destruct (baud_constant baud_rate) as [speed|]; [|by close_source].
    destruct opening as [e|]; [by close_source|].
    destruct (sys_create None os) as [os' [fd e]] eqn:Hc.
    pose proof (create_destroy None os) as Hd. rewrite Hc in Hd. destruct Hd as [Hd Hv].
    rewrite (proj2 Hv eq_refl). cbn [negb].
    destruct attributes as [t|e']; [|by close_source].
    destruct applying as [e'|]; [by close_source|].
    pose proof (adopt_candidate _ _ _ _ Hc) as Ha.
    destruct (fd_move_assign no_fd (MkUniqueFd fd) os') as [[os1 d] candidate]. destruct Ha as [Hopen Ha].
    pose proof (uart_settings_bits cfmakeraw speed t Hraw) as (H0 & H1 & H2 & H3 & H4). unfold uart_valid. cbn -[Z.land].
    rewrite Hopen. split_and!; eauto; try done; naive_solver.
  - unfold can_source_init, can_valid.
    destruct ((length =? 0) || (IFNAMSIZ <=? length)) eqn:Hlen; [simpl; split_and!; [done|done|split; [done|]; lia|done]|].
    destruct opening as [e|]; [by close_source|].
    destruct (sys_create None os) as [os' [fd e]] eqn:Hc.
    pose proof (create_destroy None os) as Hd. rewrite Hc in Hd. destruct Hd as [Hd Hv].
    rewrite (proj2 Hv eq_refl). cbn [negb].
    destruct index as [e'|]; [by close_source|]. destruct binding as [e'|]; [by close_source|].
    pose proof (adopt_candidate _ _ _ _ Hc) as Ha.
    destruct (fd_move_assign no_fd (MkUniqueFd fd) os') as [[os1 d] candidate]. destruct Ha as [Hopen Ha].
    simpl. rewrite Hopen. split_and!; try done. split; [intros _; split_and!; done || lia|done].
  - unfold i2c_source_init, i2c_source_valid, i2c_source_error_number, i2c_bus_valid, i2c_bus_init.
    destruct (Z.ltb_spec 0x7F address); [simpl; split_and!; [done|done|split; [done|]; lia|done]|].
    pose proof (create_destroy opening os) as Hd. destruct opening as [e|]; [by close_source|].
    destruct (sys_create None os) as [os' [fd e]]. destruct Hd as [Hd Hv]. simpl.
    rewrite (proj2 Hv eq_refl). split_and!; [done|done| |done]. split; [intros _; done || lia|done].
Qed.

(** ** Instances *)

(** A [cfmakeraw] that follows the manual page, and the settings of a console. *)
Definition raw_settings (t : Termios) : Termios :=
  MkTermios (Z.land (c_iflag t) (tcflag_not text_iflags)) (Z.land (c_oflag t) (tcflag_not OPOST))
    (Z.lor (Z.land (c_cflag t) (tcflag_not (Z.lor CSIZE PARENB))) CS8)
    (Z.land (c_lflag t) (tcflag_not text_lflags)) 1 0 (c_ispeed t) (c_ospeed t).

Definition console_settings : Termios := MkTermios 0x500 0x5 0x1bf 0x8a3b 1 0 (Some B9600) (Some B9600).

Lemma raw_settings_documented : cfmakeraw_documented raw_settings.
Proof. intros t. by split_and!. Qed.

Lemma sources_open_and_close_witness :
  let '(os, s, applied) := uart_source_init raw_settings 115200 None (inl console_settings) None (MkOs ∅ 0) in
  fd_destroy (uart_descriptor_ s) os = MkOs ∅ 0 ∧
  match applied with Some t => raw_mode t | None => False end.
Proof.
  destruct (sources_open_and_close raw_settings 115200 4 0x48 None None None None (inl console_settings)
    [] (MkOs ∅ 0) raw_settings_documented) as [H _].
  destruct (uart_source_init _ _ _ _ _ _) as [[os s] applied] eqn:Hinit.
  destruct H as (Hd & _ & Hopen & H). split; [exact Hd|].
  destruct applied as [t|]; [apply H|]. destruct H as [H _].
  assert (Ht : uart_valid s = true) by (apply Hopen; split_and!; [discriminate|done|by eexists|done]).
  rewrite H in Ht. discriminate Ht.
Defined.

Definition quiet_input : UartInput := MkUartInput (MkPoll 0 false) 0 [] 0.
Definition open_uart : UartSensorSource :=
  snd (fst (uart_source_init raw_settings 115200 None (inl console_settings) None (MkOs ∅ 0))).

(** An open I2C bus: the first read fails at once, the second after one register,
    the third after three. *)
Definition bad_ioctl : IoctlResult := MkIoctl (-1) [] 121.
Definition good_ioctl : IoctlResult := MkIoctl 2 [0; 1] 0.
Definition failing_reads : list (list IoctlResult) :=
  [[bad_ioctl]; [good_ioctl; bad_ioctl]; [good_ioctl; good_ioctl; good_ioctl; bad_ioctl]].
Definition open_i2c : I2cSensorSource :=
  snd (i2c_source_init 0x48 None (concat failing_reads) (MkOs ∅ 0)).

Lemma silent_source_latches_witness :
  let after ss := state_ (handle_all (Event_sensor_sample <$> ss)
    (handle_all [Event_startup; Event_self_test_passed] (machine_init default_config))) in
  after (reads (replicate 3 quiet_input) open_uart) = fault_latched ∧
  i2c_source_valid open_i2c = true ∧ after (reads (replicate 3 ()) open_i2c) = fault_latched.
Proof.
  destruct (silent_source_latches default_config [Event_startup; Event_self_test_passed] open_uart
    (replicate 3 quiet_input) (can_failed EINVAL) [] open_i2c 3) as (H1 & _ & H3).
  - exact default_config_ok.
  - unfold counts_positive. simpl. lia.
  - vm_compute. reflexivity.
  - split_and!; [apply H1; [apply Forall_replicate; by left|simpl; lia]|reflexivity|].
    apply H3; [|simpl; lia]. right. exists failing_reads, []. split_and!; [done| |done].
    repeat constructor; [exists [], bad_ioctl|exists [good_ioctl], bad_ioctl|
      exists [good_ioctl; good_ioctl; good_ioctl], bad_ioctl];
      split_and!; try done; try (simpl; lia); repeat constructor.
Defined.

(** A remote transmission request carries no data; the kernel marks it with the
    RTR flag and zero bytes. *)
Definition CAN_RTR_FLAG : Z := 0x40000000.
Definition remote_request : CanInput :=
  MkCanInput (MkPoll 1 true) 16
    (MkCanFrame (Z.lor CAN_RTR_FLAG kCanTemperatureId) 4 (replicate 8 0)) 0.

(** Remote requests are taken for readings.  The source masks the flag bits of
    the identifier away, so a remote request for the temperature (which has a
    length but no data) overwrites the temperature with zero and reports the
    sensor online. *)
Theorem remote_request_overwrites_reading :
  let s := MkCanSource (MkUniqueFd 5) (set_temperature_c (Double.of_Z 120) default_sample) 0 0 in
  let '(_, smp) := can_read remote_request s in
  Z.land (frame_can_id (ci_frame remote_request)) CAN_RTR_FLAG ≠ 0 ∧
  temperature_c smp = Double.of_Z 0 ∧ online smp = true.
Proof. vm_compute. repeat split; discriminate. Qed.
