(* ===== verification/Command.v ===== *)
(** * The command protocol ([ipc/command.hpp])

    A [std::string_view] is the list of its characters.  [std::from_chars] for
    doubles is the Standard's: an optional minus sign, then digits with an optional
    radix point and an optional exponent, rounded to nearest, or a text that spells
    an infinity or a NaN, which [std::isfinite] refuses afterwards. *)
From Stdlib Require Import Ascii String SpecFloat.
From stdpp Require Import strings.
From S2P Require Import Prelude Double.

Local Open Scope Z_scope.

Abbreviation text := (list ascii).

(** A string literal. *)
Definition lit (s : string) : text := String.list_ascii_of_string s.

Definition kMaximumCommandLength : nat := 256.

Inductive CommandKind :=
| Cmd_invalid | Cmd_status | Cmd_metrics | Cmd_inject | Cmd_clear | Cmd_reset | Cmd_shutdown.

Inductive InjectionTarget := Tgt_none | Tgt_temperature | Tgt_vibration | Tgt_current | Tgt_offline.

Inductive ParseError :=
| Err_none | Err_empty | Err_too_long | Err_unknown_command | Err_wrong_argument_count
| Err_unknown_target | Err_invalid_number | Err_out_of_range.

#[export] Instance CommandKind_eq_dec : EqDecision CommandKind.
Proof. solve_decision. Defined.
#[export] Instance InjectionTarget_eq_dec : EqDecision InjectionTarget.
Proof. solve_decision. Defined.
#[export] Instance ParseError_eq_dec : EqDecision ParseError.
Proof. solve_decision. Defined.

Record Command := MkCommand {
  cmd_kind : CommandKind;
  cmd_target : InjectionTarget;
  cmd_value : double
}.

Definition no_command : Command := MkCommand Cmd_invalid Tgt_none (Double.of_Z 0).
(** [Command{kind}] *)
Definition simple_command (k : CommandKind) : Command := MkCommand k Tgt_none (Double.of_Z 0).

Record ParseResult := MkParseResult { command : Command; error : ParseError }.

Definition parse_ok (r : ParseResult) : bool := bool_decide (error r = Err_none).

(** [ParseResult{{}, error}] *)
Definition reject (e : ParseError) : ParseResult := MkParseResult no_command e.

(** ** Characters and words *)

Definition is_space (value : ascii) : bool :=
  (value =? " ")%char || (value =? "009")%char || (value =? "013")%char || (value =? "010")%char.

(** [remove_prefix(1)] while the first character is a space. *)
Fixpoint skip_spaces (input : text) : text :=
  match input with
  | c :: rest => if is_space c then skip_spaces rest else input
  | [] => []
  end.

(** The second loop of [trim] removes from the end. *)
Definition trim (input : text) : text := rev (skip_spaces (rev (skip_spaces input))).

(** [length] runs to the first space; the prefix and what follows it. *)
Fixpoint word_length (input : text) : nat :=
  match input with
  | c :: rest => if is_space c then 0 else S (word_length rest)
  | [] => 0
  end.

Record Tokens := MkTokens {
  values : list text;        (* the first [count] elements of the array of four *)
  overflow : bool
}.

Definition token_count (t : Tokens) : nat := length (values t).

(** [tokens.values[i]], empty beyond the count. *)
Definition token (i : nat) (t : Tokens) : text := nth i (values t) [].

(** The loop of [tokenize]: each turn consumes at least one character, so the
    length of the input is enough fuel. *)
Fixpoint tokenize_loop (fuel : nat) (input : text) (tokens : Tokens) : Tokens :=
  match fuel with
  | O => tokens
  | S fuel =>
      match input with
      | [] => tokens
      | _ =>
          let input := skip_spaces input in
          match input with
          | [] => tokens
          | _ =>
              if (token_count tokens =? 4)%nat then MkTokens (values tokens) true
              else
                let length := word_length input in
                tokenize_loop fuel (drop length input)
                  (MkTokens (values tokens ++ [take length input]) (overflow tokens))
          end
      end
  end.

Definition tokenize (input : text) : Tokens :=
  tokenize_loop (length input) input (MkTokens [] false).

(** ** Numbers *)

Definition digit_value (c : ascii) : option Z :=
  let n := Z.of_nat (nat_of_ascii c) in
  if (48 <=? n) && (n <=? 57) then Some (n - 48) else None.

(** The longest run of digits: its value on top of [acc], its length, the rest. *)
Fixpoint digits (input : text) (acc : Z) (count : nat) : Z * nat * text :=
  match input with
  | c :: rest =>
      match digit_value c with
      | Some d => digits rest (acc * 10 + d) (S count)
      | None => (acc, count, input)
      end
  | [] => (acc, count, [])
  end.

(** The exponent part, when all of it is there. *)
Definition exponent_part (input : text) : Z * text :=
  match input with
  | c :: rest =>
      if (c =? "e")%char || (c =? "E")%char then
        let '(negative, rest) :=
          match rest with
          | s :: rest' => if (s =? "-")%char then (true, rest')
                          else if (s =? "+")%char then (false, rest') else (false, rest)
          | [] => (false, [])
          end in
        let '(e, n, rest) := digits rest 0 0 in
        if (n =? 0)%nat then (0, input) else ((if negative then - e else e), rest)
      else (0, input)
  | [] => (0, [])
  end.

(** [m * 10^e] rounded to the nearest double, ties to even. *)
Definition decimal_round (negative : bool) (m e : Z) : double :=
  match m with
  | Zpos p =>
      if 0 <=? e then
        binary_normalize Double.prec Double.emax (if negative then - (m * 10 ^ e) else m * 10 ^ e) 0 negative
      else
        let '(mz, ez, lz) := SFdiv_core_binary Double.prec Double.emax m 0 (10 ^ (- e)) 0 in
        binary_round_aux Double.prec Double.emax negative mz ez lz
  | _ => S754_zero negative
  end.

(** [INF], [INFINITY], [NAN] and [NAN(chars)], in any case of letters; [rest] is the
    input behind the sign. *)
Definition lower (c : ascii) : ascii :=
  let n := nat_of_ascii c in if ((65 <=? n) && (n <=? 90))%nat then ascii_of_nat (n + 32) else c.

Fixpoint strip_word (word input : text) : option text :=
  match word, input with
  | [], _ => Some input
  | w :: word, c :: input => if (lower c =? w)%char then strip_word word input else None
  | _ :: _, [] => None
  end.

Definition nan_char (c : ascii) : bool :=
  let n := nat_of_ascii (lower c) in
  ((48 <=? n) && (n <=? 57) || (97 <=? n) && (n <=? 122))%nat || (c =? "_")%char.

Fixpoint nan_chars (input : text) : option text :=
  match input with
  | c :: rest => if (c =? ")")%char then Some rest else if nan_char c then nan_chars rest else None
  | [] => None
  end.

Definition special_value (negative : bool) (rest : text) : option (double * text) :=
  match strip_word (lit "infinity") rest, strip_word (lit "inf") rest, strip_word (lit "nan") rest with
  | Some rest, _, _ => Some (S754_infinity negative, rest)
  | None, Some rest, _ => Some (S754_infinity negative, rest)
  | None, None, Some rest =>
      Some (S754_nan, match rest with
                      | c :: chars => if (c =? "(")%char then default rest (nan_chars chars) else rest
                      | [] => []
                      end)
  | None, None, None => None
  end.

(** [std::from_chars(begin, end, output, general)]: the value and what is left,
    [None] when [ec] is set (no number, or out of the range of [double]). *)
Definition from_chars (input : text) : option (double * text) :=
  let '(negative, rest) :=
    match input with c :: rest => if (c =? "-")%char then (true, rest) else (false, input)
                   | [] => (false, []) end in
  match special_value negative rest with
  | Some result => Some result
  | None =>
  let '(whole, n, rest) := digits rest 0 0 in
  let '(m, k, rest) :=
    match rest with
    | c :: rest' =>
        if (c =? ".")%char then
          let '(m, k, rest'') := digits rest' whole 0 in
          if (n + k =? 0)%nat then (m, 0%nat, rest) else (m, k, rest'')
        else (whole, 0%nat, rest)
    | [] => (whole, 0%nat, [])
    end in
  if (n + k =? 0)%nat then None
  else
    let '(e, rest) := exponent_part rest in
    let value := decimal_round negative m (e - Z.of_nat k) in
    if negb (Double.is_finite value) || (Double.eqb value (Double.of_Z 0) && negb (m =? 0)) then None
    else Some (value, rest)
  end.

Definition parse_number (input : text) : option double :=
  match from_chars input with
  | Some (output, rest) =>
      if bool_decide (rest = []) && Double.is_finite output then Some output else None
  | None => None
  end.

Definition in_range (target : InjectionTarget) (value : double) : bool :=
  match target with
  | Tgt_temperature => Double.geb value (Double.of_Z (-50)) && Double.leb value (Double.of_Z 200)
  | Tgt_vibration => Double.geb value (Double.of_Z 0) && Double.leb value (Double.of_Z 100)
  | Tgt_current => Double.geb value (Double.of_Z 0) && Double.leb value (Double.of_Z 200)
  | Tgt_offline | Tgt_none => true
  end.

(** ** [parse_command] *)

Definition is_verb (v : string) (t : text) : bool := bool_decide (t = lit v).

Definition parse_command (input : text) : ParseResult :=
  if (kMaximumCommandLength <? length input)%nat then reject Err_too_long
  else
    let input := trim input in
    if bool_decide (input = []) then reject Err_empty
    else
      let tokens := tokenize input in
      if overflow tokens then reject Err_wrong_argument_count
      else
        let verb := token 0 tokens in
        if is_verb "status" verb || is_verb "metrics" verb || is_verb "clear" verb ||
           is_verb "reset" verb || is_verb "shutdown" verb
        then
          if negb (token_count tokens =? 1)%nat then reject Err_wrong_argument_count
          else if is_verb "status" verb then MkParseResult (simple_command Cmd_status) Err_none
          else if is_verb "metrics" verb then MkParseResult (simple_command Cmd_metrics) Err_none
          else if is_verb "clear" verb then MkParseResult (simple_command Cmd_clear) Err_none
          else if is_verb "reset" verb then MkParseResult (simple_command Cmd_reset) Err_none
          else MkParseResult (simple_command Cmd_shutdown) Err_none
        else if negb (is_verb "inject" verb) then reject Err_unknown_command
        else if (token_count tokens <? 2)%nat then reject Err_wrong_argument_count
        else
          let name := token 1 tokens in
          let target :=
            if is_verb "temperature" name then Some Tgt_temperature
            else if is_verb "vibration" name then Some Tgt_vibration
            else if is_verb "current" name then Some Tgt_current
            else if is_verb "offline" name then Some Tgt_offline
            else None in
          match target with
          | None => reject Err_unknown_target
          | Some Tgt_offline =>
              if negb (token_count tokens =? 2)%nat then reject Err_wrong_argument_count
              else MkParseResult (MkCommand Cmd_inject Tgt_offline (Double.of_Z 0)) Err_none
          | Some target =>
              if negb (token_count tokens =? 3)%nat then reject Err_wrong_argument_count
              else match parse_number (token 2 tokens) with
                   | None => reject Err_invalid_number
                   | Some value =>
                       if negb (in_range target value) then reject Err_out_of_range
                       else MkParseResult (MkCommand Cmd_inject target value) Err_none
                   end
          end.

Definition ParseError_to_string (e : ParseError) : string :=
  match e with
  | Err_none => "none" | Err_empty => "empty" | Err_too_long => "too_long"
  | Err_unknown_command => "unknown_command" | Err_wrong_argument_count => "wrong_argument_count"
  | Err_unknown_target => "unknown_target" | Err_invalid_number => "invalid_number"
  | Err_out_of_range => "out_of_range"
  end.

Example parse_examples :
  error (parse_command (lit "status")) = Err_none ∧
  command (parse_command (lit "inject temperature 105.5"))
  = MkCommand Cmd_inject Tgt_temperature (Double.div (Double.of_Z 211) (Double.of_Z 2)) ∧
  error (parse_command (lit "inject temperature nan")) = Err_invalid_number ∧
  from_chars (lit "-Infinity!") = Some (S754_infinity true, lit "!") ∧
  from_chars (lit "nan(a_1)x") = Some (S754_nan, lit "x") ∧
  error (parse_command (lit "inject temperature 999")) = Err_out_of_range ∧
  error (parse_command (lit "status extra")) = Err_wrong_argument_count ∧
  error (parse_command (lit "inject vibration -1e-3")) = Err_out_of_range ∧
  error (parse_command (lit "inject current 1e")) = Err_invalid_number ∧
  error (parse_command (lit "a b c d e")) = Err_wrong_argument_count.
Proof. vm_compute. repeat split. Qed.
