(* ===== verification/CommandProps.v ===== *)
(** * Properties of the command parser *)
From Stdlib Require Import Ascii String.
From stdpp Require Import strings.
From S2P Require Import Prelude Double Command.

Local Open Scope Z_scope.

(** ** Words, independently of the scanner *)

(** The maximal runs of characters that are not spaces. *)
Definition flush (word : text) : list text := match word with [] => [] | _ => [word] end.

Fixpoint words_from (word input : text) : list text :=
  match input with
  | [] => flush word
  | c :: rest => if is_space c then flush word ++ words_from [] rest else words_from (word ++ [c]) rest
  end.

Definition words (input : text) : list text := words_from [] input.

(** ** The scanner finds the words *)

Lemma words_skip (input : text) : words (skip_spaces input) = words input.
Proof.
  unfold words. induction input as [|c rest IH]; [done|]. simpl.
  destruct (is_space c) eqn:Hc; [done|]. simpl. by rewrite Hc.
Qed.

Lemma words_from_word (word input : text) :
  word ≠ [] →
  words_from word input = (word ++ take (word_length input) input) :: words (drop (word_length input) input).
Proof.
  revert word. induction input as [|c rest IH]; intros word Hw; simpl.
  { rewrite app_nil_r. by destruct word. }
  destruct (is_space c) eqn:Hc; simpl.
  - rewrite app_nil_r. unfold words. simpl. rewrite Hc. by destruct word.
  - rewrite IH by (by destruct word). by rewrite <- app_assoc.
Qed.

Lemma words_first (c : ascii) (rest : text) :
  is_space c = false →
  words (c :: rest)
  = take (word_length (c :: rest)) (c :: rest) :: words (drop (word_length (c :: rest)) (c :: rest)).
Proof. intros Hc. unfold words. simpl. rewrite Hc. by rewrite words_from_word. Qed.

Lemma skip_spaces_length (input : text) : (length (skip_spaces input) ≤ length input)%nat.
Proof. induction input as [|c rest IH]; simpl; [lia|]. destruct (is_space c); simpl; lia. Qed.

Lemma skip_spaces_head (input : text) (c : ascii) (rest : text) :
  skip_spaces input = c :: rest → is_space c = false.
Proof.
  induction input as [|d input IH]; simpl; [done|]. destruct (is_space d) eqn:Hd; [auto|].
  by intros [= <- _].
Qed.

Lemma tokenize_loop_words (fuel : nat) (input : text) (vs : list text) :
  (length input ≤ fuel)%nat → (length vs ≤ 4)%nat →
  tokenize_loop fuel input (MkTokens vs false)
  = if (length (vs ++ words input) <=? 4)%nat then MkTokens (vs ++ words input) false
    else MkTokens (take 4 (vs ++ words input)) true.
Proof.
  revert input vs. induction fuel as [|fuel IH]; intros input vs Hf Hv.
  { destruct input; [|simpl in Hf; lia]. simpl. rewrite app_nil_r.
    by rewrite (proj2 (Nat.leb_le _ _) Hv). }
  rewrite <- words_skip. cbn [tokenize_loop]. destruct input as [|c0 input0] eqn:Hin.
  { simpl. rewrite app_nil_r. by rewrite (proj2 (Nat.leb_le _ _) Hv). }
  rewrite <- Hin in *. pose proof (skip_spaces_length input) as Hs.
  destruct (skip_spaces input) as [|c rest] eqn:Hsk.
  { simpl. rewrite app_nil_r. by rewrite (proj2 (Nat.leb_le _ _) Hv). }
  apply skip_spaces_head in Hsk. rewrite words_first by done.
  set (w := take (word_length (c :: rest)) (c :: rest)).
  unfold token_count. cbn [values overflow]. destruct (Nat.eqb_spec (length vs) 4) as [H4|H4].
  - rewrite length_app. cbn [length]. destruct (Nat.leb_spec (length vs + S (length (words
      (drop (word_length (c :: rest)) (c :: rest))))) 4); [lia|]. by rewrite take_app_length'.
  - rewrite IH; [by rewrite <- app_assoc| |rewrite length_app; simpl; lia].
    rewrite length_drop. simpl. rewrite Hsk. subst input. simpl in *. lia.
Qed.

Lemma tokenize_words (input : text) :
  tokenize input = if (length (words input) <=? 4)%nat then MkTokens (words input) false
                   else MkTokens (take 4 (words input)) true.
Proof. unfold tokenize. rewrite tokenize_loop_words by (simpl; lia). done. Qed.

(** Spaces at either end do not matter. *)
Lemma words_from_spaces (word spaces : text) :
  Forall (λ c, is_space c = true) spaces → words_from word spaces = flush word.
Proof.
  intros H. revert word. induction H as [|c spaces Hc _ IH]; intros word; [done|]. simpl.
  rewrite Hc, IH. simpl. by rewrite app_nil_r.
Qed.

Lemma words_from_trailing (word input spaces : text) :
  Forall (λ c, is_space c = true) spaces →
  words_from word (input ++ spaces) = words_from word input.
Proof.
  intros H. revert word. induction input as [|c input IH]; intros word; simpl.
  - by apply words_from_spaces.
  - destruct (is_space c); by rewrite IH.
Qed.

Lemma skip_spaces_split (input : text) :
  ∃ spaces, Forall (λ c, is_space c = true) spaces ∧ input = spaces ++ skip_spaces input.
Proof.
  induction input as [|c input (sp & Hsp & IH)]; [by exists []|]. simpl.
  destruct (is_space c) eqn:Hc; [|by exists []]. exists (c :: sp). split; [by constructor|].
  simpl. by f_equal.
Qed.

Lemma words_trim (input : text) : words (trim input) = words input.
Proof.
  rewrite <- (words_skip input). unfold trim. set (x := skip_spaces input).
  destruct (skip_spaces_split (rev x)) as (sp & Hsp & Hx).
  apply (f_equal (@rev ascii)) in Hx. rewrite rev_involutive, rev_app_distr in Hx.
  rewrite Hx at 2. unfold words. rewrite words_from_trailing; [done|].
  by apply List.Forall_rev.
Qed.

Lemma words_nil (input : text) : words input = [] → Forall (λ c, is_space c = true) input.
Proof.
  assert (Hgen : ∀ word, words_from word input = [] → word = [] ∧ Forall (λ c, is_space c = true) input).
  { induction input as [|c input IH]; intros word H; simpl in H; [by destruct word|].
    destruct (is_space c) eqn:Hc.
    - apply app_eq_nil in H as [Hw H]. apply IH in H as [_ H].
      split; [by destruct word|by constructor].
    - apply IH in H as [H _]. by destruct word. }
  intros H. by apply (Hgen []).
Qed.

Lemma trim_empty (input : text) : trim input = [] ↔ words input = [].
Proof.
  split.
  - intros H. by rewrite <- words_trim, H.
  - intros H. apply words_nil in H. unfold trim.
    assert (Hs : skip_spaces input = []) by (induction H as [|c input Hc _ IH]; simpl; [done|by rewrite Hc]).
    by rewrite Hs.
Qed.

(** ** What the parser means *)

Definition verb_kind (verb : text) : option CommandKind :=
  if decide (verb = lit "status") then Some Cmd_status
  else if decide (verb = lit "metrics") then Some Cmd_metrics
  else if decide (verb = lit "clear") then Some Cmd_clear
  else if decide (verb = lit "reset") then Some Cmd_reset
  else if decide (verb = lit "shutdown") then Some Cmd_shutdown
  else None.

Definition target_of (name : text) : option InjectionTarget :=
  if decide (name = lit "temperature") then Some Tgt_temperature
  else if decide (name = lit "vibration") then Some Tgt_vibration
  else if decide (name = lit "current") then Some Tgt_current
  else if decide (name = lit "offline") then Some Tgt_offline
  else None.

Definition accept (c : Command) : ParseResult := MkParseResult c Err_none.

(** The grammar, on words. *)
Definition meaning (ws : list text) : ParseResult :=
  match ws with
  | [] => reject Err_empty
  | _ :: _ :: _ :: _ :: _ :: _ => reject Err_wrong_argument_count
  | verb :: args =>
      match verb_kind verb, args with
      | Some kind, [] => accept (simple_command kind)
      | Some _, _ => reject Err_wrong_argument_count
      | None, _ =>
          if decide (verb = lit "inject") then
            match args with
            | [] => reject Err_wrong_argument_count
            | name :: args =>
                match target_of name, args with
                | None, _ => reject Err_unknown_target
                | Some Tgt_offline, [] => accept (MkCommand Cmd_inject Tgt_offline (Double.of_Z 0))
                | Some Tgt_offline, _ => reject Err_wrong_argument_count
                | Some target, [number] =>
                    match parse_number number with
                    | None => reject Err_invalid_number
                    | Some value =>
                        if in_range target value then accept (MkCommand Cmd_inject target value)
                        else reject Err_out_of_range
                    end
                | Some _, _ => reject Err_wrong_argument_count
                end
            end
          else reject Err_unknown_command
      end
  end.

(** The comparisons of the parser, as look-ups. *)
Lemma verb_known (verb : text) :
  is_verb "status" verb || is_verb "metrics" verb || is_verb "clear" verb ||
  is_verb "reset" verb || is_verb "shutdown" verb
  = match verb_kind verb with Some _ => true | None => false end.
Proof.
  unfold verb_kind, is_verb. rewrite !bool_decide_decide.
  repeat (case_decide; [rewrite ?orb_true_r; reflexivity|]). reflexivity.
Qed.

Lemma verb_choice (verb : text) (kind : CommandKind) (result : CommandKind → ParseResult) :
  verb_kind verb = Some kind →
  (if is_verb "status" verb then result Cmd_status
   else if is_verb "metrics" verb then result Cmd_metrics
   else if is_verb "clear" verb then result Cmd_clear
   else if is_verb "reset" verb then result Cmd_reset
   else result Cmd_shutdown) = result kind.
Proof.
  unfold verb_kind, is_verb. rewrite !bool_decide_decide.
  repeat (case_decide; [intros [= <-]; reflexivity|]). discriminate.
Qed.

Lemma target_choice (name : text) :
  (if is_verb "temperature" name then Some Tgt_temperature
   else if is_verb "vibration" name then Some Tgt_vibration
   else if is_verb "current" name then Some Tgt_current
   else if is_verb "offline" name then Some Tgt_offline
   else None) = target_of name.
Proof.
  unfold target_of, is_verb. rewrite !bool_decide_decide.
  repeat (case_decide; [reflexivity|]). reflexivity.
Qed.

Lemma target_not_none (name : text) : target_of name ≠ Some Tgt_none.
Proof. unfold target_of. by repeat case_decide. Qed.

Lemma parse_command_words (input : text) :
  parse_command input
  = if (kMaximumCommandLength <? length input)%nat then reject Err_too_long
    else meaning (words input).
Proof.
  unfold parse_command. destruct (_ <? _)%nat; [done|].
  case_bool_decide as Ht; [apply trim_empty in Ht; by rewrite Ht|].
  rewrite trim_empty in Ht. rewrite tokenize_words, words_trim.
  set (ws := words input) in *. clearbody ws.
  destruct ws as [|verb args]; [done|].
  destruct (Nat.leb_spec (length (verb :: args)) 4) as [Hl|Hl].
  2: { do 4 (destruct args as [|? args]; [simpl in Hl; lia|]). done. }
  unfold token, token_count. cbn [values overflow nth].
  rewrite verb_known, target_choice. unfold meaning. destruct (verb_kind verb) as [k|] eqn:Hk.
  { rewrite (verb_choice verb k (λ k, MkParseResult (simple_command k) Err_none) Hk).
    by destruct args as [|? [|? [|? [|? ?]]]]; [..|simpl in Hl; lia]. }
  unfold is_verb. rewrite bool_decide_decide. destruct (decide (verb = lit "inject")) as [Hi|Hi].
  2: { by destruct args as [|? [|? [|? [|? ?]]]]; [..|simpl in Hl; lia]. }
  pose proof (target_not_none (nth 0 args [])) as Hn.
  destruct args as [|name [|a2 [|a3 [|a4 args]]]]; cbn [length nth] in *; [reflexivity|..|lia];
    destruct (target_of name) as [[]|]; try reflexivity; try done;
    destruct (parse_number a2); try reflexivity; destruct (in_range _ _); reflexivity.
Qed.

(** C24: the parser implements the grammar.  For every input, [parse_command]
    refuses more than 256 characters, and otherwise returns what the grammar says
    of the words of the input: trimming, the array of four tokens, its overflow
    flag and the order of the checks are equivalent to splitting the line into
    words and matching them. *)
Theorem parse_command_meaning (input : text) :
  parse_command input
  = if (kMaximumCommandLength <? length input)%nat then reject Err_too_long
    else meaning (words input).
Proof. apply parse_command_words. Qed.

(** ** Spacing *)

Definition blank (g : text) : Prop := Forall (λ c, is_space c = true) g.
Definition solid (w : text) : Prop := w ≠ [] ∧ Forall (λ c, is_space c = false) w.

Lemma words_blank (g x : text) : blank g → words (g ++ x) = words x.
Proof. intros H. unfold words. induction H as [|c g Hc _ IH]; [done|]. simpl. by rewrite Hc. Qed.

Lemma words_from_solid (cur w x : text) :
  Forall (λ c, is_space c = false) w → words_from cur (w ++ x) = words_from (cur ++ w) x.
Proof.
  intros H. revert cur. induction H as [|c w Hc _ IH]; intros cur; simpl; [by rewrite app_nil_r|].
  rewrite Hc, IH. by rewrite <- app_assoc.
Qed.

Lemma words_solid (w g x : text) :
  solid w → blank g → g ≠ [] → words (w ++ g ++ x) = w :: words x.
Proof.
  intros [Hw Hs] Hg Hne. unfold words. rewrite words_from_solid by done. simpl.
  destruct Hg as [|c g Hc Hg]; [done|]. simpl. rewrite Hc. destruct w; [done|]. simpl. f_equal.
  by apply (words_blank g x).
Qed.

Lemma words_last (w g : text) : solid w → blank g → words (w ++ g) = [w].
Proof.
  intros [Hw Hs] Hg. unfold words. rewrite words_from_solid, words_from_spaces by done. by destruct w.
Qed.

(** ** Integers in decimal *)

Definition digit_char (d : nat) : ascii := ascii_of_nat (48 + d).

Definition number_text (negative : bool) (ds : list nat) : text :=
  (if negative then lit "-" else []) ++ (digit_char <$> ds).

Definition number_value (ds : list nat) : Z := foldl (λ a d, a * 10 + Z.of_nat d) 0 ds.

(** The double a decimal integer denotes; [-0] is the negative zero. *)
Definition integer_double (negative : bool) (n : Z) : double :=
  if n =? 0 then S754_zero negative else Double.of_Z (if negative then - n else n).

Definition is_digit (d : nat) : Prop := (d < 10)%nat.

Lemma digit_char_facts (d : nat) : is_digit d →
  digit_value (digit_char d) = Some (Z.of_nat d) ∧ is_space (digit_char d) = false ∧
  (digit_char d =? "-")%char = false.
Proof. unfold is_digit. intros H. do 10 (destruct d as [|d]; [done|]). lia. Qed.

Lemma number_value_nonneg (ds : list nat) : 0 ≤ number_value ds.
Proof.
  unfold number_value. assert (H : ∀ acc, 0 ≤ acc → 0 ≤ foldl (λ a d, a * 10 + Z.of_nat d) acc ds).
  { induction ds as [|d ds IH]; intros acc Ha; simpl; [done|]. apply IH. lia. }
  by apply H.
Qed.

Lemma decimal_round_integer (negative : bool) (n : Z) :
  0 ≤ n → decimal_round negative n 0 = integer_double negative n.
Proof.
  intros Hn. unfold integer_double. destruct n as [|p|p]; [done| |lia]. unfold decimal_round.
  rewrite (Z.leb_refl 0), Z.pow_0_r, Z.mul_1_r. by destruct negative.
Qed.

Lemma integer_double_facts (negative : bool) (n : Z) :
  0 ≤ n < 2 ^ 53 →
  Double.is_finite (integer_double negative n) = true ∧
  (n ≠ 0 → Double.eqb (integer_double negative n) (Double.of_Z 0) = false).
Proof.
  intros Hn. unfold integer_double. destruct (Z.eqb_spec n 0) as [Hz|Hz].
  { split; [reflexivity|]. intros Hn0. by destruct Hn0. }
  split; [apply Double.of_Z_finite; destruct negative; lia|]. intros _.
  rewrite Double.of_Z_eqb by (destruct negative; lia). apply Z.eqb_neq. destruct negative; lia.
Qed.

(** A text that does not go on with the number before it. *)
Definition no_number (junk : text) : Prop :=
  match junk with
  | [] => True
  | c :: _ => digit_value c = None ∧ c ≠ "."%char ∧ c ≠ "e"%char ∧ c ≠ "E"%char
  end.

Lemma digits_text_app (ds : list nat) (junk : text) (acc : Z) (n : nat) :
  Forall is_digit ds → no_number junk →
  digits ((digit_char <$> ds) ++ junk) acc n
  = (foldl (λ a d, a * 10 + Z.of_nat d) acc ds, (n + length ds)%nat, junk).
Proof.
  intros H Hj. revert acc n. induction H as [|d ds Hd _ IH]; intros acc n.
  - rewrite Nat.add_0_r. destruct junk as [|c junk]; [done|]. destruct Hj as [Hj _]. simpl. by rewrite Hj.
  - rewrite fmap_cons. cbn [digits foldl length app].
    destruct (digit_char_facts d Hd) as (-> & _ & _). rewrite IH. do 2 f_equal. lia.
Qed.

Lemma digits_text (ds : list nat) (acc : Z) (n : nat) :
  Forall is_digit ds →
  digits (digit_char <$> ds) acc n = (foldl (λ a d, a * 10 + Z.of_nat d) acc ds, (n + length ds)%nat, []).
Proof. intros H. rewrite <- (app_nil_r (digit_char <$> ds)). by apply digits_text_app. Qed.

Lemma special_value_digit (negative : bool) (d : nat) (rest : text) :
  is_digit d → special_value negative (digit_char d :: rest) = None.
Proof. unfold is_digit. intros H. do 10 (destruct d as [|d]; [reflexivity|]). lia. Qed.

(** A decimal integer is read up to its last digit. *)
Lemma from_chars_integer (negative : bool) (ds : list nat) (junk : text) :
  ds ≠ [] → Forall is_digit ds → number_value ds < 2 ^ 53 → no_number junk →
  from_chars (number_text negative ds ++ junk) = Some (integer_double negative (number_value ds), junk).
Proof.
  intros Hne Hds Hv Hj. pose proof (number_value_nonneg ds) as Hnn.
  destruct (integer_double_facts negative (number_value ds) ltac:(lia)) as [Hfin Hzero].
  assert (Hrest : (match number_text negative ds ++ junk with
                   | c :: rest => if (c =? "-")%char then (true, rest) else (false, number_text negative ds ++ junk)
                   | [] => (false, []) end) = (negative, (digit_char <$> ds) ++ junk)).
  { destruct negative; [reflexivity|]. destruct ds as [|d ds]; [done|].
    unfold number_text. rewrite fmap_cons. cbn [app].
    apply Forall_cons in Hds as [Hd _]. destruct (digit_char_facts d Hd) as (_ & _ & ->). reflexivity. }
  assert (Hspecial : special_value negative ((digit_char <$> ds) ++ junk) = None).
  { destruct ds as [|d ds]; [done|]. apply Forall_cons in Hds as [Hd _].
    rewrite fmap_cons. by apply special_value_digit. }
  unfold from_chars. rewrite Hrest, Hspecial, digits_text_app by done. fold (number_value ds).
  assert (Hexp : exponent_part junk = (0, junk)).
  { destruct junk as [|c junk]; [done|]. destruct Hj as (_ & _ & He & HE). simpl.
    apply Ascii.eqb_neq in He, HE. by rewrite He, HE. }
  assert (Hpoint : ∀ (A : Type) (x y : text → A), (match junk with
      | c :: rest => if (c =? ".")%char then x rest else y junk | [] => y [] end) = y junk).
  { intros A x y. destruct junk as [|c junk]; [done|]. destruct Hj as (_ & Hp & _).
    apply Ascii.eqb_neq in Hp. by rewrite Hp. }
  rewrite (Hpoint _ (λ rest, let '(m, k, rest'') := digits rest (number_value ds) 0 in
    if (0 + length ds + k =? 0)%nat then (m, 0%nat, junk) else (m, k, rest''))
    (λ rest, (number_value ds, 0%nat, rest))).
  destruct ds as [|d ds]; [done|]. cbn [length Nat.add Nat.eqb]. rewrite Hexp.
  change (0 - Z.of_nat 0) with 0. rewrite decimal_round_integer, Hfin by done. cbn [negb orb].
  destruct (Z.eqb_spec (number_value (d :: ds)) 0) as [Hz|Hz]; [by rewrite andb_false_r|].
  by rewrite (Hzero Hz).
Qed.

(** [ptr == end]: a decimal integer is a number, and not with anything behind it. *)
Lemma parse_number_junk (negative : bool) (ds : list nat) (junk : text) :
  ds ≠ [] → Forall is_digit ds → number_value ds < 2 ^ 53 → no_number junk →
  parse_number (number_text negative ds ++ junk)
  = if decide (junk = []) then Some (integer_double negative (number_value ds)) else None.
Proof.
  intros Hne Hds Hv Hj. unfold parse_number. rewrite from_chars_integer by done.
  pose proof (number_value_nonneg ds).
  destruct (integer_double_facts negative (number_value ds) ltac:(lia)) as [-> _].
  rewrite bool_decide_decide. by destruct (decide _).
Qed.

Lemma parse_number_integer (negative : bool) (ds : list nat) :
  ds ≠ [] → Forall is_digit ds → number_value ds < 2 ^ 53 →
  parse_number (number_text negative ds) = Some (integer_double negative (number_value ds)).
Proof.
  intros Hne Hds Hv. rewrite <- (app_nil_r (number_text negative ds)). by rewrite parse_number_junk.
Qed.

(** ** Injections *)

Definition target_name (t : InjectionTarget) : string :=
  match t with
  | Tgt_temperature => "temperature" | Tgt_vibration => "vibration" | Tgt_current => "current"
  | Tgt_offline => "offline" | Tgt_none => "none"
  end.

(** The values a target accepts. *)
Definition range_of (t : InjectionTarget) : option (Z * Z) :=
  match t with
  | Tgt_temperature => Some (-50, 200)
  | Tgt_vibration => Some (0, 100)
  | Tgt_current => Some (0, 200)
  | Tgt_offline | Tgt_none => None
  end.

Lemma in_range_integer (t : InjectionTarget) (lo hi : Z) (negative : bool) (n : Z) :
  range_of t = Some (lo, hi) → 0 ≤ n < 2 ^ 53 →
  in_range t (integer_double negative n)
  = (lo <=? (if negative then - n else n)) && ((if negative then - n else n) <=? hi).
Proof.
  intros Ht Hn. set (z := if negative then - n else n).
  assert (Hz : Z.abs z < 2 ^ 53) by (subst z; destruct negative; lia).
  assert (Hle : ∀ b, Z.abs b < 2 ^ 53 →
    Double.leb (integer_double negative n) (Double.of_Z b) = (z <=? b) ∧
    Double.leb (Double.of_Z b) (integer_double negative n) = (b <=? z)).
  { intros b Hb. unfold integer_double. destruct (Z.eqb_spec n 0) as [Hn0|_].
    - assert (Hz0 : z = 0) by (subst z; destruct negative; lia). rewrite Hz0.
      rewrite <- (Double.of_Z_leb 0 b), <- (Double.of_Z_leb b 0) by (exact Hb || reflexivity).
      destruct negative; split; try reflexivity; destruct (Double.of_Z b) as [|[]| |[]]; reflexivity.
    - fold z. by rewrite !Double.of_Z_leb. }
  unfold in_range, Double.geb. destruct t; simpl in Ht; simplify_eq;
    change (SFleb ?a ?b) with (Double.leb a b);
    (f_equal; apply Hle; reflexivity).
Qed.

Lemma number_solid (negative : bool) (ds : list nat) :
  ds ≠ [] → Forall is_digit ds → solid (number_text negative ds).
Proof.
  intros Hne Hds. unfold number_text. split; [by destruct negative, ds|].
  apply Forall_app. split; [destruct negative; repeat constructor|]. apply Forall_fmap.
  eapply Forall_impl; [exact Hds|]. intros d Hd. apply (digit_char_facts d Hd).
Qed.

Lemma lit_solid (s : string) :
  lit s ≠ [] → forallb (λ c, negb (is_space c)) (lit s) = true → solid (lit s).
Proof.
  intros Hne H. split; [done|]. rewrite forallb_forall in H. apply Forall_forall. intros c Hc.
  apply list_elem_of_In, H in Hc. by destruct (is_space c).
Qed.

(** For the three numeric targets, any spacing and any decimal integer below [2^53]
    (sign and leading zeros included), the command carries that integer as a
    double, and it is refused exactly when the integer is outside the limits. *)
Lemma parse_injection (t : InjectionTarget) (lo hi : Z) (negative : bool) (ds : list nat)
    (g0 g1 g2 g3 : text)
    (Ht : range_of t = Some (lo, hi))
    (Hne : ds ≠ []) (Hds : Forall is_digit ds) (Hv : number_value ds < 2 ^ 53)
    (Hg0 : blank g0) (Hg1 : blank g1) (Hg1' : g1 ≠ []) (Hg2 : blank g2) (Hg2' : g2 ≠ []) (Hg3 : blank g3) :
  let input := g0 ++ lit "inject" ++ g1 ++ lit (target_name t) ++ g2 ++ number_text negative ds ++ g3 in
  let z := if negative then - number_value ds else number_value ds in
  (length input ≤ kMaximumCommandLength)%nat →
  parse_command input
  = if (lo <=? z) && (z <=? hi)
    then accept (MkCommand Cmd_inject t (integer_double negative (number_value ds)))
    else reject Err_out_of_range.
Proof.
  intros input z Hlen. rewrite parse_command_words. apply Nat.ltb_ge in Hlen. rewrite Hlen.
  pose proof (number_value_nonneg ds) as Hnn.
  assert (Hname : solid (lit (target_name t))) by (apply lit_solid; destruct t; vm_compute; done).
  assert (Hverb : solid (lit "inject")) by (apply lit_solid; [discriminate|reflexivity]).
  pose proof (number_solid negative ds Hne Hds) as Hnum.
  unfold input. rewrite words_blank, words_solid, words_solid, words_last by assumption.
  unfold z. rewrite <- (in_range_integer t lo hi negative (number_value ds) Ht) by lia.
  destruct t; try discriminate Ht; cbn -[parse_number in_range number_text];
    rewrite parse_number_integer by done; reflexivity.
Qed.
