(* ===== verification/Server.v ===== *)
(** * Requests and responses over the local socket ([src/linux/unix_command_server.cpp],
    [apps/edgectl_main.cpp])

    One session of the maintenance server with one client.  What the kernel
    returns to [poll], [recv] and [send] during the session is the script of the
    session; the handler is any function of the bytes received that changes the
    state of the daemon. *)
From Stdlib Require Import Ascii.
From stdpp Require Import strings.
From S2P Require Import Prelude Command.

Local Open Scope nat_scope.

Definition newline : ascii := "010".

(** [std::array<char, kMaximumCommandLength + 2> buffer] *)
Definition kBufferSize : nat := kMaximumCommandLength + 2.

(** What one turn of the receiving loop meets. *)
Inductive Arrival :=
| PollInterrupted              (* [poll] failed with [EINTR] *)
| PollNotReady                 (* a timeout, another failure or no [POLLIN] *)
| RecvInterrupted              (* [recv] failed with [EINTR] *)
| RecvEnd                      (* [recv] returned 0 or another failure *)
| RecvBytes (ready : text).    (* these bytes are ready; [recv] takes what fits *)

Inductive Request :=
| ReqWaiting                   (* the script ends inside the loop *)
| ReqAbandoned                 (* the early [return] *)
| ReqReceived (used : text).   (* the loop ended; the first [used] bytes of the buffer *)

Definition has_newline (t : text) : bool := existsb (λ c, (c =? newline)%char) t.

Fixpoint receive (script : list Arrival) (used : text) : Request :=
  if length used <? kBufferSize then
    match script with
    | [] => ReqWaiting
    | PollInterrupted :: script | RecvInterrupted :: script => receive script used
    | PollNotReady :: _ => ReqAbandoned
    | RecvEnd :: _ => ReqReceived used
    | RecvBytes ready :: script =>
        match take (kBufferSize - length used) ready with
        | [] => ReqReceived used
        | received =>
            let used := used ++ received in
            if has_newline used then ReqReceived used else receive script used
        end
    end
  else ReqReceived used.

(** [response.empty() || response.back() != '\n'] *)
Definition ends_line (t : text) : bool :=
  match last t with Some c => (c =? newline)%char | None => false end.

Definition end_line (t : text) : text := if ends_line t then t else t ++ [newline].

(** The loop around [send]: how many bytes went out; [None] when the script ends
    before the loop does. *)
Fixpoint transmit (counts : list Z) (size sent : nat) : option nat :=
  if sent <? size then
    match counts with
    | [] => None
    | count :: counts =>
        if (count <=? 0)%Z then Some sent else transmit counts size (sent + Z.to_nat count)
    end
  else Some sent.

Section Session.
Context {S : Type} (handler : text → S → S * text).

(** The response to the bytes received. *)
Definition respond (used : text) (s : S) : S * text :=
  if kMaximumCommandLength <? length used then (s, lit "error=too_long" ++ [newline])
  else let '(s, response) := handler used s in (s, end_line response).

(** [serve_client]: the state it leaves and the bytes it sends; [None] while it
    waits for the kernel. *)
Definition serve_client (script : list Arrival) (counts : list Z) (s : S) : option (S * text) :=
  match receive script [] with
  | ReqWaiting => None
  | ReqAbandoned => Some (s, [])
  | ReqReceived [] => Some (s, [])
  | ReqReceived used =>
      let '(s, response) := respond used s in
      match transmit counts (length response) 0 with
      | Some sent => Some (s, take sent response)
      | None => None
      end
  end.

End Session.

(** ** [edgectl] *)

Definition kSunPathSize : nat := 108.

(** The loop over [argv]. *)
Fixpoint edgectl_arguments (args : list text) (socket_path command : text) : text * text :=
  let append (a : text) := (if bool_decide (command = []) then [] else command ++ [" "%char]) ++ a in
  match args with
  | [] => (socket_path, command)
  | a :: rest =>
      match rest with
      | path :: rest' =>
          if bool_decide (a = lit "--socket") then edgectl_arguments rest' path command
          else edgectl_arguments rest socket_path (append a)
      | [] => (socket_path, append a)
      end
  end.

(** What [main] sends, or the exit code when it gives up before connecting. *)
Definition edgectl_request (args : list text) (default_path : text) : text * text + Z :=
  let '(socket_path, command) := edgectl_arguments args default_path [] in
  if bool_decide (command = []) || (kMaximumCommandLength <? length command) then inr 2%Z
  else if bool_decide (socket_path = []) || (kSunPathSize <=? length socket_path) then inr 2%Z
  else inl (socket_path, command ++ [newline]).

(** ** What arrives *)

(** The bytes the client has made ready over a script. *)
Fixpoint stream (script : list Arrival) : text :=
  match script with
  | [] => []
  | RecvBytes ready :: script => ready ++ stream script
  | _ :: script => stream script
  end.

(** A client that stays connected: data in pieces of any size, with any
    interruptions between them. *)
Definition steady (script : list Arrival) : Prop :=
  Forall (λ a, match a with
               | PollInterrupted | RecvInterrupted => True
               | RecvBytes ready => ready ≠ []
               | PollNotReady | RecvEnd => False
               end) script.

Lemma has_newline_app (t u : text) : has_newline (t ++ u) = has_newline t || has_newline u.
Proof. apply existsb_app. Qed.

(** The loop never overruns the buffer, and keeps a prefix of what was sent. *)
Lemma receive_prefix (script : list Arrival) (used got : text) :
  length used ≤ kBufferSize → receive script used = ReqReceived got →
  length got ≤ kBufferSize ∧ got `prefix_of` used ++ stream script.
Proof.
  revert used. induction script as [|a script IH]; intros used Hlen; cbn [receive];
    (destruct (Nat.ltb_spec (length used) kBufferSize) as [Hlt|_];
     [|intros [= <-]; split; [done|by apply prefix_app_r]]); [done|].
  destruct a as [| | | |ready]; cbn [stream]; [by apply IH|done|by apply IH| |].
  { intros [= <-]. split; [done|by apply prefix_app_r]. }
  destruct (take (kBufferSize - length used) ready) as [|c t] eqn:Ht.
  { intros [= <-]. split; [done|by apply prefix_app_r]. }
  assert (Hroom : length (used ++ c :: t) ≤ kBufferSize).
  { rewrite length_app, <- Ht, length_take. lia. }
  assert (Hready : used ++ ready = (used ++ c :: t) ++ drop (kBufferSize - length used) ready).
  { by rewrite <- Ht, <- app_assoc, take_drop. }
  rewrite app_assoc, Hready, <- app_assoc. destruct (has_newline (used ++ c :: t)).
  { intros [= <-]. split; [done|by apply prefix_app_r]. }
  intros H. destruct (IH _ Hroom H) as [Hgot Hpre]. split; [done|].
  destruct (decide (kBufferSize ≤ length (used ++ c :: t))) as [Hfull|Hfree].
  - assert (Hgot' : got = used ++ c :: t).
    { destruct script; cbn [receive] in H; apply Nat.ltb_ge in Hfull; rewrite Hfull in H; congruence. }
    rewrite Hgot'. by apply prefix_app_r.
  - assert (drop (kBufferSize - length used) ready = []) as ->; [|done].
    apply drop_ge. assert (length (c :: t) = length (take (kBufferSize - length used) ready)) by (by rewrite Ht).
    rewrite length_app in Hfree. rewrite length_take in H0. lia.
Qed.

(** A prefix of a line that holds the newline is the line. *)
Lemma line_prefix (body t : text) :
  has_newline body = false → t `prefix_of` body ++ [newline] → has_newline t = true →
  t = body ++ [newline].
Proof.
  intros Hbody Hpre Ht. destruct Hpre as [u Hu]. destruct u as [|x u _] using rev_ind.
  - by rewrite app_nil_r in Hu.
  - rewrite app_assoc in Hu. apply app_inj_tail in Hu as [Hu _].
    rewrite Hu, has_newline_app, Ht in Hbody. done.
Qed.

(** However the line is cut into pieces, the loop ends with the line, or with a
    full buffer. *)
Lemma receive_line (script : list Arrival) (used body : text) :
  steady script → has_newline body = false → has_newline used = false →
  length used ≤ kBufferSize → used ++ stream script = body ++ [newline] →
  receive script used = ReqReceived (take kBufferSize (body ++ [newline])).
Proof.
  intros Hsteady Hbody. revert used. induction Hsteady as [|a script Ha Hsteady IH]; intros used Hused Hlen Heq.
  { simpl in Heq. rewrite app_nil_r in Heq. by rewrite Heq, has_newline_app, orb_true_r in Hused. }
  cbn [receive]. destruct (Nat.ltb_spec (length used) kBufferSize) as [Hlt|Hge].
  2:{ rewrite <- Heq. f_equal. rewrite take_app_length' by lia. done. }
  destruct a as [| | | |ready]; try done; cbn [stream] in Heq; [by apply IH|by apply IH|].
  destruct (take (kBufferSize - length used) ready) as [|c t] eqn:Ht.
  { destruct ready; [done|]. destruct (kBufferSize - length used) eqn:E; [lia|done]. }
  pose proof (f_equal length Ht) as Hlent. rewrite length_take in Hlent.
  rewrite <- (take_drop (kBufferSize - length used) ready), Ht in Heq.
  rewrite <- !app_assoc, app_assoc in Heq.
  assert (Hroom : length (used ++ c :: t) ≤ kBufferSize) by (rewrite length_app; lia).
  destruct (has_newline (used ++ c :: t)) eqn:Hnl.
  - assert (Hline : used ++ c :: t = body ++ [newline]).
    { apply line_prefix; [done| |done]. rewrite <- Heq. by apply prefix_app_r. }
    rewrite Hline in *. by rewrite take_ge.
  - destruct (decide (length (used ++ c :: t) = kBufferSize)) as [Hfull|Hfree].
    + rewrite <- Heq, take_app_length' by done.
      destruct script; cbn [receive]; rewrite Hfull, Nat.ltb_irrefl; done.
    + apply IH; [done|done|]. rewrite <- Heq, drop_ge; [done|].
      rewrite length_app in Hfree, Hroom. lia.
Qed.

(** Positive counts that add up to the response send all of it. *)
Lemma transmit_complete (counts : list Z) (size sent : nat) :
  Forall (λ c, (0 < c)%Z) counts → size ≤ sent + sum_list_with Z.to_nat counts →
  ∃ n, transmit counts size sent = Some n ∧ size ≤ n.
Proof.
  intros Hc. revert sent. induction Hc as [|c counts Hc _ IH]; intros sent Hsum; simpl in Hsum;
    cbn [transmit]; (destruct (Nat.ltb_spec sent size); [|by exists sent]); [lia|].
  destruct (Z.leb_spec c 0); [lia|]. apply IH. lia.
Qed.

(** A session that runs to its end, for any behaviour of the kernel. *)
Lemma serve_client_inv {S : Type} (handler : text → S → S * text) (script : list Arrival)
    (counts : list Z) (s s' : S) (sent : text) :
  serve_client handler script counts s = Some (s', sent) →
  (s' = s ∧ sent = []) ∨
  ∃ used, used ≠ [] ∧ length used ≤ kBufferSize ∧ used `prefix_of` stream script ∧
    s' = fst (respond handler used s) ∧ sent `prefix_of` snd (respond handler used s).
Proof.
  unfold serve_client. destruct (receive script []) as [| |used] eqn:Hr; [done| |].
  { intros [= <- <-]. by left. }
  apply receive_prefix in Hr as [Hlen Hpre]; [|simpl; lia].
  destruct used as [|c used]; [intros [= <- <-]; by left|].
  intros H. right. exists (c :: used). destruct (respond handler (c :: used) s) as [s1 r].
  destruct (transmit counts (length r) 0) as [n|]; simplify_eq. split_and!; try done.
  simpl. exists (drop n r). by rewrite take_drop.
Qed.

(** The whole session of a client that sends one line. *)
Lemma serve_line {S : Type} (handler : text → S → S * text) (script : list Arrival)
    (counts : list Z) (s : S) (body : text) :
  steady script → has_newline body = false → stream script = body ++ [newline] →
  Forall (λ c, (0 < c)%Z) counts →
  length (snd (respond handler (take kBufferSize (body ++ [newline])) s))
    ≤ sum_list_with Z.to_nat counts →
  serve_client handler script counts s
  = Some (respond handler (take kBufferSize (body ++ [newline])) s).
Proof.
  intros Hsteady Hbody Hstream Hcounts Hsum. unfold serve_client.
  rewrite (receive_line script [] body) by (done || simpl; lia).
  set (used := take kBufferSize (body ++ [newline])) in *.
  assert (Hne : used ≠ []) by (subst used; destruct body; discriminate).
  destruct used as [|c used']; [done|].
  destruct (respond handler (c :: used') s) as [s1 r]. simpl in Hsum.
  destruct (transmit_complete counts (length r) 0 Hcounts Hsum) as (n & -> & Hn).
  by rewrite take_ge.
Qed.

Lemma respond_line {S : Type} (handler : text → S → S * text) (body : text) (s : S) :
  respond handler (take kBufferSize (body ++ [newline])) s
  = if length body <? kMaximumCommandLength
    then let '(s', r) := handler (body ++ [newline]) s in (s', end_line r)
    else (s, lit "error=too_long" ++ [newline]).
Proof.
  unfold respond. rewrite length_take, length_app. simpl length.
  unfold kBufferSize, kMaximumCommandLength.
  destruct (Nat.ltb_spec (length body) 256), (Nat.ltb_spec 256 ((256 + 2) `min` (length body + 1)));
    try lia; [|done].
  rewrite take_ge; [done|]. rewrite length_app. simpl. lia.
Qed.

Lemma end_line_ends (t : text) : ends_line (end_line t) = true.
Proof. unfold end_line. destruct (ends_line t) eqn:E; [done|]. unfold ends_line. by rewrite last_snoc. Qed.

Lemma respond_ends {S : Type} (handler : text → S → S * text) (used : text) (s : S) :
  ends_line (snd (respond handler used s)) = true.
Proof.
  unfold respond. destruct (kMaximumCommandLength <? length used); [done|].
  destruct (handler used s). apply end_line_ends.
Qed.

(** C27: a request is answered once, whole and however it arrives.  For any
    behaviour of the kernel the server runs the handler at most once, on 1 to 256
    bytes that are a prefix of what the client sent, and sends a prefix of its
    answer; longer requests leave the daemon alone and the buffer is never
    overrun.  For a client that sends one line, in pieces of any size with any
    interruptions, and a kernel that accepts the bytes in pieces of any size, the
    answer is the handler's on that line when the line has fewer than 256
    characters, [error=too_long] otherwise, and it is one terminated line. *)
Theorem server_session {S : Type} (handler : text → S → S * text) (script : list Arrival)
    (counts : list Z) (s : S) (body : text)
    (Hsteady : steady script) (Hbody : has_newline body = false)
    (Hstream : stream script = body ++ [newline])
    (Hcounts : Forall (λ c, (0 < c)%Z) counts)
    (Hsum : length (snd (respond handler (take kBufferSize (body ++ [newline])) s))
              ≤ sum_list_with Z.to_nat counts) :
  (∀ script' counts' s' sent,
     serve_client handler script' counts' s = Some (s', sent) →
     (s' = s ∧ sent = []) ∨
     ∃ used, used ≠ [] ∧ used `prefix_of` stream script' ∧ length used ≤ 258 ∧
       ((256 < length used ∧ s' = s ∧ sent `prefix_of` lit "error=too_long" ++ [newline]) ∨
        (length used ≤ 256 ∧ s' = fst (handler used s) ∧
         sent `prefix_of` end_line (snd (handler used s))))) ∧
  (∃ s' answer, serve_client handler script counts s = Some (s', answer) ∧ ends_line answer = true ∧
     (s', answer) = if length body <? 256
                    then (fst (handler (body ++ [newline]) s), end_line (snd (handler (body ++ [newline]) s)))
                    else (s, lit "error=too_long" ++ [newline])).
Proof.
  split.
  - intros script' counts' s' sent Hserve.
    apply serve_client_inv in Hserve as [?|(used & Hne & Hlen & Hpre & Hs & Hsent)]; [by left|].
    right. exists used. split_and!; [done|done|done|]. revert Hs Hsent. unfold respond.
    destruct (Nat.ltb_spec kMaximumCommandLength (length used)) as [Hlong|Hshort]; [by left|].
    destruct (handler used s). right. done.
  - rewrite (serve_line handler script counts s body) by done. pose proof (respond_ends handler (take kBufferSize (body ++ [newline])) s).
    destruct (respond handler _ s) as [s' answer] eqn:Hr. exists s', answer. split_and!; [done|done|].
    rewrite <- Hr, respond_line. change kMaximumCommandLength with 256.
    by destruct (handler (body ++ [newline]) s).
Qed.

(** A counter of requests; the line comes in three pieces and an interruption. *)
Lemma server_session_witness :
  serve_client (λ used n, (n + 1, used ++ lit "ok"))
    [RecvBytes (lit "sta"); PollInterrupted; RecvBytes (lit "tus"); RecvBytes [newline]] [3%Z; 7%Z] 4
  = Some (5, lit "status" ++ [newline] ++ lit "ok" ++ [newline]).
Proof.
  destruct (server_session (λ used n, (n + 1, used ++ lit "ok"))
    [RecvBytes (lit "sta"); PollInterrupted; RecvBytes (lit "tus"); RecvBytes [newline]] [3%Z; 7%Z] 4
    (lit "status")) as (_ & s' & answer & -> & _ & Hr).
  - repeat constructor; discriminate.
  - reflexivity.
  - reflexivity.
  - repeat constructor.
  - vm_compute. lia.
  - rewrite Hr. reflexivity.
Defined.
