(* ===== verification/ServerLife.v ===== *)
(** * The life of the socket server ([linux/unix_command_server.hpp],
    [src/linux/unix_command_server.cpp])

    [start], [stop] and [accept_loop].  The host is the table of descriptors and
    the entry of the file system at the path of the socket; the environment
    decides which system calls fail.  [strerror] and the user of the process are
    parameters. *)
From Stdlib Require Import Ascii String.
From stdpp Require Import gmap strings.
From S2P Require Import Prelude Bytes Double Domain Measurement Crc Uart Buses Descriptors Sensors.
From S2P Require Import Command Server.

Local Open Scope Z_scope.

Definition ENOENT : Z := 2.
Definition EADDRINUSE : Z := 98.

(** What is at the path: a socket or something else, and its owner. *)
Record PathEntry := MkEntry { is_socket : bool; entry_uid : Z }.

#[export] Instance PathEntry_eq_dec : EqDecision PathEntry.
Proof. solve_decision. Defined.

Record Host := MkHost { h_os : Os; h_path : option PathEntry }.

Definition set_os (os : Os) (h : Host) : Host := MkHost os (h_path h).

Record UnixCommandServer := MkServer {
  socket_path_ : text;
  listener_ : UniqueFd;
  thread_joinable : bool;
  srv_running_ : bool;
  owns_socket_path_ : bool
}.

Definition server_init (path : text) : UnixCommandServer := MkServer path no_fd false false false.

(** The failures of the calls of one [start], as [errno]; [None] where the call
    succeeds.  [lstat] also fails with [ENOENT] when there is no entry, [bind]
    with [EADDRINUSE] when there is one. *)
Record StartEnv := MkStartEnv {
  env_lstat : option Z;
  env_unlink : option Z;
  env_socket : option Z;
  env_bind : option Z;
  env_chmod : option Z;
  env_listen : option Z;
  env_cleanup : option Z          (* the [unlink] after a failed [chmod] or [listen] *)
}.

Definition sys_unlink (failure : option Z) (h : Host) : Host * option Z :=
  match failure, h_path h with
  | Some e, _ => (h, Some e)
  | None, None => (h, Some ENOENT)
  | None, Some _ => (MkHost (h_os h) None, None)
  end.

Section Server.
Context (strerror : Z → text) (euid : Z).

Definition sys_bind (failure : option Z) (h : Host) : Host * option Z :=
  match failure, h_path h with
  | Some e, _ => (h, Some e)
  | None, Some _ => (h, Some EADDRINUSE)
  | None, None => (MkHost (h_os h) (Some (MkEntry true euid)), None)
  end.

(** From [lstat] to the [else if]: the path is free, or the error message. *)
Definition clear_path (env : StartEnv) (h : Host) : Host * option text :=
  match env_lstat env, h_path h with
  | Some e, _ => (h, if e =? ENOENT then None else Some (strerror e))
  | None, None => (h, None)                                   (* ENOENT *)
  | None, Some entry =>
      if negb (is_socket entry) || negb (entry_uid entry =? euid)
      then (h, Some (lit "refusing_to_remove_unowned_path"))
      else match sys_unlink (env_unlink env) h with
           | (h, Some e) => (h, Some (strerror e))
           | (h, None) => (h, None)
           end
  end.

(** From [socket] to the end: the error message, [None] when it returns true. *)
Definition listen_on (env : StartEnv) (srv : UnixCommandServer) (h : Host)
  : Host * UnixCommandServer * option text :=
  let '(os, (fd, errno)) := sys_create (env_socket env) (h_os h) in
  let candidate := MkUniqueFd fd in
  if negb (fd_valid candidate)
  then (set_os (fd_destroy candidate os) h, srv, Some (strerror errno))
  else
    match sys_bind (env_bind env) (set_os os h) with
    | (h, Some e) => (set_os (fd_destroy candidate (h_os h)) h, srv, Some (strerror e))
    | (h, None) =>
        let failed :=
          match env_chmod env with Some e => Some e | None => env_listen env end in
        match failed with
        | Some e =>
            let h := fst (sys_unlink (env_cleanup env) h) in
            (set_os (fd_destroy candidate (h_os h)) h,
             MkServer (socket_path_ srv) (listener_ srv) (thread_joinable srv) (srv_running_ srv) false,
             Some (strerror e))
        | None =>
            let '(os, listener, candidate) := fd_move_assign (listener_ srv) candidate (h_os h) in
            (set_os (fd_destroy candidate os) h,
             MkServer (socket_path_ srv) listener true true true, None)
        end
    end.

Definition start (env : StartEnv) (srv : UnixCommandServer) (h : Host)
  : Host * UnixCommandServer * option text :=
  if srv_running_ srv then (h, srv, Some (lit "server_already_running"))
  else if bool_decide (socket_path_ srv = []) || (kSunPathSize <=? length (socket_path_ srv))%nat
  then (h, srv, Some (lit "invalid_socket_path"))
  else
    match clear_path env h with
    | (h, Some message) => (h, srv, Some message)
    | (h, None) => listen_on env srv h
    end.

(** [stop]; the join returns because [accept_loop] tests the token in every turn. *)
Definition stop (unlinking : option Z) (srv : UnixCommandServer) (h : Host) : Host * UnixCommandServer :=
  if negb (srv_running_ srv) then (h, srv)
  else
    let '(os, listener) := fd_reset (-1) (listener_ srv) (h_os h) in
    let h := set_os os h in
    let h := if owns_socket_path_ srv then fst (sys_unlink unlinking h) else h in
    (h, MkServer (socket_path_ srv) listener false false false).

(** ** [accept_loop] *)

(** What one turn of the loop meets: the token, [poll], [accept4], [running_], and
    the session of an accepted client. *)
Record Turn := MkTurn {
  turn_stop : bool;
  turn_poll : PollResult;
  turn_accept : option Z;
  turn_running : bool;
  turn_script : list Arrival;
  turn_counts : list Z
}.

Inductive LoopStatus := LoopWaiting | LoopServing | LoopEnded.

Context {S : Type} (handler : text → S → S * text).

(** The state of the daemon, the table, the responses sent so far and where the
    loop is when the script ends. *)
Fixpoint accept_loop (turns : list Turn) (s : S) (os : Os) (sent : list text)
  : S * Os * list text * LoopStatus :=
  match turns with
  | [] => (s, os, sent, LoopWaiting)
  | t :: turns =>
      if turn_stop t then (s, os, sent, LoopEnded)
      else if (poll_return (turn_poll t) <=? 0) || negb (poll_in (turn_poll t))
      then accept_loop turns s os sent
      else
        let '(os, (fd, errno)) := sys_create (turn_accept t) os in
        let client := MkUniqueFd fd in
        if negb (fd_valid client) then
          let os := fd_destroy client os in
          if errno =? EINTR then accept_loop turns s os sent
          else if negb (turn_running t) then (s, os, sent, LoopEnded)
          else accept_loop turns s os sent
        else
          match serve_client handler (turn_script t) (turn_counts t) s with
          | None => (s, os, sent, LoopServing)
          | Some (s, response) => accept_loop turns s (fd_destroy client os) (sent ++ [response])
          end
  end.

End Server.

(** ** Starting and stopping *)

(** Something at the path that is not a socket of this user. *)
Definition foreign (euid : Z) (entry : option PathEntry) : bool :=
  match entry with
  | Some entry => negb (is_socket entry) || negb (entry_uid entry =? euid)
  | None => false
  end.

Definition stopped_server (srv : UnixCommandServer) : Prop :=
  listener_ srv = no_fd ∧ srv_running_ srv = false ∧ owns_socket_path_ srv = false.

Section Life.
Context (strerror : Z → text) (euid : Z).

Lemma clear_path_cases (env : StartEnv) (h h' : Host) (r : option text) :
  clear_path strerror euid env h = (h', r) →
  h_os h' = h_os h ∧
  (foreign euid (h_path h) = true → h_path h' = h_path h) ∧
  (foreign euid (h_path h) = false → foreign euid (h_path h') = false) ∧
  (r = None → h_path h' = None ∨ h_path h' = h_path h).
Proof.
  unfold clear_path, sys_unlink, foreign. intros H.
  destruct (env_lstat env) as [e|]; [injection H as <- <-; naive_solver|].
  destruct (h_path h) as [entry|] eqn:Hp; [|injection H as <- <-; rewrite Hp; naive_solver].
  destruct (negb (is_socket entry) || negb (entry_uid entry =? euid)) eqn:Hf;
    [injection H as <- <-; rewrite Hp; naive_solver|].
  destruct (env_unlink env); injection H as <- <-; rewrite ?Hp; naive_solver.
Qed.

(** What [start] leaves behind. *)
Lemma start_cases (env : StartEnv) (srv : UnixCommandServer) (h : Host) :
  stopped_server srv →
  let '(h', srv', r) := start strerror euid env srv h in
  (foreign euid (h_path h) = true → h_path h' = h_path h ∧ r ≠ None) ∧
  (foreign euid (h_path h) = false → foreign euid (h_path h') = false) ∧
  match r with
  | Some _ => srv' = srv ∧ h_os h' = h_os h
  | None => srv' = MkServer (socket_path_ srv) (listener_ srv') true true true ∧
            fd_valid (listener_ srv') = true ∧ descriptor_ (listener_ srv') ∈ os_open (h_os h') ∧
            fd_destroy (listener_ srv') (h_os h') = h_os h ∧ h_path h' = Some (MkEntry true euid)
  end.
Proof.
  intros (Hl & Hr & Ho). unfold start. rewrite Hr.
  destruct (_ || _); [naive_solver|].
  destruct (clear_path strerror euid env h) as [h1 [m|]] eqn:Hclear;
    apply clear_path_cases in Hclear as (Hos & Hf & Hnf & Hnone); [naive_solver|]. unfold listen_on.
  pose proof (create_destroy (env_socket env) (h_os h1)) as Hcd.
  destruct (sys_create (env_socket env) (h_os h1)) as [os [fd errno]] eqn:Hc. destruct Hcd as [Hcd _].
  destruct (fd_valid (MkUniqueFd fd)) eqn:Hv; cbn [negb]; [|simpl; rewrite Hcd; naive_solver].
  unfold sys_bind. destruct (env_bind env) as [e|]; [simpl; rewrite Hcd; naive_solver|].
  cbn [set_os h_path h_os]. destruct (h_path h1) as [entry|] eqn:Hp1; [simpl; rewrite Hcd, ?Hp1; naive_solver|].
  assert (Hnf' : foreign euid (h_path h) = false).
  { apply not_true_is_false. intros Hfo. pose proof (Hf Hfo) as He. rewrite <- He in Hfo.
    by rewrite ?Hp1 in Hfo. }
  assert (Hown : foreign euid (Some (MkEntry true euid)) = false) by (simpl; by rewrite Z.eqb_refl).
  destruct (match env_chmod env with Some e => Some e | None => env_listen env end) as [e|].
  - rewrite Hl, Hnf'. split; [done|]. split.
    + intros _. destruct (env_cleanup env); simpl; done.
    + split; [destruct srv; simpl in *; congruence|].
      destruct (env_cleanup env); simpl; by rewrite Hcd.
  - rewrite Hl. cbn [fd_move_assign fd_move fd_reset no_fd descriptor_ set_os h_os h_path listener_].
    rewrite Hnf'. split; [done|]. split; [done|]. split_and!; [done|done| | |done].
    + by eapply create_open.
    + rewrite <- Hos, <- Hcd. reflexivity.
Qed.

Lemma stop_cases (unlinking : option Z) (srv : UnixCommandServer) (h : Host) :
  srv_running_ srv = true → owns_socket_path_ srv = true →
  let '(h', srv') := stop unlinking srv h in
  stopped_server srv' ∧ socket_path_ srv' = socket_path_ srv ∧
  h_os h' = fd_destroy (listener_ srv) (h_os h) ∧
  h_path h' = match unlinking with Some _ => h_path h | None => None end.
Proof.
  intros Hr Ho. unfold stop. rewrite Hr, Ho. cbn [negb fd_reset]. unfold sys_unlink.
  cbn [set_os h_path h_os]. destruct unlinking; [done|]. by destruct (h_path h) eqn:Hp.
Qed.

(** When [start] succeeds. *)
Lemma listen_on_succeeds (env : StartEnv) (srv : UnixCommandServer) (h : Host) :
  h_path h = None →
  (listen_on strerror euid env srv h).2 = None ↔
  env_socket env = None ∧ env_bind env = None ∧ env_chmod env = None ∧ env_listen env = None.
Proof.
  intros Hp. unfold listen_on. pose proof (create_destroy (env_socket env) (h_os h)) as Hc.
  destruct (sys_create (env_socket env) (h_os h)) as [os [fd errno]]. destruct Hc as [_ Hv].
  destruct (fd_valid (MkUniqueFd fd)); cbn [negb]; [|split; [done|]; intros (Hs & _); by apply Hv in Hs].
  unfold sys_bind. cbn [set_os h_path]. rewrite Hp.
  destruct (env_bind env), (env_chmod env), (env_listen env); naive_solver.
Qed.

Lemma start_succeeds (env : StartEnv) (srv : UnixCommandServer) (h : Host) :
  srv_running_ srv = false → socket_path_ srv ≠ [] → (length (socket_path_ srv) < kSunPathSize)%nat →
  env_lstat env = None →
  (start strerror euid env srv h).2 = None ↔
  foreign euid (h_path h) = false ∧ (h_path h ≠ None → env_unlink env = None) ∧
  env_socket env = None ∧ env_bind env = None ∧ env_chmod env = None ∧ env_listen env = None.
Proof.
  intros Hr Hne Hlen Hlstat. unfold start. rewrite Hr, bool_decide_eq_false_2 by done.
  apply Nat.leb_gt in Hlen. rewrite Hlen. cbn [orb]. unfold clear_path, foreign, sys_unlink. rewrite Hlstat.
  destruct (h_path h) as [entry|] eqn:Hp; [|rewrite listen_on_succeeds by done; naive_solver].
  destruct (negb (is_socket entry) || negb (entry_uid entry =? euid)); [naive_solver|].
  destruct (env_unlink env); [naive_solver|]. rewrite listen_on_succeeds by done. naive_solver.
Qed.

(** ** Any sequence of starts and stops *)

Inductive LifeOp := OpStart (env : StartEnv) | OpStop (unlinking : option Z).

Definition life_step (op : LifeOp) (w : UnixCommandServer * Host)
  : (UnixCommandServer * Host) * option text :=
  match op with
  | OpStart env => let '(h, srv, r) := start strerror euid env w.1 w.2 in ((srv, h), r)
  | OpStop unlinking => let '(h, srv) := stop unlinking w.1 w.2 in ((srv, h), None)
  end.

(** [os0], [p0]: the table of descriptors and the entry at the path at first. *)
Record life_inv (path0 : text) (os0 : Os) (p0 : option PathEntry) (w : UnixCommandServer * Host) : Prop := {
  li_path : socket_path_ w.1 = path0;
  li_stopped : srv_running_ w.1 = false → stopped_server w.1 ∧ h_os w.2 = os0;
  li_running : srv_running_ w.1 = true →
    owns_socket_path_ w.1 = true ∧ fd_valid (listener_ w.1) = true ∧
    descriptor_ (listener_ w.1) ∈ os_open (h_os w.2) ∧
    fd_destroy (listener_ w.1) (h_os w.2) = os0 ∧ h_path w.2 = Some (MkEntry true euid);
  li_foreign : foreign euid p0 = true → srv_running_ w.1 = false ∧ h_path w.2 = p0;
  li_own : foreign euid p0 = false → foreign euid (h_path w.2) = false
}.

Lemma life_step_inv (path0 : text) (os0 : Os) (p0 : option PathEntry) (op : LifeOp) (w : UnixCommandServer * Host) :
  life_inv path0 os0 p0 w → life_inv path0 os0 p0 (life_step op w).1.
Proof.
  intros Hw. destruct w as [srv h], op as [env|unlinking]; simpl.
  - destruct (srv_running_ srv) eqn:Hr.
    { unfold start. rewrite Hr. exact Hw. }
    destruct Hw as [Hpath Hst _ Hf Ho]. simpl in *. destruct (Hst Hr) as [Hs Hos].
    pose proof (start_cases env srv h Hs) as Hc. destruct (start strerror euid env srv h) as [[h' srv'] r].
    destruct Hc as (H1 & H2 & H3). destruct r as [m|].
    + destruct H3 as [-> H3]. split; simpl; [done|by rewrite H3|congruence| |].
      * intros Hp. destruct (Hf Hp) as [_ He]. rewrite He in H1. split; [done|]. by apply H1.
      * auto.
    + destruct H3 as (He & Hv & Hin & Hd & Hp). rewrite He in *. split; simpl in *; [done|done| | |auto].
      * intros _. split_and!; [done|done|done|congruence|done].
      * intros Hfo. destruct (Hf Hfo) as [_ Hh]. rewrite Hh in H1. by destruct (H1 Hfo).
  - destruct (srv_running_ srv) eqn:Hr; [|unfold stop; rewrite Hr; exact Hw].
    destruct Hw as [Hpath _ Hrun Hf Ho]. simpl in *. destruct (Hrun Hr) as (Hown & Hv & Hin & Hd & Hp).
    pose proof (stop_cases unlinking srv h Hr Hown) as Hc.
    destruct (stop unlinking srv h) as [h' srv']. destruct Hc as (Hs & Hsp & Hos & Hp').
    pose proof Hs as (_ & Hr' & _).
    split; simpl; [congruence|by rewrite Hos, Hd|congruence| |].
    + intros Hfo. destruct (Hf Hfo). congruence.
    + intros Hfo. rewrite Hp'. destruct unlinking; [auto|done].
Qed.

Lemma life_run_inv (path0 : text) (os0 : Os) (p0 : option PathEntry) (ops : list LifeOp) :
  life_inv path0 os0 p0 (run life_step ops (server_init path0, MkHost os0 p0)).1.
Proof.
  induction ops as [|op ops IH] using rev_ind.
  - by split; try done; simpl; auto.
  - rewrite run_snoc_state. by apply life_step_inv.
Qed.

(** C28: the life cycle of the server.  After any sequence of starts and stops, with
    any failures of the system calls: while the server runs, it owns the listening
    descriptor and its socket is at the path; closing that descriptor is all it
    takes to restore the table, and no descriptor is left when it does not run.
    An entry at the path that is not a socket of this user is never removed and
    keeps the server from starting.  A stopped server with a valid path starts
    exactly when the path is free or can be freed and no call fails; a stop
    restores the table and, when it can, removes the socket. *)
Theorem server_life_cycle (path : text) (os : Os) (p : option PathEntry) (ops : list LifeOp)
    (Hne : path ≠ []) (Hlen : (length path < 108)%nat) :
  let '(srv, h) := (run life_step ops (server_init path, MkHost os p)).1 in
  (if srv_running_ srv
   then fd_valid (listener_ srv) = true ∧ descriptor_ (listener_ srv) ∈ os_open (h_os h) ∧
        sys_close (descriptor_ (listener_ srv)) (h_os h) = os ∧ h_path h = Some (MkEntry true euid)
   else h_os h = os ∧ listener_ srv = no_fd) ∧
  (foreign euid p = true → h_path h = p ∧ srv_running_ srv = false) ∧
  (∀ env, srv_running_ srv = false → env_lstat env = None →
     (start strerror euid env srv h).2 = None ↔
     foreign euid (h_path h) = false ∧ (h_path h ≠ None → env_unlink env = None) ∧
     env_socket env = None ∧ env_bind env = None ∧ env_chmod env = None ∧ env_listen env = None) ∧
  (∀ unlinking, let '(h', srv') := stop unlinking srv h in
     h_os h' = os ∧ srv_running_ srv' = false ∧ listener_ srv' = no_fd ∧
     (srv_running_ srv = true → unlinking = None → h_path h' = None)).
Proof.
  pose proof (life_run_inv path os p ops) as Hw.
  destruct (run life_step ops (server_init path, MkHost os p)).1 as [srv h].
  destruct Hw as [Hpath Hst Hrun Hf Ho]. simpl in *. split_and!.
  - destruct (srv_running_ srv); [|destruct (Hst eq_refl) as [(Hl & _) Hos]; done].
    destruct (Hrun eq_refl) as (_ & Hv & Hin & Hd & Hp). split_and!; [done|done| |done].
    unfold fd_destroy, fd_reset in Hd. unfold fd_valid in Hv. by rewrite Hv in Hd.
  - intros Hp. by destruct (Hf Hp).
  - intros env Hr Hlstat. apply start_succeeds; try done; by rewrite Hpath.
  - intros unlinking. destruct (srv_running_ srv) eqn:Hr.
    + destruct (Hrun eq_refl) as (Hown & _ & _ & Hd & _).
      pose proof (stop_cases unlinking srv h Hr Hown) as Hc. destruct (stop unlinking srv h) as [h' srv'].
      destruct Hc as ((Hl & Hr' & _) & _ & Hos & Hp). split_and!; [congruence|done|done|].
      intros _ ->. exact Hp.
    + destruct (Hst eq_refl) as [(Hl & _ & _) Hos]. unfold stop. rewrite Hr. done.
Qed.
End Life.

(** A start that fails at [listen], a good one, a stop, a start that finds a file. *)
Definition good_env : StartEnv := MkStartEnv None None None None None None None.
Definition deaf_env : StartEnv := MkStartEnv None None None None None (Some 98) None.

Lemma server_life_cycle_witness :
  let '(srv, h) := (run (life_step (λ _, []) 1000) [OpStart deaf_env; OpStart good_env]
                      (server_init (lit "/tmp/s"), MkHost (MkOs {[0; 1; 2]} 0) None)).1 in
  srv_running_ srv = true ∧ descriptor_ (listener_ srv) = 3 ∧
  sys_close 3 (h_os h) = MkOs {[0; 1; 2]} 0.
Proof.
  pose proof (server_life_cycle (λ _, []) 1000 (lit "/tmp/s") (MkOs {[0; 1; 2]} 0) None
    [OpStart deaf_env; OpStart good_env]) as H.
  assert (Hrun : (run (life_step (λ _, []) 1000) [OpStart deaf_env; OpStart good_env]
    (server_init (lit "/tmp/s"), MkHost (MkOs {[0; 1; 2]} 0) None)).1
    = (MkServer (lit "/tmp/s") (MkUniqueFd 3) true true true,
       MkHost (MkOs {[0; 1; 2; 3]} 0) (Some (MkEntry true 1000)))) by (vm_compute; reflexivity).
  rewrite Hrun in *. destruct H as [(_ & _ & Hc & _) _]; [discriminate|vm_compute; lia|].
  split; [reflexivity|]. split; [reflexivity|exact Hc].
Defined.

(** ** Serving clients one after the other *)

Section Loop.
Context {S : Type} (handler : text → S → S * text).

(** The specification: one request, one answer. *)
Definition answer (body : text) (s : S) : S * text :=
  if (length body <? 256)%nat
  then (fst (handler (body ++ [newline]) s), end_line (snd (handler (body ++ [newline]) s)))
  else (s, lit "error=too_long" ++ [newline]).

(** A turn without a client: nothing to accept, or a connection that is gone. *)
Definition quiet_turn (t : Turn) : Prop :=
  turn_stop t = false ∧
  ((poll_return (turn_poll t) <=? 0) || negb (poll_in (turn_poll t)) = true ∨
   ∃ e, turn_accept t = Some e ∧ (e = EINTR ∨ turn_running t = true)).

(** A turn in which a client sends the line [body] and takes the answer. *)
Record visit (t : Turn) (body : text) (s : S) : Prop := {
  vs_stop : turn_stop t = false;
  vs_poll : (poll_return (turn_poll t) <=? 0) || negb (poll_in (turn_poll t)) = false;
  vs_accept : turn_accept t = None;
  vs_steady : steady (turn_script t);
  vs_body : has_newline body = false;
  vs_stream : stream (turn_script t) = body ++ [newline];
  vs_counts : Forall (λ c, 0 < c) (turn_counts t);
  vs_sum : (length (snd (answer body s)) ≤ sum_list_with Z.to_nat (turn_counts t))%nat
}.

(** Turns in which clients send [bodies], in this order. *)
Inductive visits : list Turn → list text → S → Prop :=
| visits_nil s : visits [] [] s
| visits_quiet t ts bodies s : quiet_turn t → visits ts bodies s → visits (t :: ts) bodies s
| visits_client t ts body bodies s :
    visit t body s → visits ts bodies (fst (answer body s)) → visits (t :: ts) (body :: bodies) s.

Lemma respond_answer (body : text) (s : S) :
  respond handler (take kBufferSize (body ++ [newline])) s = answer body s.
Proof.
  rewrite respond_line. unfold answer, kMaximumCommandLength.
  by destruct (length body <? 256)%nat; [destruct (handler _ s)|].
Qed.

Lemma serve_visit (t : Turn) (body : text) (s : S) :
  visit t body s →
  serve_client handler (turn_script t) (turn_counts t) s = Some (answer body s).
Proof.
  intros [_ _ _ Hsteady Hbody Hstream Hcounts Hsum].
  rewrite (serve_line handler _ _ s body), respond_answer; try done. by rewrite respond_answer.
Qed.

(** No descriptor is left open between clients. *)
Lemma loop_table (turns : list Turn) (s s' : S) (os os' : Os) (sent sent' : list text) (st : LoopStatus) :
  accept_loop handler turns s os sent = (s', os', sent', st) → st ≠ LoopServing → os' = os.
Proof.
  revert s os sent. induction turns as [|t turns IH]; intros s os sent Hl Hst; simpl in Hl; [congruence|].
  destruct (turn_stop t); [congruence|].
  destruct (_ || _); [by apply IH in Hl|].
  pose proof (create_destroy (turn_accept t) os) as Hc.
  destruct (sys_create (turn_accept t) os) as [os1 [fd errno]]. destruct Hc as [Hd _].
  destruct (fd_valid (MkUniqueFd fd)); cbn [negb] in Hl.
  - destruct (serve_client _ _ _ _) as [[s1 r]|]; [|congruence]. rewrite Hd in Hl. by apply IH in Hl.
  - rewrite Hd in Hl. destruct (errno =? EINTR); [by apply IH in Hl|].
    destruct (turn_running t); cbn [negb] in Hl; [by apply IH in Hl|congruence].
Qed.

Lemma loop_quiet (t : Turn) (turns : list Turn) (s : S) (os : Os) (sent : list text) :
  quiet_turn t → accept_loop handler (t :: turns) s os sent = accept_loop handler turns s os sent.
Proof.
  intros [Hstop Hq]. cbn [accept_loop]. rewrite Hstop.
  destruct (_ || _); [done|]. destruct Hq as [Hq|(e & He & Hq)]; [done|]. rewrite He.
  cbn [sys_create negb fd_valid]. destruct (Z.eqb_spec e EINTR) as [_|Hne]; [done|].
  destruct Hq as [Hq|Hq]; [done|]. by rewrite Hq.
Qed.

Lemma loop_visits (turns rest : list Turn) (bodies : list text) (s : S) (os : Os) (sent : list text) :
  visits turns bodies s →
  accept_loop handler (turns ++ rest) s os sent
  = accept_loop handler rest (fst (run answer bodies s)) os (sent ++ snd (run answer bodies s)).
Proof.
  intros Hv. revert sent. induction Hv as [s|t ts bodies s Hq _ IH|t ts body bodies s Hv _ IH]; intros sent.
  - by rewrite app_nil_r.
  - rewrite <- app_comm_cons, loop_quiet by done. apply IH.
  - pose proof (serve_visit t body s Hv) as Hserve. destruct Hv as [Hstop Hpoll Hacc _ _ _ _ _].
    cbn [app accept_loop run]. rewrite Hstop, Hpoll, Hacc.
    pose proof (create_destroy None os) as Hc.
    destruct (sys_create None os) as [os1 [fd errno]]. destruct Hc as [Hd Hf]. rewrite (proj2 Hf eq_refl).
    cbn [negb]. rewrite Hserve. destruct (answer body s) as [s1 r]. cbn [fst] in IH. rewrite Hd, IH.
    destruct (run answer bodies s1) as [s2 rs]. cbn [fst snd]. by rewrite <- app_assoc.
Qed.

(** C29: the server refines a sequential service.  When clients send lines one after
    the other, with any pauses, failed connections and pieces in between, the
    loop answers exactly as if each line were handled alone, in order, on the
    state the previous one left; it ends at the first turn that sees the stop
    request, with every client descriptor closed.  For any behaviour of the
    environment, no descriptor is open between two clients. *)
Theorem server_refines_service (turns rest : list Turn) (final : Turn) (bodies : list text)
    (s : S) (os : Os)
    (Hv : visits turns bodies s) (Hstop : turn_stop final = true) :
  accept_loop handler (turns ++ final :: rest) s os []
  = (fst (run answer bodies s), os, snd (run answer bodies s), LoopEnded) ∧
  (∀ turns' s' os' sent st, accept_loop handler turns' s os [] = (s', os', sent, st) →
     st ≠ LoopServing → os' = os).
Proof.
  split; [|intros turns' s' os' sent st; apply loop_table].
  rewrite (loop_visits turns (final :: rest) bodies s os [] Hv). cbn [accept_loop]. by rewrite Hstop.
Qed.

End Loop.

(** A quiet turn, a client, a refused connection, another client, the stop. *)
Definition ready : PollResult := MkPoll 1 true.
Definition demo_turns : list Turn :=
  [MkTurn false (MkPoll 0 false) None true [] [];
   MkTurn false ready None true [RecvBytes (lit "ab"); RecvBytes [newline]] [1; 1; 9];
   MkTurn false ready (Some 24) true [] [];
   MkTurn false ready None true [PollInterrupted; RecvBytes (lit "c" ++ [newline])] [9]].
Definition echo (t : text) (n : nat) : nat * text := (S n, t).

Lemma server_refines_service_witness :
  accept_loop echo (demo_turns ++ [MkTurn true ready None true [] []]) 0%nat (MkOs {[0; 1; 2; 3]} 0) []
  = (2%nat, MkOs {[0; 1; 2; 3]} 0, [lit "ab" ++ [newline]; lit "c" ++ [newline]], LoopEnded).
Proof.
  refine (proj1 (server_refines_service echo demo_turns [] (MkTurn true ready None true [] [])
    [lit "ab"; lit "c"] 0%nat (MkOs {[0; 1; 2; 3]} 0) _ eq_refl)).
  apply visits_quiet; [split; [reflexivity|left; reflexivity]|].
  apply visits_client.
  { split; [reflexivity..| |reflexivity|reflexivity| |]; [repeat constructor; discriminate
      |repeat constructor|vm_compute; lia]. }
  apply visits_quiet; [split; [reflexivity|right; exists 24; split; [reflexivity|right; reflexivity]]|].
  apply visits_client; [|apply visits_nil].
  split; [reflexivity..| |reflexivity|reflexivity| |]; [repeat constructor; discriminate
    |repeat constructor|vm_compute; lia].
Defined.
