(* ===== verification/Edgectl.v ===== *)
(** * The command-line client ([apps/edgectl_main.cpp])

    [main] from its arguments to its exit code.  The environment decides the
    outcome of the system calls; the client sends the request of [Server] and
    prints what one [recv] returns. *)
From Stdlib Require Import Ascii String.
From stdpp Require Import gmap strings.
From S2P Require Import Prelude Descriptors Command Server.

Local Open Scope Z_scope.

(** [std::array<char, 2'048> response] *)
Definition kResponseSize : nat := 2048.

Record ClientEnv := MkClientEnv {
  ce_socket : option Z;              (* failures, as [errno] *)
  ce_connect : option Z;
  ce_sends : list (Z * Z);           (* what each [send] returns, and [errno] *)
  ce_recv : text + Z                 (* the bytes ready for [recv], or [errno] *)
}.

Inductive Outcome :=
| Exit (code : Z) (out err : text)
| Blocked.                           (* the script of [send] has ended *)

(** The loop around [send]: all sent, or [errno]; [None] when the script ends. *)
Fixpoint send_all (sends : list (Z * Z)) (size sent : nat) : option (option Z) :=
  if (sent <? size)%nat then
    match sends with
    | [] => None
    | (count, errno) :: sends =>
        if count <=? 0 then Some (Some errno) else send_all sends size (sent + Z.to_nat count)
    end
  else Some None.

Section Client.
Context (strerror : Z → text).

(** The rest of [main] on a connected socket. *)
Definition exchange (env : ClientEnv) (request : text) : Outcome :=
  match send_all (ce_sends env) (length request) 0 with
  | None => Blocked
  | Some (Some e) => Exit 1 [] (lit "send_error=" ++ strerror e ++ [newline])
  | Some None =>
      match ce_recv env with
      | inr e => Exit 1 [] (lit "receive_error=" ++ strerror e ++ [newline])
      | inl ready =>
          match take kResponseSize ready with
          | [] => Exit 1 [] (lit "receive_error=" ++ strerror 0 ++ [newline])
          | response => Exit 0 response []
          end
      end
  end.

Definition edgectl_main (args : list text) (default_path : text) (env : ClientEnv) (os : Os) : Os * Outcome :=
  let '(socket_path, command) := edgectl_arguments args default_path [] in
  if bool_decide (command = []) || (kMaximumCommandLength <? length command)%nat
  then (os, Exit 2 [] (lit "usage: edgectl [--socket PATH] COMMAND [ARGS]" ++ [newline]))
  else if bool_decide (socket_path = []) || (kSunPathSize <=? length socket_path)%nat
  then (os, Exit 2 [] (lit "invalid_socket_path" ++ [newline]))
  else
    let '(os, (fd, errno)) := sys_create (ce_socket env) os in
    let socket := MkUniqueFd fd in
    if negb (fd_valid socket)
    then (fd_destroy socket os, Exit 1 [] (lit "socket_error=" ++ strerror errno ++ [newline]))
    else
      match ce_connect env with
      | Some e => (fd_destroy socket os, Exit 1 [] (lit "connect_error=" ++ strerror e ++ [newline]))
      | None => (fd_destroy socket os, exchange env (command ++ [newline]))
      end.

Lemma send_all_complete (sends : list (Z * Z)) (size sent : nat) :
  send_all sends size sent = Some None → (size ≤ sent + sum_list_with (λ c, Z.to_nat c.1) sends)%nat.
Proof.
  revert sent. induction sends as [|[c e] sends IH]; intros sent; cbn [send_all];
    (destruct (Nat.ltb_spec sent size); [|intros _; lia]); [done|].
  destruct (c <=? 0); [done|]. intros H'%IH. simpl. lia.
Qed.

(** Every path closes the socket.  The exit code is 2 exactly when no request can
    be sent, and 0 exactly when the whole request was sent and a response came,
    which is printed as far as one [recv] delivered it; nothing is printed on the
    standard output otherwise. *)
Theorem edgectl_outcome (args : list text) (default_path : text) (env : ClientEnv) (os : Os) :
  let '(os', outcome) := edgectl_main args default_path env os in
  os' = os ∧
  match outcome with
  | Blocked => ∃ path request, edgectl_request args default_path = inl (path, request)
  | Exit 0 out err =>
      err = [] ∧ out ≠ [] ∧ ∃ path request ready,
        edgectl_request args default_path = inl (path, request) ∧
        (length request ≤ sum_list_with (λ c, Z.to_nat c.1) (ce_sends env))%nat ∧
        ce_recv env = inl ready ∧ out = take kResponseSize ready
  | Exit code out err => out = [] ∧ err ≠ [] ∧
      (code = 2 ↔ edgectl_request args default_path = inr 2)
  end.
Proof.
  unfold edgectl_main, edgectl_request.
  destruct (edgectl_arguments args default_path []) as [path command].
  destruct (bool_decide (command = []) || _); [done|]. destruct (bool_decide (path = []) || _); [done|].
  pose proof (create_destroy (ce_socket env) os) as Hc.
  destruct (sys_create (ce_socket env) os) as [os1 [fd errno]]. destruct Hc as [Hd _].
  destruct (fd_valid (MkUniqueFd fd)); cbn [negb]; [|done].
  destruct (ce_connect env) as [e|]; [done|]. split; [done|]. unfold exchange.
  destruct (send_all _ _ _) as [[e|]|] eqn:Hs; [done| |eauto].
  apply send_all_complete in Hs. destruct (ce_recv env) as [ready|e] eqn:Hr; [|done].
  destruct (take kResponseSize ready) as [|x t] eqn:Ht; [done|].
  split; [done|]. split; [done|]. exists path, (command ++ [newline]), ready. done.
Qed.

End Client.
