(* ===== verification/Format.v ===== *)
(** * Printing numbers

    [std::ostream << x] with its default settings: integers in decimal, doubles as
    [%g] with six significant digits (rounded to nearest, ties to even, on the
    exact value; trailing zeros dropped; an exponent when it is below -4 or at
    least 6). *)
From Stdlib Require Import Ascii String.
From S2P Require Import Prelude Double Command.

Local Open Scope Z_scope.

Definition decimal_char (d : Z) : ascii := ascii_of_nat (48 + Z.to_nat d).

(** A non-negative integer of at most [fuel] digits. *)
Fixpoint show_loop (fuel : nat) (z : Z) : text :=
  match fuel with
  | O => []
  | S fuel => if z <? 10 then [decimal_char z] else show_loop fuel (z / 10) ++ [decimal_char (z mod 10)]
  end.

(** A [std::uint64_t] or a [std::size_t]: below [2^64], so twenty digits are enough. *)
Definition show_Z (z : Z) : text := show_loop 20 z.

(** [count] digits of [z], most significant first. *)
Fixpoint show_digits (count : nat) (z : Z) : text :=
  match count with
  | O => []
  | S count => show_digits count (z / 10) ++ [decimal_char (z mod 10)]
  end.

(** The nearest integer to [n / d], ties to even. *)
Definition round_div (n d : Z) : Z :=
  let q := n / d in
  let r := n mod d in
  match (2 * r ?= d) with
  | Lt => q
  | Gt => q + 1
  | Eq => if Z.even q then q else q + 1
  end.

(** The decimal exponent: [10^k <= n/d < 10^(k+1)].  A finite double lies between
    [10^-324] and [10^309], so 400 steps are enough in either direction. *)
Fixpoint exponent_up (fuel : nat) (n d k : Z) : Z :=
  match fuel with
  | O => k
  | S fuel => if 10 * d <=? n then exponent_up fuel n (10 * d) (k + 1) else k
  end.
Fixpoint exponent_down (fuel : nat) (n d k : Z) : Z :=
  match fuel with
  | O => k
  | S fuel => if n <? d then exponent_down fuel (10 * n) d (k - 1) else k
  end.
Definition exponent10 (n d : Z) : Z :=
  if d <=? n then exponent_up 400 n d 0 else exponent_down 400 n d 0.

(** [n/d] as six digits and an exponent: [q * 10^(k-5)] with [10^5 <= q < 10^6]. *)
Definition six_digits (n d : Z) : Z * Z :=
  let k := exponent10 n d in
  let q := if 5 <=? k then round_div n (d * 10 ^ (k - 5)) else round_div (n * 10 ^ (5 - k)) d in
  if q =? 10 ^ 6 then (10 ^ 5, k + 1) else (q, k).

(** [whole.fraction] without trailing zeros, and without the point when nothing
    is left behind it. *)
Fixpoint drop_zeros (reversed : text) : text :=
  match reversed with
  | c :: rest => if (c =? "0")%char then drop_zeros rest else reversed
  | [] => []
  end.
Definition with_fraction (whole fraction : text) : text :=
  match rev (drop_zeros (rev fraction)) with
  | [] => whole
  | fraction => whole ++ ["."%char] ++ fraction
  end.

(** [%g] of a positive fraction. *)
Definition show_positive (n d : Z) : text :=
  let '(q, k) := six_digits n d in
  let ds := show_digits 6 q in
  if (k <? -4) || (6 <=? k) then
    with_fraction (take 1 ds) (drop 1 ds) ++ ["e"%char; if k <? 0 then "-"%char else "+"%char]
    ++ show_digits (if Z.abs k <? 100 then 2 else 3) (Z.abs k)
  else if k <? 0 then with_fraction (lit "0") (replicate (Z.to_nat (- k - 1)) "0"%char ++ ds)
  else with_fraction (take (Z.to_nat (k + 1)) ds) (drop (Z.to_nat (k + 1)) ds).

Definition show_sign (negative : bool) (t : text) : text := if negative then "-"%char :: t else t.

Definition show_double (x : double) : text :=
  match x with
  | SpecFloat.S754_nan => lit "nan"
  | SpecFloat.S754_infinity s => show_sign s (lit "inf")
  | SpecFloat.S754_zero s => show_sign s (lit "0")
  | SpecFloat.S754_finite s m e =>
      show_sign s (if 0 <=? e then show_positive (Zpos m * 2 ^ e) 1 else show_positive (Zpos m) (2 ^ (- e)))
  end.

Example show_double_examples :
  show_double (Double.of_Z 45) = lit "45" ∧
  show_double (Double.div (Double.of_Z 211) (Double.of_Z 2)) = lit "105.5" ∧
  show_double (Double.div (Double.of_Z (-1)) (Double.of_Z 3)) = lit "-0.333333" ∧
  show_double (Double.div (Double.of_Z 1) (Double.of_Z 20000)) = lit "5e-05" ∧
  show_double (Double.of_Z 999999) = lit "999999" ∧
  show_double (Double.div (Double.of_Z 1999999) (Double.of_Z 2)) = lit "1e+06" ∧
  show_double (Double.of_Z 1234567) = lit "1.23457e+06" ∧
  show_double (Double.div (Double.of_Z 2999) (Double.of_Z 1000)) = lit "2.999".
Proof. vm_compute. repeat split. Qed.
