(* ===== verification/FormatProps.v ===== *)
(** * Printing and parsing numbers agree *)
From Stdlib Require Import Ascii String.
From stdpp Require Import strings.
From S2P Require Import Prelude Double Command CommandProps Format.

Local Open Scope Z_scope.

(** ** Integers *)

(** The digits [show_loop] prints. *)
Fixpoint decimal_digits (fuel : nat) (z : Z) : list nat :=
  match fuel with
  | O => []
  | S fuel => if z <? 10 then [Z.to_nat z] else decimal_digits fuel (z / 10) ++ [Z.to_nat (z mod 10)]
  end.

Lemma show_loop_digits (fuel : nat) (z : Z) : show_loop fuel z = digit_char <$> decimal_digits fuel z.
Proof.
  revert z. induction fuel as [|fuel IH]; intros z; [done|]. cbn [show_loop decimal_digits].
  destruct (z <? 10); [done|]. by rewrite fmap_app, IH.
Qed.

Lemma number_value_snoc (ds : list nat) (d : nat) :
  number_value (ds ++ [d]) = number_value ds * 10 + Z.of_nat d.
Proof. unfold number_value. by rewrite foldl_app. Qed.

Lemma decimal_digits_spec (fuel : nat) (z : Z) :
  0 ≤ z < 10 ^ Z.of_nat fuel → (0 < fuel)%nat →
  decimal_digits fuel z ≠ [] ∧ Forall is_digit (decimal_digits fuel z) ∧
  number_value (decimal_digits fuel z) = z.
Proof.
  revert z. induction fuel as [|fuel IH]; intros z Hz Hf; [lia|]. cbn [decimal_digits]. unfold is_digit.
  destruct (Z.ltb_spec z 10) as [Hlt|Hge].
  - split_and!; [done|apply Forall_singleton; lia|]. unfold number_value. simpl. lia.
  - rewrite Nat2Z.inj_succ, Z.pow_succ_r in Hz by lia.
    assert (Hq : 0 ≤ z / 10 < 10 ^ Z.of_nat fuel) by (split; [apply Z.div_pos; lia|apply Z.div_lt_upper_bound; lia]).
    destruct fuel as [|fuel]; [simpl in Hz; lia|].
    destruct (IH (z / 10) Hq ltac:(lia)) as (_ & Hd & Hv). pose proof (Z.mod_pos_bound z 10 ltac:(lia)).
    split_and!; [by destruct (decimal_digits (S fuel) (z / 10))| |].
    + apply Forall_app. split; [exact Hd|]. apply Forall_singleton. lia.
    + rewrite number_value_snoc, Hv, Z2Nat.id by lia. pose proof (Z.div_mod z 10). lia.
Qed.

(** ** Doubles that are integers *)

Lemma exponent_up_spec (fuel : nat) (n d k : Z) :
  0 < d ≤ n → n < d * 10 ^ Z.of_nat (S fuel) →
  ∃ j, exponent_up fuel n d k = k + j ∧ 0 ≤ j ∧ d * 10 ^ j ≤ n < d * 10 ^ (j + 1).
Proof.
  revert d k. induction fuel as [|fuel IH]; intros d k Hd Hn; cbn [exponent_up].
  - exists 0. rewrite Z.pow_0_r. change (10 ^ (0 + 1)) with 10. simpl in Hn. lia.
  - destruct (Z.leb_spec (10 * d) n) as [Hle|Hgt].
    + rewrite Nat2Z.inj_succ, Z.pow_succ_r in Hn by lia.
      destruct (IH (10 * d) (k + 1)) as (j & -> & Hj & Hb); [lia|lia|].
      exists (j + 1). rewrite !Z.pow_add_r, Z.pow_1_r in * by lia. lia.
    + exists 0. rewrite Z.pow_0_r. change (10 ^ (0 + 1)) with 10. lia.
Qed.

Lemma round_div_exact (q d : Z) : 0 < d → round_div (q * d) d = q.
Proof.
  intros Hd. unfold round_div. rewrite Z.div_mul, Z.mod_mul by lia.
  destruct (Z.compare_spec (2 * 0) d); [lia|done|lia].
Qed.

Lemma length_show_digits (count : nat) (z : Z) : length (show_digits count z) = count.
Proof. revert z. induction count as [|count IH]; intros z; [done|]. simpl. rewrite length_app, IH. simpl. lia. Qed.

Lemma show_digits_shift (a b : nat) (z : Z) :
  show_digits (a + b) (z * 10 ^ Z.of_nat b) = show_digits a z ++ replicate b "0"%char.
Proof.
  induction b as [|b IH].
  - rewrite Nat.add_0_r, Z.pow_0_r, Z.mul_1_r. by rewrite app_nil_r.
  - rewrite Nat.add_succ_r, Nat2Z.inj_succ, Z.pow_succ_r by lia. cbn [show_digits].
    replace (z * (10 * 10 ^ Z.of_nat b)) with (z * 10 ^ Z.of_nat b * 10) by lia.
    rewrite Z.div_mul, Z.mod_mul, IH by lia.
    change (decimal_char 0) with "0"%char. by rewrite <- app_assoc, <- (replicate_cons_app b "0"%char).
Qed.

Lemma show_loop_show_digits (j fuel : nat) (z : Z) :
  (10 ^ Z.of_nat j ≤ z ∨ j = 0%nat) → 0 ≤ z < 10 ^ (Z.of_nat j + 1) → (j < fuel)%nat →
  show_loop fuel z = show_digits (S j) z.
Proof.
  revert fuel z. induction j as [|j IH]; intros fuel z Hlo Hhi Hf; (destruct fuel as [|fuel]; [lia|]);
    cbn [show_loop show_digits].
  - simpl in Hhi. destruct (Z.ltb_spec z 10); [|lia]. by rewrite Z.mod_small.
  - destruct Hlo as [Hlo|]; [|done]. rewrite Nat2Z.inj_succ, Z.pow_succ_r in Hlo by lia.
    replace (Z.of_nat (S j) + 1) with (Z.succ (Z.of_nat j + 1)) in Hhi by lia.
    rewrite Z.pow_succ_r in Hhi by lia. pose proof (Z.pow_pos_nonneg 10 (Z.of_nat j)).
    destruct (Z.ltb_spec z 10); [lia|]. rewrite (IH fuel (z / 10)); [done| | |lia].
    + left. apply Z.div_le_lower_bound; lia.
    + split; [apply Z.div_pos; lia|]. apply Z.div_lt_upper_bound; lia.
Qed.

Lemma drop_zeros_replicate (b : nat) : drop_zeros (replicate b "0"%char) = [].
Proof. by induction b. Qed.

Lemma with_fraction_zeros (whole : text) (b : nat) : with_fraction whole (replicate b "0"%char) = whole.
Proof.
  unfold with_fraction. rewrite <- (reverse_replicate b "0"%char).
  replace (rev (reverse (replicate b "0"%char))) with (replicate b "0"%char).
  - by rewrite drop_zeros_replicate.
  - unfold reverse. by rewrite rev_append_rev, app_nil_r, rev_involutive.
Qed.

Lemma six_digits_integer (z d : Z) :
  0 < d → 1 ≤ z < 10 ^ 6 →
  ∃ j : nat, six_digits (z * d) d = (z * 10 ^ Z.of_nat (5 - j), Z.of_nat j) ∧ (j ≤ 5)%nat ∧
             10 ^ Z.of_nat j ≤ z < 10 ^ (Z.of_nat j + 1).
Proof.
  intros Hd Hz. unfold six_digits, exponent10. destruct (Z.leb_spec d (z * d)); [|nia].
  destruct (exponent_up_spec 400 (z * d) d 0) as (j & -> & Hj & Hb); [lia| |].
  { rewrite (Z.mul_comm z d). apply Z.mul_lt_mono_pos_l; [done|].
    apply Z.lt_le_trans with (10 ^ 6); [lia|]. apply Z.pow_le_mono_r; lia. }
  assert (Hzj : 10 ^ j ≤ z < 10 ^ (j + 1)) by nia.
  assert (Hj5 : j ≤ 5).
  { destruct (Z.le_gt_cases j 5); [done|]. assert (10 ^ 6 ≤ 10 ^ j) by (apply Z.pow_le_mono_r; lia). lia. }
  rewrite Z.add_0_l.
  assert (Hq : (if 5 <=? j then round_div (z * d) (d * 10 ^ (j - 5)) else round_div (z * d * 10 ^ (5 - j)) d)
               = z * 10 ^ (5 - j)).
  { destruct (Z.leb_spec 5 j).
    - assert (j = 5) as -> by lia. change (10 ^ (5 - 5)) with 1. by rewrite !Z.mul_1_r, round_div_exact.
    - replace (z * d * 10 ^ (5 - j)) with (z * 10 ^ (5 - j) * d) by lia. by rewrite round_div_exact. }
  rewrite Hq. assert (Hlt : z * 10 ^ (5 - j) < 10 ^ 6).
  { replace (10 ^ 6) with (10 ^ (j + 1) * 10 ^ (5 - j)) by (rewrite <- Z.pow_add_r by lia; f_equal; lia).
    apply Z.mul_lt_mono_pos_r; [|lia]. apply Z.pow_pos_nonneg; lia. }
  destruct (Z.eqb_spec (z * 10 ^ (5 - j)) (10 ^ 6)); [lia|].
  exists (Z.to_nat j). rewrite Nat2Z.inj_sub, Z2Nat.id by lia. split_and!; try done; lia.
Qed.

Lemma show_positive_integer (z d : Z) : 0 < d → 1 ≤ z < 10 ^ 6 → show_positive (z * d) d = show_Z z.
Proof.
  intros Hd Hz. unfold show_positive.
  destruct (six_digits_integer z d Hd Hz) as (j & -> & Hj & Hb).
  destruct (Z.ltb_spec (Z.of_nat j) (-4)), (Z.leb_spec 6 (Z.of_nat j)), (Z.ltb_spec (Z.of_nat j) 0); try lia.
  cbn [orb]. replace (Z.to_nat (Z.of_nat j + 1)) with (S j) by lia.
  replace 6%nat with (S j + (5 - j))%nat at 1 2 by lia. rewrite show_digits_shift.
  rewrite take_app_length', drop_app_length', with_fraction_zeros by (by rewrite length_show_digits).
  symmetry. apply show_loop_show_digits; [left; lia|lia|lia].
Qed.

(** Below a million, a double that is an integer prints as that integer. *)
Lemma show_integer_double (negative : bool) (z : Z) :
  0 ≤ z < 10 ^ 6 → show_double (integer_double negative z) = show_sign negative (show_Z z).
Proof.
  intros Hz. unfold integer_double. destruct (Z.eqb_spec z 0) as [->|Hz0]; [done|].
  destruct z as [|p|p]; [done| |lia].
  assert (Hof : ∃ m, Double.of_Z (if negative then - Zpos p else Zpos p)
    = SpecFloat.S754_finite negative m (Z.log2 (Zpos p) - 52) ∧ Zpos m = Zpos p * 2 ^ (52 - Z.log2 (Zpos p))).
  { destruct negative; apply Double.round_integer; lia. }
  destruct Hof as (m & -> & Hm). cbn [show_double]. f_equal.
  assert (Hlog : 0 ≤ Z.log2 (Zpos p) < 53).
  { split; [apply Z.log2_nonneg|]. apply Z.log2_lt_pow2; lia. }
  destruct (Z.leb_spec 0 (Z.log2 (Zpos p) - 52)) as [He|He].
  - assert (Z.log2 (Zpos p) = 52) as Hl by lia. rewrite Hl in Hm |- *. rewrite Hm.
    change (2 ^ (52 - 52)) with 1. rewrite !Z.mul_1_r.
    rewrite <- (Z.mul_1_r (Zpos p)) at 1. apply show_positive_integer; lia.
  - rewrite Hm. replace (- (Z.log2 (Zpos p) - 52)) with (52 - Z.log2 (Zpos p)) by lia.
    apply show_positive_integer; [apply Z.pow_pos_nonneg; lia|lia].
Qed.

(** ** Shapes *)

(** At most [n] digits below [10^n]. *)
Lemma length_show_loop (fuel n : nat) (z : Z) :
  (0 < n)%nat → 0 ≤ z < 10 ^ Z.of_nat n → (length (show_loop fuel z) ≤ n)%nat.
Proof.
  revert n z. induction fuel as [|fuel IH]; intros n z Hn Hz; [simpl; lia|]. cbn [show_loop].
  destruct (Z.ltb_spec z 10); [simpl; lia|]. rewrite length_app. cbn [length].
  destruct n as [|n]; [lia|]. rewrite Nat2Z.inj_succ, Z.pow_succ_r in Hz by lia.
  destruct n as [|n]; [simpl in Hz; lia|]. specialize (IH (S n) (z / 10) ltac:(lia)).
  assert (0 ≤ z / 10 < 10 ^ Z.of_nat (S n)) by (split; [apply Z.div_pos; lia|apply Z.div_lt_upper_bound; lia]).
  lia.
Qed.

(** No printed number has a space in it. *)
Definition no_space (t : text) : Prop := Forall (λ c, is_space c = false) t.

Lemma decimal_char_no_space (d : Z) : d < 10 → is_space (decimal_char d) = false.
Proof.
  intros Hd. assert (Hn : is_digit (Z.to_nat d)) by (unfold is_digit; lia).
  apply (digit_char_facts _ Hn).
Qed.

Lemma show_loop_no_space (fuel : nat) (z : Z) : no_space (show_loop fuel z).
Proof.
  revert z. induction fuel as [|fuel IH]; intros z; [constructor|]. cbn [show_loop].
  destruct (Z.ltb_spec z 10); [apply Forall_singleton; by apply decimal_char_no_space|].
  apply Forall_app. split; [apply IH|]. apply Forall_singleton, decimal_char_no_space.
  pose proof (Z.mod_pos_bound z 10). lia.
Qed.

Lemma show_digits_no_space (count : nat) (z : Z) : no_space (show_digits count z).
Proof.
  revert z. induction count as [|count IH]; intros z; [constructor|]. cbn [show_digits].
  apply Forall_app. split; [apply IH|]. apply Forall_singleton, decimal_char_no_space.
  pose proof (Z.mod_pos_bound z 10). lia.
Qed.

Lemma drop_zeros_no_space (t : text) : no_space t → no_space (drop_zeros t).
Proof.
  induction 1 as [|c t Hc Ht IH]; [constructor|]. cbn [drop_zeros].
  destruct (c =? "0")%char; [exact IH|by constructor].
Qed.

Lemma with_fraction_no_space (whole fraction : text) :
  no_space whole → no_space fraction → no_space (with_fraction whole fraction).
Proof.
  intros Hw Hf. unfold with_fraction.
  assert (H : no_space (rev (drop_zeros (rev fraction)))).
  { apply List.Forall_rev, drop_zeros_no_space. by apply List.Forall_rev. }
  destruct (rev _) as [|c t]; [done|]. apply Forall_app. split; [done|]. by constructor.
Qed.

Lemma show_positive_no_space (n d : Z) : no_space (show_positive n d).
Proof.
  unfold show_positive. destruct (six_digits n d) as [q k].
  pose proof (show_digits_no_space 6 q) as Hq.
  destruct ((k <? -4) || (6 <=? k)); [|destruct (k <? 0)].
  - apply Forall_app. split; [apply with_fraction_no_space; [by apply Forall_take|by apply Forall_drop]|].
    apply Forall_app. split; [destruct (k <? 0); repeat constructor|]. apply show_digits_no_space.
  - apply with_fraction_no_space; [repeat constructor|]. apply Forall_app. split; [by apply Forall_replicate|done].
  - apply with_fraction_no_space; [by apply Forall_take|by apply Forall_drop].
Qed.

Lemma show_sign_no_space (negative : bool) (t : text) : no_space t → no_space (show_sign negative t).
Proof. intros H. destruct negative; [by constructor|done]. Qed.

Lemma show_double_no_space (x : double) : no_space (show_double x).
Proof.
  destruct x as [s|s| |s m e]; simpl; try apply show_sign_no_space; try by repeat constructor.
  destruct (0 <=? e); apply show_positive_no_space.
Qed.

(** ** Reading counters *)

(** A decimal number at the start of a text, and a whole text that is one. *)
Definition read_digits (t : text) : option (Z * text) :=
  let '(n, k, rest) := digits t 0 0 in if (k =? 0)%nat then None else Some (n, rest).

Lemma read_shown (n : Z) (junk : text) :
  0 ≤ n < 2 ^ 64 → no_number junk → read_digits (show_Z n ++ junk) = Some (n, junk).
Proof.
  intros Hn Hj. unfold read_digits, show_Z. rewrite show_loop_digits.
  destruct (decimal_digits_spec 20 n) as (Hne & Hd & Hv);
    [change (10 ^ Z.of_nat 20) with (10 ^ 20); lia|lia|].
  rewrite digits_text_app by done. fold (number_value (decimal_digits 20 n)). rewrite Hv.
  by destruct (decimal_digits 20 n).
Qed.
