(* ===== verification/Runtime.v ===== *)
(** * The runtime ([runtime/edge_runtime.hpp])

    [EdgeRuntime] owns a control, a sensor and a monitor thread and is called from
    any number of other threads.  A thread is a program counter at its next
    access to shared state; each step performs one such access (an atomic load or
    store, a critical section of the pool, of the queue, of the machine or of the
    life cycle, a counter) on the shared members.  Blocking calls have no step
    while they block.  Clock readings, expired timeouts and sensor samples are
    inputs of the steps. *)
From stdpp Require Import gmap.
From S2P Require Import Prelude Double Domain Fsm Metrics Pool Queue Interfaces.

Local Open Scope Z_scope.

Inductive PublishResult :=
| Pub_published | Pub_not_running | Pub_pool_exhausted
| Pub_queue_full | Pub_queue_timeout | Pub_queue_closed.

#[export] Instance PublishResult_eq_dec : EqDecision PublishResult.
Proof. solve_decision. Defined.

Definition kEventPoolCapacity : nat := 256.
Definition kEventQueueCapacity : nat := 128.

Record PooledEvent := MkPooled {
  event : Event;
  created_at : Z        (* steady_clock, in nanoseconds *)
}.

(** The periods and the timeout, in milliseconds.  They only say when a wait may end;
    the steps below let it end at any time. *)
Record RuntimeConfig := MkRuntimeConfig {
  sample_period : Z;
  monitor_period : Z;
  event_push_timeout : Z;
  rc_protection : ProtectionConfig
}.

Definition default_runtime_config : RuntimeConfig := MkRuntimeConfig 100 1000 10 default_config.

(** ** Program counters *)

(** [publish(event)] *)
Inductive Publish :=
| PubLoad (e : Event)                           (* [accepting_events_.load()] *)
| PubCreate (e : Event)                         (* [pool_.try_create(...)] *)
| PubPush (e : Event) (h : Handle)              (* [queue_.wait_push(std::move(pooled_event), ...)] *)
| PubDrop (h : Handle) (r : PublishResult)      (* the refused argument is destroyed *)
| PubCount (r : PublishResult)                  (* [record_published()] or [record_dropped()] *)
| PubReturn (r : PublishResult).

(** [control_loop()] *)
Inductive Control :=
| CtlNone                                       (* not started *)
| CtlPop                                        (* [queue_.wait_pop()] *)
| CtlLatency (h : Handle)                       (* reads [created_at] and the clock *)
| CtlHandle (h : Handle) (latency : Z)          (* [machine_.handle(event_handle->event)] *)
| CtlProcessed (h : Handle) (latency : Z) (changed : bool)
| CtlTransition (h : Handle)                    (* [record_transition()] *)
| CtlRelease (h : Handle)                       (* end of the loop body: [~Handle] *)
| CtlDone.

(** [sensor_loop(token)] and [monitor_loop(token)] *)
Inductive Sensor :=
| SnsNone | SnsCheck | SnsPublish (p : Publish) | SnsWait | SnsDone.
Inductive Monitor :=
| MonNone | MonWait | MonTick | MonDone.

(** A thread that calls [publish], [start] or [stop].  In [stop], [r] is what the
    publication of the shutdown event returned, which the code discards. *)
Inductive Client :=
| ClIdle
| ClPublish (p : Publish)
| StartLock | StartAccept | StartRun | StartControl
| StartPublish (p : Publish) | StartSelfTest (p : Publish) | StartSensor | StartMonitor
| StopLock | StopPublish (p : Publish) | StopAccept (r : PublishResult)
| StopWait (r : PublishResult) | StopSensor (r : PublishResult) | StopMonitor (r : PublishResult)
| StopJoinSensor (r : PublishResult) | StopJoinMonitor (r : PublishResult)
| StopClose (r : PublishResult) | StopJoinControl (r : PublishResult)
| StopRunning (r : PublishResult) | StopReturned (r : PublishResult).

Section Runtime.
Context {P Q : Type} `{!ObjectPool P PooledEvent} `{!EventQueue Q Handle}.
Context (protection : ProtectionConfig).

(** The shared members.  [log_pushed] and [log_handled] are history variables:
    the events pushed to the queue and the events given to the machine. *)
Record Shared := MkShared {
  r_pool : P;
  r_queue : Q;
  machine_ : MotorStateMachine;
  metrics_ : RuntimeMetrics;
  lifecycle_locked : bool;          (* held by a [start] in progress *)
  started_ : bool;
  stopped_ : bool;
  accepting_events_ : bool;
  running_ : bool;
  sensor_stop : bool;               (* the stop state of [sensor_thread_] *)
  monitor_stop : bool;
  log_pushed : list Event;
  log_handled : list Event
}.

Record System := MkSystem {
  shared : Shared;
  control : Control;
  sensor : Sensor;
  monitor : Monitor;
  clients : list Client
}.

Definition runtime_init (n : nat) : System :=
  MkSystem
    (MkShared op_init eq_init (machine_init protection) metrics_init
       false false false false false false false [] [])
    CtlNone SnsNone MonNone (replicate n ClIdle).

(** ** Updates of one member *)

Definition set_pool (p : P) (s : Shared) : Shared :=
  MkShared p (r_queue s) (machine_ s) (metrics_ s) (lifecycle_locked s) (started_ s) (stopped_ s)
    (accepting_events_ s) (running_ s) (sensor_stop s) (monitor_stop s) (log_pushed s) (log_handled s).
Definition set_queue (q : Q) (s : Shared) : Shared :=
  MkShared (r_pool s) q (machine_ s) (metrics_ s) (lifecycle_locked s) (started_ s) (stopped_ s)
    (accepting_events_ s) (running_ s) (sensor_stop s) (monitor_stop s) (log_pushed s) (log_handled s).
Definition set_metrics (m : RuntimeMetrics) (s : Shared) : Shared :=
  MkShared (r_pool s) (r_queue s) (machine_ s) m (lifecycle_locked s) (started_ s) (stopped_ s)
    (accepting_events_ s) (running_ s) (sensor_stop s) (monitor_stop s) (log_pushed s) (log_handled s).
Definition set_machine (e : Event) (m : MotorStateMachine) (s : Shared) : Shared :=
  MkShared (r_pool s) (r_queue s) m (metrics_ s) (lifecycle_locked s) (started_ s) (stopped_ s)
    (accepting_events_ s) (running_ s) (sensor_stop s) (monitor_stop s) (log_pushed s)
    (log_handled s ++ [e]).
Definition log_push (e : Event) (s : Shared) : Shared :=
  MkShared (r_pool s) (r_queue s) (machine_ s) (metrics_ s) (lifecycle_locked s) (started_ s)
    (stopped_ s) (accepting_events_ s) (running_ s) (sensor_stop s) (monitor_stop s)
    (log_pushed s ++ [e]) (log_handled s).
Definition set_flags (locked started stopped accepting running sensor monitor : bool) (s : Shared)
  : Shared :=
  MkShared (r_pool s) (r_queue s) (machine_ s) (metrics_ s) locked started stopped
    accepting running sensor monitor (log_pushed s) (log_handled s).

Definition set_lock (b : bool) (s : Shared) : Shared :=
  set_flags b (started_ s) (stopped_ s) (accepting_events_ s) (running_ s) (sensor_stop s)
    (monitor_stop s) s.
Definition set_started (s : Shared) : Shared :=
  set_flags (lifecycle_locked s) true (stopped_ s) (accepting_events_ s) (running_ s) (sensor_stop s)
    (monitor_stop s) s.
Definition set_stopped (s : Shared) : Shared :=
  set_flags (lifecycle_locked s) (started_ s) true (accepting_events_ s) (running_ s) (sensor_stop s)
    (monitor_stop s) s.
Definition set_accepting (b : bool) (s : Shared) : Shared :=
  set_flags (lifecycle_locked s) (started_ s) (stopped_ s) b (running_ s) (sensor_stop s)
    (monitor_stop s) s.
Definition set_running (b : bool) (s : Shared) : Shared :=
  set_flags (lifecycle_locked s) (started_ s) (stopped_ s) (accepting_events_ s) b (sensor_stop s)
    (monitor_stop s) s.
Definition stop_sensor (s : Shared) : Shared :=
  set_flags (lifecycle_locked s) (started_ s) (stopped_ s) (accepting_events_ s) (running_ s) true
    (monitor_stop s) s.
Definition stop_monitor (s : Shared) : Shared :=
  set_flags (lifecycle_locked s) (started_ s) (stopped_ s) (accepting_events_ s) (running_ s)
    (sensor_stop s) true s.

(** ** The threads, one access per step *)

(** The [switch] of [publish]. *)
Definition push_result (r : QueuePushResult) : PublishResult :=
  match r with
  | pushed => Pub_published
  | full => Pub_queue_full
  | timeout => Pub_queue_timeout
  | closed => Pub_queue_closed
  end.

Definition count_publish (r : PublishResult) (m : RuntimeMetrics) : RuntimeMetrics :=
  if decide (r = Pub_published) then record_published m else record_dropped m.

Definition publish_step (now : Z) (expired : bool) (pc : Publish) (s : Shared)
  : option (Publish * Shared) :=
  match pc with
  | PubLoad e =>
      if negb (accepting_events_ s) then Some (PubReturn Pub_not_running, s)
      else Some (PubCreate e, s)
  | PubCreate e =>
      let '(p, h) := op_create (MkPooled e now) (r_pool s) in
      if negb (handle_valid h) then Some (PubCount Pub_pool_exhausted, set_pool p s)
      else Some (PubPush e h, set_pool p s)
  | PubPush e h =>
      match eq_push expired h (r_queue s) with
      | None => None                               (* waiting on [not_full_] *)
      | Some (q, pushed) => Some (PubCount Pub_published, log_push e (set_queue q s))
      | Some (q, r) => Some (PubDrop h (push_result r), set_queue q s)
      end
  | PubDrop h r => Some (PubCount r, set_pool (op_drop h (r_pool s)) s)
  | PubCount r => Some (PubReturn r, set_metrics (count_publish r (metrics_ s)) s)
  | PubReturn r => None
  end.

(** [static_cast<std::uint64_t>] of a signed count of nanoseconds. *)
Definition to_u64 (z : Z) : Z := z mod u64_modulus.

Definition control_step (now : Z) (pc : Control) (s : Shared) : option (Control * Shared) :=
  match pc with
  | CtlNone | CtlDone => None
  | CtlPop =>
      match eq_pop (r_queue s) with
      | None => None                               (* waiting on [not_empty_] *)
      | Some (q, Some h) => Some (CtlLatency h, set_queue q s)
      | Some (q, None) => Some (CtlDone, set_queue q s)
      end
  | CtlLatency h =>
      match op_deref h (r_pool s) with
      | Some pe => Some (CtlHandle h (to_u64 (now - created_at pe)), s)
      | None => None                               (* dangling: excluded by the invariant *)
      end
  | CtlHandle h latency =>
      match op_deref h (r_pool s) with
      | Some pe =>
          let '(m, t) := handle (event pe) (machine_ s) in
          Some (CtlProcessed h latency (changed t), set_machine (event pe) m s)
      | None => None                               (* dangling: excluded by the invariant *)
      end
  | CtlProcessed h latency changed =>
      Some ((if changed then CtlTransition h else CtlRelease h),
            set_metrics (record_processed latency (metrics_ s)) s)
  | CtlTransition h => Some (CtlRelease h, set_metrics (record_transition (metrics_ s)) s)
  | CtlRelease h => Some (CtlPop, set_pool (op_drop h (r_pool s)) s)
  end.

(** The wait ends after the period or when the thread is to stop, at a moment of its
    own; what counts is the stop state it then finds. *)
Definition wait_for_period (stop_requested : bool) : bool := negb stop_requested.

(** [sample]: what [sensor_->read()] returns, [None] without a sensor. *)
Definition sensor_step (now : Z) (expired : bool) (sample : option SensorSample)
    (pc : Sensor) (s : Shared) : option (Sensor * Shared) :=
  match pc with
  | SnsNone | SnsDone => None
  | SnsCheck =>
      if sensor_stop s then Some (SnsDone, s)
      else match sample with
           | Some smp => Some (SnsPublish (PubLoad (Event_sensor_sample smp)), s)
           | None => Some (SnsWait, s)
           end
  | SnsPublish (PubReturn r) => Some (SnsWait, s)
  | SnsPublish p =>
      match publish_step now expired p s with
      | Some (p, s) => Some (SnsPublish p, s)
      | None => None
      end
  | SnsWait => if wait_for_period (sensor_stop s) then Some (SnsCheck, s) else Some (SnsDone, s)
  end.

Definition monitor_step (pc : Monitor) (s : Shared) : option (Monitor * Shared) :=
  match pc with
  | MonNone | MonDone => None
  | MonWait => if wait_for_period (monitor_stop s) then Some (MonTick, s) else Some (MonDone, s)
  | MonTick => Some (MonWait, set_metrics (record_monitor_tick (metrics_ s)) s)
  end.

(** What an idle client does next. *)
Inductive Call := CallPublish (e : Event) | CallStart | CallStop.

Definition begin_call (c : Call) : Client :=
  match c with
  | CallPublish e => ClPublish (PubLoad e)
  | CallStart => StartLock
  | CallStop => StopLock
  end.

Definition set_shared (s : Shared) (y : System) : System :=
  MkSystem s (control y) (sensor y) (monitor y) (clients y).

(** A publication inside a longer call: [wrap] is the call while it publishes,
    [next] where it goes with the result. *)
Definition publishing (now : Z) (expired : bool) (p : Publish) (y : System)
    (wrap : Publish → Client) (next : PublishResult → Client) : option (Client * System) :=
  match p with
  | PubReturn r => Some (next r, y)
  | p => match publish_step now expired p (shared y) with
         | Some (p, s) => Some (wrap p, set_shared s y)
         | None => None
         end
  end.

(** [join_if_needed(thread)]: [ended] when there is a thread; it has no step while it
    waits. *)
Definition join_if_needed (joinable ended : bool) (next : Client) (y : System) : option (Client * System) :=
  if joinable then if ended then Some (next, y) else None else Some (next, y).

Lemma join_view (joinable ended : bool) (next c' : Client) (y y' : System) :
  join_if_needed joinable ended next y = Some (c', y') → c' = next ∧ y' = y.
Proof. unfold join_if_needed. intros H. repeat case_match; by simplify_eq. Qed.

Definition control_ended (c : Control) : bool := match c with CtlDone => true | _ => false end.
Definition sensor_ended (c : Sensor) : bool := match c with SnsDone => true | _ => false end.
Definition monitor_ended (c : Monitor) : bool := match c with MonDone => true | _ => false end.
Definition control_joinable (c : Control) : bool := match c with CtlNone => false | _ => true end.
Definition sensor_joinable (c : Sensor) : bool := match c with SnsNone => false | _ => true end.
Definition monitor_joinable (c : Monitor) : bool := match c with MonNone => false | _ => true end.

Definition client_step (now : Z) (expired : bool) (call : Call) (c : Client) (y : System)
  : option (Client * System) :=
  let s := shared y in
  match c with
  | ClIdle => Some (begin_call call, y)
  | ClPublish p => publishing now expired p y ClPublish (λ _, ClIdle)
  (* [start()], under [lifecycle_mutex_] throughout *)
  | StartLock =>
      if lifecycle_locked s then None
      else if started_ s then Some (ClIdle, y)
      else Some (StartAccept, set_shared (set_started (set_lock true s)) y)
  | StartAccept => Some (StartRun, set_shared (set_accepting true s) y)
  | StartRun => Some (StartControl, set_shared (set_running true s) y)
  | StartControl =>
      Some (StartPublish (PubLoad Event_startup),
            MkSystem s CtlPop (sensor y) (monitor y) (clients y))
  | StartPublish p =>
      publishing now expired p y StartPublish (λ _, StartSelfTest (PubLoad Event_self_test_passed))
  | StartSelfTest p => publishing now expired p y StartSelfTest (λ _, StartSensor)
  | StartSensor => Some (StartMonitor, MkSystem s (control y) SnsCheck (monitor y) (clients y))
  | StartMonitor =>
      Some (ClIdle, MkSystem (set_lock false s) (control y) (sensor y) MonWait (clients y))
  (* [stop()] *)
  | StopLock =>
      if lifecycle_locked s then None
      else if negb (started_ s) || stopped_ s then Some (ClIdle, y)
      else Some (StopPublish (PubLoad Event_shutdown_requested), set_shared (set_stopped s) y)
  | StopPublish p => publishing now expired p y StopPublish StopAccept
  | StopAccept r => Some (StopWait r, set_shared (set_accepting false s) y)
  | StopWait r =>
      if state_is safe_shutdown (machine_ s) || expired then Some (StopSensor r, y) else None
  | StopSensor r => Some (StopMonitor r, set_shared (stop_sensor s) y)
  | StopMonitor r => Some (StopJoinSensor r, set_shared (stop_monitor s) y)
  | StopJoinSensor r =>
      join_if_needed (sensor_joinable (sensor y)) (sensor_ended (sensor y)) (StopJoinMonitor r) y
  | StopJoinMonitor r =>
      join_if_needed (monitor_joinable (monitor y)) (monitor_ended (monitor y)) (StopClose r) y
  | StopClose r => Some (StopJoinControl r, set_shared (set_queue (eq_close (r_queue s)) s) y)
  | StopJoinControl r =>
      join_if_needed (control_joinable (control y)) (control_ended (control y)) (StopRunning r) y
  | StopRunning r => Some (StopReturned r, set_shared (set_running false s) y)
  | StopReturned r => Some (ClIdle, y)
  end.

Inductive rt_step : System → System → Prop :=
| rt_control y now pc s :
    control_step now (control y) (shared y) = Some (pc, s) →
    rt_step y (MkSystem s pc (sensor y) (monitor y) (clients y))
| rt_sensor y now expired sample pc s :
    sensor_step now expired sample (sensor y) (shared y) = Some (pc, s) →
    rt_step y (MkSystem s (control y) pc (monitor y) (clients y))
| rt_monitor y pc s :
    monitor_step (monitor y) (shared y) = Some (pc, s) →
    rt_step y (MkSystem s (control y) (sensor y) pc (clients y))
| rt_client y now expired call i c c' y' :
    clients y !! i = Some c →
    client_step now expired call c y = Some (c', y') →
    rt_step y (MkSystem (shared y') (control y') (sensor y') (monitor y') (<[i := c']> (clients y'))).

Definition rt_reachable (n : nat) (y : System) : Prop := rtc rt_step (runtime_init n) y.

(** ** Who holds which event

    A handle is held by the queue, by the control thread or by a publication; the
    event a holder knows to be behind its handle is recorded with it. *)

Definition Held : Type := Handle * option Event.

Definition pub_held (p : Publish) : list Held :=
  match p with
  | PubPush e h => [(h, Some e)]
  | PubDrop h _ => [(h, None)]
  | _ => []
  end.

(** The handles whose event is still to be handled, and the one already handled. *)
Definition ctl_pending (c : Control) : list Handle :=
  match c with CtlLatency h | CtlHandle h _ => [h] | _ => [] end.
Definition ctl_held (c : Control) : list Held :=
  match c with
  | CtlProcessed h _ _ | CtlTransition h | CtlRelease h => [(h, None)]
  | _ => []
  end.

Definition sns_held (c : Sensor) : list Held :=
  match c with SnsPublish p => pub_held p | _ => [] end.

Definition cl_held (c : Client) : list Held :=
  match c with
  | ClPublish p | StartPublish p | StartSelfTest p | StopPublish p => pub_held p
  | _ => []
  end.

Definition clients_held (cs : list Client) : list Held := cs ≫= cl_held.

Definition with_event (h : Handle) (e : Event) : Held := (h, Some e).

(** All handles in the system; [l] is the content of the queue and [evs] the
    pending events. *)
Definition all_held (y : System) (l : list Handle) (evs : list Event) : list Held :=
  zip_with with_event (ctl_pending (control y) ++ l) evs ++
  ctl_held (control y) ++ sns_held (sensor y) ++ clients_held (clients y).

(** A holder's handle is live and holds the event it knows. *)
Definition held_ok (m : gmap Z PooledEvent) (x : Held) : Prop :=
  pool_ x.1 = true ∧ object_ x.1 ≠ 0 ∧
  ∃ pe, m !! object_ x.1 = Some pe ∧ ∀ e, x.2 = Some e → event pe = e.

Definition addresses (held : list Held) : list Z := (λ x, object_ x.1) <$> held.

(** Every live object has exactly one holder. *)
Record owns (m : gmap Z PooledEvent) (held : list Held) : Prop := {
  owns_ok : Forall (held_ok m) held;
  owns_addresses : addresses held ≡ₚ (map_to_list m).*1
}.

#[global] Instance owns_proper (m : gmap Z PooledEvent) : Proper ((≡ₚ) ==> iff) (owns m).
Proof.
  intros held held' Hp. split; intros [Hok Ha]; (split; [by rewrite <- Hp || rewrite Hp|]);
    unfold addresses in *; [by rewrite <- Hp|by rewrite Hp].
Qed.

Lemma held_ok_insert (m : gmap Z PooledEvent) (q : Z) (pe : PooledEvent) (x : Held) :
  m !! q = None → held_ok m x → held_ok (<[q := pe]> m) x.
Proof.
  intros Hq (Hp & Ho & pe' & Hm & He). split_and!; [done..|]. exists pe'. split; [|done].
  rewrite lookup_insert_ne; [done|]. intros ->. congruence.
Qed.

Lemma owns_create (m : gmap Z PooledEvent) (held : list Held) (q : Z) (e : Event) (t : Z) :
  owns m held → q ≠ 0 → m !! q = None →
  owns (<[q := MkPooled e t]> m) ((MkHandle true q, Some e) :: held).
Proof.
  intros [Hok Ha] Hq Hm. split.
  - constructor.
    + split_and!; [done..|]. exists (MkPooled e t). simpl. rewrite lookup_insert_eq.
      split; [done|]. by intros ? [= ->].
    + eapply Forall_impl; [exact Hok|]. intros x. by apply held_ok_insert.
  - simpl. rewrite map_to_list_insert by done. simpl. unfold addresses in Ha. by rewrite Ha.
Qed.

Lemma owns_nodup (m : gmap Z PooledEvent) (held : list Held) : owns m held → NoDup (addresses held).
Proof. intros [_ Ha]. rewrite Ha. apply NoDup_fst_map_to_list. Qed.

Lemma owns_drop (m : gmap Z PooledEvent) (held : list Held) (h : Handle) (x : option Event) :
  owns m ((h, x) :: held) → owns (delete (object_ h) m) held.
Proof.
  intros Ho. pose proof (owns_nodup _ _ Ho) as Hnd. destruct Ho as [Hok Ha].
  apply Forall_cons in Hok as [(_ & _ & pe & Hm & _) Hok]. simpl in *.
  apply NoDup_cons in Hnd as [Hni _]. split.
  - rewrite Forall_forall in *. intros y Hy. destruct (Hok y Hy) as (Hp & Ho & pe' & Hm' & He).
    split_and!; [done..|]. exists pe'. split; [|done]. rewrite lookup_delete_ne; [done|].
    intros Heq. apply Hni. rewrite Heq. apply list_elem_of_fmap. eauto.
  - apply (Permutation_cons_inv (a := object_ h)). rewrite Ha.
    by rewrite <- (map_to_list_delete _ _ _ Hm).
Qed.

Lemma owns_forget (m : gmap Z PooledEvent) (held : list Held) (h : Handle) (x : option Event) :
  owns m ((h, x) :: held) → owns m ((h, None) :: held).
Proof.
  intros [Hok Ha]. apply Forall_cons in Hok as [(Hp & Ho & pe & Hm & _) Hok].
  split; [|done]. constructor; [|done]. split_and!; [done..|]. exists pe. by split; [|intros].
Qed.

Lemma owns_head (m : gmap Z PooledEvent) (held : list Held) (h : Handle) (x : option Event) :
  owns m ((h, x) :: held) →
  pool_ h = true ∧ ∃ pe, m !! object_ h = Some pe ∧ ∀ e, x = Some e → event pe = e.
Proof. intros [Hok _]. apply Forall_cons in Hok as [(Hp & Ho & pe & Hm & He) _]. eauto. Qed.

Lemma owns_length (m : gmap Z PooledEvent) (held : list Held) : owns m held → length held = size m.
Proof.
  intros [_ Ha]. rewrite <- length_map_to_list, <- (length_fmap fst), <- Ha.
  unfold addresses. by rewrite length_fmap.
Qed.

(** ** The core invariant: pool, queue, machine and logs *)

Context {cp cq : nat} `{!ObjectPoolLaws P PooledEvent cp} `{!EventQueueLaws Q Handle cq}.

(** [l], [c]: the content of the queue and its closed flag; [pend]: the handle the
    control thread is about to handle; [rest]: the other holders. *)
Definition core (s : Shared) (pend : list Handle) (rest : list Held) (l : list Handle) (c : bool)
  : Prop :=
  ∃ m evs, op_holds (r_pool s) m ∧ eq_holds (r_queue s) l c ∧
    owns m (zip_with with_event (pend ++ l) evs ++ rest) ∧
    length evs = length (pend ++ l) ∧
    log_pushed s = log_handled s ++ evs ∧
    machine_ s = handle_all (log_handled s) (machine_init protection).

Lemma core_perm (s : Shared) (pend : list Handle) (rest rest' : list Held) (l : list Handle) (c : bool) :
  rest ≡ₚ rest' → core s pend rest l c → core s pend rest' l c.
Proof. intros Hp (m & evs & H1 & H2 & H3 & H4). exists m, evs. by rewrite <- Hp. Qed.

(** The members [core] speaks about. *)
Definition same_core (s s' : Shared) : Prop :=
  r_pool s' = r_pool s ∧ r_queue s' = r_queue s ∧ machine_ s' = machine_ s ∧
  log_pushed s' = log_pushed s ∧ log_handled s' = log_handled s.

Lemma core_same (s s' : Shared) (pend : list Handle) (rest : list Held) (l : list Handle) (c : bool) :
  same_core s s' → core s pend rest l c → core s' pend rest l c.
Proof.
  intros (H1 & H2 & H3 & H4 & H5) (m & evs & H). exists m, evs. by rewrite H1, H2, H3, H4, H5.
Qed.

Definition flags (s : Shared) : list bool :=
  [lifecycle_locked s; started_ s; stopped_ s; accepting_events_ s; running_ s;
   sensor_stop s; monitor_stop s].

(** ** A publication keeps the core *)

Lemma zip_snoc (hs : list Handle) (evs : list Event) (h : Handle) (e : Event) :
  length evs = length hs →
  zip_with with_event (hs ++ [h]) (evs ++ [e]) = zip_with with_event hs evs ++ [(h, Some e)].
Proof. intros Hl. by rewrite zip_with_app. Qed.

Lemma publish_core (now : Z) (expired : bool) (p p' : Publish) (s s' : Shared) (pend : list Handle)
    (rest : list Held) (l : list Handle) (c : bool) :
  core s pend (pub_held p ++ rest) l c → publish_step now expired p s = Some (p', s') →
  ∃ l', core s' pend (pub_held p' ++ rest) l' c ∧ (c = true → l' = l) ∧ flags s' = flags s ∧
    log_pushed s `prefix_of` log_pushed s'.
Proof.
  intros Hcore Hs. pose proof Hcore as (m & evs & Hp & Hq & Ho & Hl & Hlog & Hm).
  destruct p as [e|e|e h|h r|r|r]; simpl in Hs.
  - exists l. destruct (negb _); by simplify_eq.
  - exists l. pose proof (op_create_law (MkPooled e now) _ m Hp) as Hc.
    destruct (op_create _ _) as [pl h]. destruct (decide (size m = cp)).
    + destruct Hc as [-> Hc]. simpl in Hs. simplify_eq. split; [|done]. by exists m, evs.
    + destruct Hc as (q & -> & Hq0 & Hmq & Hc). unfold handle_valid in Hs. simpl in Hs.
      destruct (Z.eqb_spec q 0); [done|]. simpl in Hs. simplify_eq. split; [|done].
      eexists _, evs. split_and!; [exact Hc|done| |done..]. simpl.
      rewrite <- Permutation_middle. by apply owns_create.
  - pose proof (eq_push_law expired h _ l c Hq) as Hlaw.
    destruct (eq_push expired h (r_queue s)) as [[q r]|]; [|done].
    destruct r; [|done|..].
    + destruct Hlaw as (-> & Hlt & Hq'). simplify_eq. exists (l ++ [h]).
      split_and!; [|done|done|by eexists]. exists m, (evs ++ [e]). split_and!; [done|done|..]; simpl.
      * rewrite app_assoc, zip_snoc, <- app_assoc by done. done.
      * rewrite app_assoc, !length_app in *. simpl. lia.
      * by rewrite Hlog, app_assoc.
      * done.
    + destruct Hlaw as (-> & _ & _ & Hq'). simplify_eq. exists l. split; [|done]. exists m, evs.
      split_and!; [done|done| |done..]. simpl in *. rewrite <- Permutation_middle in *. by eapply owns_forget.
    + destruct Hlaw as (-> & Hq'). simplify_eq. exists l. split; [|done]. exists m, evs.
      split_and!; [done|done| |done..]. simpl in *. rewrite <- Permutation_middle in *. by eapply owns_forget.
  - simplify_eq. exists l. split; [|done]. simpl in *. rewrite <- Permutation_middle in Ho.
    destruct (owns_head _ _ _ _ Ho) as (Hpool & pe & Hpe & _).
    exists (delete (object_ h) m), evs. split_and!; [|done|by eapply owns_drop|done..].
    apply op_drop_law; eauto.
  - simplify_eq. exists l. split; [|done]. eapply core_same; [|exact Hcore]. done.
  - done.
Qed.

Lemma control_core (now : Z) (pc pc' : Control) (s s' : Shared) (rest : list Held)
    (l : list Handle) (c : bool) :
  core s (ctl_pending pc) (ctl_held pc ++ rest) l c → control_step now pc s = Some (pc', s') →
  ∃ l', core s' (ctl_pending pc') (ctl_held pc' ++ rest) l' c ∧ flags s' = flags s ∧
    log_pushed s' = log_pushed s ∧ (pc' = CtlDone → c = true ∧ l' = []).
Proof.
  intros Hcore Hs. pose proof Hcore as (m & evs & Hp & Hq & Ho & Hl & Hlog & Hm).
  destruct pc as [| |h|h lat|h lat ch|h|h|]; simpl in Hs; try done.
  - pose proof (eq_pop_law _ l c Hq) as Hlaw. destruct (eq_pop (r_queue s)) as [[q [h|]]|]; [..|done].
    + destruct Hlaw as (l' & -> & Hq'). simplify_eq. exists l'. split; [|done]. by exists m, evs.
    + destruct Hlaw as (-> & -> & Hq'). simplify_eq. exists []. split; [|done]. by exists m, evs.
  - destruct (op_deref h (r_pool s)) as [pe|]; [|done]. simplify_eq. by exists l.
  - rewrite (op_deref_law h _ m Hp) in Hs. destruct evs as [|e evs]; [done|]. simpl in *.
    destruct (owns_head _ _ _ _ Ho) as (Hpool & pe & Hpe & He). rewrite Hpe in Hs.
    rewrite (He e eq_refl) in Hs. destruct (handle e (machine_ s)) as [m' t] eqn:Hh. simplify_eq.
    exists l. split; [|done]. exists m, evs. split_and!; [done|done|..]; simpl.
    + rewrite <- Permutation_middle. by eapply owns_forget.
    + lia.
    + by rewrite Hlog, <- app_assoc.
    + unfold handle_all in *. rewrite foldl_app, <- Hm. simpl. by rewrite Hh.
  - simplify_eq. exists l. split; [|by destruct ch]. eapply core_same; [done|].
    destruct ch; exact Hcore.
  - simplify_eq. exists l. split; [|done]. eapply core_same; [|exact Hcore]. done.
  - simplify_eq. exists l. split; [|done]. simpl in *. rewrite <- Permutation_middle in Ho.
    destruct (owns_head _ _ _ _ Ho) as (Hpool & pe & Hpe & _).
    exists (delete (object_ h) m), evs. split_and!; [|done|by eapply owns_drop|done..].
    apply op_drop_law; eauto.
Qed.

(** ** The life cycle *)

(** A client inside [start], and how far a client is in [stop]. *)
Definition start_active (c : Client) : bool :=
  match c with
  | StartAccept | StartRun | StartControl | StartPublish _ | StartSelfTest _
  | StartSensor | StartMonitor => true
  | _ => false
  end.

Definition stop_rank (c : Client) : nat :=
  match c with
  | StopPublish _ => 1 | StopAccept _ => 2 | StopWait _ => 3 | StopSensor _ => 4
  | StopMonitor _ => 5 | StopJoinSensor _ => 6 | StopJoinMonitor _ => 7 | StopClose _ => 8
  | StopJoinControl _ => 9 | StopRunning _ => 10 | StopReturned _ => 11 | _ => 0
  end.

(** What the result of publishing the shutdown event tells. *)
Definition shutdown_logged (r : PublishResult) (log : list Event) : Prop :=
  r = Pub_published → Event_shutdown_requested ∈ log.

Definition shutdown_publish_ok (p : Publish) (log : list Event) : Prop :=
  match p with
  | PubLoad e | PubCreate e | PubPush e _ => e = Event_shutdown_requested
  | PubDrop _ r | PubCount r | PubReturn r => shutdown_logged r log
  end.

Definition stop_result_ok (c : Client) (log : list Event) : Prop :=
  match c with
  | StopPublish p => shutdown_publish_ok p log
  | StopAccept r | StopWait r | StopSensor r | StopMonitor r | StopJoinSensor r | StopJoinMonitor r
  | StopClose r | StopJoinControl r | StopRunning r | StopReturned r => shutdown_logged r log
  | _ => True
  end.

Record client_ok (s : Shared) (ctl : Control) (sns : Sensor) (mon : Monitor) (c : bool)
    (cl : Client) : Prop := {
  co_stopped : (1 ≤ stop_rank cl)%nat → stopped_ s = true;
  co_accepting : (3 ≤ stop_rank cl)%nat → accepting_events_ s = false;
  co_tokens : (6 ≤ stop_rank cl)%nat → sensor_stop s = true ∧ monitor_stop s = true;
  co_sensor : (7 ≤ stop_rank cl)%nat → sns = SnsDone;
  co_monitor : (8 ≤ stop_rank cl)%nat → mon = MonDone;
  co_closed : (9 ≤ stop_rank cl)%nat → c = true;
  co_control : (10 ≤ stop_rank cl)%nat → ctl = CtlDone;
  co_running : (11 ≤ stop_rank cl)%nat → running_ s = false;
  co_result : stop_result_ok cl (log_pushed s);
  co_token1 : (5 ≤ stop_rank cl)%nat → sensor_stop s = true
}.

Definition start_rank (c : Client) : nat :=
  match c with
  | StartAccept => 1 | StartRun => 2 | StartControl => 3 | StartPublish _ => 4
  | StartSelfTest _ => 5 | StartSensor => 6 | StartMonitor => 7 | _ => 0
  end.

(** The threads that [start] has not created yet, and those it has. *)
Record start_ok (ctl : Control) (sns : Sensor) (mon : Monitor) (cl : Client) : Prop := {
  so_control : (1 ≤ start_rank cl ≤ 3)%nat → ctl = CtlNone;
  so_sensor : (1 ≤ start_rank cl ≤ 6)%nat → sns = SnsNone;
  so_monitor : (1 ≤ start_rank cl)%nat → mon = MonNone;
  so_control_up : (4 ≤ start_rank cl)%nat → ctl ≠ CtlNone;
  so_sensor_up : (7 ≤ start_rank cl)%nat → sns ≠ SnsNone
}.

Record life (y : System) (c : bool) : Prop := {
  lf_fresh : started_ (shared y) = false →
    control y = CtlNone ∧ sensor y = SnsNone ∧ monitor y = MonNone;
  lf_spawned : started_ (shared y) = true → lifecycle_locked (shared y) = false →
    control y ≠ CtlNone ∧ sensor y ≠ SnsNone ∧ monitor y ≠ MonNone;
  lf_start : Forall (start_ok (control y) (sensor y) (monitor y)) (clients y);
  lf_started : lifecycle_locked (shared y) = true → started_ (shared y) = true;
  lf_lock : count start_active (clients y) = Z.b2z (lifecycle_locked (shared y));
  lf_stopped : stopped_ (shared y) = true →
    started_ (shared y) = true ∧ lifecycle_locked (shared y) = false;
  lf_clients : Forall (client_ok (shared y) (control y) (sensor y) (monitor y) c) (clients y)
}.

Record sys_inv (y : System) (l : list Handle) (c : bool) : Prop := {
  si_core : core (shared y) (ctl_pending (control y))
              (ctl_held (control y) ++ sns_held (sensor y) ++ clients_held (clients y)) l c;
  si_done : control y = CtlDone → c = true ∧ l = [];
  si_life : life y c
}.

Lemma stop_result_mono (cl : Client) (log log' : list Event) :
  log `prefix_of` log' → stop_result_ok cl log → stop_result_ok cl log'.
Proof.
  intros [k ->]. assert (Hl : ∀ r, shutdown_logged r log → shutdown_logged r (log ++ k)).
  { intros r Hr Hp. apply elem_of_app. left. auto. }
  destruct cl as [|p| | | | |p|p| | | |p| | | | | | | | | |]; simpl; auto.
  destruct p; simpl; auto.
Qed.

(** What another thread's step may change without affecting a client. *)
Lemma client_ok_frame (s s' : Shared) (ctl ctl' : Control) (sns sns' : Sensor) (mon mon' : Monitor)
    (c c' : bool) (cl : Client) :
  client_ok s ctl sns mon c cl →
  (stopped_ s = true →
   stopped_ s' = true ∧ (accepting_events_ s = false → accepting_events_ s' = false) ∧
   (sensor_stop s = true → sensor_stop s' = true) ∧
   (monitor_stop s = true → monitor_stop s' = true) ∧
   (sns = SnsDone → sns' = SnsDone) ∧ (mon = MonDone → mon' = MonDone) ∧
   (c = true → c' = true) ∧ (ctl = CtlDone → ctl' = CtlDone) ∧
   (running_ s = false → running_ s' = false)) →
  log_pushed s `prefix_of` log_pushed s' →
  client_ok s' ctl' sns' mon' c' cl.
Proof.
  intros [H1 H2 H3 H4 H5 H6 H7 H8 H9 H10] Hf Hlog.
  assert (Hf' : (1 ≤ stop_rank cl)%nat → _) by (intros Hr; exact (Hf (H1 Hr))).
  split; try (intros Hr; destruct Hf' as (F1 & F2 & F3 & F4 & F5 & F6 & F7 & F8 & F9); [lia|];
    first [split|idtac]; auto; tauto).
  by eapply stop_result_mono.
Qed.

Lemma start_active_rank (cl : Client) : start_active cl = true ↔ (1 ≤ start_rank cl)%nat.
Proof. destruct cl; simpl; split; intros; (done || lia). Qed.

Lemma start_ok_frame (ctl ctl' : Control) (sns sns' : Sensor) (mon mon' : Monitor) (cl : Client) :
  (ctl = CtlNone ↔ ctl' = CtlNone) → (sns = SnsNone ↔ sns' = SnsNone) →
  (mon = MonNone ↔ mon' = MonNone) → start_ok ctl sns mon cl → start_ok ctl' sns' mon' cl.
Proof. intros H1 H2 H3 []. split; tauto. Qed.

Lemma start_ok_inactive (ctl : Control) (sns : Sensor) (mon : Monitor) (cl : Client) :
  start_active cl = false → start_ok ctl sns mon cl.
Proof. intros H. destruct cl; try done; split; simpl; intros; lia. Qed.

(** ** The steps of the owned threads *)

(** A step that keeps the flags and the clients. *)
Lemma life_threads (y : System) (c : bool) (s : Shared) (ctl : Control) (sns : Sensor) (mon : Monitor) :
  life y c → flags s = flags (shared y) → log_pushed (shared y) `prefix_of` log_pushed s →
  (control y = CtlNone ↔ ctl = CtlNone) → (sensor y = SnsNone ↔ sns = SnsNone) →
  (monitor y = MonNone ↔ mon = MonNone) → (control y = CtlDone → ctl = CtlDone) →
  (sensor y = SnsDone → sns = SnsDone) → (monitor y = MonDone → mon = MonDone) →
  life (MkSystem s ctl sns mon (clients y)) c.
Proof.
  intros [L1 L2 L3 L4 L5 L6 L7] Hfl Hlog Hc1 Hs1 Hm1 Hc2 Hs2 Hm2.
  injection Hfl as F1 F2 F3 F4 F5 F6 F7. split; simpl; rewrite ?F1, ?F2, ?F3; auto.
  - tauto.
  - intros H1 H2. specialize (L2 H1 H2). tauto.
  - eapply Forall_impl; [exact L3|]. intros cl. by apply start_ok_frame.
  - eapply Forall_impl; [exact L7|]. intros cl Hcl. eapply client_ok_frame; [exact Hcl| |done].
    rewrite F3, F4, F5, F6, F7. tauto.
Qed.

Lemma control_inv (y : System) (l : list Handle) (c : bool) (now : Z) (pc : Control) (s : Shared) :
  sys_inv y l c → control_step now (control y) (shared y) = Some (pc, s) →
  ∃ l', sys_inv (MkSystem s pc (sensor y) (monitor y) (clients y)) l' c.
Proof.
  intros [Hcore Hdone Hlife] Hs.
  destruct (control_core _ _ _ _ _ _ _ _ Hcore Hs) as (l' & Hcore' & Hfl & Hlog & Hd).
  exists l'. split; [done|done|]. apply life_threads; rewrite ?Hlog; auto; try done.
  - split; intros Heq; rewrite Heq in Hs; [done|]. simpl in Hs.
    destruct (control y); simpl in Hs; repeat case_match; simplify_eq.
  - intros Heq. by rewrite Heq in Hs.
Qed.

Lemma monitor_inv (y : System) (l : list Handle) (c : bool) (pc : Monitor) (s : Shared) :
  sys_inv y l c → monitor_step (monitor y) (shared y) = Some (pc, s) →
  sys_inv (MkSystem s (control y) (sensor y) pc (clients y)) l c.
Proof.
  intros [Hcore Hdone Hlife] Hs.
  assert (Hsame : same_core (shared y) s ∧ flags s = flags (shared y) ∧
                  (monitor y = MonNone ↔ pc = MonNone) ∧ (monitor y = MonDone → pc = MonDone))
    by (destruct (monitor y); simpl in Hs; repeat case_match; by simplify_eq).
  destruct Hsame as (Hc & Hf & Hn & Hd). pose proof Hc as (_ & _ & _ & Hlog & _).
  split; [by eapply core_same|done|]. apply life_threads; rewrite ?Hlog; auto; try done.
Qed.

Lemma sensor_inv (y : System) (l : list Handle) (c : bool) (now : Z) (expired : bool)
    (sample : option SensorSample) (pc : Sensor) (s : Shared) :
  sys_inv y l c → sensor_step now expired sample (sensor y) (shared y) = Some (pc, s) →
  ∃ l', sys_inv (MkSystem s (control y) pc (monitor y) (clients y)) l' c.
Proof.
  intros [Hcore Hdone Hlife] Hs.
  assert (Hfr : (sensor y = SnsNone ↔ pc = SnsNone) ∧ (sensor y = SnsDone → pc = SnsDone)).
  { destruct (sensor y) as [| |p| |]; simpl in Hs; try destruct p; repeat case_match; by simplify_eq. }
  assert (Hmove : (s = shared y ∧ sns_held pc = [] ∧ sns_held (sensor y) = []) ∨
            ∃ p p', sensor y = SnsPublish p ∧ pc = SnsPublish p' ∧
                    publish_step now expired p (shared y) = Some (p', s)).
  { destruct (sensor y) as [| |p| |] eqn:Hy; cbn [sensor_step] in Hs; try done.
    - left. repeat case_match; by simplify_eq.
    - destruct p; [..|left; by simplify_eq]; right;
        (destruct (publish_step _ _ _ _) as [[p' s']|] eqn:Hp; [|done]); simplify_eq; eauto 6.
    - left. repeat case_match; by simplify_eq. }
  destruct Hfr as [Hn Hd]. destruct Hmove as [(-> & Hh & Hh')|(p & p' & Hy & -> & Hp)].
  - exists l. split; [|done|by apply life_threads]. simpl. by rewrite Hh, Hh' in *.
  - rewrite Hy in Hcore. simpl in Hcore.
    apply (core_perm _ _ _ (pub_held p ++ ctl_held (control y) ++ clients_held (clients y))) in Hcore;
      [|solve_Permutation].
    destruct (publish_core _ _ _ _ _ _ _ _ _ _ Hcore Hp) as (l' & Hcore' & Hl & Hf & Hlog).
    exists l'. split; [..|by apply life_threads]; simpl.
    + eapply core_perm; [|exact Hcore']. solve_Permutation.
    + intros Hctl. destruct (Hdone Hctl) as [Hct Hl0]. split; [done|]. by rewrite Hl, Hl0.
Qed.

(** ** The steps of the clients *)

Lemma clients_held_split (cs : list Client) (i : nat) (c : Client) :
  cs !! i = Some c →
  ∃ rest, clients_held cs ≡ₚ cl_held c ++ rest ∧
    ∀ c', clients_held (<[i := c']> cs) ≡ₚ cl_held c' ++ rest.
Proof.
  intros Hi. exists (clients_held (take i cs) ++ clients_held (drop (S i) cs)).
  assert (Hlt : (i < length cs)%nat) by (by eapply lookup_lt_Some).
  assert (Hsplit : ∀ c', clients_held (<[i := c']> cs)
    = clients_held (take i cs) ++ cl_held c' ++ clients_held (drop (S i) cs)).
  { intros c'. rewrite insert_take_drop by done. unfold clients_held. by rewrite bind_app, bind_cons. }
  split; [|intros c'; rewrite Hsplit; solve_Permutation].
  rewrite <- (list_insert_id cs i c Hi) at 1. rewrite Hsplit. solve_Permutation.
Qed.

Lemma client_life (y : System) (c : bool) (i : nat) (cl cl' : Client) (s : Shared) (ctl : Control)
    (sns : Sensor) (mon : Monitor) (c' : bool) :
  life y c → clients y !! i = Some cl →
  (started_ s = false → ctl = CtlNone ∧ sns = SnsNone ∧ mon = MonNone) →
  (started_ s = true → lifecycle_locked s = false → ctl ≠ CtlNone ∧ sns ≠ SnsNone ∧ mon ≠ MonNone) →
  (lifecycle_locked s = true → started_ s = true) →
  (stopped_ s = true → started_ s = true ∧ lifecycle_locked s = false) →
  Z.b2z (lifecycle_locked s)
  = Z.b2z (lifecycle_locked (shared y)) - Z.b2z (start_active cl) + Z.b2z (start_active cl') →
  start_ok ctl sns mon cl' → client_ok s ctl sns mon c' cl' →
  (start_active cl = true ∨
   ((control y = CtlNone ↔ ctl = CtlNone) ∧ (sensor y = SnsNone ↔ sns = SnsNone) ∧
    (monitor y = MonNone ↔ mon = MonNone))) →
  (∀ cl0, client_ok (shared y) (control y) (sensor y) (monitor y) c cl0 →
          client_ok s ctl sns mon c' cl0) →
  life (MkSystem s ctl sns mon (<[i := cl']> (clients y))) c'.
Proof.
  intros [L1 L2 L3 L4 L5 L6 L7] Hi H1 H2 H3 H4 Hlock Hso Hco Hstart Hframe.
  assert (Hlt : (i < length (clients y))%nat) by (by eapply lookup_lt_Some).
  rewrite Forall_lookup in L3, L7.
  split; cbn [shared control sensor monitor clients]; auto.
  - apply Forall_lookup. intros j cl0 Hj. destruct (decide (i = j)) as [<-|Hne].
    + rewrite list_lookup_insert_eq in Hj by done. by simplify_eq.
    + rewrite list_lookup_insert_ne in Hj by done. destruct Hstart as [Ha|(? & ? & ?)].
      * apply start_ok_inactive. destruct (start_active cl0) eqn:H0; [|done]. exfalso.
        pose proof (count_insert start_active _ i cl ClIdle Hi) as Hc. rewrite Ha, L5 in Hc. simpl in Hc.
        assert (Hj' : <[i := ClIdle]> (clients y) !! j = Some cl0) by (by rewrite list_lookup_insert_ne).
        pose proof (count_pos start_active _ j cl0 Hj' H0). destruct (lifecycle_locked (shared y)); simpl in Hc; lia.
      * eapply start_ok_frame; [done..|]. by eapply L3.
  - rewrite (count_insert _ _ i cl cl' Hi). lia.
  - apply Forall_lookup. intros j cl0 Hj. destruct (decide (i = j)) as [<-|Hne].
    + rewrite list_lookup_insert_eq in Hj by done. by simplify_eq.
    + rewrite list_lookup_insert_ne in Hj by done. apply Hframe. by eapply L7.
Qed.

(** A publication inside a call. *)
Lemma client_publish_inv (y : System) (l : list Handle) (c : bool) (i : nat) (cl cl' : Client)
    (p p' : Publish) (now : Z) (expired : bool) (s : Shared) :
  sys_inv y l c → clients y !! i = Some cl → cl_held cl = pub_held p → cl_held cl' = pub_held p' →
  start_rank cl' = start_rank cl → stop_rank cl' = stop_rank cl →
  publish_step now expired p (shared y) = Some (p', s) →
  stop_result_ok cl' (log_pushed s) →
  ∃ l', sys_inv (MkSystem s (control y) (sensor y) (monitor y) (<[i := cl']> (clients y))) l' c.
Proof.
  intros [Hcore Hdone Hlife] Hi Hh Hh' Hsr Hst Hp Hres.
  destruct (clients_held_split _ _ _ Hi) as (rest & Hr & Hr').
  apply (core_perm _ _ _ (pub_held p ++ ctl_held (control y) ++ sns_held (sensor y) ++ rest)) in Hcore;
    [|rewrite Hr, Hh; solve_Permutation].
  destruct (publish_core _ _ _ _ _ _ _ _ _ _ Hcore Hp) as (l' & Hcore' & Hl & Hf & Hlog).
  exists l'. split; cbn [shared control sensor monitor clients].
  - eapply core_perm; [|exact Hcore']. rewrite Hr', Hh'. solve_Permutation.
  - intros Hctl. destruct (Hdone Hctl) as [Hct Hl0]. split; [done|]. by rewrite Hl, Hl0.
  - pose proof Hlife as [L1 L2 L3 L4 L5 L6 L7]. injection Hf as F1 F2 F3 F4 F5 F6 F7.
    assert (Hact : start_active cl' = start_active cl).
    { apply Bool.eq_iff_eq_true. by rewrite !start_active_rank, Hsr. }
    rewrite Forall_lookup in L3, L7.
    eapply client_life; rewrite ?F1, ?F2, ?F3; try done.
    + rewrite Hact. lia.
    + destruct (L3 i cl Hi). split; rewrite Hsr; done.
    + destruct (L7 i cl Hi). split; rewrite ?Hst, ?F3, ?F4, ?F5, ?F6, ?F7; done.
    + by right.
    + intros cl0 Hcl. eapply client_ok_frame; [exact Hcl| |done]. rewrite F3, F4, F5, F6, F7. tauto.
Qed.

(** A step of a call outside of a publication. *)
Lemma client_quiet_inv (y : System) (l : list Handle) (c c' : bool) (i : nat) (cl cl' : Client)
    (s : Shared) (ctl : Control) (sns : Sensor) (mon : Monitor) :
  sys_inv y l c → clients y !! i = Some cl → cl_held cl = [] → cl_held cl' = [] →
  (∀ rest, core (shared y) (ctl_pending (control y)) (ctl_held (control y) ++ sns_held (sensor y) ++ rest) l c →
           core s (ctl_pending ctl) (ctl_held ctl ++ sns_held sns ++ rest) l c') →
  (ctl = CtlDone → c' = true ∧ l = []) →
  life (MkSystem s ctl sns mon (<[i := cl']> (clients y))) c' →
  sys_inv (MkSystem s ctl sns mon (<[i := cl']> (clients y))) l c'.
Proof.
  intros [Hcore Hdone Hlife] Hi Hh Hh' Hc Hd Hl. split; [|done..]. simpl. apply Hc.
  destruct (clients_held_split _ _ _ Hi) as (rest & Hr & Hr').
  eapply core_perm; [|exact Hcore]. by rewrite Hr, Hr', Hh, Hh'.
Qed.

Lemma close_core (s : Shared) (pend : list Handle) (rest : list Held) (l : list Handle) (c : bool) :
  core s pend rest l c → core (set_queue (eq_close (r_queue s)) s) pend rest l true.
Proof.
  intros (m & evs & Hp & Hq & H). exists m, evs. split; [done|]. split; [|done].
  simpl. by eapply eq_close_law.
Qed.

Lemma start_active_facts (y : System) (c : bool) (i : nat) (cl : Client) :
  life y c → clients y !! i = Some cl → start_active cl = true →
  lifecycle_locked (shared y) = true ∧ started_ (shared y) = true ∧ stopped_ (shared y) = false.
Proof.
  intros [L1 L2 L3 L4 L5 L6 L7] Hi Ha. pose proof (count_pos _ _ _ _ Hi Ha) as Hc. rewrite L5 in Hc.
  assert (Hlk : lifecycle_locked (shared y) = true) by (destruct (lifecycle_locked _); simpl in *; [done|lia]).
  split_and!; [done|auto|]. destruct (stopped_ (shared y)); [|done]. destruct L6; congruence.
Qed.

(** The facts about the client that moves, and the obligations of its step. *)
Ltac use_ranks :=
  repeat match goal with
  | H : (_ ≤ _)%nat → _ |- _ => first [specialize (H ltac:(lia)) | clear H]
  | H : (_ ≤ _ ≤ _)%nat → _ |- _ => first [specialize (H ltac:(lia)) | clear H]
  end.

Ltac life_facts Hlife Hi :=
  let L3 := fresh "L3" in let L7 := fresh "L7" in
  pose proof Hlife as [L1 L2 L3 L4 L5 L6 L7];
  rewrite Forall_lookup in L3, L7;
  pose proof (L3 _ _ Hi) as [SO1 SO2 SO3 SO4 SO5];
  pose proof (L7 _ _ Hi) as [CO1 CO2 CO3 CO4 CO5 CO6 CO7 CO8 CO9 CO10];
  pose proof (start_active_facts _ _ _ _ Hlife Hi) as SA; clear L3 L5 L7.

Ltac quiet_goal := simpl in *; first [done | lia | tauto | congruence].

Ltac quiet_solve :=
  simpl in *;
  first [ quiet_goal | by right | by left
        | split; simpl; intros; quiet_goal
        | intros ? ?; eapply client_ok_frame; [eassumption| |by simpl]; simpl; intros;
          split_and!; intros; quiet_goal
        | intros; quiet_goal
        | intros; split_and!; quiet_goal
        | idtac ].

(** [c']: whether the queue is closed afterwards. *)
Ltac quiet_step Hinv Hi c' :=
  eexists _, c'; unfold set_shared; cbn [shared control sensor monitor clients];
  eapply client_quiet_inv; [exact Hinv|exact Hi|reflexivity|reflexivity| | |];
  [ first [ intros rest Hrest; eapply core_same; [done|exact Hrest]
          | intros rest Hrest; exact (close_core _ _ _ _ _ Hrest) | idtac ]
  | first [ exact (si_done _ _ _ Hinv) | done | idtac ]
  | eapply client_life; [exact (si_life _ _ _ Hinv)|exact Hi|..]; quiet_solve ].

(** The publication of a call, and what the call does when it returns. *)
Lemma publish_result_ok (now : Z) (expired : bool) (p p' : Publish) (s s' : Shared) :
  publish_step now expired p s = Some (p', s') →
  shutdown_publish_ok p (log_pushed s) → shutdown_publish_ok p' (log_pushed s').
Proof.
  unfold shutdown_logged. destruct p as [e|e|e h|h r|r|r]; simpl; intros Hs Hok.
  - destruct (negb _); by simplify_eq.
  - destruct (op_create _ _) as [pl h]. destruct (negb _); by simplify_eq.
  - destruct (eq_push _ _ _) as [[q []]|]; simplify_eq; simpl; try done. intros _.
    apply elem_of_app. right. apply list_elem_of_singleton. reflexivity.
  - by simplify_eq.
  - by simplify_eq.
  - done.
Qed.

Lemma publishing_inv (y : System) (l : list Handle) (c : bool) (i : nat) (cl' : Client) (y' : System)
    (now : Z) (expired : bool) (p : Publish) (wrap : Publish → Client) (next : PublishResult → Client) :
  sys_inv y l c → clients y !! i = Some (wrap p) →
  publishing now expired p y wrap next = Some (cl', y') →
  (∀ p, cl_held (wrap p) = pub_held p) → (∀ p, stop_rank (wrap p) = stop_rank (wrap (PubReturn Pub_published))) →
  (∀ p, start_rank (wrap p) = start_rank (wrap (PubReturn Pub_published))) →
  (∀ p p' s s', publish_step now expired p s = Some (p', s') →
     stop_result_ok (wrap p) (log_pushed s) → stop_result_ok (wrap p') (log_pushed s')) →
  (∀ r, p = PubReturn r →
     ∃ l' c', sys_inv (MkSystem (shared y) (control y) (sensor y) (monitor y)
                         (<[i := next r]> (clients y))) l' c') →
  ∃ l' c', sys_inv (MkSystem (shared y') (control y') (sensor y') (monitor y')
                      (<[i := cl']> (clients y'))) l' c'.
Proof.
  intros Hinv Hi Hs Hheld Hstop Hstart Hres Hnext.
  assert (Hcase : (∃ r, p = PubReturn r ∧ cl' = next r ∧ y' = y) ∨
                  ∃ p' s, publish_step now expired p (shared y) = Some (p', s) ∧
                          cl' = wrap p' ∧ y' = set_shared s y).
  { unfold publishing in Hs. destruct p; [..|left; simplify_eq; eauto]; right;
      (destruct (publish_step _ _ _ _) as [[p' s]|]; [|done]); simplify_eq; eauto. }
  destruct Hcase as [(r & Hp & -> & ->)|(p' & s & Hp & -> & ->)]; [by apply Hnext|].
  unfold set_shared. cbn [shared control sensor monitor clients].
  destruct (client_publish_inv y l c i (wrap p) (wrap p') p p' now expired s) as [l' Hl']; eauto.
  - by rewrite Hstart, (Hstart p).
  - by rewrite Hstop, (Hstop p).
  - eapply Hres; [exact Hp|]. pose proof (lf_clients _ _ (si_life _ _ _ Hinv)) as Hall.
    rewrite Forall_lookup in Hall. apply (Hall i _ Hi).
Qed.

Lemma client_inv (y : System) (l : list Handle) (c : bool) (i : nat) (cl cl' : Client) (y' : System)
    (now : Z) (expired : bool) (call : Call) :
  sys_inv y l c → clients y !! i = Some cl → client_step now expired call cl y = Some (cl', y') →
  ∃ l' c', sys_inv (MkSystem (shared y') (control y') (sensor y') (monitor y')
                      (<[i := cl']> (clients y'))) l' c'.
Proof.
  intros Hinv Hi Hs. pose proof (si_life _ _ _ Hinv) as Hlife. life_facts Hlife Hi.
  destruct cl; cbn [client_step start_rank stop_rank stop_result_ok start_active] in *; use_ranks;
    try (specialize (SA eq_refl) as (SA1 & SA2 & SA3)).
  - simplify_eq. destruct call; quiet_step Hinv Hi c.
  - eapply publishing_inv; [exact Hinv|exact Hi|exact Hs|done..|].
    intros r ->. quiet_step Hinv Hi c.
  - destruct (lifecycle_locked (shared y)) eqn:Hlk; [done|].
    destruct (started_ (shared y)) eqn:Hst; simplify_eq; quiet_step Hinv Hi c. by rewrite Hlk.
  - simplify_eq; quiet_step Hinv Hi c.
  - simplify_eq; quiet_step Hinv Hi c.
  - simplify_eq; quiet_step Hinv Hi c. by rewrite SO1.
  - eapply publishing_inv; [exact Hinv|exact Hi|exact Hs|done..|].
    intros r ->. quiet_step Hinv Hi c.
  - eapply publishing_inv; [exact Hinv|exact Hi|exact Hs|done..|].
    intros r ->. quiet_step Hinv Hi c.
  - simplify_eq; quiet_step Hinv Hi c. by rewrite SO2.
  - simplify_eq; quiet_step Hinv Hi c. by rewrite SA1.
  - destruct (lifecycle_locked (shared y)) eqn:Hlk; [done|].
    destruct (started_ (shared y)) eqn:Hst, (stopped_ (shared y)) eqn:Hsp; simpl in Hs; simplify_eq;
      quiet_step Hinv Hi c.
  - eapply publishing_inv; [exact Hinv|exact Hi|exact Hs|done..|apply publish_result_ok|].
    intros r ->. quiet_step Hinv Hi c.
  - simplify_eq; quiet_step Hinv Hi c.
  - destruct (_ || _); simplify_eq; quiet_step Hinv Hi c.
  - simplify_eq; quiet_step Hinv Hi c.
  - simplify_eq; quiet_step Hinv Hi c.
  - destruct (L6 CO1) as [Hst Hlk]. destruct (L2 Hst Hlk) as (Hn1 & Hn2 & Hn3).
    destruct (sensor y) eqn:Hsn; simplify_eq/=. quiet_step Hinv Hi c.
  - destruct (L6 CO1) as [Hst Hlk]. destruct (L2 Hst Hlk) as (Hn1 & Hn2 & Hn3).
    destruct (monitor y) eqn:Hsn; simplify_eq/=. quiet_step Hinv Hi c.
  - simplify_eq; quiet_step Hinv Hi true. intros Hd. by destruct (si_done _ _ _ Hinv Hd).
  - destruct (L6 CO1) as [Hst Hlk]. destruct (L2 Hst Hlk) as (Hn1 & Hn2 & Hn3).
    destruct (control y) eqn:Hsn; simplify_eq/=. quiet_step Hinv Hi true.
  - simplify_eq; quiet_step Hinv Hi true.
  - simplify_eq; quiet_step Hinv Hi true.
Qed.

(** ** Every reachable system *)

Lemma runtime_init_inv (n : nat) : sys_inv (runtime_init n) [] false.
Proof.
  assert (Hidle : ∀ (X : Client → Prop), X ClIdle → Forall X (replicate n ClIdle))
    by (intros X HX; by apply Forall_replicate).
  split; [|done|].
  - exists ∅, []. split_and!; [apply op_init_law|apply eq_init_law| |done..]. simpl.
    assert (Hh : clients_held (replicate n ClIdle) = []) by (clear; by induction n).
    rewrite Hh. split; [constructor|]. unfold addresses. simpl. by rewrite map_to_list_empty.
  - split; simpl; try done.
    + apply Hidle. by apply start_ok_inactive.
    + by apply count_zero, Hidle.
    + apply Hidle. split; simpl; intros; (done || lia).
Qed.

Lemma rt_step_inv (y y' : System) (l : list Handle) (c : bool) :
  sys_inv y l c → rt_step y y' → ∃ l' c', sys_inv y' l' c'.
Proof.
  intros Hinv Hstep. destruct Hstep.
  - destruct (control_inv y l c now pc s) as [l' Hl']; eauto.
  - destruct (sensor_inv y l c now expired sample pc s) as [l' Hl']; eauto.
  - eauto using monitor_inv.
  - by eapply client_inv.
Qed.

Lemma rt_reachable_inv (n : nat) (y : System) : rt_reachable n y → ∃ l c, sys_inv y l c.
Proof.
  unfold rt_reachable. intros H. remember (runtime_init n) as y0 eqn:Hy0.
  assert (Hinv : ∃ l c, sys_inv y0 l c) by (subst; eauto using runtime_init_inv). clear Hy0.
  induction H as [y|y y1 y2 Hstep _ IH]; [done|]. apply IH.
  destruct Hinv as (l & c & Hinv). by eapply rt_step_inv.
Qed.

Lemma clients_length (n : nat) (y : System) : rt_reachable n y → length (clients y) = n.
Proof.
  unfold rt_reachable. intros H. remember (runtime_init n) as y0 eqn:Hy0.
  assert (Hl : length (clients y0) = n) by (subst; by apply length_replicate). clear Hy0.
  induction H as [y|y y1 y2 Hstep _ IH]; [done|]. apply IH.
  destruct Hstep as [| | |y now expired call i cl cl' y' Hi Hs]; try done. simpl. rewrite length_insert.
  rewrite <- Hl. f_equal. unfold client_step, publishing, join_if_needed in Hs. destruct cl; repeat case_match; by simplify_eq.
Qed.

(** The handles in the system. *)
Definition handles_held (y : System) : list Handle :=
  ctl_pending (control y) ++ eq_contents (r_queue (shared y)) ++
  (ctl_held (control y) ++ sns_held (sensor y) ++ clients_held (clients y)).*1.

Lemma all_held_handles (pend l : list Handle) (evs : list Event) (rest : list Held) :
  length evs = length (pend ++ l) →
  (zip_with with_event (pend ++ l) evs ++ rest).*1 = pend ++ l ++ rest.*1.
Proof.
  intros Hl. rewrite fmap_app, app_assoc. f_equal. revert evs Hl. generalize (pend ++ l) as hs. clear.
  induction hs as [|h hs IH]; intros [|e evs] Hl; simplify_eq/=; [done|]. by rewrite IH.
Qed.

(** What the invariant says of the pool. *)
Lemma sys_inv_pool (y : System) (l : list Handle) (c : bool) :
  sys_inv y l c →
  op_invalid_releases (r_pool (shared y)) = 0 ∧
  op_in_use (r_pool (shared y)) = Z.of_nat (length (handles_held y)) ∧
  NoDup (object_ <$> handles_held y) ∧
  Forall (λ h, is_Some (op_deref h (r_pool (shared y)))) (handles_held y).
Proof.
  intros [(m & evs & Hp & Hq & Ho & Hl & _) _ _].
  destruct (eq_view_law _ _ _ Hq) as [Hc _].
  unfold handles_held. rewrite Hc, <- (all_held_handles _ l evs) by done.
  split_and!.
  - by eapply op_valid_law.
  - rewrite (op_in_use_law _ _ Hp), <- (owns_length _ _ Ho). by rewrite length_fmap.
  - rewrite <- list_fmap_compose. exact (owns_nodup _ _ Ho).
  - apply Forall_fmap. eapply Forall_impl; [exact (owns_ok _ _ Ho)|].
    intros x (_ & _ & pe & Hpe & _). simpl. rewrite (op_deref_law _ _ _ Hp). eauto.
Qed.

(** What it says of the events. *)
Lemma sys_inv_events (y : System) (l : list Handle) (c : bool) :
  sys_inv y l c →
  ∃ pending,
    log_pushed (shared y) = log_handled (shared y) ++ pending ∧
    machine_ (shared y) = handle_all (log_handled (shared y)) (machine_init protection) ∧
    (λ h, event <$> op_deref h (r_pool (shared y)))
      <$> ctl_pending (control y) ++ eq_contents (r_queue (shared y)) = Some <$> pending.
Proof.
  intros [(m & evs & Hp & Hq & Ho & Hl & Hlog & Hm) _ _].
  destruct (eq_view_law _ _ _ Hq) as [-> _]. exists evs. split_and!; [done..|].
  pose proof (owns_ok _ _ Ho) as Hok. apply Forall_app in Hok as [Hok _]. revert Hok Hl.
  generalize (ctl_pending (control y) ++ l) as hs. clear -Hp ObjectPoolLaws0. intros hs. revert evs.
  induction hs as [|h hs IH]; intros [|e evs] Hok Hl; simplify_eq/=; [done|].
  apply Forall_cons in Hok as [(_ & _ & pe & Hpe & He) Hok]. simpl in Hpe, He.
  rewrite (op_deref_law _ _ _ Hp), Hpe. simpl. rewrite (He e eq_refl). f_equal. by apply IH.
Qed.

(** ** [stop] *)

Lemma stop_returned_inv (y : System) (l : list Handle) (c : bool) (i : nat) (r : PublishResult) :
  sys_inv y l c → clients y !! i = Some (StopReturned r) →
  control y = CtlDone ∧ sensor y = SnsDone ∧ monitor y = MonDone ∧
  running_ (shared y) = false ∧ accepting_events_ (shared y) = false ∧
  eq_closed (r_queue (shared y)) = true ∧ eq_contents (r_queue (shared y)) = [] ∧
  log_handled (shared y) = log_pushed (shared y) ∧
  machine_ (shared y) = handle_all (log_pushed (shared y)) (machine_init protection) ∧
  (r = Pub_published → state_ (machine_ (shared y)) = safe_shutdown) ∧
  op_in_use (r_pool (shared y)) = Z.of_nat (length (clients_held (clients y))).
Proof.
  intros Hinv Hi. pose proof (sys_inv_pool _ _ _ Hinv) as (_ & Huse & _ & _).
  pose proof (sys_inv_events _ _ _ Hinv) as (pending & Hlog & Hm & Hp).
  destruct Hinv as [(m & evs & _ & Hq & _ & _) Hdone [_ _ _ _ _ _ L7]].
  rewrite Forall_lookup in L7. destruct (L7 i _ Hi). simpl in *.
  destruct (Hdone ltac:(apply co_control0; lia)) as [-> ->].
  destruct (eq_view_law _ _ _ Hq) as [Hc Hcl].
  unfold handles_held in Huse. rewrite Hc, co_control0, co_sensor0 in * by lia. simpl in *.
  rewrite length_fmap in Huse. destruct pending; [|done]. rewrite app_nil_r in Hlog.
  split_and!; auto; try (apply co_monitor0 || apply co_running0 || apply co_accepting0; lia).
  - by rewrite Hlog.
  - intros ->. rewrite Hm. apply shutdown_in_log. rewrite <- Hlog. by apply co_result0.
Qed.

(** A publication with an expired timeout always moves. *)
Lemma publish_moves (p : Publish) (s : Shared) (l : list Handle) (c : bool) :
  eq_holds (r_queue s) l c → (∀ r, p ≠ PubReturn r) → publish_step 0 true p s ≠ None.
Proof.
  intros Hq Hp. destruct p as [e|e|e h|h r|r|r]; simpl; try done.
  - by destruct (negb _).
  - destruct (op_create _ _) as [pl h]. by destruct (negb _).
  - pose proof (eq_push_law true h _ l c Hq) as H. destruct (eq_push true h (r_queue s)) as [[q []]|]; try done.
    by destruct H as (_ & _ & ?).
  - by destruct (Hp r).
Qed.

(** The control thread only ever waits for an event on an open, empty queue. *)
Lemma control_moves (y : System) (l : list Handle) (c : bool) :
  sys_inv y l c → control y ≠ CtlNone → control y ≠ CtlDone →
  control_step 0 (control y) (shared y) ≠ None ∨ control y = CtlPop ∧ l = [] ∧ c = false.
Proof.
  intros [(m & evs & Hp & Hq & Ho & Hl & _) _ _] H1 H2.
  assert (Hderef : ∀ h, h ∈ ctl_pending (control y) → is_Some (op_deref h (r_pool (shared y)))).
  { intros h Hh. rewrite (op_deref_law _ _ _ Hp). destruct (control y); simpl in *;
      try (by apply not_elem_of_nil in Hh); apply list_elem_of_singleton in Hh as ->;
      (destruct evs as [|e evs]; [done|]); destruct (owns_head _ _ _ _ Ho) as (_ & pe & -> & _); eauto. }
  destruct (control y) as [| |h|h lat|h lat ch|h|h|]; simpl in *; try (by left); try done.
  - pose proof (eq_pop_law _ l c Hq) as Hlaw. destruct (eq_pop _) as [[q [h|]]|]; [by left..|by right].
  - destruct (Hderef h) as [pe ->]; [by apply list_elem_of_singleton|]. by left.
  - destruct (Hderef h) as [pe ->]; [by apply list_elem_of_singleton|].
    left. by destruct (handle _ _).
Qed.

Definition stop_in_progress (cl : Client) : Prop := (1 ≤ stop_rank cl ≤ 10)%nat.

(** A step of the client [cl] or of one of the runtime's own threads. *)
Definition can_move (cl : Client) (y : System) : Prop :=
  (∃ now expired call, client_step now expired call cl y ≠ None) ∨
  (∃ now, control_step now (control y) (shared y) ≠ None) ∨
  (∃ now expired sample, sensor_step now expired sample (sensor y) (shared y) ≠ None) ∨
  monitor_step (monitor y) (shared y) ≠ None.

Lemma stop_moves (y : System) (l : list Handle) (c : bool) (i : nat) (cl : Client) :
  sys_inv y l c → clients y !! i = Some cl → stop_in_progress cl → can_move cl y.
Proof.
  intros Hinv Hi [Hlo Hhi]. pose proof (si_life _ _ _ Hinv) as Hlife.
  pose proof (si_core _ _ _ Hinv) as (m & evs & _ & Hq & _). life_facts Hlife Hi.
  destruct (L6 (CO1 Hlo)) as [Hst Hlk]. destruct (L2 Hst Hlk) as (Hctl & Hsns & Hmon).
  unfold can_move. destruct cl; cbn [stop_rank] in *; try lia; use_ranks;
    try (left; exists 0, true, CallStop; simpl; done).
  - left. exists 0, true, CallStop. cbn [client_step]. unfold publishing.
    pose proof (publish_moves p (shared y) l c Hq) as Hp.
    destruct p; try done; (destruct (publish_step _ _ _ _) as [[p' s]|]; [done|by destruct Hp]).
  - left. exists 0, true, CallStop. cbn [client_step]. by rewrite orb_true_r.
  - destruct (sensor y) as [| |p| |] eqn:Hy; [done|..].
    + right. right. left. exists 0, true, None. simpl. by destruct (sensor_stop _).
    + right. right. left. exists 0, true, None. cbn [sensor_step].
      pose proof (publish_moves p (shared y) l c Hq) as Hp.
      destruct p; try done; (destruct (publish_step _ _ _ _) as [[p' s]|]; [done|by destruct Hp]).
    + right. right. left. exists 0, true, None. simpl. by destruct (sensor_stop _).
    + left. exists 0, true, CallStop. cbn [client_step]. by rewrite Hy.
  - destruct (monitor y) eqn:Hy; [done|..].
    + right. right. right. simpl. by destruct (monitor_stop _).
    + by right; right; right.
    + left. exists 0, true, CallStop. cbn [client_step]. by rewrite Hy.
  - assert (Hcase : control y = CtlDone ∨ control y ≠ CtlDone) by (destruct (control y); auto).
    destruct Hcase as [Hy|Hy].
    + left. exists 0, true, CallStop. cbn [client_step]. by rewrite Hy.
    + destruct (control_moves y l c Hinv Hctl Hy) as [Hm|(_ & _ & Hc)]; [eauto|congruence].
Qed.

End Runtime.

(** ** Schedules

    A schedule names the thread that moves and the inputs of its step. *)
Inductive Move :=
| MvControl (now : Z)
| MvSensor (now : Z) (expired : bool) (sample : option SensorSample)
| MvMonitor
| MvClient (i : nat) (now : Z) (expired : bool) (call : Call).

Section Schedules.
Context {P Q : Type} `{!ObjectPool P PooledEvent} `{!EventQueue Q Handle}.

(** [EdgeRuntime{sensor, config}], with [n] threads that may call it. *)
Definition edge_runtime (config : RuntimeConfig) (n : nat) : System (P := P) (Q := Q) :=
  runtime_init (rc_protection config) n.

Definition running (s : Shared (P := P) (Q := Q)) : bool := running_ s.

Definition exec_move (mv : Move) (y : System (P := P) (Q := Q)) : option (System (P := P) (Q := Q)) :=
  match mv with
  | MvControl now =>
      '(pc, s) ← control_step now (control y) (shared y);
      Some (MkSystem s pc (sensor y) (monitor y) (clients y))
  | MvSensor now expired sample =>
      '(pc, s) ← sensor_step now expired sample (sensor y) (shared y);
      Some (MkSystem s (control y) pc (monitor y) (clients y))
  | MvMonitor =>
      '(pc, s) ← monitor_step (monitor y) (shared y);
      Some (MkSystem s (control y) (sensor y) pc (clients y))
  | MvClient i now expired call =>
      c ← clients y !! i;
      '(c, y) ← client_step now expired call c y;
      Some (MkSystem (shared y) (control y) (sensor y) (monitor y) (<[i := c]> (clients y)))
  end.

Fixpoint exec_all (mvs : list Move) (y : System (P := P) (Q := Q)) : option (System (P := P) (Q := Q)) :=
  match mvs with
  | [] => Some y
  | mv :: mvs => y ← exec_move mv y; exec_all mvs y
  end.

Lemma exec_move_step (mv : Move) (y y' : System (P := P) (Q := Q)) :
  exec_move mv y = Some y' → rt_step y y'.
Proof.
  destruct mv; simpl; intros H.
  - destruct (control_step _ _ _) as [[pc s]|] eqn:Hs; simplify_eq/=. by eapply rt_control.
  - destruct (sensor_step _ _ _ _ _) as [[pc s]|] eqn:Hs; simplify_eq/=. by eapply rt_sensor.
  - destruct (monitor_step _ _) as [[pc s]|] eqn:Hs; simplify_eq/=. by eapply rt_monitor.
  - destruct (clients y !! i) as [c|] eqn:Hi; simplify_eq/=.
    destruct (client_step _ _ _ _ _) as [[c' y'']|] eqn:Hs; simplify_eq/=. by eapply rt_client.
Qed.

Lemma exec_all_reachable (protection : ProtectionConfig) (n : nat) (mvs : list Move)
    (y y' : System (P := P) (Q := Q)) :
  rt_reachable protection n y → exec_all mvs y = Some y' → rt_reachable protection n y'.
Proof.
  revert y. induction mvs as [|mv mvs IH]; intros y Hr He; simpl in He; [by simplify_eq|].
  destruct (exec_move mv y) as [y1|] eqn:Hm; [|done]. apply (IH y1); [|done].
  eapply rtc_r; [exact Hr|]. by eapply exec_move_step.
Qed.

End Schedules.
