(* ===== verification/RuntimeStop.v ===== *)
(** * [stop] terminates ([EdgeRuntime::stop])

    The threads [stop] waits for are the control, the sensor and the monitor
    thread.  A measure bounds what they and the call itself have left to do; every
    step decreases it once the stop tokens are set. *)
From stdpp Require Import gmap.
From S2P Require Import Prelude Double Domain Fsm Metrics Pool Queue Interfaces Runtime.

Section Stop.
Context {P Q : Type} `{!ObjectPool P PooledEvent} `{!EventQueue Q Handle}.
Context (protection : ProtectionConfig).
Context {cp cq : nat} `{!ObjectPoolLaws P PooledEvent cp} `{!EventQueueLaws Q Handle cq}.

#[local] Abbreviation Shared := (Shared (P := P) (Q := Q)).
#[local] Abbreviation System := (System (P := P) (Q := Q)).

(** A step of the call of client [i] or of one of the runtime's own threads. *)
Inductive own_step (i : nat) : System → System → Prop :=
| own_control y now pc s :
    control_step now (control y) (shared y) = Some (pc, s) →
    own_step i y (MkSystem s pc (sensor y) (monitor y) (clients y))
| own_sensor y now expired sample pc s :
    sensor_step now expired sample (sensor y) (shared y) = Some (pc, s) →
    own_step i y (MkSystem s (control y) pc (monitor y) (clients y))
| own_monitor y pc s :
    monitor_step (monitor y) (shared y) = Some (pc, s) →
    own_step i y (MkSystem s (control y) (sensor y) pc (clients y))
| own_client y now expired call cl cl' y' :
    clients y !! i = Some cl → stop_in_progress cl →
    client_step now expired call cl y = Some (cl', y') →
    own_step i y (MkSystem (shared y') (control y') (sensor y') (monitor y') (<[i := cl']> (clients y'))).

Lemma own_step_rt (i : nat) (y y' : System) : own_step i y y' → rt_step y y'.
Proof. destruct 1; [by eapply rt_control|by eapply rt_sensor|by eapply rt_monitor|by eapply rt_client]. Qed.

(** ** What is left to do *)

(** Handling one event takes the control thread six steps; a publication that may
    still push one counts for it. *)
Definition publish_rank (p : Publish) : nat :=
  match p with
  | PubLoad _ => 11 | PubCreate _ => 10 | PubPush _ _ => 9 | PubDrop _ _ => 2 | PubCount _ => 1
  | PubReturn _ => 0
  end.

Definition control_rank (c : Control) : nat :=
  match c with
  | CtlNone | CtlDone => 0 | CtlPop => 1 | CtlRelease _ => 2 | CtlTransition _ => 3
  | CtlProcessed _ _ _ => 4 | CtlHandle _ _ => 5 | CtlLatency _ => 6
  end.

Definition sensor_rank (c : Sensor) : nat :=
  match c with
  | SnsNone | SnsDone => 0 | SnsCheck | SnsWait => 1 | SnsPublish p => 2 + publish_rank p
  end.

Definition monitor_rank (c : Monitor) : nat :=
  match c with MonNone | MonDone => 0 | MonWait => 1 | MonTick => 2 end.

Definition client_rank (c : Client) : nat :=
  match c with StopPublish p => publish_rank p | _ => 0 end + (11 - stop_rank c).

Definition queue_work (s : Shared) : nat := 6 * length (eq_contents (r_queue s)).

Definition stop_measure (cl : Client) (y : System) : nat :=
  client_rank cl + sensor_rank (sensor y) + monitor_rank (monitor y) + control_rank (control y)
  + queue_work (shared y).

(** ** Every step decreases it *)

Lemma contents_of (s : Shared) (l : list Handle) (c : bool) :
  eq_holds (r_queue s) l c → eq_contents (r_queue s) = l.
Proof. intros Hq. by destruct (eq_view_law _ _ _ Hq). Qed.

Lemma publish_decreases (now : Z) (expired : bool) (p p' : Publish) (s s' : Shared)
    (l : list Handle) (c : bool) :
  eq_holds (r_queue s) l c → publish_step now expired p s = Some (p', s') →
  publish_rank p' + queue_work s' < publish_rank p + queue_work s ∧
  sensor_stop s' = sensor_stop s ∧ monitor_stop s' = monitor_stop s.
Proof.
  intros Hq Hp. unfold queue_work. destruct p as [e|e|e h|h r|r|r]; simpl in Hp.
  - destruct (negb _); simplify_eq; simpl; split_and!; done || lia.
  - destruct (op_create _ _) as [pl h]. destruct (negb _); simplify_eq; simpl; split_and!; done || lia.
  - pose proof (eq_push_law expired h _ l c Hq) as Hlaw.
    rewrite (contents_of s l c Hq).
    destruct (eq_push expired h (r_queue s)) as [[q []]|]; simplify_eq; simpl; destruct_and?;
      (match goal with H : eq_holds q _ _ |- _ => rewrite (proj1 (eq_view_law _ _ _ H)) | _ => done end);
      rewrite ?length_app; simpl; split_and!; done || lia.
  - simplify_eq; simpl; split_and!; done || lia.
  - simplify_eq; simpl; split_and!; done || lia.
  - done.
Qed.

Lemma control_decreases (now : Z) (pc pc' : Control) (s s' : Shared) (l : list Handle) (c : bool) :
  eq_holds (r_queue s) l c → control_step now pc s = Some (pc', s') →
  control_rank pc' + queue_work s' < control_rank pc + queue_work s ∧
  sensor_stop s' = sensor_stop s ∧ monitor_stop s' = monitor_stop s.
Proof.
  intros Hq Hp. unfold queue_work. destruct pc as [| |h|h lat|h lat ch|h|h|]; simpl in Hp; try done.
  - pose proof (eq_pop_law _ l c Hq) as Hlaw. rewrite (contents_of s l c Hq).
    destruct (eq_pop (r_queue s)) as [[q [h|]]|]; [| |done]; simplify_eq; simpl.
    + destruct Hlaw as (l' & -> & Hq'). rewrite (proj1 (eq_view_law _ _ _ Hq')). simpl.
      split_and!; done || lia.
    + destruct Hlaw as (-> & _ & Hq'). rewrite (proj1 (eq_view_law _ _ _ Hq')). simpl.
      split_and!; done || lia.
  - destruct (op_deref _ _); [|done]. simplify_eq. simpl. split_and!; done || lia.
  - destruct (op_deref _ _); [|done]. destruct (handle _ _). simplify_eq. simpl. split_and!; done || lia.
  - destruct ch; simplify_eq; simpl; split_and!; done || lia.
  - simplify_eq. simpl. split_and!; done || lia.
  - simplify_eq. simpl. split_and!; done || lia.
Qed.

Lemma sensor_decreases (now : Z) (expired : bool) (sample : option SensorSample) (pc pc' : Sensor)
    (s s' : Shared) (l : list Handle) (c : bool) :
  eq_holds (r_queue s) l c → sensor_stop s = true →
  sensor_step now expired sample pc s = Some (pc', s') →
  sensor_rank pc' + queue_work s' < sensor_rank pc + queue_work s.
Proof.
  intros Hq Hstop Hp. destruct pc as [| |p| |]; try done.
  - simpl in Hp. rewrite Hstop in Hp. simplify_eq. simpl. lia.
  - assert (Hret : (∃ r, p = PubReturn r ∧ pc' = SnsWait ∧ s' = s) ∨
      ∃ p', publish_step now expired p s = Some (p', s') ∧ pc' = SnsPublish p').
    { destruct p; cbn [sensor_step] in Hp; simplify_eq; eauto;
        destruct (publish_step _ _ _ _) as [[p' s1]|]; simplify_eq; eauto. }
    destruct Hret as [(r & -> & -> & ->)|(p' & Hs & ->)]; [simpl; lia|].
    apply (publish_decreases _ _ _ _ _ _ l c Hq) in Hs as [Hs _]. simpl. lia.
  - simpl in Hp. rewrite Hstop in Hp. simpl in Hp. simplify_eq. simpl. lia.
Qed.

Lemma monitor_decreases (pc pc' : Monitor) (s s' : Shared) :
  monitor_stop s = true → monitor_step pc s = Some (pc', s') →
  monitor_rank pc' + queue_work s' < monitor_rank pc + queue_work s.
Proof. intros Hstop Hp. unfold queue_work. destruct pc; simpl in Hp; rewrite ?Hstop in Hp; simplify_eq/=; lia. Qed.

Lemma client_decreases (now : Z) (expired : bool) (call : Call) (cl cl' : Client) (y y' : System)
    (l : list Handle) (c : bool) :
  eq_holds (r_queue (shared y)) l c → stop_in_progress cl →
  client_step now expired call cl y = Some (cl', y') →
  stop_measure cl' y' < stop_measure cl y ∧ stop_rank cl ≤ stop_rank cl' ∧ 1 ≤ stop_rank cl' ∧
  clients y' = clients y.
Proof.
  intros Hq [Hlo Hhi] Hs. unfold stop_measure.
  assert (Hpub : ∀ p, cl = StopPublish p →
    (∃ r, p = PubReturn r ∧ cl' = StopAccept r ∧ y' = y) ∨
    ∃ p' s', publish_step now expired p (shared y) = Some (p', s') ∧
             cl' = StopPublish p' ∧ y' = set_shared s' y).
  { intros p ->. cbn [client_step] in Hs. unfold publishing in Hs. destruct p; simplify_eq; eauto;
      destruct (publish_step _ _ _ _) as [[p' s1]|]; simplify_eq; eauto 6. }
  destruct cl; cbn [stop_rank] in Hlo, Hhi; try lia;
    try (cbn [client_step] in Hs; unfold join_if_needed in Hs; repeat case_match; simplify_eq; unfold queue_work;
         simpl; split_and!; done || lia).
  - destruct (Hpub p eq_refl) as [(r & -> & -> & ->)|(p' & s' & Hp & -> & ->)]; [simpl; split_and!; done || lia|].
    apply (publish_decreases _ _ _ _ _ _ l c Hq) in Hp as [Hp _].
    unfold client_rank. cbn [stop_rank set_shared shared sensor monitor control clients].
    split_and!; done || lia.
  - cbn [client_step] in Hs. simplify_eq. pose proof (eq_close_law _ _ _ Hq) as Hc.
    assert (Hwork : queue_work (set_queue (eq_close (r_queue (shared y))) (shared y)) = queue_work (shared y)).
    { unfold queue_work. cbn [set_queue r_queue].
      by rewrite (contents_of _ _ _ Hq), (proj1 (eq_view_law _ _ _ Hc)). }
    cbn [set_shared shared sensor monitor control clients]. rewrite Hwork. unfold client_rank. simpl.
    split_and!; done || lia.
Qed.

(** From the joins on, the tokens are set and every step counts. *)
Lemma own_decreases (i : nat) (cl : Client) (y y' : System) (l : list Handle) (c : bool) :
  sys_inv protection y l c → clients y !! i = Some cl → 6 ≤ stop_rank cl ≤ 11 → own_step i y y' →
  ∃ cl', clients y' !! i = Some cl' ∧ 6 ≤ stop_rank cl' ∧ stop_measure cl' y' < stop_measure cl y.
Proof.
  intros Hinv Hi Hrank Hstep. pose proof (si_core _ _ _ _ Hinv) as (m & evs & _ & Hq & _).
  pose proof (lf_clients _ _ (si_life _ _ _ _ Hinv)) as Hcl. rewrite Forall_lookup in Hcl.
  destruct (co_tokens _ _ _ _ _ _ (Hcl i cl Hi)) as [Hsns Hmon]; [lia|]. unfold stop_measure.
  destruct Hstep as [y now pc s Hs|y now expired sample pc s Hs|y pc s Hs
                    |y now expired call cl0 cl' y' Hi' Hprog Hs]; cbn [clients shared sensor monitor control].
  - exists cl. apply (control_decreases _ _ _ _ _ l c Hq) in Hs as [Hs _]. split_and!; done || lia.
  - exists cl. apply (sensor_decreases _ _ _ _ _ _ _ l c Hq Hsns) in Hs. split_and!; done || lia.
  - exists cl. apply (monitor_decreases _ _ _ _ Hmon) in Hs. split_and!; done || lia.
  - assert (cl0 = cl) as -> by congruence.
    apply (client_decreases _ _ _ _ _ _ _ l c Hq Hprog) in Hs as (Hlt & Hle & _ & Hcs).
    exists cl'. rewrite Hcs. split_and!; [|lia|exact Hlt].
    apply list_lookup_insert_eq. by eapply lookup_lt_Some.
Qed.

Lemma stop_returned (cl : Client) : 11 ≤ stop_rank cl → ∃ r, cl = StopReturned r.
Proof. destruct cl; simpl; try lia. eauto. Qed.

Lemma stop_rank_max (cl : Client) : stop_rank cl ≤ 11.
Proof. destruct cl; simpl; lia. Qed.

(** The step does not read the sensor. *)
Definition no_sample (y y' : System) : Prop :=
  sensor y = SnsCheck → sensor_stop (shared y) = true ∨ sensor y' = SnsCheck.

(** A call in progress, or a thread it waits for, moves; the measure decreases. *)
Lemma stop_progress (i : nat) (cl : Client) (y : System) (l : list Handle) (c : bool) :
  sys_inv protection y l c → clients y !! i = Some cl → stop_in_progress cl →
  ∃ y' cl', own_step i y y' ∧ clients y' !! i = Some cl' ∧ 1 ≤ stop_rank cl' ∧
            stop_measure cl' y' < stop_measure cl y ∧ no_sample y y'.
Proof.
  intros Hinv Hi Hprog. pose proof (si_core _ _ _ _ Hinv) as (m & evs & _ & Hq & _).
  assert (Hclient : ∀ now expired call, client_step now expired call cl y ≠ None →
    ∃ y' cl', own_step i y y' ∧ clients y' !! i = Some cl' ∧ 1 ≤ stop_rank cl' ∧
              stop_measure cl' y' < stop_measure cl y ∧ no_sample y y').
  { intros now expired call Hc. destruct (client_step now expired call cl y) as [[cl' y']|] eqn:Hs; [|done].
    pose proof (client_decreases _ _ _ _ _ _ _ l c Hq Hprog Hs) as (Hlt & _ & H1 & Hcs).
    eexists _, cl'. split; [by eapply own_client|]. cbn [clients]. rewrite Hcs.
    split_and!; [apply list_lookup_insert_eq; by eapply lookup_lt_Some|done|exact Hlt|].
    intros Hy. right. by destruct cl; simpl in Hprog; try lia; cbn [client_step] in Hs; unfold publishing, join_if_needed in Hs;
      repeat case_match; simplify_eq/=. }
  destruct (decide (6 ≤ stop_rank cl)) as [H6|H6].
  - assert (Hown : ∃ y', own_step i y y').
    { destruct (stop_moves protection y l c i cl Hinv Hi Hprog) as [(now & e & call & H)|[(now & H)|[(now & e & smp & H)|H]]].
      - destruct (Hclient _ _ _ H) as (y' & _ & Hs & _). eauto.
      - destruct (control_step _ _ _) as [[pc s]|] eqn:Hs; [|done]. eexists. by eapply own_control.
      - destruct (sensor_step _ _ _ _ _) as [[pc s]|] eqn:Hs; [|done]. eexists. by eapply own_sensor.
      - destruct (monitor_step _ _) as [[pc s]|] eqn:Hs; [|done]. eexists. by eapply own_monitor. }
    destruct Hown as [y' Hs]. pose proof (stop_rank_max cl).
    destruct (own_decreases i cl y y' l c Hinv Hi ltac:(lia) Hs) as (cl' & Hi' & Hr & Hlt).
    exists y', cl'. split_and!; [done|done|lia|lia|]. intros _. left. pose proof (si_life _ _ _ _ Hinv) as Hlife.
    pose proof (lf_clients _ _ Hlife) as Hcl. rewrite Forall_lookup in Hcl. by apply (co_token1 _ _ _ _ _ _ (Hcl i cl Hi)); lia.
  - destruct Hprog as [Hlo Hhi]. destruct cl; cbn [stop_rank] in *; try lia;
      try (apply (Hclient 0%Z true CallStop); done).
    + apply (Hclient 0%Z true CallStop). cbn [client_step]. unfold publishing.
      pose proof (publish_moves p (shared y) l c Hq) as Hp.
      destruct p; try done; (destruct (publish_step _ _ _ _) as [[p' s]|]; [done|by destruct Hp]).
    + apply (Hclient 0%Z true CallStop). cbn [client_step]. by rewrite orb_true_r.
Qed.

Lemma own_steps_reachable (n i k : nat) (y y' : System) :
  rt_reachable protection n y → nsteps (own_step i) k y y' → rt_reachable protection n y'.
Proof.
  intros Hr Hk. unfold rt_reachable in *. transitivity y; [exact Hr|]. clear Hr.
  induction Hk as [y|k y y1 y2 Hs _ IH]; [done|]. eapply rtc_l; [by eapply own_step_rt|done].
Qed.

(** The call can be completed. *)
Lemma stop_completes (n i : nat) (cl : Client) (y : System) :
  rt_reachable protection n y → clients y !! i = Some cl → stop_in_progress cl →
  ∃ k y' r, k ≤ stop_measure cl y ∧ nsteps (own_step i) k y y' ∧ clients y' !! i = Some (StopReturned r).
Proof.
  remember (stop_measure cl y) as mu eqn:Hmu. revert cl y Hmu.
  induction (lt_wf mu) as [mu _ IH]. intros cl y -> Hr Hi Hprog.
  destruct (rt_reachable_inv protection n y Hr) as (l & c & Hinv).
  destruct (stop_progress i cl y l c Hinv Hi Hprog) as (y1 & cl1 & Hs & Hi1 & H1 & Hlt & _).
  destruct (decide (stop_rank cl1 = 11)) as [H11|H11].
  - destruct (stop_returned cl1) as [r ->]; [lia|]. exists 1, y1, r. split_and!; [lia| |done]. by apply nsteps_once.
  - pose proof (stop_rank_max cl1).
    destruct (IH _ Hlt cl1 y1 eq_refl) as (k & y2 & r & Hk & Hsteps & Hend).
    + eapply rtc_r; [exact Hr|by eapply own_step_rt].
    + done.
    + split; lia.
    + exists (S k), y2, r. split_and!; [lia|by eapply nsteps_l|done].
Qed.

(** From the joins on, no schedule takes more steps than the measure. *)
Lemma stop_bounded (n i k : nat) (cl : Client) (y y' : System) :
  rt_reachable protection n y → clients y !! i = Some cl → 6 ≤ stop_rank cl →
  nsteps (own_step i) k y y' →
  k ≤ stop_measure cl y ∧ ∃ cl', clients y' !! i = Some cl' ∧ 6 ≤ stop_rank cl'.
Proof.
  intros Hr Hi H6 Hk. revert cl Hi H6 Hr. induction Hk as [y|k y y1 y2 Hs _ IH]; intros cl Hi H6 Hr.
  { split; [lia|eauto]. }
  destruct (rt_reachable_inv protection n y Hr) as (l & c & Hinv). pose proof (stop_rank_max cl).
  destruct (own_decreases i cl y y1 l c Hinv Hi ltac:(lia) Hs) as (cl1 & Hi1 & H61 & Hlt).
  destruct (IH cl1 Hi1 H61) as [Hk2 Hcl]; [eapply rtc_r; [exact Hr|by eapply own_step_rt]|].
  split; [lia|done].
Qed.

(** The measure is bounded by the capacity of the queue. *)
Lemma stop_measure_bound (n : nat) (cl : Client) (y : System) :
  rt_reachable protection n y → stop_in_progress cl → stop_measure cl y ≤ 42 + 6 * cq.
Proof.
  intros Hr Hprog. destruct (rt_reachable_inv protection n y Hr) as (l & c & Hinv).
  pose proof (si_core _ _ _ _ Hinv) as (m & evs & _ & Hq & _). pose proof (eq_capacity_law _ _ _ Hq).
  unfold stop_measure, queue_work. rewrite (contents_of _ _ _ Hq).
  assert (Hpub : ∀ p, publish_rank p ≤ 11) by (intros []; simpl; lia).
  assert (client_rank cl ≤ 21).
  { destruct cl; unfold client_rank; simpl; try lia. specialize (Hpub p). lia. }
  assert (sensor_rank (sensor y) ≤ 13) by (destruct (sensor y) as [| |p| |]; simpl; try lia; specialize (Hpub p); lia).
  assert (monitor_rank (monitor y) ≤ 2) by (destruct (monitor y); simpl; lia).
  assert (control_rank (control y) ≤ 6) by (destruct (control y); simpl; lia). lia.
Qed.

(** ** The control thread catches up *)

Lemma publish_log (now : Z) (expired : bool) (p p' : Publish) (s s' : Shared) :
  publish_step now expired p s = Some (p', s') → log_pushed s `prefix_of` log_pushed s'.
Proof.
  intros H. destruct p as [e|e|e h|h r|r|r]; simpl in H; repeat case_match; simplify_eq/=;
    first [reflexivity|by exists [e]].
Qed.

Lemma publishing_log (now : Z) (expired : bool) (p : Publish) (y y' : System) wrap next (c : Client) :
  publishing now expired p y wrap next = Some (c, y') → log_pushed (shared y) `prefix_of` log_pushed (shared y').
Proof.
  unfold publishing. destruct p; try (destruct (publish_step _ _ _ _) as [[p1 s1]|] eqn:Hp; [|done]);
    intros H; simplify_eq; simpl; first [reflexivity|by eapply publish_log].
Qed.

(** Nothing is taken from the log of the pushed events. *)
Lemma rt_step_log (y y' : System) : rt_step y y' → log_pushed (shared y) `prefix_of` log_pushed (shared y').
Proof.
  destruct 1 as [y now pc s Hs|y now expired sample pc s Hs|y pc s Hs|y now expired call i c c' y' _ Hs]; simpl.
  - destruct (control y); simpl in Hs; repeat case_match; simplify_eq/=; reflexivity.
  - destruct (sensor y) as [| |p| |]; try (simpl in Hs; repeat case_match; simplify_eq/=; reflexivity).
    destruct p; cbn [sensor_step] in Hs;
      try (destruct (publish_step _ _ _ _) as [[p1 s1]|] eqn:Hp; [|done]);
      simplify_eq; first [reflexivity|by eapply publish_log].
  - destruct (monitor y); simpl in Hs; repeat case_match; simplify_eq/=; reflexivity.
  - destruct c; cbn [client_step] in Hs; try (by eapply publishing_log);
      unfold join_if_needed in *; repeat case_match; simplify_eq/=; reflexivity.
Qed.

(** Left alone, it handles everything that was pushed. *)
Lemma control_catches_up (n : nat) (y : System) :
  rt_reachable protection n y → control y ≠ CtlNone →
  ∃ k y', exec_all (replicate k (MvControl 0)) y = Some y' ∧
    log_handled (shared y') = log_pushed (shared y') ∧ log_pushed (shared y') = log_pushed (shared y).
Proof.
  remember (control_rank (control y) + queue_work (shared y)) as w eqn:Hw. revert y Hw.
  induction (lt_wf w) as [w _ IH]. intros y -> Hr Hn.
  destruct (rt_reachable_inv protection n y Hr) as (l & c & Hinv).
  assert (Hstop : ctl_pending (control y) ++ l = [] → ∃ k y', exec_all (replicate k (MvControl 0)) y = Some y' ∧
    log_handled (shared y') = log_pushed (shared y') ∧ log_pushed (shared y') = log_pushed (shared y)).
  { intros Hl. exists 0, y. destruct (si_core _ _ _ _ Hinv) as (m & evs & _ & _ & _ & Hlen & Hlog & _).
    rewrite Hl in Hlen. destruct evs; [|done]. rewrite app_nil_r in Hlog. done. }
  assert (Hd : control y = CtlDone ∨ control y ≠ CtlDone) by (destruct (control y); auto).
  destruct Hd as [Hd|Hd].
  { destruct (si_done _ _ _ _ Hinv Hd) as [_ ->]. apply Hstop. by rewrite Hd. }
  destruct (control_moves protection y l c Hinv Hn Hd) as [Hm|(Hp & -> & _)]; [|apply Hstop; by rewrite Hp].
  destruct (control_step 0 (control y) (shared y)) as [[pc s]|] eqn:Hs; [|done].
  destruct (si_core _ _ _ _ Hinv) as (m & evs & _ & Hq & _).
  destruct (control_decreases 0 _ _ _ _ l c Hq Hs) as [Hlt _].
  assert (Hone : log_pushed s = log_pushed (shared y) ∧ pc ≠ CtlNone)
    by (destruct (control y); simpl in Hs; repeat case_match; by simplify_eq/=).
  destruct (IH _ Hlt (MkSystem s pc (sensor y) (monitor y) (clients y)) eq_refl) as (k & y' & He & Hh & Hl).
  { eapply rtc_r; [exact Hr|by eapply rt_control]. }
  { apply Hone. }
  exists (S k), y'. simpl. rewrite Hs. simpl. split_and!; [exact He|exact Hh|]. rewrite Hl. apply Hone.
Qed.

End Stop.
