(* ===== verification/RuntimeCounts.v ===== *)
(** * The metrics of the runtime count what happened

    The counters are incremented after the fact, so a snapshot may lag behind by
    what the threads have in hand; this file states by how much. *)
From stdpp Require Import gmap.
From S2P Require Import Prelude Double Domain Fsm FsmProps Metrics Pool Queue Interfaces Runtime.

Local Open Scope Z_scope.

(** The transitions a sequence of events causes. *)
Fixpoint changes (es : list Event) (m : MotorStateMachine) : Z :=
  match es with
  | [] => 0
  | e :: es => Z.b2z (changed (snd (handle e m))) + changes es (fst (handle e m))
  end.

Lemma changes_snoc (es : list Event) (e : Event) (m : MotorStateMachine) :
  changes (es ++ [e]) m = changes es m + Z.b2z (changed (snd (handle e (handle_all es m)))).
Proof.
  revert m. induction es as [|e' es IH]; intros m; simpl; [lia|]. rewrite IH.
  unfold handle_all at 1. simpl. fold (handle_all es (fst (handle e' m))). lia.
Qed.

(** A publication that has pushed its event and not counted it yet.  ([PubDrop]
    never carries [Pub_published].) *)
Definition pub_uncounted (p : Publish) : bool :=
  match p with
  | PubDrop _ r | PubCount r => bool_decide (r = Pub_published)
  | _ => false
  end.

Definition sensor_uncounted (c : Sensor) : bool :=
  match c with SnsPublish p => pub_uncounted p | _ => false end.

Definition client_uncounted (c : Client) : bool :=
  match c with
  | ClPublish p | StartPublish p | StartSelfTest p | StopPublish p => pub_uncounted p
  | _ => false
  end.

(** An event that the machine has handled and the control thread not counted. *)
Definition handled_uncounted (c : Control) : bool :=
  match c with CtlProcessed _ _ _ => true | _ => false end.
Definition change_uncounted (c : Control) : bool :=
  match c with CtlProcessed _ _ changed => changed | CtlTransition _ => true | _ => false end.

Section Counts.
Context {P Q : Type} `{!ObjectPool P PooledEvent} `{!EventQueue Q Handle}.
Context (protection : ProtectionConfig).
Context {cp cq : nat} `{!ObjectPoolLaws P PooledEvent cp} `{!EventQueueLaws Q Handle cq}.

#[local] Abbreviation Shared := (Shared (P := P) (Q := Q)).
#[local] Abbreviation System := (System (P := P) (Q := Q)).

(** [events_published_] lags behind the log by [k]. *)
Definition published_lag (s : Shared) (k : Z) : Prop :=
  events_published_ (metrics_ s) = (Z.of_nat (length (log_pushed s)) - k) mod u64_modulus.

Definition handled_lag (s : Shared) (c : Control) : Prop :=
  events_processed_ (metrics_ s)
  = (Z.of_nat (length (log_handled s)) - Z.b2z (handled_uncounted c)) mod u64_modulus ∧
  transitions_ (metrics_ s)
  = (changes (log_handled s) (machine_init protection) - Z.b2z (change_uncounted c)) mod u64_modulus.

(** The members the control thread's counters depend on. *)
Definition same_handled (s s' : Shared) : Prop :=
  events_processed_ (metrics_ s') = events_processed_ (metrics_ s) ∧
  transitions_ (metrics_ s') = transitions_ (metrics_ s) ∧ log_handled s' = log_handled s.

Lemma handled_lag_same (s s' : Shared) (c : Control) :
  same_handled s s' → handled_lag s c → handled_lag s' c.
Proof. intros (H1 & H2 & H3) [H4 H5]. unfold handled_lag. by rewrite H1, H2, H3. Qed.

Lemma incr_lag (a : Z) : u64_incr (a mod u64_modulus) = (a + 1) mod u64_modulus.
Proof. unfold u64_incr. by rewrite Zplus_mod_idemp_l. Qed.

Lemma publish_lag (now : Z) (expired : bool) (p p' : Publish) (s s' : Shared) (k : Z) :
  publish_step now expired p s = Some (p', s') →
  published_lag s (k + Z.b2z (pub_uncounted p)) →
  published_lag s' (k + Z.b2z (pub_uncounted p')) ∧ same_handled s s'.
Proof.
  unfold published_lag. intros Hp Hl. destruct p as [e|e|e h|h r|r|r]; simpl in Hp.
  - destruct (negb _); by simplify_eq.
  - destruct (op_create _ _) as [pl h]. destruct (negb _); by simplify_eq.
  - destruct (eq_push expired h (r_queue s)) as [[q []]|]; simplify_eq; try done.
    simpl in *. rewrite Hl, length_app. simpl. split; [|done]. f_equal. lia.
  - by simplify_eq.
  - simplify_eq. unfold count_publish. simpl in *. case_decide as Hr.
    + subst r. rewrite bool_decide_eq_true_2 in Hl by done. simpl in *. rewrite Hl, incr_lag.
      split; [|done]. f_equal. lia.
    + rewrite bool_decide_eq_false_2 in Hl by done. done.
  - done.
Qed.

Lemma sensor_lag (now : Z) (expired : bool) (sample : option SensorSample) (c c' : Sensor)
    (s s' : Shared) (k : Z) :
  sensor_step now expired sample c s = Some (c', s') →
  published_lag s (k + Z.b2z (sensor_uncounted c)) →
  published_lag s' (k + Z.b2z (sensor_uncounted c')) ∧ same_handled s s'.
Proof.
  intros Hs Hl. destruct c as [| |p| |]; try done; simpl in Hs.
  - destruct (sensor_stop s); [by simplify_eq|]. destruct sample; by simplify_eq.
  - destruct p; try (by simplify_eq);
      (destruct (publish_step _ _ _ _) as [[p' s1]|] eqn:Hp; simplify_eq; by eapply publish_lag).
  - destruct (sensor_stop s); by simplify_eq/=.
Qed.

Lemma client_lag (now : Z) (expired : bool) (call : Call) (c c' : Client) (y y' : System) (k : Z) :
  client_step now expired call c y = Some (c', y') →
  published_lag (shared y) (k + Z.b2z (client_uncounted c)) →
  published_lag (shared y') (k + Z.b2z (client_uncounted c')) ∧ same_handled (shared y) (shared y').
Proof.
  intros Hs Hl.
  assert (Hpub : ∀ p wrap next, publishing now expired p y wrap next = Some (c', y') →
    (∀ q, client_uncounted (wrap q) = pub_uncounted q) → (∀ r, client_uncounted (next r) = false) →
    published_lag (shared y) (k + Z.b2z (pub_uncounted p)) →
    published_lag (shared y') (k + Z.b2z (client_uncounted c')) ∧ same_handled (shared y) (shared y')).
  { intros p wrap next Hp Hw Hn Hk. unfold publishing in Hp.
    destruct p; try (destruct (publish_step _ _ _ _) as [[p' s1]|] eqn:Hq; simplify_eq; rewrite Hw;
                     by eapply publish_lag).
    simplify_eq. by rewrite Hn. }
  destruct c; cbn [client_step client_uncounted] in *;
    try (eapply Hpub; [exact Hs|done|done|done]);
    try (unfold join_if_needed in *; repeat case_match; by simplify_eq).
  destruct call; by simplify_eq.
Qed.

Lemma control_lag (now : Z) (c c' : Control) (s s' : Shared) :
  control_step now c s = Some (c', s') →
  machine_ s = handle_all (log_handled s) (machine_init protection) →
  handled_lag s c → handled_lag s' c' ∧ ∀ k, published_lag s k → published_lag s' k.
Proof.
  unfold handled_lag, published_lag. intros Hs Hm [Hh Ht].
  destruct c as [| |h|h lat|h lat ch|h|h|]; cbn [control_step] in Hs; try done.
  - destruct (eq_pop (r_queue s)) as [[q [h|]]|]; by simplify_eq.
  - destruct (op_deref _ _); by simplify_eq.
  - destruct (op_deref _ _) as [pe|]; [|done]. destruct (handle (event pe) (machine_ s)) as [m t] eqn:He.
    simplify_eq. cbn [set_machine metrics_ log_handled log_pushed handled_uncounted change_uncounted] in *.
    rewrite length_app, changes_snoc, <- Hm, He, Hh, Ht. simpl. split; [|done].
    split; f_equal; lia.
  - simplify_eq. rewrite record_processed_eq. cbn [set_metrics metrics_ log_handled log_pushed] in *.
    split; [|done]. cbn [store_max store_last count_processed events_processed_ transitions_].
    rewrite Hh, Ht, incr_lag. destruct ch; simpl; split; f_equal; lia.
  - simplify_eq. cbn [set_metrics metrics_ record_transition log_handled log_pushed
                     events_processed_ transitions_ events_published_] in *.
    split; [|done]. rewrite Hh, Ht, incr_lag. simpl. split; f_equal; lia.
  - by simplify_eq.
Qed.

(** A client's step touches another thread only where [start] creates it. *)
Lemma client_threads (now : Z) (expired : bool) (call : Call) (c c' : Client) (y y' : System) :
  client_step now expired call c y = Some (c', y') →
  clients y' = clients y ∧
  (control y' = control y ∨ c = StartControl ∧ control y' = CtlPop) ∧
  (sensor y' = sensor y ∨ c = StartSensor ∧ sensor y' = SnsCheck).
Proof.
  intros Hs. destruct c; cbn [client_step] in Hs; unfold publishing, join_if_needed in Hs;
    repeat case_match; simplify_eq; simpl; auto.
Qed.

Definition counts_inv (y : System) : Prop :=
  published_lag (shared y) (Z.b2z (sensor_uncounted (sensor y)) + count client_uncounted (clients y)) ∧
  handled_lag (shared y) (control y).

Lemma counts_step (y y' : System) (l : list Handle) (c : bool) :
  sys_inv protection y l c → rt_step y y' → counts_inv y → counts_inv y'.
Proof.
  intros Hinv Hstep [Hp Hh].
  destruct Hstep as [y now pc s Hs|y now expired sample pc s Hs|y pc s Hs
                    |y now expired call i cl cl' y' Hi Hs];
    unfold counts_inv; cbn [shared control sensor monitor clients].
  - destruct (si_core _ _ _ _ Hinv) as (m & evs & _ & _ & _ & _ & _ & Hm).
    destruct (control_lag _ _ _ _ _ Hs Hm Hh) as [Hh' Hp']. split; [by apply Hp'|done].
  - rewrite Z.add_comm in Hp. destruct (sensor_lag _ _ _ _ _ _ _ _ Hs Hp) as [Hp' Hsame].
    rewrite Z.add_comm. split; [done|]. by eapply handled_lag_same.
  - destruct (monitor y); simpl in Hs; try done; [destruct (monitor_stop _)|]; by simplify_eq/=.
  - pose proof (client_threads _ _ _ _ _ _ _ Hs) as (Hcl & Hctl & Hsns).
    pose proof (lf_start _ _ (si_life _ _ _ _ Hinv)) as Hst. rewrite Forall_lookup in Hst.
    destruct (Hst i cl Hi) as [SO1 SO2 _ _ _].
    assert (Hc : handled_uncounted (control y') = handled_uncounted (control y) ∧
                 change_uncounted (control y') = change_uncounted (control y)).
    { destruct Hctl as [->|[-> ->]]; [done|]. rewrite SO1 by (simpl; lia). done. }
    assert (Hq : sensor_uncounted (sensor y') = sensor_uncounted (sensor y)).
    { destruct Hsns as [->|[-> ->]]; [done|]. rewrite SO2 by (simpl; lia). done. }
    rewrite Hcl, (count_insert _ _ _ _ cl' Hi), Hq.
    set (rest := Z.b2z (sensor_uncounted (sensor y)) + count client_uncounted (clients y)
                 - Z.b2z (client_uncounted cl)).
    replace (Z.b2z (sensor_uncounted (sensor y)) + count client_uncounted (clients y))
      with (rest + Z.b2z (client_uncounted cl)) in Hp by (subst rest; lia).
    destruct (client_lag _ _ _ _ _ _ _ _ Hs Hp) as [Hp' Hsame]. split.
    + replace (Z.b2z (sensor_uncounted (sensor y)) + (count client_uncounted (clients y)
        - Z.b2z (client_uncounted cl) + Z.b2z (client_uncounted cl')))
        with (rest + Z.b2z (client_uncounted cl')) by (subst rest; lia). done.
    + eapply handled_lag_same; [exact Hsame|]. destruct Hc as [Hc1 Hc2].
      unfold handled_lag. rewrite Hc1, Hc2. exact Hh.
Qed.

Lemma reachable_counts (n : nat) (y : System) : rt_reachable protection n y → counts_inv y.
Proof.
  unfold rt_reachable. intros Hr. remember (runtime_init protection n) as y0 eqn:Hy0.
  assert (H0 : (∃ l c, sys_inv protection y0 l c) ∧ counts_inv y0).
  { subst y0. split; [eauto using runtime_init_inv|]. split; [|done].
    unfold published_lag. simpl. rewrite count_zero; [done|]. by apply Forall_replicate. }
  clear Hy0. induction Hr as [y|y y1 y2 Hs _ IH]; [apply H0|]. apply IH.
  destruct H0 as [(l & c & Hinv) Hc]. split; [by eapply rt_step_inv|by eapply counts_step].
Qed.

(** At most one publication per thread is uncounted. *)
Lemma lag_bounds (n : nat) (y : System) : rt_reachable protection n y →
  0 ≤ Z.b2z (sensor_uncounted (sensor y)) + count client_uncounted (clients y) ≤ Z.of_nat n + 1.
Proof.
  intros Hr. pose proof (count_nonneg client_uncounted (clients y)).
  pose proof (count_length client_uncounted (clients y)) as Hc.
  rewrite (clients_length protection n y Hr) in Hc. destruct (sensor_uncounted (sensor y)); simpl; lia.
Qed.
End Counts.
