(* ===== verification/RuntimeProps.v ===== *)
(** * Properties of the runtime

    The runtime of the program: the fixed pool of 256 events and the bounded
    queue of 128 handles, with any number of client threads.  The address and the
    size of the pool's slots are the compiler's ([PoolLayout]). *)
From stdpp Require Import gmap.
From S2P Require Import Prelude Double Domain Fsm Metrics Pool Queue QueueProps Interfaces Runtime RuntimeStop RuntimeCounts.

Local Open Scope Z_scope.

Abbreviation EdgePool := (FixedObjectPool PooledEvent).
Abbreviation EdgeQueue := (BoundedQueue Handle).
Abbreviation EdgeSystem := (System (P := EdgePool) (Q := EdgeQueue)).

Section Edge.
Context (L : PoolLayout) (protection : ProtectionConfig).

#[local] Instance edge_pool : ObjectPool EdgePool PooledEvent := fixed_pool_ops L.
#[local] Instance edge_queue : EventQueue EdgeQueue Handle := bounded_queue_ops kEventQueueCapacity.

(** Reachable by [n] client threads. *)
Definition edge_reachable (n : nat) (y : EdgeSystem) : Prop := rt_reachable protection n y.

(** The handles in the queue and in the threads. *)
Definition edge_handles (y : EdgeSystem) : list Handle :=
  ctl_pending (control y) ++ queue_contents kEventQueueCapacity (r_queue (shared y)) ++
  (ctl_held (control y) ++ sns_held (sensor y) ++ clients_held (clients y)).*1.

(** The layout of the pool of the runtime. *)
Definition edge_layout_ok : Prop := layout_ok L ∧ Capacity L = kEventPoolCapacity.

Hypothesis HL : edge_layout_ok.

#[local] Instance edge_pool_laws : ObjectPoolLaws EdgePool PooledEvent kEventPoolCapacity.
Proof. destruct HL as [H <-]. exact (fixed_pool_laws L H). Qed.

#[local] Instance edge_queue_laws : EventQueueLaws EdgeQueue Handle kEventQueueCapacity.
Proof. apply bounded_queue_laws; [unfold kEventQueueCapacity; lia|reflexivity]. Qed.

(** C17: events are handled once, in the order they were published.  In every
    reachable configuration the events pushed so far are the events handled so
    far followed by the pending ones, which are those behind the handle the
    control thread has taken and behind the handles in the queue, in order; and
    the machine is the one that results from the handled events.  Once the control
    thread exists none of them is left behind: from any such configuration its own
    steps handle every event pushed so far. *)
Theorem events_handled_in_order (n : nat) (y : EdgeSystem) (Hr : edge_reachable n y) :
  ∃ pending,
    log_pushed (shared y) = log_handled (shared y) ++ pending ∧
    machine_ (shared y) = handle_all (log_handled (shared y)) (machine_init protection) ∧
    (λ h, event <$> deref L (object_ h) (r_pool (shared y)))
      <$> ctl_pending (control y) ++ queue_contents kEventQueueCapacity (r_queue (shared y))
    = Some <$> pending ∧
    (control y ≠ CtlNone →
     ∃ k y', exec_all (replicate k (MvControl 0)) y = Some y' ∧
       log_handled (shared y') = log_pushed (shared y) ∧
       machine_ (shared y') = handle_all (log_pushed (shared y)) (machine_init protection)).
Proof.
  destruct (rt_reachable_inv protection n y Hr) as (l & c & Hinv).
  destruct (sys_inv_events protection y l c Hinv) as (pending & H1 & H2 & H3). exists pending.
  split_and!; [exact H1|exact H2|exact H3|]. intros Hctl.
  destruct (control_catches_up protection n y Hr Hctl) as (k & y' & He & Hh & Hl). exists k, y'.
  assert (Hr' : edge_reachable n y') by (by eapply exec_all_reachable).
  destruct (rt_reachable_inv protection n y' Hr') as (l' & c' & Hinv').
  destruct (sys_inv_events protection y' l' c' Hinv') as (_ & _ & Hm & _). rewrite Hh, Hl in Hm.
  split_and!; [done|by rewrite Hh|done].
Qed.

(** C18: what [stop] guarantees when it returns.  The three threads have ended,
    the runtime neither runs nor accepts events, the queue is closed and drained,
    every event that was ever pushed has been handled, the only slots still in
    use are those of publications that other threads have in flight, and the
    machine is in [SafeShutdown] whenever the shutdown event could be published. *)
Theorem stop_drains (n : nat) (y : EdgeSystem) (i : nat) (r : PublishResult)
    (Hr : edge_reachable n y) (Hi : clients y !! i = Some (StopReturned r)) :
  control y = CtlDone ∧ sensor y = SnsDone ∧ monitor y = MonDone ∧
  running_ (shared y) = false ∧ accepting_events_ (shared y) = false ∧
  is_closed (r_queue (shared y)) = true ∧
  queue_contents kEventQueueCapacity (r_queue (shared y)) = [] ∧
  log_handled (shared y) = log_pushed (shared y) ∧
  machine_ (shared y) = handle_all (log_pushed (shared y)) (machine_init protection) ∧
  (r = Pub_published → state_ (machine_ (shared y)) = safe_shutdown) ∧
  outstanding L (r_pool (shared y)) = Z.of_nat (length (clients_held (clients y))).
Proof.
  destruct (rt_reachable_inv protection n y Hr) as (l & c & Hinv).
  exact (stop_returned_inv protection y l c i r Hinv Hi).
Qed.

(** C19: [stop] terminates.  From every reachable configuration in which a call of
    [stop] is in progress, at most 810 steps of the call and of the runtime's own
    threads lead to its return.  Once the call waits for the threads, this does not
    depend on the schedule: no sequence of such steps is longer than the measure
    of what is left to do, and where none is possible the call has returned.  No
    publication, wait or join blocks for ever. *)
Theorem stop_terminates (n : nat) (y : EdgeSystem) (i : nat) (cl : Client)
    (Hr : edge_reachable n y) (Hi : clients y !! i = Some cl) (Hcl : stop_in_progress cl) :
  (∃ k y' r, (k ≤ 810)%nat ∧ nsteps (own_step i) k y y' ∧ clients y' !! i = Some (StopReturned r)) ∧
  ((6 ≤ stop_rank cl)%nat → ∀ k y', nsteps (own_step i) k y y' →
     (k ≤ stop_measure cl y ≤ 810)%nat ∧
     ((∀ y'', ¬ own_step i y' y'') → ∃ r, clients y' !! i = Some (StopReturned r))).
Proof.
  pose proof (stop_measure_bound protection n cl y Hr Hcl) as Hb. unfold kEventQueueCapacity in Hb. split.
  - destruct (stop_completes protection n i cl y Hr Hi Hcl) as (k & y' & r & Hk & Hs & He).
    exists k, y', r. split_and!; [lia|done|done].
  - intros H6 k y' Hs. destruct (stop_bounded protection n i k cl y y' Hr Hi H6 Hs) as [Hk (cl' & Hi' & H6')].
    split; [lia|]. intros Hnone. destruct (decide (stop_rank cl' = 11)%nat) as [H11|H11].
    { destruct (stop_returned cl') as [r ->]; [lia|]. eauto. }
    pose proof (stop_rank_max cl'). pose proof (own_steps_reachable protection n i k y y' Hr Hs) as Hr'.
    destruct (rt_reachable_inv protection n y' Hr') as (l & c & Hinv).
    destruct (stop_progress protection i cl' y' l c Hinv Hi') as (y'' & _ & Hstep & _); [split; lia|].
    by destruct (Hnone y'').
Qed.

(** C20: the metrics count what happened.  In every reachable configuration, modulo
    [2^64]: [events_published] is the number of events pushed less the
    publications that have not counted theirs yet (at most one per thread),
    [events_processed] and [transitions] are the numbers of events the machine has
    handled and of transitions they caused, less the one the control thread has in
    hand.  When [stop] has returned and no publication is in flight, published,
    processed and pushed events agree. *)
Theorem metrics_account (n : nat) (y : EdgeSystem) (Hr : edge_reachable n y) :
  let m := metrics_ (shared y) in
  let lag := Z.b2z (sensor_uncounted (sensor y)) + count client_uncounted (clients y) in
  0 ≤ lag ≤ Z.of_nat n + 1 ∧
  events_published_ m = (Z.of_nat (length (log_pushed (shared y))) - lag) mod u64_modulus ∧
  events_processed_ m
  = (Z.of_nat (length (log_handled (shared y))) - Z.b2z (handled_uncounted (control y))) mod u64_modulus ∧
  transitions_ m
  = (changes (log_handled (shared y)) (machine_init protection)
     - Z.b2z (change_uncounted (control y))) mod u64_modulus ∧
  (∀ i r, clients y !! i = Some (StopReturned r) → count client_uncounted (clients y) = 0 →
     events_published_ m = events_processed_ m ∧
     events_processed_ m = Z.of_nat (length (log_pushed (shared y))) mod u64_modulus).
Proof.
  destruct (reachable_counts protection n y Hr) as [Hp [Hh Ht]]. intros m lag.
  pose proof (lag_bounds protection n y Hr : 0 ≤ lag ≤ Z.of_nat n + 1) as Hlag.
  split_and!; [apply Hlag..|exact Hp|exact Hh|exact Ht|].
  intros i r Hi Hz. destruct (rt_reachable_inv protection n y Hr) as (l & c & Hinv).
  destruct (stop_returned_inv protection y l c i r Hinv Hi)
    as (Hctl & Hsns & _ & _ & _ & _ & _ & Hlog & _).
  unfold published_lag in Hp. subst m. rewrite Hh, Hp, Hctl, Hsns, Hz, Hlog. simpl. by rewrite !Z.sub_0_r.
Qed.

Lemma held_by_clients (cs : list Client) : (length (clients_held cs) ≤ length cs)%nat.
Proof.
  induction cs as [|c cs IH]; [done|]. unfold clients_held in *. rewrite bind_cons, length_app.
  assert (length (cl_held c) ≤ 1)%nat by (destruct c as [|p| | | | |p|p| | | |p| | | | | | | | | |];
    simpl; try lia; destruct p; simpl; lia). simpl. lia.
Qed.

Lemma pool_has_room (n : nat) (y : EdgeSystem) (e : Event) (now : Z)
    (Hn : (n ≤ 125)%nat) (Hr : edge_reachable n y) :
  outstanding L (r_pool (shared y)) < Z.of_nat kEventPoolCapacity ∧
  ∃ h s, publish_step now false (PubCreate e) (shared y) = Some (PubPush e h, s).
Proof.
  destruct (rt_reachable_inv protection n y Hr) as (l & c & Hinv).
  destruct (sys_inv_pool protection y l c Hinv) as (_ & Huse & _ & _).
  pose proof (clients_length protection n y Hr) as Hlen.
  destruct (si_core _ _ _ _ Hinv) as (m & evs & Hp & Hq & _).
  pose proof (eq_capacity_law _ _ _ Hq) as Hcap. destruct (eq_view_law _ _ _ Hq) as [Hcont _].
  assert (Hlt : outstanding L (r_pool (shared y)) < Z.of_nat kEventPoolCapacity).
  { change (outstanding L (r_pool (shared y))) with (op_in_use (r_pool (shared y))). rewrite Huse.
    unfold handles_held. rewrite Hcont, !length_app, length_fmap, !length_app.
    pose proof (held_by_clients (clients y)) as Hcl.
    assert (length (ctl_pending (control y)) + length (ctl_held (control y)) ≤ 1)%nat
      by (destruct (control y); simpl; lia).
    assert (length (sns_held (sensor y)) ≤ 1)%nat
      by (destruct (sensor y) as [| |p| |]; simpl; try lia; destruct p; simpl; lia).
    unfold kEventPoolCapacity, kEventQueueCapacity in *. lia. }
  split; [done|]. pose proof (op_create_law (MkPooled e now) _ m Hp) as Hc. cbn [publish_step].
  rewrite (op_in_use_law _ _ Hp : outstanding L (r_pool (shared y)) = _) in Hlt.
  destruct (op_create _ _) as [p' h]. rewrite decide_False in Hc by lia.
  destruct Hc as (q & -> & Hq0 & _ & _). unfold handle_valid. simpl.
  destruct (Z.eqb_spec q 0); [done|]. simpl. eauto.
Qed.

(** C16: no event is leaked, shared or used after its release.  In every reachable
    configuration the slots in use are exactly the handles in the queue and in the
    threads, all distinct; every one of them designates a live event; no release
    was ever invalid; and a running control thread can always move unless it
    waits on an open, empty queue.  The pool is large enough for the queue: with at
    most 125 client threads fewer than 256 slots are ever in use, and no
    publication is refused for want of one. *)
Theorem runtime_owns_events (n : nat) (y : EdgeSystem) (Hr : edge_reachable n y) :
  invalid_releases (Pool.stats_ (r_pool (shared y))) = 0 ∧
  outstanding L (r_pool (shared y)) = Z.of_nat (length (edge_handles y)) ∧
  NoDup (object_ <$> edge_handles y) ∧
  Forall (λ h, is_Some (deref L (object_ h) (r_pool (shared y)))) (edge_handles y) ∧
  (control y = CtlNone ∨ control y = CtlDone ∨
   control_step 0 (control y) (shared y) ≠ None ∨
   control y = CtlPop ∧ queue_contents kEventQueueCapacity (r_queue (shared y)) = [] ∧
   is_closed (r_queue (shared y)) = false) ∧
  ((n ≤ 125)%nat →
   outstanding L (r_pool (shared y)) < Z.of_nat kEventPoolCapacity ∧
   ∀ e now, ∃ h s, publish_step now false (PubCreate e) (shared y) = Some (PubPush e h, s)).
Proof.
  destruct (rt_reachable_inv protection n y Hr) as (l & c & Hinv).
  destruct (sys_inv_pool protection y l c Hinv) as (H1 & H2 & H3 & H4). split_and!; [done..| |].
  2:{ intros Hn. split; [apply (pool_has_room n y Event_startup 0 Hn Hr)|]. intros e now. by apply (pool_has_room n). }
  destruct (control y) eqn:Hy; auto; right; right; rewrite <- Hy;
    (destruct (control_moves protection y l c Hinv) as [Hm|(Hp & -> & ->)]; [congruence..|by left|]);
    right; (split; [done|]);
    destruct (si_core _ _ _ _ Hinv) as (m & evs & _ & Hq & _); apply (eq_view_law _ _ _ Hq).
Qed.

End Edge.

(** ** A complete run

    One client starts the runtime, the sensor publishes a sample, the client
    stops the runtime while all four events are still queued. *)

Section Demo.

Definition demo_edge_layout : PoolLayout := MkLayout 256 4096 64.

#[local] Instance demo_pool : ObjectPool EdgePool PooledEvent := edge_pool demo_edge_layout.
#[local] Instance demo_queue : EventQueue EdgeQueue Handle := edge_queue.

Definition client_moves (k : nat) (call : Call) : list Move := replicate k (MvClient 0 0 true call).
Definition control_moves_n (k : nat) : list Move := replicate k (MvControl 7).

Definition start_schedule : list Move :=
  client_moves 17 CallStart ++ replicate 6 (MvSensor 3 false (Some default_sample)).
(** Up to the join with the control thread. *)
Definition stop_schedule : list Move :=
  client_moves 11 CallStop ++ [MvSensor 4 false None; MvMonitor] ++ client_moves 3 CallStop.
Definition finish_schedule : list Move := control_moves_n 24 ++ client_moves 2 CallStop.

(** The system after a schedule. *)
Definition demo_at (mvs : list Move) : EdgeSystem :=
  default (runtime_init default_config 1) (exec_all mvs (runtime_init default_config 1)).

Lemma demo_layout_edge_ok : edge_layout_ok demo_edge_layout.
Proof. split; [unfold layout_ok; simpl; split_and!; [lia|reflexivity|lia|lia]|reflexivity]. Qed.

Lemma demo_reachable (mvs : list Move) : edge_reachable demo_edge_layout default_config 1 (demo_at mvs).
Proof.
  unfold demo_at. destruct (exec_all mvs _) as [y|] eqn:Hy; simpl; [|apply rtc_refl].
  eapply exec_all_reachable; [apply rtc_refl|exact Hy].
Qed.

End Demo.

Definition queued_system : EdgeSystem := demo_at start_schedule.
Definition joining_system : EdgeSystem := demo_at (start_schedule ++ stop_schedule).
Definition stopped_system : EdgeSystem := demo_at (start_schedule ++ stop_schedule ++ finish_schedule).

Lemma runtime_owns_events_witness :
  outstanding demo_edge_layout (r_pool (shared queued_system)) = 3.
Proof.
  rewrite (proj1 (proj2 (runtime_owns_events demo_edge_layout default_config demo_layout_edge_ok
    1 queued_system (demo_reachable start_schedule)))).
  vm_compute. reflexivity.
Defined.

Lemma events_handled_in_order_witness :
  ∃ pending, log_pushed (shared queued_system) = log_handled (shared queued_system) ++ pending ∧
             length pending = 3%nat.
Proof.
  destruct (events_handled_in_order demo_edge_layout default_config demo_layout_edge_ok
    1 queued_system (demo_reachable start_schedule)) as (pending & Hlog & _ & _).
  exists pending. split; [exact Hlog|].
  assert (H3 : length (log_pushed (shared queued_system)) = 3%nat) by (vm_compute; reflexivity).
  assert (H0 : length (log_handled (shared queued_system)) = 0%nat) by (vm_compute; reflexivity).
  apply (f_equal length) in Hlog. rewrite length_app in Hlog. lia.
Defined.

Lemma stop_drains_witness :
  clients stopped_system !! 0%nat = Some (StopReturned Pub_published) ∧
  state_ (machine_ (shared stopped_system)) = safe_shutdown.
Proof.
  assert (Hi : clients stopped_system !! 0%nat = Some (StopReturned Pub_published))
    by (vm_compute; reflexivity).
  split; [exact Hi|].
  destruct (stop_drains demo_edge_layout default_config demo_layout_edge_ok 1 stopped_system 0
    Pub_published (demo_reachable _) Hi) as (_ & _ & _ & _ & _ & _ & _ & _ & _ & Hs & _).
  exact (Hs eq_refl).
Defined.

Lemma stop_terminates_witness :
  clients joining_system !! 0%nat = Some (StopJoinControl Pub_published) ∧
  ∃ k y' r, (k ≤ 810)%nat ∧
    nsteps (@own_step _ _ (edge_pool demo_edge_layout) edge_queue 0) k joining_system y' ∧
    clients y' !! 0%nat = Some (StopReturned r).
Proof.
  assert (Hi : clients joining_system !! 0%nat = Some (StopJoinControl Pub_published))
    by (vm_compute; reflexivity).
  split; [exact Hi|].
  apply (stop_terminates demo_edge_layout default_config demo_layout_edge_ok 1 joining_system 0
    (StopJoinControl Pub_published) (demo_reachable _) Hi).
  unfold stop_in_progress. simpl. lia.
Defined.

Lemma metrics_account_witness :
  events_processed_ (metrics_ (shared stopped_system)) = 4.
Proof.
  destruct (metrics_account demo_edge_layout default_config demo_layout_edge_ok 1 stopped_system
    (demo_reachable _)) as (_ & _ & _ & _ & Hstop).
  destruct (Hstop 0%nat Pub_published) as [_ ->]; vm_compute; reflexivity.
Defined.


