(* ===== verification/EventFlow.v ===== *)
(** * The events on their way to the machine

    An event is on its way from the thread that publishes it to the queue.  When
    every event a thread publishes has a property, so has every event pushed; the
    programs on top of the runtime use this for what their sensor and their main
    thread publish. *)
From stdpp Require Import gmap.
From S2P Require Import Prelude Double Domain Fsm Metrics Pool Queue Interfaces Runtime RuntimeStop RuntimeProps.

Local Open Scope Z_scope.

Section Events.
Context (L : PoolLayout).

#[local] Hint Extern 1 (ObjectPool EdgePool PooledEvent) => exact (edge_pool L) : typeclass_instances.
#[local] Existing Instance edge_queue.

Definition pub_ok (ok : Event → Prop) (q : Publish) : Prop :=
  match q with PubLoad e | PubCreate e | PubPush e _ => ok e | _ => True end.
Definition thread_ok (ok : Event → Prop) (c : Sensor) : Prop :=
  match c with SnsPublish q => pub_ok ok q | _ => True end.
Definition caller_ok (ok : Event → Prop) (c : Client) : Prop :=
  match c with
  | ClPublish q | StartPublish q | StartSelfTest q | StopPublish q => pub_ok ok q
  | _ => True
  end.

(** Every event pushed or about to be pushed is one of [ok]. *)
Record events_ok (ok : Event → Prop) (y : EdgeSystem) : Prop := {
  eo_log : Forall ok (log_pushed (shared y));
  eo_sensor : thread_ok ok (sensor y);
  eo_clients : Forall (caller_ok ok) (clients y)
}.

Lemma pub_ok_impl (ok ok' : Event → Prop) (q : Publish) : (∀ e, ok e → ok' e) → pub_ok ok q → pub_ok ok' q.
Proof. intros H. destruct q; simpl; auto. Qed.

Lemma events_ok_impl (ok ok' : Event → Prop) (y : EdgeSystem) :
  (∀ e, ok e → ok' e) → events_ok ok y → events_ok ok' y.
Proof.
  intros H [H1 H2 H3]. pose proof (λ q, pub_ok_impl ok ok' q H) as Hq. split.
  - by eapply Forall_impl.
  - destruct (sensor y); simpl in *; auto.
  - eapply Forall_impl; [exact H3|]. intros []; simpl; auto.
Qed.

Lemma publish_ok (ok : Event → Prop) (now : Z) (expired : bool) (q q' : Publish)
    (s s' : Shared (P := EdgePool) (Q := EdgeQueue)) :
  publish_step now expired q s = Some (q', s') → pub_ok ok q → Forall ok (log_pushed s) →
  pub_ok ok q' ∧ Forall ok (log_pushed s') ∧ log_handled s' = log_handled s.
Proof.
  intros H Hq Hl. destruct q; simpl in H; repeat case_match; simplify_eq; simpl in *; try done.
  split_and!; try done. apply Forall_app. split; [done|by apply Forall_singleton].
Qed.

Lemma control_ok (ok : Event → Prop) (now : Z) (y y' : EdgeSystem) :
  exec_move (MvControl now) y = Some y' → events_ok ok y →
  events_ok ok y' ∧ log_handled (shared y) `prefix_of` log_handled (shared y') ∧ clients y' = clients y.
Proof.
  simpl. intros H [Hl Hs Hc]. destruct (control_step _ _ _) as [[c s]|] eqn:Hstep; simplify_eq/=.
  assert (Hlog : log_pushed s = log_pushed (shared y) ∧ log_handled (shared y) `prefix_of` log_handled s).
  { destruct (control y); simpl in Hstep; repeat case_match; simplify_eq; simpl; split; try done.
    by eexists. }
  destruct Hlog as [He Hp]. split; [|done]. split; simpl; [by rewrite He|done|done].
Qed.

Lemma monitor_ok (ok : Event → Prop) (y y' : EdgeSystem) :
  exec_move MvMonitor y = Some y' → events_ok ok y →
  events_ok ok y' ∧ log_handled (shared y) `prefix_of` log_handled (shared y') ∧ clients y' = clients y.
Proof.
  simpl. intros H [Hl Hs Hc]. destruct (monitor_step _ _) as [[c s]|] eqn:Hstep; simplify_eq/=.
  destruct (monitor y); simpl in Hstep; repeat case_match; simplify_eq; done.
Qed.

Lemma sensor_moves_ok (ok : Event → Prop) (now : Z) (expired : bool) (sample : option SensorSample)
    (y y' : EdgeSystem) :
  exec_move (MvSensor now expired sample) y = Some y' → events_ok ok y →
  (∀ smp, sample = Some smp → sensor y = SnsCheck → sensor_stop (shared y) = false → ok (Event_sensor_sample smp)) →
  events_ok ok y' ∧ log_handled (shared y) `prefix_of` log_handled (shared y') ∧ clients y' = clients y.
Proof.
  simpl. intros H [Hl Hs Hc] Hok. destruct (sensor_step _ _ _ _ _) as [[c s]|] eqn:Hstep; simplify_eq/=.
  destruct (sensor y) as [| |q| |] eqn:Hy; try (simpl in Hstep; done).
  - simpl in Hstep. destruct (sensor_stop (shared y)) eqn:Hstop; [|destruct sample as [smp|]]; simplify_eq;
      (split; [|done]); split; simpl; auto.
  - assert (Hcase : (∃ r, q = PubReturn r ∧ c = SnsWait ∧ s = shared y) ∨
      ∃ q', publish_step now expired q (shared y) = Some (q', s) ∧ c = SnsPublish q').
    { destruct q; cbn [sensor_step] in Hstep; simplify_eq; eauto;
        destruct (publish_step _ _ _ _) as [[q' s1]|]; simplify_eq; eauto. }
    destruct Hcase as [(r & -> & -> & ->)|(q' & Hq & ->)]; [done|].
    apply (publish_ok ok _ _ _ _ _ _ Hq) in Hs as (H1 & H2 & H3); [|done].
    split; [split; simpl; done|]. simpl. by rewrite H3.
  - simpl in Hstep. by destruct (sensor_stop (shared y)); simplify_eq/=.
Qed.

Lemma client_ok' (ok : Event → Prop) (now : Z) (expired : bool) (call : Call) (i : nat) (y y' : EdgeSystem) :
  exec_move (MvClient i now expired call) y = Some y' → events_ok ok y →
  ok Event_startup → ok Event_self_test_passed → ok Event_shutdown_requested →
  (∀ e, call = CallPublish e → ok e) →
  events_ok ok y' ∧ log_handled (shared y) `prefix_of` log_handled (shared y').
Proof.
  simpl. intros H [Hl Hs Hc] Hup Htest Hdown Hcall.
  destruct (clients y !! i) as [c|] eqn:Hi; simplify_eq/=.
  destruct (client_step _ _ _ _ _) as [[c' y1]|] eqn:Hstep; simplify_eq/=.
  pose proof (proj1 (Forall_lookup _ _) Hc i c Hi) as Hci.
  assert (Hpub : ∀ q wrap next, publishing now expired q y wrap next = Some (c', y1) → pub_ok ok q →
    (∀ q', pub_ok ok q' → caller_ok ok (wrap q')) → (∀ r, caller_ok ok (next r)) →
    caller_ok ok c' ∧ Forall ok (log_pushed (shared y1)) ∧ log_handled (shared y1) = log_handled (shared y) ∧
    sensor y1 = sensor y ∧ clients y1 = clients y).
  { intros q wrap next Hq Hok Hw Hn. unfold publishing in Hq.
    destruct q; try (destruct (publish_step _ _ _ _) as [[q' s1]|] eqn:Hp; [|done];
      apply (publish_ok ok) in Hp as (H1 & H2 & H3); [|done..]); simplify_eq; simpl; auto. }
  assert (Hend : caller_ok ok c' ∧ Forall ok (log_pushed (shared y1)) ∧
    log_handled (shared y1) = log_handled (shared y) ∧ thread_ok ok (sensor y1) ∧ clients y1 = clients y).
  { destruct c; cbn [client_step] in Hstep;
      try (apply Hpub in Hstep as (H1 & H2 & H3 & H4 & H5); [by rewrite H4|simpl; auto..]);
      try (unfold join_if_needed in *; repeat case_match; simplify_eq; simpl; split_and!; by auto).
    destruct call; simplify_eq; simpl; split_and!; auto. }
  destruct Hend as (H1 & H2 & H3 & H4 & H5). split; [|by rewrite H3].
  split; simpl; [done|done|]. rewrite H5. by apply Forall_insert.
Qed.

(** What a move has to bring along. *)
Definition move_ok (ok : Event → Prop) (mv : Move) (y : EdgeSystem) : Prop :=
  match mv with
  | MvControl _ | MvMonitor => True
  | MvSensor _ _ sample =>
      ∀ smp, sample = Some smp → sensor y = SnsCheck → sensor_stop (shared y) = false → ok (Event_sensor_sample smp)
  | MvClient _ _ _ call =>
      ok Event_startup ∧ ok Event_self_test_passed ∧ ok Event_shutdown_requested ∧
      ∀ e, call = CallPublish e → ok e
  end.

Lemma exec_move_ok (ok : Event → Prop) (mv : Move) (y y' : EdgeSystem) :
  exec_move mv y = Some y' → events_ok ok y → move_ok ok mv y →
  events_ok ok y' ∧ log_handled (shared y) `prefix_of` log_handled (shared y').
Proof.
  destruct mv as [now|now expired sample| |i now expired call]; intros H He Hok.
  - destruct (control_ok ok _ _ _ H He) as (? & ? & _). done.
  - destruct (sensor_moves_ok ok _ _ _ _ _ H He Hok) as (? & ? & _). done.
  - destruct (monitor_ok ok _ _ H He) as (? & ? & _). done.
  - destruct Hok as (H1 & H2 & H3 & H4). by eapply client_ok'.
Qed.

(** Both logs only grow. *)
Lemma exec_move_logs (mv : Move) (y y' : EdgeSystem) :
  exec_move mv y = Some y' →
  log_pushed (shared y) `prefix_of` log_pushed (shared y') ∧
  log_handled (shared y) `prefix_of` log_handled (shared y').
Proof.
  intros H. split; [by eapply rt_step_log, exec_move_step|].
  assert (Hp : ∀ q, pub_ok (λ _, True) q) by (by intros []).
  eapply (exec_move_ok (λ _, True)); [exact H| |by destruct mv].
  split; [by apply Forall_true|by destruct (sensor y); simpl|].
  apply Forall_true. intros []; simpl; auto.
Qed.

End Events.

