(* ===== verification/Daemon.v ===== *)
(** * The daemon ([apps/edge_sentinel_daemon.cpp])

    [build_response] turns a request into effects on the simulated sensor and on
    the runtime and into a response.  It uses the runtime through [publish] and
    [snapshot] ([RuntimeApi]); the instance at the end of the definitions is the
    runtime of the program while a publication runs alone. *)
From Stdlib Require Import Ascii String.
From stdpp Require Import gmap strings.
From S2P Require Import Prelude Double Domain Fsm FsmProps Metrics Pool Queue QueueProps Interfaces Runtime RuntimeProps.
From S2P Require Import Measurement Uart Buses Sensors SensorProps Command CommandProps Server Format.

Local Open Scope Z_scope.

Record RuntimeSnapshot := MkRuntimeSnapshot {
  rs_machine : MachineSnapshot;
  rs_metrics : RuntimeMetrics;
  rs_pool : PoolStats;
  rs_queue : QueueStats
}.

Class RuntimeApi (R : Type) := {
  api_publish : Event → R → R * PublishResult;
  api_snapshot : R → RuntimeSnapshot
}.

(** ** [build_response] *)

(** [domain::SensorSample{45.0, 2.0, 6.0, true, 0}] *)
Definition nominal_sample : SensorSample :=
  MkSample (Double.of_Z 45) (Double.of_Z 2) (Double.of_Z 6) true 0.

(** The [switch] on the target, [None] for the early [return]. *)
Definition injected_sample (target : InjectionTarget) (value : double) : option SensorSample :=
  let s := nominal_sample in
  match target with
  | Tgt_temperature => Some (MkSample value (vibration_mm_s s) (current_a s) (online s) (sequence s))
  | Tgt_vibration => Some (MkSample (temperature_c s) value (current_a s) (online s) (sequence s))
  | Tgt_current => Some (MkSample (temperature_c s) (vibration_mm_s s) value (online s) (sequence s))
  | Tgt_offline => Some (MkSample (temperature_c s) (vibration_mm_s s) (current_a s) false (sequence s))
  | Tgt_none => None
  end.

Definition status_line (s : RuntimeSnapshot) : text :=
  let sample := snap_last_sample (rs_machine s) in
  lit "state=" ++ lit (MotorState_to_string (snap_state (rs_machine s)))
  ++ lit " temperature_c=" ++ show_double (temperature_c sample)
  ++ lit " vibration_mm_s=" ++ show_double (vibration_mm_s sample)
  ++ lit " current_a=" ++ show_double (current_a sample)
  ++ lit " online=" ++ show_Z (if online sample then 1 else 0).

Definition metrics_line (s : RuntimeSnapshot) : text :=
  lit "events_published=" ++ show_Z (events_published_ (rs_metrics s))
  ++ lit " events_processed=" ++ show_Z (events_processed_ (rs_metrics s))
  ++ lit " events_dropped=" ++ show_Z (events_dropped_ (rs_metrics s))
  ++ lit " transitions=" ++ show_Z (transitions_ (rs_metrics s))
  ++ lit " max_latency_ns=" ++ show_Z (max_event_latency_ns_ (rs_metrics s))
  ++ lit " pool=" ++ show_Z (in_use (rs_pool s)) ++ lit "/" ++ show_Z (capacity (rs_pool s))
  ++ lit " pool_high=" ++ show_Z (high_watermark (rs_pool s))
  ++ lit " queue=" ++ show_Z (stat_size (rs_queue s)) ++ lit "/" ++ show_Z (stat_capacity (rs_queue s))
  ++ lit " queue_high=" ++ show_Z (stat_high_watermark (rs_queue s)).

Section Daemon.
Context {R : Type} `{!RuntimeApi R}.

(** What the handler works on: the runtime and the shared sensor. *)
Record DaemonState := MkDaemon { d_runtime : R; d_sensor : SimulatedSensor }.

Definition build_response (input : text) (d : DaemonState) : DaemonState * text :=
  let parsed := parse_command input in
  if negb (parse_ok parsed) then (d, lit "error=" ++ lit (ParseError_to_string (error parsed)))
  else
    match cmd_kind (command parsed) with
    | Cmd_status => (d, status_line (api_snapshot (d_runtime d)))
    | Cmd_metrics => (d, metrics_line (api_snapshot (d_runtime d)))
    | Cmd_inject =>
        match injected_sample (cmd_target (command parsed)) (cmd_value (command parsed)) with
        | None => (d, lit "error=unknown_target")
        | Some injected =>
            (MkDaemon (d_runtime d) (set_override injected (d_sensor d)), lit "ok=injection_set")
        end
    | Cmd_clear => (MkDaemon (d_runtime d) (clear_override (d_sensor d)), lit "ok=injection_cleared")
    | Cmd_reset =>
        let sensor := clear_override (d_sensor d) in
        let '(r, reset) := api_publish Event_reset_requested (d_runtime d) in
        let '(r, tested) := api_publish Event_self_test_passed r in
        (MkDaemon r sensor,
         if bool_decide (reset = Pub_published) && bool_decide (tested = Pub_published)
         then lit "ok=reset_requested" else lit "error=event_delivery_failed")
    | Cmd_shutdown =>
        let '(r, result) := api_publish Event_shutdown_requested (d_runtime d) in
        (MkDaemon r (d_sensor d),
         if bool_decide (result = Pub_published)
         then lit "ok=shutdown_requested" else lit "error=event_delivery_failed")
    | Cmd_invalid => (d, lit "error=unknown_command")
    end.

(** One connection: [serve_client] with the lambda of [main] as its handler. *)
Definition daemon_session (script : list Arrival) (counts : list Z) (d : DaemonState)
  : option (DaemonState * text) := serve_client build_response script counts d.

End Daemon.
Arguments DaemonState : clear implicits.

(** ** The runtime behind the interface *)

Section EdgeApi.
Context (L : PoolLayout).

#[local] Hint Extern 1 (ObjectPool EdgePool PooledEvent) => exact (edge_pool L) : typeclass_instances.
#[local] Existing Instance edge_queue.

Abbreviation EdgeShared := (Shared (P := EdgePool) (Q := EdgeQueue)).

(** [publish] run to its end by its own steps; its wait for space times out when
    no other thread makes any.  It has at most five steps. *)
Fixpoint publish_alone (fuel : nat) (now : Z) (pc : Publish) (s : EdgeShared)
  : option (EdgeShared * PublishResult) :=
  match pc with
  | PubReturn r => Some (s, r)
  | _ =>
      match fuel with
      | O => None
      | S fuel =>
          match publish_step now true pc s with
          | Some (pc, s) => publish_alone fuel now pc s
          | None => None
          end
      end
  end.

Definition publish (now : Z) (e : Event) (s : EdgeShared) : EdgeShared * PublishResult :=
  default (s, Pub_not_running) (publish_alone 5 now (PubLoad e) s).

Definition snapshot (s : EdgeShared) : RuntimeSnapshot :=
  MkRuntimeSnapshot (machine_snapshot (machine_ s)) (metrics_snapshot (metrics_ s))
    (pool_stats L (r_pool s)) (queue_stats kEventQueueCapacity (r_queue s)).

#[local] Instance edge_api (now : Z) : RuntimeApi EdgeShared := {|
  api_publish := publish now;
  api_snapshot := snapshot
|}.

End EdgeApi.

(** ** Injections *)

Lemma solid_no_newline (t : text) : Forall (λ c, is_space c = false) t → has_newline t = false.
Proof.
  induction 1 as [|c t Hc _ IH]; [done|]. unfold has_newline in *. cbn [existsb]. rewrite IH.
  destruct (c =? newline)%char eqn:E; [|done]. apply Ascii.eqb_eq in E. by rewrite E in Hc.
Qed.

(** What a user types to inject a value. *)
Definition injection_arguments (t : InjectionTarget) (negative : bool) (ds : list nat) : list text :=
  [lit "inject"; lit (target_name t); number_text negative ds].

Definition injection_command (t : InjectionTarget) (negative : bool) (ds : list nat) : text :=
  lit "inject" ++ [" "%char] ++ lit (target_name t) ++ [" "%char] ++ number_text negative ds.

Lemma injection_pieces (t : InjectionTarget) (negative : bool) (ds : list nat) :
  ds ≠ [] → Forall is_digit ds →
  solid (lit "inject") ∧ solid (lit (target_name t)) ∧ solid (number_text negative ds).
Proof.
  intros Hne Hds. split_and!; [apply lit_solid; [discriminate|reflexivity]| |by apply number_solid].
  destruct t; (apply lit_solid; [discriminate|reflexivity]).
Qed.

Lemma injection_no_newline (t : InjectionTarget) (negative : bool) (ds : list nat) :
  ds ≠ [] → Forall is_digit ds → has_newline (injection_command t negative ds) = false.
Proof.
  intros Hne Hds. destruct (injection_pieces t negative ds Hne Hds) as ((_ & H1) & (_ & H2) & (_ & H3)).
  unfold injection_command. rewrite !has_newline_app.
  by rewrite (solid_no_newline _ H1), (solid_no_newline _ H2), (solid_no_newline _ H3).
Qed.

Lemma not_an_option (t : InjectionTarget) :
  bool_decide (lit (target_name t) = lit "--socket") = false.
Proof. destruct t; reflexivity. Qed.

Lemma edgectl_injection (t : InjectionTarget) (negative : bool) (ds : list nat) (path : text) :
  edgectl_arguments (injection_arguments t negative ds) path [] = (path, injection_command t negative ds).
Proof.
  unfold injection_arguments. cbn [edgectl_arguments]. rewrite not_an_option.
  rewrite (bool_decide_eq_false_2 (lit "inject" = lit "--socket")) by discriminate.
  rewrite (bool_decide_eq_true_2 ([] = [])) by done. cbn [app].
  rewrite (bool_decide_eq_false_2 (lit "inject" = [])) by discriminate.
  rewrite bool_decide_eq_false_2 by (destruct t; discriminate).
  unfold injection_command. by rewrite <- !app_assoc.
Qed.

Lemma edgectl_request_line (args : list text) (path path' command request : text) :
  edgectl_arguments args path [] = (path', command) →
  edgectl_request args path = inl (path', request) → request = command ++ [newline].
Proof.
  intros Ha. unfold edgectl_request. rewrite Ha. intros H.
  branches H; congruence.
Qed.

(** While an override is set, every sample is the override with its number. *)
Lemma override_reads (b : SensorSample) (s : SimulatedSensor) (n k : nat) (smp : SensorSample) :
  override_ s = Some b → reads (replicate n ()) s !! k = Some smp →
  smp = set_sequence ((sim_sequence_ s + Z.of_nat k + 1) mod u64_modulus) b.
Proof.
  intros Hb Hk. change (sim_sequence_ s) with (source_sequence (I := unit) s).
  rewrite <- (reads_numbered (replicate n ()) s k smp Hk). revert s k Hb Hk.
  induction n as [|n IH]; intros s k Hb Hk; [done|]. cbn [replicate] in Hk. rewrite reads_cons in Hk.
  destruct k as [|k]; [|by apply (IH (fst (source_read () s)) k)].
  injection Hk as <-. unfold simulated_read. by rewrite Hb.
Qed.

Section InjectionProps.
Context {R : Type} `{!RuntimeApi R}.

(** The handler on the injection of an integer. *)
Lemma build_response_injection (t : InjectionTarget) (lo hi : Z) (negative : bool) (ds : list nat)
    (d : DaemonState R) :
  range_of t = Some (lo, hi) → ds ≠ [] → Forall is_digit ds → number_value ds < 2 ^ 53 →
  (length (injection_command t negative ds) < kMaximumCommandLength)%nat →
  let z := if negative then - number_value ds else number_value ds in
  build_response (injection_command t negative ds ++ [newline]) d
  = if (lo <=? z) && (z <=? hi)
    then (MkDaemon (d_runtime d)
            (set_override (default nominal_sample
               (injected_sample t (integer_double negative (number_value ds)))) (d_sensor d)),
          lit "ok=injection_set")
    else (d, lit "error=out_of_range").
Proof.
  intros Ht Hne Hds Hv Hlen z. unfold build_response.
  assert (Hparse : parse_command (injection_command t negative ds ++ [newline])
    = if (lo <=? z) && (z <=? hi)
      then accept (MkCommand Cmd_inject t (integer_double negative (number_value ds)))
      else reject Err_out_of_range).
  { assert (Heq : injection_command t negative ds ++ [newline]
      = [] ++ lit "inject" ++ [" "%char] ++ lit (target_name t) ++ [" "%char]
        ++ number_text negative ds ++ [newline]) by (unfold injection_command; by rewrite <- !app_assoc).
    assert (Hle : (length (injection_command t negative ds ++ [newline]) ≤ kMaximumCommandLength)%nat)
      by (rewrite length_app; cbn [length]; lia).
    rewrite Heq in *. apply (parse_injection t lo hi); try done; by repeat constructor. }
  rewrite Hparse. destruct ((lo <=? z) && (z <=? hi)); [|reflexivity].
  destruct t; try discriminate Ht; reflexivity.
Qed.

(** C31: an injection typed by a user reaches the sensor.  For each numeric target
    and any decimal integer below [2^53], whatever the pieces in which the request
    and the response travel: when the integer is within the limits of the target,
    the user is told [ok=injection_set] and every following sample is nominal
    except for exactly that value, numbered on from the sensor's count; otherwise
    the user is told [error=out_of_range] and nothing changes.  A command of
    exactly 256 characters, which [edgectl] accepts, is refused as too long. *)
Theorem injection_end_to_end (t : InjectionTarget) (lo hi : Z) (negative : bool) (ds : list nat)
    (path : text) (script : list Arrival) (counts : list Z) (d : DaemonState R)
    (Ht : range_of t = Some (lo, hi))
    (Hne : ds ≠ []) (Hds : Forall is_digit ds) (Hv : number_value ds < 2 ^ 53)
    (Hsent : edgectl_request (injection_arguments t negative ds) path = inl (path, stream script))
    (Hsteady : steady script)
    (Hcounts : Forall (λ c, 0 < c) counts) (Hsum : (19 ≤ sum_list_with Z.to_nat counts)%nat) :
  let z := if negative then - number_value ds else number_value ds in
  ∃ d' answer, daemon_session script counts d = Some (d', answer) ∧
    if (length (injection_command t negative ds) <? 256)%nat
    then if (lo <=? z) && (z <=? hi)
         then answer = lit "ok=injection_set" ++ [newline] ∧
              d_runtime d' = d_runtime d ∧
              ∀ n k smp, reads (replicate n ()) (d_sensor d') !! k = Some smp →
                let v := integer_double negative (number_value ds) in
                smp = MkSample (if decide (t = Tgt_temperature) then v else Double.of_Z 45)
                               (if decide (t = Tgt_vibration) then v else Double.of_Z 2)
                               (if decide (t = Tgt_current) then v else Double.of_Z 6)
                               true ((sim_sequence_ (d_sensor d) + Z.of_nat k + 1) mod u64_modulus)
         else answer = lit "error=out_of_range" ++ [newline] ∧ d' = d
    else answer = lit "error=too_long" ++ [newline] ∧ d' = d.
Proof.
  intros z. pose proof (edgectl_request_line _ _ _ _ _ (edgectl_injection t negative ds path) Hsent) as Hline.
  assert (Hanswer : respond build_response
      (take kBufferSize (injection_command t negative ds ++ [newline])) d
    = if (length (injection_command t negative ds) <? 256)%nat
      then if (lo <=? z) && (z <=? hi)
           then (MkDaemon (d_runtime d)
                   (set_override (default nominal_sample
                      (injected_sample t (integer_double negative (number_value ds)))) (d_sensor d)),
                 lit "ok=injection_set" ++ [newline])
           else (d, lit "error=out_of_range" ++ [newline])
      else (d, lit "error=too_long" ++ [newline])).
  { rewrite respond_line. change kMaximumCommandLength with 256%nat.
    destruct (Nat.ltb_spec (length (injection_command t negative ds)) 256) as [Hlen|_]; [|reflexivity].
    rewrite (build_response_injection t lo hi) by done. fold z.
    by destruct ((lo <=? z) && (z <=? hi)). }
  assert (Hlen : (length (snd (respond build_response
      (take kBufferSize (injection_command t negative ds ++ [newline])) d)) ≤ 19)%nat).
  { rewrite Hanswer. destruct (length _ <? 256)%nat, ((lo <=? z) && (z <=? hi)); vm_compute; lia. }
  pose proof (serve_line build_response script counts d _ Hsteady
    (injection_no_newline t negative ds Hne Hds) Hline Hcounts ltac:(lia)) as Hserve.
  unfold daemon_session. rewrite Hserve, Hanswer.
  destruct (length _ <? 256)%nat, ((lo <=? z) && (z <=? hi));
    [|by eexists _, _|by eexists _, _|by eexists _, _].
  eexists _, _. split_and!; [reflexivity|reflexivity|reflexivity|].
  intros n k smp Hk. eapply override_reads in Hk; [|reflexivity]. rewrite Hk.
  destruct t; try discriminate Ht; reflexivity.
Qed.
End InjectionProps.

(** ** Control commands *)

Section ControlProps.
Context (L : PoolLayout) (protection : ProtectionConfig) (HL : edge_layout_ok L).

#[local] Hint Extern 1 (ObjectPool EdgePool PooledEvent) => exact (edge_pool L) : typeclass_instances.
#[local] Existing Instance edge_queue.
#[local] Hint Extern 1 (ObjectPoolLaws EdgePool PooledEvent _) => exact (edge_pool_laws L HL) : typeclass_instances.
#[local] Existing Instance edge_queue_laws.

(** A publication that runs alone is a run of the thread that makes it. *)
Lemma publish_alone_reachable (n i : nat) (fuel : nat) (now : Z) (pc : Publish) (y : EdgeSystem)
    (s : Shared (P := EdgePool) (Q := EdgeQueue)) (r : PublishResult) :
  edge_reachable L protection n y → clients y !! i = Some (ClPublish pc) →
  publish_alone L fuel now pc (shared y) = Some (s, r) →
  ∃ y', edge_reachable L protection n y' ∧ shared y' = s ∧
        clients y' !! i = Some (ClPublish (PubReturn r)).
Proof.
  revert pc y. induction fuel as [|fuel IH]; intros pc y Hr Hi Hp.
  { destruct pc; simplify_eq/=. eauto. }
  assert (Hret : (∃ r', pc = PubReturn r') ∨ ∃ pc' s',
    publish_step now true pc (shared y) = Some (pc', s') ∧ publish_alone L fuel now pc' s' = Some (s, r)).
  { destruct pc; simpl in Hp; eauto; right;
      match type of Hp with context [match ?x with _ => _ end] => destruct x as [[pc' s']|] eqn:Hx end;
      try done; eauto. }
  destruct Hret as [[r' ->]|(pc' & s' & Hs & Hp')]; [simplify_eq/=; eauto|].
  apply (IH pc' (MkSystem s' (control y) (sensor y) (monitor y) (<[i := ClPublish pc']> (clients y)))).
  - eapply rtc_r; [exact Hr|].
    eapply (rt_client y now true CallStop i (ClPublish pc) (ClPublish pc') (set_shared s' y) Hi).
    simpl. unfold publishing. rewrite Hs. by destruct pc.
  - simpl. apply list_lookup_insert_eq. by eapply lookup_lt_Some.
  - done.
Qed.

(** The runtime accepts events: it has been started, not stopped, and the thread
    of the server, client [i], is between two requests. *)
Record serving (n i : nat) (y : EdgeSystem) : Prop := {
  sv_reachable : edge_reachable L protection n y;
  sv_idle : clients y !! i = Some ClIdle;
  sv_accepting : accepting_events_ (shared y) = true;
  sv_open : is_closed (r_queue (shared y)) = false
}.

Definition queued (y : EdgeSystem) : nat := length (queue_contents kEventQueueCapacity (r_queue (shared y))).

Lemma publish_alone_step (fuel : nat) (now : Z) (pc : Publish) (s : Shared) (pc' : Publish) (s' : Shared) :
  publish_step now true pc s = Some (pc', s') →
  publish_alone L (S fuel) now pc s = publish_alone L fuel now pc' s'.
Proof. intros H. destruct pc; cbn [publish_alone]; by rewrite ?H. Qed.

(** The steps of an accepted publication. *)
Lemma publish_alone_accepted (n : nat) (now : Z) (e : Event) (y : EdgeSystem) :
  (n ≤ 125)%nat → edge_reachable L protection n y → accepting_events_ (shared y) = true →
  is_closed (r_queue (shared y)) = false → (queued y < kEventQueueCapacity)%nat →
  ∃ s, publish_alone L 5 now (PubLoad e) (shared y) = Some (s, Pub_published) ∧
    accepting_events_ s = true ∧ is_closed (r_queue s) = false ∧
    length (queue_contents kEventQueueCapacity (r_queue s)) = S (queued y) ∧
    log_pushed s = log_pushed (shared y) ++ [e].
Proof.
  intros Hn Hr Hacc Hopen Hroom.
  destruct (pool_has_room L protection HL n y e now Hn Hr) as (_ & h & s1 & H1).
  destruct (rt_reachable_inv protection n y Hr) as (l & c & Hinv).
  destruct (si_core _ _ _ _ Hinv) as (m & evs & _ & Hq & _).
  destruct (eq_view_law _ _ _ Hq) as [Hl Hc].
  change (queue_contents kEventQueueCapacity (r_queue (shared y)) = l) in Hl.
  change (is_closed (r_queue (shared y)) = c) in Hc. unfold queued in *. rewrite Hl in *.
  rewrite Hopen in Hc. subst c.
  rewrite (publish_alone_step _ _ _ _ (PubCreate e) (shared y)) by (cbn [publish_step]; by rewrite Hacc).
  rewrite (publish_alone_step _ _ _ _ (PubPush e h) s1) by exact H1.
  cbn [publish_step] in H1.
  destruct (op_create (MkPooled e now) (r_pool (shared y))) as [p h'].
  destruct (handle_valid h'); cbn [negb] in H1; [|done]. simplify_eq.
  pose proof (eq_push_law true h _ _ _ Hq) as Hpush.
  destruct (eq_push true h (r_queue (shared y))) as [[q []]|] eqn:Hp; 
    try (exfalso; destruct_and?; done || lia).
  destruct Hpush as (_ & _ & Hq'). destruct (eq_view_law _ _ _ Hq') as [Hl' Hc'].
  rewrite (publish_alone_step _ _ _ _ (PubCount Pub_published) (log_push e (set_queue q (set_pool p (shared y)))))
    by (cbn [publish_step set_pool r_queue]; by rewrite Hp).
  eexists. split; [reflexivity|]. split_and!; [done|exact Hc'| |done].
  cbn [set_metrics log_push set_queue r_queue].
  change (queue_contents kEventQueueCapacity q) with (eq_contents q).
  rewrite Hl', length_app. simpl. lia.
Qed.

Lemma publish_accepted (n i : nat) (now : Z) (e : Event) (y : EdgeSystem) :
  (n ≤ 125)%nat → serving n i y → (queued y < kEventQueueCapacity)%nat →
  ∃ y', publish L now e (shared y) = (shared y', Pub_published) ∧ serving n i y' ∧
    queued y' = S (queued y) ∧ log_pushed (shared y') = log_pushed (shared y) ++ [e].
Proof.
  intros Hn [Hr Hi Hacc Hopen] Hroom.
  destruct (publish_alone_accepted n now e y Hn Hr Hacc Hopen Hroom) as (s & Hs & Ha & Ho & Hq & Hlog).
  pose (y1 := MkSystem (shared y) (control y) (sensor y) (monitor y)
                (<[i := ClPublish (PubLoad e)]> (clients y))).
  assert (Hr1 : edge_reachable L protection n y1).
  { eapply rtc_r; [exact Hr|]. by apply (rt_client y now true (CallPublish e) i ClIdle _ y Hi). }
  destruct (publish_alone_reachable n i 5 now (PubLoad e) y1 s Pub_published Hr1) as (y2 & Hr2 & <- & Hi2).
  { apply list_lookup_insert_eq. by eapply lookup_lt_Some. }
  { exact Hs. }
  exists (MkSystem (shared y2) (control y2) (sensor y2) (monitor y2) (<[i := ClIdle]> (clients y2))).
  split; [unfold publish; by rewrite Hs|]. split; [|done]. split; [| |done|done].
  - eapply rtc_r; [exact Hr2|]. by apply (rt_client y2 now true CallStop i _ ClIdle y2 Hi2).
  - apply list_lookup_insert_eq. by eapply lookup_lt_Some.
Qed.

(** A reset and a passed self-test take a latched machine back to work. *)
Lemma reset_recovers (m : MotorStateMachine) :
  state_ m = fault_latched →
  state_ (handle_all [Event_reset_requested; Event_self_test_passed] m) = healthy.
Proof.
  intros Hm. destruct m as [c st ls hs wc cc rc oc]. simpl in Hm. by rewrite Hm.
Qed.

(** The events a control command stands for. *)
Definition command_events (k : CommandKind) : option (list Event * text) :=
  match k with
  | Cmd_reset => Some ([Event_reset_requested; Event_self_test_passed], lit "ok=reset_requested")
  | Cmd_shutdown => Some ([Event_shutdown_requested], lit "ok=shutdown_requested")
  | _ => None
  end.

(** C30: the control commands reach the state machine.  While the runtime runs,
    with at most 125 client threads and two free places in the queue, a request
    that parses to [reset] or [shutdown] is answered with [ok] and appends exactly
    its events, in order, to the events published; the result is a configuration
    the runtime reaches.  Once the events published are handled, a machine whose
    fault was latched is healthy after a reset, and any machine is in
    [SafeShutdown] after a shutdown. *)
Theorem control_command_delivered (n i : nat) (now : Z) (y : EdgeSystem) (sim : SimulatedSensor)
    (input : text) (k : CommandKind) (evs : list Event) (ok : text)
    (Hn : (n ≤ 125)%nat) (Hy : serving n i y) (Hroom : (queued y ≤ 126)%nat)
    (Hinput : parse_command input = accept (simple_command k))
    (Hk : command_events k = Some (evs, ok)) :
  ∃ y' sim', build_response (RuntimeApi0 := edge_api L now) input (MkDaemon (shared y) sim)
             = (MkDaemon (shared y') sim', ok) ∧
    serving n i y' ∧ log_pushed (shared y') = log_pushed (shared y) ++ evs ∧
    (k = Cmd_reset → override_ sim' = None ∧
       (state_ (handle_all (log_pushed (shared y)) (machine_init protection)) = fault_latched →
        state_ (handle_all (log_pushed (shared y')) (machine_init protection)) = healthy)) ∧
    (k = Cmd_shutdown → sim' = sim ∧
       state_ (handle_all (log_pushed (shared y')) (machine_init protection)) = safe_shutdown).
Proof.
  unfold build_response. rewrite Hinput. change (parse_ok (accept (simple_command k))) with true.
  cbn [accept command simple_command cmd_kind negb].
  destruct k; try discriminate Hk; injection Hk as <- <-; cbn [api_publish edge_api d_runtime d_sensor].
  - destruct (publish_accepted n i now Event_reset_requested y Hn Hy) as (y1 & -> & Hy1 & Hq1 & Hlog1).
    { unfold kEventQueueCapacity. lia. }
    destruct (publish_accepted n i now Event_self_test_passed y1 Hn Hy1) as (y2 & -> & Hy2 & Hq2 & Hlog2).
    { unfold kEventQueueCapacity. lia. }
    assert (Hlog : log_pushed (shared y2)
      = log_pushed (shared y) ++ [Event_reset_requested; Event_self_test_passed])
      by (by rewrite Hlog2, Hlog1, <- app_assoc).
    exists y2, (clear_override sim). split_and!; [reflexivity|done|done| |done].
    intros _. split; [done|]. intros Hlatched. rewrite Hlog, handle_all_app.
    by apply reset_recovers.
  - destruct (publish_accepted n i now Event_shutdown_requested y Hn Hy) as (y1 & -> & Hy1 & Hq1 & Hlog1).
    { unfold kEventQueueCapacity. lia. }
    exists y1, sim. split_and!; [reflexivity|done|done|done|]. intros _. split; [done|].
    rewrite Hlog1. apply shutdown_in_log, elem_of_app. right. by left.
Qed.
End ControlProps.

(** ** Concrete requests *)

(** A daemon whose runtime has just been started. *)
Definition demo_daemon : DaemonState (Shared (P := EdgePool) (Q := EdgeQueue)) :=
  MkDaemon (shared queued_system) (simulated_init nominal_sample).

(** The request arrives in two pieces with an interruption between them. *)
Definition demo_script : list Arrival :=
  [RecvBytes (lit "inject temp"); PollInterrupted; RecvBytes (lit "erature 105" ++ [newline])].

Lemma injection_end_to_end_witness :
  ∃ d', daemon_session (RuntimeApi0 := edge_api demo_edge_layout 0) demo_script [7; 12] demo_daemon
        = Some (d', lit "ok=injection_set" ++ [newline]) ∧
    d_runtime d' = d_runtime demo_daemon.
Proof.
  destruct (injection_end_to_end (RuntimeApi0 := edge_api demo_edge_layout 0) Tgt_temperature (-50) 200 false
    [1; 0; 5]%nat (lit "/tmp/s") demo_script [7; 12] demo_daemon) as (d' & answer & Hs & Hanswer).
  - reflexivity.
  - discriminate.
  - repeat constructor.
  - reflexivity.
  - reflexivity.
  - repeat constructor; discriminate.
  - repeat constructor.
  - vm_compute. lia.
  - change (length (injection_command Tgt_temperature false [1; 0; 5]%nat) <? 256)%nat with true in Hanswer.
    change ((-50 <=? number_value [1; 0; 5]%nat) && (number_value [1; 0; 5]%nat <=? 200)) with true in Hanswer.
    destruct Hanswer as (-> & Hrt & _). exists d'. split; [exact Hs|exact Hrt].
Defined.

Lemma control_command_delivered_witness :
  ∃ y' sim', build_response (RuntimeApi0 := edge_api demo_edge_layout 9) (lit "reset" ++ [newline])
               (MkDaemon (shared queued_system) (simulated_init nominal_sample))
             = (MkDaemon (shared y') sim', lit "ok=reset_requested") ∧
    log_pushed (shared y')
    = log_pushed (shared queued_system) ++ [Event_reset_requested; Event_self_test_passed].
Proof.
  destruct (control_command_delivered demo_edge_layout default_config demo_layout_edge_ok 1 0 9
    queued_system (simulated_init nominal_sample) (lit "reset" ++ [newline]) Cmd_reset
    [Event_reset_requested; Event_self_test_passed] (lit "ok=reset_requested"))
    as (y' & sim' & Hb & _ & Hlog & _).
  - lia.
  - split; [exact (demo_reachable start_schedule)|vm_compute; reflexivity..].
  - vm_compute. lia.
  - vm_compute. reflexivity.
  - reflexivity.
  - exists y', sim'. split; [exact Hb|exact Hlog].
Defined.
