(* ===== verification/DaemonTypes.v ===== *)
(** * Which values requests can put into the system

    A command is checked once, by the parser; the handler, the sensor and the
    runtime rely on it.  This file states what a parsed command may hold and which
    samples the simulated sensor of the daemon can return. *)
From Stdlib Require Import Ascii String.
From stdpp Require Import strings.
From S2P Require Import Prelude Double Domain Sensors Command CommandProps Runtime RuntimeProps Daemon.

Local Open Scope Z_scope.

(** ** Commands *)

(** The commands [parse_command] may return with [ParseError::none]. *)
Definition command_ok (c : Command) : Prop :=
  match cmd_kind c with
  | Cmd_invalid => False
  | Cmd_inject =>
      match cmd_target c with
      | Tgt_none => False
      | Tgt_offline => cmd_value c = Double.of_Z 0
      | t => Double.is_finite (cmd_value c) = true ∧ in_range t (cmd_value c) = true
      end
  | _ => cmd_target c = Tgt_none ∧ cmd_value c = Double.of_Z 0
  end.

Definition parsed_ok (r : ParseResult) : Prop :=
  if decide (error r = Err_none) then command_ok (command r) else command r = no_command.

Lemma parsed_reject (e : ParseError) : e ≠ Err_none → parsed_ok (reject e).
Proof. intros He. unfold parsed_ok. simpl. by rewrite decide_False. Qed.
Lemma parsed_accept (c : Command) : command_ok c → parsed_ok (accept c).
Proof. done. Qed.

Lemma verb_kind_simple (verb : text) (k : CommandKind) :
  verb_kind verb = Some k → command_ok (simple_command k).
Proof. unfold verb_kind. intros H. by repeat (case_decide; [by simplify_eq|]). Qed.

Lemma parse_number_finite (input : text) (v : double) :
  parse_number input = Some v → Double.is_finite v = true.
Proof.
  unfold parse_number. destruct (from_chars input) as [[x rest]|]; [|done].
  destruct (bool_decide (rest = [])); [|done]. simpl. destruct (Double.is_finite x) eqn:Hx; [|done]. by intros [= <-].
Qed.

Lemma measured_target (t : InjectionTarget) (v : double) :
  t ≠ Tgt_none → t ≠ Tgt_offline → Double.is_finite v = true → in_range t v = true →
  command_ok (MkCommand Cmd_inject t v).
Proof. by destruct t. Qed.

Lemma meaning_ok (ws : list text) : parsed_ok (meaning ws).
Proof.
  destruct ws as [|verb [|a1 [|a2 [|a3 [|a4 ws]]]]]; unfold meaning; try by apply parsed_reject.
  all: destruct (verb_kind verb) as [k|] eqn:Hk;
    [try (by apply parsed_reject); apply parsed_accept; by eapply verb_kind_simple|].
  all: case_decide; [|by apply parsed_reject]; try by apply parsed_reject.
  all: pose proof (target_not_none a1) as Hn; destruct (target_of a1) as [[]|]; try done;
    try (by apply parsed_reject); try (by apply parsed_accept).
  all: destruct (parse_number a2) as [v|] eqn:Hv; [|by apply parsed_reject];
    apply parse_number_finite in Hv;
    destruct (in_range _ v) eqn:Hr; [|by apply parsed_reject]; apply parsed_accept; by apply measured_target.
Qed.

Lemma parse_command_ok (input : text) : parsed_ok (parse_command input).
Proof. rewrite parse_command_words. case_match; [by apply parsed_reject|apply meaning_ok]. Qed.

(** ** Samples *)

(** Every quantity is finite and within the limits of its target. *)
Definition sample_ok (s : SensorSample) : Prop :=
  in_range Tgt_temperature (temperature_c s) = true ∧
  in_range Tgt_vibration (vibration_mm_s s) = true ∧
  in_range Tgt_current (current_a s) = true.

Definition sensor_ok (s : SimulatedSensor) : Prop :=
  sample_ok (baseline_ s) ∧ ∀ o, override_ s = Some o → sample_ok o.

Lemma nominal_ok : sample_ok nominal_sample.
Proof. vm_compute. auto. Qed.

Lemma injected_ok (c : Command) : cmd_kind c = Cmd_inject → command_ok c →
  ∃ s, injected_sample (cmd_target c) (cmd_value c) = Some s ∧ sample_ok s.
Proof.
  intros Hk. unfold command_ok. rewrite Hk. destruct nominal_ok as (H1 & H2 & H3).
  destruct (cmd_target c); [done|..]; intros Hc;
    (eexists; split; [reflexivity|]; split_and!); first [exact H1|exact H2|exact H3|apply Hc].
Qed.

Lemma simulated_read_ok (s : SimulatedSensor) :
  sensor_ok s → sensor_ok (fst (simulated_read s)) ∧ sample_ok (snd (simulated_read s)).
Proof.
  intros [H1 H2]. split; [done|]. unfold sample_ok, simulated_read. cbn [snd].
  destruct (override_ s) as [o|]; [by apply (H2 o)|exact H1].
Qed.

Lemma in_range_finite (t : InjectionTarget) (v : double) :
  t ≠ Tgt_none → t ≠ Tgt_offline → in_range t v = true → Double.is_finite v = true.
Proof. intros Hn Ho. destruct v as [|[]| |]; try done; by destruct t. Qed.

(** ** Requests *)

Section Requests.
Context {R : Type} `{!RuntimeApi R}.

Lemma build_response_ok (input : text) (d : DaemonState R) :
  sensor_ok (d_sensor d) → sensor_ok (d_sensor (fst (build_response input d))).
Proof.
  intros [H1 H2]. unfold build_response. pose proof (parse_command_ok input) as Hp.
  unfold parse_ok, parsed_ok in *. rewrite bool_decide_decide. case_decide; [|done]. simpl.
  destruct (cmd_kind (command _)) eqn:Hk; try done.
  - destruct (injected_ok _ Hk Hp) as (s & -> & Hs). split; [done|]. by intros o [= <-].
  - by destruct (api_publish Event_reset_requested _), (api_publish Event_self_test_passed _).
  - by destruct (api_publish Event_shutdown_requested _).
Qed.

(** The branches for a malformed command are not taken. *)
Lemma build_response_complete (input : text) (d : DaemonState R) :
  error (parse_command input) = Err_none →
  snd (build_response input d) ≠ lit "error=unknown_target" ∧
  snd (build_response input d) ≠ lit "error=unknown_command".
Proof.
  intros He. unfold build_response. pose proof (parse_command_ok input) as Hp.
  unfold parse_ok, parsed_ok in *. rewrite bool_decide_true by done. rewrite decide_True in Hp by done. simpl.
  destruct (cmd_kind (command _)) eqn:Hk; try done.
  - unfold command_ok in Hp. by rewrite Hk in Hp.
  - by destruct (injected_ok _ Hk Hp) as (s & -> & Hs).
  - destruct (api_publish Event_reset_requested _) as [r ?], (api_publish Event_self_test_passed _). simpl. by case_match.
  - destruct (api_publish Event_shutdown_requested _). simpl. by case_match.
Qed.

(** The server thread answers requests, the sensor thread reads, and the threads of
    the runtime change its state. *)
Inductive Access := Request (input : text) | Reading | Elsewhere (r : R).

Definition access (a : Access) (d : DaemonState R) : DaemonState R * option SensorSample :=
  match a with
  | Request input => (fst (build_response input d), None)
  | Reading => let '(sim, smp) := simulated_read (d_sensor d) in (MkDaemon (d_runtime d) sim, Some smp)
  | Elsewhere r => (MkDaemon r (d_sensor d), None)
  end.

Lemma accesses_ok (l : list Access) (d : DaemonState R) (smp : SensorSample) :
  sensor_ok (d_sensor d) → Some smp ∈ snd (run access l d) → sample_ok smp.
Proof.
  revert d. induction l as [|a l IH]; intros d Hd; simpl; [set_solver|].
  destruct (access a d) as [d' r] eqn:Ha. specialize (IH d').
  destruct (run access l d') as [d'' rs]. simpl in *. rewrite elem_of_cons.
  assert (Hok : sensor_ok (d_sensor d') ∧ (r = Some smp → sample_ok smp)).
  { destruct a as [input| |r']; simpl in Ha; simplify_eq/=.
    - split; [by apply build_response_ok|done].
    - destruct (simulated_read_ok _ Hd) as [H1 H2]. split; [exact H1|]. intros [= <-]. exact H2.
    - done. }
  destruct Hok as [Hd' Hr]. intros [<-|Hin]; [by apply Hr|by apply IH].
Qed.

(** C25: only checked values enter the system.  Whatever text arrives, the parser
    returns either an error and no command or a command that is complete: its kind
    is not [invalid], an injection names a target and carries a finite value within
    the limits of that target, and nothing else carries a value; so the handler
    never takes its branches for an unknown kind or target.  And in every
    interleaving of requests of any content with readings of the sensor and with
    changes of the runtime, every sample the sensor of the daemon returns is finite
    in all three quantities and within -50..200 degrees, 0..100 mm/s and 0..200 A. *)
Theorem requests_are_typed :
  (∀ input, parsed_ok (parse_command input)) ∧
  (∀ input (d : DaemonState R), error (parse_command input) = Err_none →
     snd (build_response input d) ≠ lit "error=unknown_target" ∧
     snd (build_response input d) ≠ lit "error=unknown_command") ∧
  (∀ (l : list Access) (r : R) (smp : SensorSample),
     Some smp ∈ snd (run access l (MkDaemon r (simulated_init nominal_sample))) →
     sample_ok smp ∧ Double.is_finite (temperature_c smp) = true ∧
     Double.is_finite (vibration_mm_s smp) = true ∧ Double.is_finite (current_a smp) = true).
Proof.
  split_and!; [apply parse_command_ok|apply build_response_complete|]. intros l r smp Hin.
  apply accesses_ok in Hin as (H1 & H2 & H3); [|split; [apply nominal_ok|done]].
  split_and!; [done|..]; (eapply in_range_finite; [..|eassumption]; done).
Qed.

End Requests.

(** A refused and an accepted injection, each followed by a reading. *)
Definition typed_example : list (Access (R := Shared (P := EdgePool) (Q := EdgeQueue))) :=
  [Request (lit "inject temperature 1e300"); Reading; Request (lit "inject temperature 105"); Reading].

Lemma requests_are_typed_witness :
  ∃ smp, Some smp ∈ snd (run (access (RuntimeApi0 := edge_api demo_edge_layout 9)) typed_example demo_daemon) ∧
         temperature_c smp = Double.of_Z 105 ∧ sample_ok smp.
Proof.
  exists (MkSample (Double.of_Z 105) (Double.of_Z 2) (Double.of_Z 6) true 2).
  assert (Hin : Some (MkSample (Double.of_Z 105) (Double.of_Z 2) (Double.of_Z 6) true 2)
                ∈ snd (run (access (RuntimeApi0 := edge_api demo_edge_layout 9)) typed_example demo_daemon))
    by (apply (list_elem_of_lookup_2 _ 3); vm_compute; reflexivity).
  split_and!; [exact Hin|reflexivity|].
  exact (proj1 (proj2 (proj2 (requests_are_typed (RuntimeApi0 := edge_api demo_edge_layout 9))) _ _ _ Hin)).
Defined.
