(* ===== verification/Lines.v ===== *)
(** * Reading the answers of the daemon

    The answers to [status] and [metrics] are one line of [name=value] fields.  This
    file reads such a line as a client would (words, then the first [=] of a word)
    and shows that what [build_response] prints reads back: every field to the
    member of the snapshot it is printed from, and every reading, typed into an
    injection, to the command that carries it. *)
From Stdlib Require Import Ascii String.
From stdpp Require Import strings.
From S2P Require Import Prelude Double Domain Fsm Metrics Pool Queue Runtime Sensors Command CommandProps.
From S2P Require Import Format FormatProps Daemon.

Local Open Scope Z_scope.

(** ** A reader of fields *)

Fixpoint strip_prefix (prefix t : text) : option text :=
  match prefix, t with
  | [], _ => Some t
  | p :: prefix, c :: t => if (p =? c)%char then strip_prefix prefix t else None
  | _ :: _, [] => None
  end.

(** The value of the first word [name=value]. *)
Definition field (name : string) (line : text) : option text :=
  head (omap (strip_prefix (lit name ++ ["="%char])) (words line)).

Definition all_states : list MotorState := [booting; self_test; healthy; degraded; fault_latched; safe_shutdown].

Definition read_state (t : text) : option MotorState :=
  head (filter (λ st, lit (MotorState_to_string st) = t) all_states).

Definition read_flag (t : text) : option bool :=
  if decide (t = lit "1") then Some true else if decide (t = lit "0") then Some false else None.

Definition read_count (t : text) : option Z :=
  match read_digits t with Some (n, []) => Some n | _ => None end.

(** [used/capacity] *)
Definition read_share (t : text) : option (Z * Z) :=
  match read_digits t with
  | Some (n, c :: rest) => if (c =? "/")%char then pair n <$> read_count rest else None
  | _ => None
  end.

(** ** A line of fields *)

Fixpoint show_fields (fs : list (string * text)) : text :=
  match fs with
  | [] => []
  | [(name, value)] => lit name ++ "="%char :: value
  | (name, value) :: fs => lit name ++ "="%char :: value ++ " "%char :: show_fields fs
  end.

Definition name_char (c : ascii) : bool := negb (is_space c) && negb (c =? "=")%char.
Definition plain_name (name : string) : Prop := forallb name_char (lit name) = true.
Definition plain_field (f : string * text) : Prop := plain_name (fst f) ∧ no_space (snd f).

Definition field_word (f : string * text) : text := lit (fst f) ++ "="%char :: snd f.

Lemma field_word_solid (f : string * text) : plain_field f → solid (field_word f).
Proof.
  intros [Hn Hv]. unfold field_word. split; [by destruct (lit (fst f))|].
  unfold plain_name in Hn. rewrite forallb_forall in Hn.
  apply Forall_app. split; [|by constructor]. apply Forall_forall. intros c Hc.
  apply list_elem_of_In, Hn, andb_true_iff in Hc as [Hc _]. by destruct (is_space c).
Qed.

Lemma words_fields (fs : list (string * text)) :
  Forall plain_field fs → words (show_fields fs) = field_word <$> fs.
Proof.
  induction 1 as [|[n v] fs Hf Hfs IH]; [done|]. apply field_word_solid in Hf.
  destruct fs as [|f fs].
  - pose proof (words_last (field_word (n, v)) [] Hf) as H. rewrite app_nil_r in H. apply H. constructor.
  - change (show_fields ((n, v) :: f :: fs)) with (lit n ++ "="%char :: v ++ " "%char :: show_fields (f :: fs)).
    rewrite fmap_cons, <- IH, <- (words_solid (field_word (n, v)) [" "%char] _ Hf) by (done || by repeat constructor).
    unfold field_word. cbn [fst snd]. by rewrite <- app_assoc.
Qed.

Lemma strip_prefix_field (a b v : text) :
  forallb name_char a = true → forallb name_char b = true →
  strip_prefix (a ++ ["="%char]) (b ++ "="%char :: v) = if decide (a = b) then Some v else None.
Proof.
  revert b. induction a as [|c a IH]; intros [|d b] Ha Hb; cbn [app strip_prefix forallb] in *.
  - by rewrite decide_True.
  - apply andb_true_iff in Hb as [Hd _]. destruct (Ascii.eqb_spec "=" d) as [<-|]; [done|].
    by rewrite decide_False.
  - apply andb_true_iff in Ha as [Hc _]. destruct (Ascii.eqb_spec c "=") as [->|]; [done|].
    by rewrite decide_False.
  - apply andb_true_iff in Ha as [_ Ha], Hb as [_ Hb].
    destruct (Ascii.eqb_spec c d) as [<-|]; [|rewrite decide_False; congruence].
    rewrite IH by done. destruct (decide (a = b)) as [<-|]; [by rewrite decide_True|].
    rewrite decide_False; congruence.
Qed.

Lemma lit_inj (a b : string) : lit a = lit b → a = b.
Proof.
  unfold lit. intros H. by rewrite <- (string_of_list_ascii_of_string a), H, string_of_list_ascii_of_string.
Qed.

(** A field is looked up by its name. *)
Lemma field_lookup (name : string) (fs : list (string * text)) :
  plain_name name → Forall plain_field fs →
  field name (show_fields fs)
  = head (omap (λ f, if decide (name = fst f) then Some (snd f) else None) fs).
Proof.
  intros Hn Hfs. unfold field. rewrite words_fields by done.
  induction Hfs as [|[n v] fs [Hf _] _ IH]; [done|]. cbn [fmap list_fmap omap list_omap].
  unfold field_word at 1. cbn [fst snd] in *. rewrite strip_prefix_field by done.
  destruct (decide (name = n)) as [<-|Hne]; [by rewrite decide_True|].
  rewrite decide_False by (intros ?%lit_inj; done). apply IH.
Qed.

(** ** The two lines *)

Definition status_fields (s : RuntimeSnapshot) : list (string * text) :=
  let sample := snap_last_sample (rs_machine s) in
  [("state", lit (MotorState_to_string (snap_state (rs_machine s))));
   ("temperature_c", show_double (temperature_c sample));
   ("vibration_mm_s", show_double (vibration_mm_s sample));
   ("current_a", show_double (current_a sample));
   ("online", show_Z (if online sample then 1 else 0))].

Definition show_share (used size : Z) : text := show_Z used ++ "/"%char :: show_Z size.

Definition metrics_fields (s : RuntimeSnapshot) : list (string * text) :=
  [("events_published", show_Z (events_published_ (rs_metrics s)));
   ("events_processed", show_Z (events_processed_ (rs_metrics s)));
   ("events_dropped", show_Z (events_dropped_ (rs_metrics s)));
   ("transitions", show_Z (transitions_ (rs_metrics s)));
   ("max_latency_ns", show_Z (max_event_latency_ns_ (rs_metrics s)));
   ("pool", show_share (in_use (rs_pool s)) (capacity (rs_pool s)));
   ("pool_high", show_Z (high_watermark (rs_pool s)));
   ("queue", show_share (stat_size (rs_queue s)) (stat_capacity (rs_queue s)));
   ("queue_high", show_Z (stat_high_watermark (rs_queue s)))].

Lemma status_line_fields (s : RuntimeSnapshot) : status_line s = show_fields (status_fields s).
Proof. reflexivity. Qed.

Lemma metrics_line_fields (s : RuntimeSnapshot) : metrics_line s = show_fields (metrics_fields s).
Proof.
  unfold metrics_line, metrics_fields, show_share. cbn -[show_Z]. rewrite <- !app_assoc. reflexivity.
Qed.

Lemma show_Z_no_space (z : Z) : no_space (show_Z z).
Proof. apply show_loop_no_space. Qed.

Lemma status_fields_plain (s : RuntimeSnapshot) : Forall plain_field (status_fields s).
Proof.
  repeat (constructor; [split; [reflexivity|]|]); try constructor; cbn [snd];
    auto using show_double_no_space, show_Z_no_space.
  by destruct (snap_state (rs_machine s)); repeat constructor.
Qed.

Lemma metrics_fields_plain (s : RuntimeSnapshot) : Forall plain_field (metrics_fields s).
Proof.
  assert (Hshare : ∀ a b, no_space (show_share a b)).
  { intros a b. apply Forall_app. split; [apply show_Z_no_space|]. constructor; [done|apply show_Z_no_space]. }
  repeat (constructor; [split; [reflexivity|]|]); try constructor; cbn [snd]; auto using show_Z_no_space.
Qed.

Lemma read_count_shown (n : Z) : u64_ok n → read_count (show_Z n) = Some n.
Proof.
  unfold u64_ok. rewrite u64_modulus_val. intros Hn. unfold read_count.
  rewrite <- (app_nil_r (show_Z n)), read_shown by (done || lia). done.
Qed.

Lemma read_share_shown (a b : Z) : u64_ok a → u64_ok b → read_share (show_share a b) = Some (a, b).
Proof.
  intros Ha Hb. pose proof Ha as Ha'. unfold u64_ok in Ha'. rewrite u64_modulus_val in Ha'.
  unfold read_share, show_share. rewrite read_shown by (lia || by repeat split).
  cbn [Ascii.eqb]. by rewrite read_count_shown.
Qed.

(** ** Readings *)

Definition reading (t : InjectionTarget) (smp : SensorSample) : double :=
  match t with
  | Tgt_vibration => vibration_mm_s smp
  | Tgt_current => current_a smp
  | _ => temperature_c smp
  end.

Definition reading_name (t : InjectionTarget) : string :=
  match t with
  | Tgt_vibration => "vibration_mm_s"
  | Tgt_current => "current_a"
  | _ => "temperature_c"
  end.

(** An integer of less than seven digits; [-0] included. *)
Definition whole_number (x : double) : Prop :=
  ∃ negative z, 0 ≤ z < 10 ^ 6 ∧ x = integer_double negative z.

(** The command that injects a value given as text. *)
Definition inject_text (t : InjectionTarget) (value : text) : text :=
  lit "inject " ++ lit (target_name t) ++ " "%char :: value.

Lemma inject_text_words (t : InjectionTarget) (value : text) :
  solid value → words (inject_text t value) = [lit "inject"; lit (target_name t); value].
Proof.
  intros Hv. change (inject_text t value) with
    (lit "inject" ++ [" "%char] ++ lit (target_name t) ++ [" "%char] ++ value).
  assert (Ht : solid (lit (target_name t))) by (apply lit_solid; destruct t; vm_compute; done).
  assert (Hi : solid (lit "inject")) by (apply lit_solid; [discriminate|reflexivity]).
  rewrite words_solid, words_solid by (done || by repeat constructor).
  rewrite <- (app_nil_r value), words_last by (done || constructor). by rewrite app_nil_r.
Qed.

Lemma parse_inject_text (t : InjectionTarget) (lo hi : Z) (value : text) :
  range_of t = Some (lo, hi) → solid value → (length value ≤ 220)%nat →
  parse_command (inject_text t value)
  = match parse_number value with
    | None => reject Err_invalid_number
    | Some x => if in_range t x then accept (MkCommand Cmd_inject t x) else reject Err_out_of_range
    end.
Proof.
  intros Ht Hv Hlen. rewrite parse_command_words, inject_text_words by done.
  assert (Hshort : (kMaximumCommandLength <? length (inject_text t value))%nat = false).
  { apply Nat.ltb_ge. unfold inject_text. rewrite !length_app. cbn [length].
    destruct t; vm_compute (length (lit _)); unfold kMaximumCommandLength; lia. }
  rewrite Hshort. destruct t; try discriminate Ht; reflexivity.
Qed.

(** The text of a whole number. *)
Lemma whole_number_text (x : double) :
  whole_number x → ∃ negative ds, show_double x = number_text negative ds ∧
    x = integer_double negative (number_value ds) ∧ ds ≠ [] ∧ Forall is_digit ds ∧
    number_value ds < 2 ^ 53 ∧ (length (number_text negative ds) ≤ 7)%nat.
Proof.
  intros (negative & z & Hz & ->). rewrite show_integer_double by done.
  destruct (decimal_digits_spec 20 z) as (Hne & Hd & Hv); [change (10 ^ Z.of_nat 20) with (10 ^ 20); lia|lia|].
  assert (Htext : show_sign negative (show_Z z) = number_text negative (decimal_digits 20 z)).
  { unfold show_Z. rewrite show_loop_digits. by destruct negative. }
  exists negative, (decimal_digits 20 z). rewrite Hv. split_and!; try done; [lia|].
  rewrite <- Htext. pose proof (length_show_loop 20 6 z ltac:(lia) ltac:(exact Hz)).
  unfold show_Z. destruct negative; cbn [show_sign length]; lia.
Qed.

Lemma whole_number_injects (t : InjectionTarget) (lo hi : Z) (x : double) (junk : text) :
  range_of t = Some (lo, hi) → whole_number x → solid junk → no_number junk → (length junk ≤ 200)%nat →
  parse_number (show_double x) = Some x ∧
  parse_command (inject_text t (show_double x))
  = (if in_range t x then accept (MkCommand Cmd_inject t x) else reject Err_out_of_range) ∧
  parse_command (inject_text t (show_double x ++ junk)) = reject Err_invalid_number.
Proof.
  intros Ht Hx [Hj Hjs] Hno Hlen.
  destruct (whole_number_text x Hx) as (negative & ds & -> & -> & Hne & Hds & Hv & Hl).
  pose proof (number_solid negative ds Hne Hds) as [Hs1 Hs2].
  rewrite !(parse_inject_text t lo hi), parse_number_integer, parse_number_junk by
    (done || (rewrite ?length_app; lia) || (split; [by destruct (number_text negative ds)|by apply Forall_app])).
  by rewrite decide_False.
Qed.

Lemma special_refused (t : InjectionTarget) (lo hi : Z) (x : double) :
  range_of t = Some (lo, hi) → Double.is_finite x = false →
  parse_command (inject_text t (show_double x)) = reject Err_invalid_number.
Proof.
  intros Ht Hx. destruct x as [|s| |]; try discriminate Hx; (try destruct s);
    (rewrite (parse_inject_text t lo hi); [reflexivity|done|by repeat constructor|simpl; lia]).
Qed.

(** ** What a client reads *)

Record counters_ok (s : RuntimeSnapshot) : Prop := {
  co_published : u64_ok (events_published_ (rs_metrics s));
  co_processed : u64_ok (events_processed_ (rs_metrics s));
  co_dropped : u64_ok (events_dropped_ (rs_metrics s));
  co_transitions : u64_ok (transitions_ (rs_metrics s));
  co_latency : u64_ok (max_event_latency_ns_ (rs_metrics s));
  co_in_use : u64_ok (in_use (rs_pool s));
  co_capacity : u64_ok (capacity (rs_pool s));
  co_pool_high : u64_ok (high_watermark (rs_pool s));
  co_size : u64_ok (stat_size (rs_queue s));
  co_queue_capacity : u64_ok (stat_capacity (rs_queue s));
  co_queue_high : u64_ok (stat_high_watermark (rs_queue s))
}.

Lemma status_field (name : string) (s : RuntimeSnapshot) :
  plain_name name →
  field name (status_line s)
  = head (omap (λ f, if decide (name = fst f) then Some (snd f) else None) (status_fields s)).
Proof. intros H. rewrite status_line_fields. apply field_lookup; auto using status_fields_plain. Qed.

Lemma metrics_field (name : string) (s : RuntimeSnapshot) :
  plain_name name →
  field name (metrics_line s)
  = head (omap (λ f, if decide (name = fst f) then Some (snd f) else None) (metrics_fields s)).
Proof. intros H. rewrite metrics_line_fields. apply field_lookup; auto using metrics_fields_plain. Qed.

Section ReadBack.
Context {R : Type} `{!RuntimeApi R}.

(** C26: what the daemon answers reads back.  Split at the spaces and looked up by
    name, the answer to [status] gives the state of the machine, the online flag
    and the three readings of the snapshot it was printed from, and the answer to
    [metrics] every counter and both fill levels (64-bit numbers).  A reading that
    is an integer of less than seven digits reads back exactly: typed behind
    [inject] and its target, the printed text is the command that injects that
    reading, or is out of range when the reading is; with anything printable
    behind it that cannot continue a number it is refused.  A reading that is
    infinite or not a number prints as a text that is refused. *)
Theorem answers_read_back (d : DaemonState R) (t : InjectionTarget) (lo hi : Z) (junk : text)
    (Hcounters : counters_ok (api_snapshot (d_runtime d)))
    (Ht : range_of t = Some (lo, hi))
    (Hjunk : solid junk) (Hno : no_number junk) (Hlen : (length junk ≤ 200)%nat) :
  let s := api_snapshot (d_runtime d) in
  let sample := snap_last_sample (rs_machine s) in
  let status := snd (build_response (lit "status") d) in
  let metrics := snd (build_response (lit "metrics") d) in
  let x := reading t sample in
  field "state" status ≫= read_state = Some (snap_state (rs_machine s)) ∧
  field "online" status ≫= read_flag = Some (online sample) ∧
  (∃ shown, field (reading_name t) status = Some shown ∧
   (whole_number x →
    parse_number shown = Some x ∧
    parse_command (inject_text t shown)
    = (if in_range t x then accept (MkCommand Cmd_inject t x) else reject Err_out_of_range) ∧
    parse_command (inject_text t (shown ++ junk)) = reject Err_invalid_number) ∧
   (Double.is_finite x = false → parse_command (inject_text t shown) = reject Err_invalid_number)) ∧
  field "events_published" metrics ≫= read_count = Some (events_published_ (rs_metrics s)) ∧
  field "events_processed" metrics ≫= read_count = Some (events_processed_ (rs_metrics s)) ∧
  field "events_dropped" metrics ≫= read_count = Some (events_dropped_ (rs_metrics s)) ∧
  field "transitions" metrics ≫= read_count = Some (transitions_ (rs_metrics s)) ∧
  field "max_latency_ns" metrics ≫= read_count = Some (max_event_latency_ns_ (rs_metrics s)) ∧
  field "pool" metrics ≫= read_share = Some (in_use (rs_pool s), capacity (rs_pool s)) ∧
  field "pool_high" metrics ≫= read_count = Some (high_watermark (rs_pool s)) ∧
  field "queue" metrics ≫= read_share = Some (stat_size (rs_queue s), stat_capacity (rs_queue s)) ∧
  field "queue_high" metrics ≫= read_count = Some (stat_high_watermark (rs_queue s)).
Proof.
  intros s sample status metrics x. fold s in Hcounters. destruct Hcounters.
  change status with (status_line s). change metrics with (metrics_line s).
  split_and!.
  4-12: rewrite metrics_field by reflexivity; cbn -[show_Z show_share read_count read_share];
    (apply read_count_shown || apply read_share_shown); assumption.
  - rewrite status_field by reflexivity. cbn -[read_state]. by destruct (snap_state (rs_machine s)).
  - rewrite status_field by reflexivity. cbn -[read_flag show_Z]. fold sample. by destruct (online sample).
  - exists (show_double x). split_and!.
    + rewrite status_field by (by destruct t). by destruct t.
    + intros Hx. by apply (whole_number_injects t lo hi).
    + by apply (special_refused t lo hi).
Qed.

End ReadBack.

(** ** An instance *)

(** A runtime that answers with a fixed snapshot. *)
Definition fixed_snapshot : RuntimeSnapshot :=
  MkRuntimeSnapshot
    (MkMachineSnapshot degraded (MkSample (Double.of_Z (-40)) (Double.of_Z 7) S754_nan true 12) true 3 0 0 0)
    (MkMetrics 20 18 1 4 0 9 (2 ^ 64 - 1)) (MkPoolStats 128 2 5 20 18 1 0) (MkQueueStats 64 2 3 19 17 1 0).

#[local] Instance fixed_api : RuntimeApi unit := {|
  api_publish := λ _ r, (r, Pub_not_running);
  api_snapshot := λ _, fixed_snapshot
|}.

Lemma answers_read_back_witness :
  let status := snd (build_response (lit "status") (MkDaemon () (simulated_init nominal_sample))) in
  field "state" status ≫= read_state = Some degraded ∧
  parse_command (inject_text Tgt_temperature (lit "-40"))
  = accept (MkCommand Cmd_inject Tgt_temperature (Double.of_Z (-40))).
Proof.
  destruct (answers_read_back (MkDaemon () (simulated_init nominal_sample)) Tgt_temperature (-50) 200
    (lit "C")) as (H1 & _ & (shown & Hs & Hw & _) & _).
  - split; unfold u64_ok; rewrite u64_modulus_val; simpl; lia.
  - reflexivity.
  - split; [discriminate|by repeat constructor].
  - by repeat split.
  - simpl. lia.
  - split; [exact H1|]. assert (Hshown : shown = lit "-40") by (vm_compute in Hs; by injection Hs as <-).
    rewrite <- Hshown. apply Hw. exists true, 40. by split; [lia|].
Defined.
