(* ===== verification/DaemonMain.v ===== *)
(** * The main program of the daemon ([apps/edge_sentinel_daemon.cpp], [main])

    The daemon is the runtime with two client threads, the main thread (client 0)
    and the thread of the server (client 1), the server with its host, and the
    flag that the signal handler sets.  A move is one step of one of them; the
    main program is a program counter at its next access to what it shares. *)
From Stdlib Require Import Ascii String.
From stdpp Require Import gmap strings.
From S2P Require Import Prelude Bytes Double Domain Fsm Metrics Pool Queue Interfaces Descriptors Command Server.
From S2P Require Import ServerLife Format Runtime RuntimeStop RuntimeProps.

Local Open Scope Z_scope.

Definition default_socket_path (euid : Z) : text :=
  lit "/tmp/edge-sentinel-" ++ show_Z euid ++ lit ".sock".

(** The loop over the arguments: the path of the socket, [None] for the usage
    message and exit code 2. *)
Fixpoint daemon_arguments (args : list text) (socket_path : text) : option text :=
  match args with
  | [] => Some socket_path
  | a :: rest =>
      if bool_decide (a = lit "--socket") then
        match rest with
        | path :: rest => daemon_arguments rest path
        | [] => None
        end
      else None
  end.

Inductive Main :=
| MainStart                    (* [runtime.start()] *)
| MainListen                   (* [server.start(server_error)] *)
| MainPoll                     (* the loop: [stop_requested.load()] *)
| MainSnapshot                 (* the loop: [runtime.snapshot().machine.state] *)
| MainSignal                   (* [if (stop_requested.load())] *)
| MainPublish                  (* [runtime.publish(Event::shutdown_requested())] *)
| MainServerStop               (* [server.stop()] *)
| MainStop (code : Z)          (* [runtime.stop()] before [return code] *)
| MainExit (code : Z).

Record DaemonSystem := MkDaemonSystem {
  dm_main : Main;
  dm_runtime : EdgeSystem;
  dm_server : UnixCommandServer;
  dm_host : Host;
  stop_requested : bool
}.

Section Main.
Context (L : PoolLayout) (strerror : Z → text) (euid : Z).

#[local] Hint Extern 1 (ObjectPool EdgePool PooledEvent) => exact (edge_pool L) : typeclass_instances.
#[local] Existing Instance edge_queue.

Definition daemon_init (socket_path : text) (os : Os) (p : option PathEntry) : DaemonSystem :=
  MkDaemonSystem MainStart (edge_runtime default_runtime_config 2) (server_init socket_path) (MkHost os p) false.

(** [main] up to [runtime.start()]: the exit code 2, or the daemon about to start.
    [p] is what is at the path of the socket. *)
Definition daemon_main (args : list text) (os : Os) (p : option PathEntry) : Z + DaemonSystem :=
  match daemon_arguments args (default_socket_path euid) with
  | None => inl 2
  | Some socket_path => inr (daemon_init socket_path os p)
  end.

Definition goto (m : Main) (y : EdgeSystem) (d : DaemonSystem) : DaemonSystem :=
  MkDaemonSystem m y (dm_server d) (dm_host d) (stop_requested d).

Definition set_server (m : Main) (h : Host) (srv : UnixCommandServer) (d : DaemonSystem) : DaemonSystem :=
  MkDaemonSystem m (dm_runtime d) srv h (stop_requested d).

(** [~EdgeRuntime()], on the main thread: the call of [stop()] that [main] made
    returns, and [stop()] is called again. *)
Definition destroy_runtime (now : Z) (expired : bool) (y : EdgeSystem) : option EdgeSystem :=
  exec_all (replicate 3 (MvClient 0 now expired CallStop)) y.

(** [~UnixCommandServer()] *)
Definition destroy_server (unlinking : option Z) (srv : UnixCommandServer) (h : Host) : Host * UnixCommandServer :=
  stop unlinking srv h.

(** A call on the runtime by the main thread: one step of client 0, and what
    [after] makes of the program counters of the call before and after it. *)
Definition main_call (now : Z) (expired : bool) (call : Call) (after : Client → Client → Main)
    (d : DaemonSystem) : option DaemonSystem :=
  c ← clients (dm_runtime d) !! 0%nat;
  y ← exec_move (MvClient 0 now expired call) (dm_runtime d);
  c' ← clients y !! 0%nat;
  Some (goto (after c c') y d).

(** [start] returns false when it finds the runtime started. *)
Definition after_start (c c' : Client) : Main :=
  match c, c' with
  | StartLock, ClIdle => MainExit 1
  | StartMonitor, ClIdle => MainListen
  | _, _ => MainStart
  end.
Definition after_publish (c c' : Client) : Main :=
  match c' with ClIdle => MainServerStop | _ => MainPublish end.
Definition after_stop (code : Z) (c c' : Client) : Main :=
  match c' with ClIdle | StopReturned _ => MainExit code | _ => MainStop code end.

(** [env], [unlinking]: the outcomes of the system calls of [server.start()] and
    [server.stop()].  The join in [server.stop()] waits for the handler. *)
Definition main_step (now : Z) (expired : bool) (env : StartEnv) (unlinking : option Z)
    (d : DaemonSystem) : option DaemonSystem :=
  match dm_main d with
  | MainStart => main_call now expired CallStart after_start d
  | MainListen =>
      let '(h, srv, r) := start strerror euid env (dm_server d) (dm_host d) in
      Some (set_server (match r with None => MainPoll | Some _ => MainStop 1 end) h srv d)
  | MainPoll => Some (goto (if stop_requested d then MainSignal else MainSnapshot) (dm_runtime d) d)
  | MainSnapshot =>
      Some (goto (if state_is safe_shutdown (machine_ (shared (dm_runtime d))) then MainSignal else MainPoll)
              (dm_runtime d) d)
  | MainSignal => Some (goto (if stop_requested d then MainPublish else MainServerStop) (dm_runtime d) d)
  | MainPublish => main_call now expired (CallPublish Event_shutdown_requested) after_publish d
  | MainServerStop =>
      match clients (dm_runtime d) !! 1%nat with
      | Some ClIdle =>
          let '(h, srv) := stop unlinking (dm_server d) (dm_host d) in
          Some (set_server (MainStop 0) h srv d)
      | _ => None
      end
  | MainStop code => main_call now expired CallStop (after_stop code) d
  | MainExit _ => None
  end.

Inductive DaemonMove :=
| DSignal                                          (* SIGINT or SIGTERM *)
| DThread (mv : Move)                              (* a thread of the runtime *)
| DServer (now : Z) (expired : bool) (e : Event)   (* the handler publishes *)
| DMain (now : Z) (expired : bool) (env : StartEnv) (unlinking : option Z).

Definition is_thread (mv : Move) : bool := match mv with MvClient _ _ _ _ => false | _ => true end.

(** The thread of the server publishes while it exists. *)
Definition daemon_step (mv : DaemonMove) (d : DaemonSystem) : option DaemonSystem :=
  match mv with
  | DSignal => Some (MkDaemonSystem (dm_main d) (dm_runtime d) (dm_server d) (dm_host d) true)
  | DThread mv =>
      if is_thread mv then y ← exec_move mv (dm_runtime d); Some (goto (dm_main d) y d) else None
  | DServer now expired e =>
      if thread_joinable (dm_server d)
      then y ← exec_move (MvClient 1 now expired (CallPublish e)) (dm_runtime d); Some (goto (dm_main d) y d)
      else None
  | DMain now expired env unlinking => main_step now expired env unlinking d
  end.

Fixpoint daemon_run (mvs : list DaemonMove) (d : DaemonSystem) : option DaemonSystem :=
  match mvs with
  | [] => Some d
  | mv :: mvs => d ← daemon_step mv d; daemon_run mvs d
  end.

(** A step of the main thread inside a call changes the runtime and where [main] is. *)
Lemma main_call_view (now : Z) (expired : bool) (call : Call) (after : Client → Client → Main)
    (d d' : DaemonSystem) :
  main_call now expired call after d = Some d' →
  ∃ m y, exec_move (MvClient 0 now expired call) (dm_runtime d) = Some y ∧ d' = goto m y d.
Proof.
  intros Hc. unfold main_call in Hc. apply bind_Some in Hc as (c & _ & Hc).
  apply bind_Some in Hc as (y & He & Hc). apply bind_Some in Hc as (c' & _ & Hc). simplify_eq. eauto.
Qed.

(** What a step does to the runtime: nothing, or a move of a thread of the runtime,
    of the main thread (client 0) or of the server thread (client 1). *)
Definition runtime_move (mv : DaemonMove) (rmv : Move) : Prop :=
  match mv with
  | DSignal => False
  | DThread mv => rmv = mv ∧ is_thread mv = true
  | DServer now expired e => rmv = MvClient 1 now expired (CallPublish e)
  | DMain now expired _ _ =>
      ∃ call, rmv = MvClient 0 now expired call ∧
        (call = CallStart ∨ call = CallStop ∨ call = CallPublish Event_shutdown_requested)
  end.

(** A signal is not forgotten. *)
Lemma daemon_step_signal (mv : DaemonMove) (d d' : DaemonSystem) :
  daemon_step mv d = Some d' → stop_requested d = true → stop_requested d' = true.
Proof.
  assert (Hcall : ∀ now expired call after, main_call now expired call after d = Some d' →
    stop_requested d' = stop_requested d).
  { intros now expired call after Hc. by destruct (main_call_view _ _ _ _ _ _ Hc) as (m & y & _ & ->). }
  intros Hs Hr. destruct mv as [|mv|now expired e|now expired env unlinking]; cbn [daemon_step] in Hs.
  - by simplify_eq.
  - destruct (is_thread mv); [|done]. apply bind_Some in Hs as (y & _ & Hs). by simplify_eq.
  - destruct (thread_joinable _); [|done]. apply bind_Some in Hs as (y & _ & Hs). by simplify_eq.
  - unfold main_step in Hs. destruct (dm_main d); try (apply Hcall in Hs; congruence); try by simplify_eq.
    + destruct (start _ _ _ _ _) as [[h srv] r]. by simplify_eq.
    + destruct (clients (dm_runtime d) !! 1%nat) as [[]|]; try done. destruct (stop _ _ _). by simplify_eq.
Qed.

Lemma daemon_step_view (mv : DaemonMove) (d d' : DaemonSystem) :
  daemon_step mv d = Some d' →
  dm_runtime d' = dm_runtime d ∨
  ∃ rmv, runtime_move mv rmv ∧ exec_move rmv (dm_runtime d) = Some (dm_runtime d').
Proof.
  assert (Hcall : ∀ now expired call after, main_call now expired call after d = Some d' →
    exec_move (MvClient 0 now expired call) (dm_runtime d) = Some (dm_runtime d')).
  { intros now expired call after Hc. by destruct (main_call_view _ _ _ _ _ _ Hc) as (m & y & He & ->). }
  intros Hs. destruct mv as [|mv|now expired e|now expired env unlinking]; cbn [daemon_step] in Hs.
  - left. by simplify_eq.
  - right. exists mv. destruct (is_thread mv) eqn:Ht; [|done].
    apply bind_Some in Hs as (y & He & Hs). by simplify_eq.
  - right. eexists. split; [reflexivity|]. destruct (thread_joinable _); [|done].
    apply bind_Some in Hs as (y & He & Hs). by simplify_eq.
  - unfold main_step in Hs. destruct (dm_main d);
      try (apply Hcall in Hs; right; simpl; by eauto 8); left; try by simplify_eq.
    + destruct (start _ _ _ _ _) as [[h srv] r]. by simplify_eq.
    + destruct (clients (dm_runtime d) !! 1%nat) as [[]|]; try done. destruct (stop _ _ _). by simplify_eq.
Qed.

End Main.

(** ** What the other threads leave alone *)

Abbreviation EdgeState := (Shared (P := EdgePool) (Q := EdgeQueue)).

Section Frames.
Context (L : PoolLayout).

#[local] Hint Extern 1 (ObjectPool EdgePool PooledEvent) => exact (edge_pool L) : typeclass_instances.
#[local] Existing Instance edge_queue.

(** A step that is not one of [start] or [stop] keeps the life-cycle flags, and no
    step leaves the final state of the machine. *)
Record frame (s s' : EdgeState) : Prop := {
  fr_started : started_ s' = started_ s;
  fr_stopped : stopped_ s' = stopped_ s;
  fr_safe : state_ (machine_ s) = safe_shutdown → state_ (machine_ s') = safe_shutdown
}.

Lemma frame_refl (s : EdgeState) : frame s s.
Proof. by split. Qed.

Lemma publish_frame (now : Z) (expired : bool) (p p' : Publish) (s s' : EdgeState) :
  publish_step now expired p s = Some (p', s') → frame s s'.
Proof.
  intros H. destruct p; simpl in H; repeat case_match; simplify_eq; by split.
Qed.

Lemma control_frame (now : Z) (c c' : Control) (s s' : EdgeState) :
  control_step now c s = Some (c', s') → frame s s'.
Proof.
  intros H. destruct c; cbn [control_step] in H; try (repeat case_match; simplify_eq; by split).
  destruct (op_deref _ _) as [pe|]; [|done]. destruct (handle (event pe) (machine_ s)) as [m t] eqn:Hm.
  simplify_eq. split; [done..|]. intros Hs. simpl. unfold handle in Hm.
  unfold state_is in Hm. rewrite bool_decide_eq_true_2 in Hm by done. by simplify_eq.
Qed.

Lemma sensor_frame (now : Z) (expired : bool) (sample : option SensorSample) (c c' : Sensor) (s s' : EdgeState) :
  sensor_step now expired sample c s = Some (c', s') → frame s s'.
Proof.
  intros H. destruct c as [| |p| |]; try (simpl in H; repeat case_match; simplify_eq; by split).
  destruct p; cbn [sensor_step] in H; try (by simplify_eq; split);
    (destruct (publish_step _ _ _ _) as [[p1 s1]|] eqn:Hp; [|done]); simplify_eq; by eapply publish_frame.
Qed.

Lemma thread_frame (mv : Move) (y y' : EdgeSystem) :
  is_thread mv = true → exec_move mv y = Some y' → frame (shared y) (shared y') ∧ clients y' = clients y.
Proof.
  destruct mv; simpl; [| | |done]; intros _ H.
  - destruct (control_step _ _ _) as [[c s]|] eqn:Hs; simplify_eq/=. split; [by eapply control_frame|done].
  - destruct (sensor_step _ _ _ _ _) as [[c s]|] eqn:Hs; simplify_eq/=. split; [by eapply sensor_frame|done].
  - destruct (monitor_step _ _) as [[c s]|] eqn:Hs; simplify_eq/=. split; [|done].
    destruct (monitor y); simpl in Hs; repeat case_match; simplify_eq; by split.
Qed.

(** A thread that only publishes. *)
Definition publisher (c : Client) : Prop := c = ClIdle ∨ ∃ p, c = ClPublish p.

Lemma publisher_frame (now : Z) (expired : bool) (e : Event) (c c' : Client) (y y' : EdgeSystem) :
  publisher c → client_step now expired (CallPublish e) c y = Some (c', y') →
  publisher c' ∧ frame (shared y) (shared y') ∧ clients y' = clients y.
Proof.
  unfold publisher. intros [->|[p ->]] H.
  { simpl in H. simplify_eq. split; [eauto|]. split; [apply frame_refl|done]. }
  cbn [client_step] in H. unfold publishing in H.
  destruct p; try (destruct (publish_step _ _ _ _) as [[p1 s1]|] eqn:Hp; [|done]); simplify_eq;
    (split; [eauto|]); (split; [|done]); try apply frame_refl; by eapply publish_frame.
Qed.

End Frames.

(** ** The invariant of the daemon *)

Section Invariant.
Context (L : PoolLayout) (euid : Z) (p : option PathEntry).

#[local] Hint Extern 1 (ObjectPool EdgePool PooledEvent) => exact (edge_pool L) : typeclass_instances.
#[local] Existing Instance edge_queue.

(** Started and not stopped. *)
Definition up (s : EdgeState) : Prop := started_ s = true ∧ stopped_ s = false.

(** Why the loop of [main] has ended. *)
Definition ending (s : EdgeState) (signal : bool) : Prop :=
  signal = true ∨ state_ (machine_ s) = safe_shutdown.

(** What the exit code means: 0 after the loop, 1 when the server did not start. *)
Definition code_ok (code : Z) (s : EdgeState) (signal : bool) : Prop :=
  code = 0 ∧ foreign euid p = false ∧ ending s signal ∨ code = 1.

(** Where the main thread is in its calls of the runtime ([c0]), whether the server
    runs, and the state of the runtime at each point of [main]. *)
Definition phase (m : Main) (c0 : Client) (s : EdgeState) (serving signal : bool) : Prop :=
  match m with
  | MainStart =>
      serving = false ∧ stopped_ s = false ∧
      ((c0 = ClIdle ∨ c0 = StartLock) ∧ started_ s = false ∨ start_active c0 = true ∧ started_ s = true)
  | MainListen => serving = false ∧ up s ∧ c0 = ClIdle
  | MainPoll | MainSnapshot => serving = true ∧ up s ∧ c0 = ClIdle
  | MainSignal | MainServerStop => serving = true ∧ up s ∧ c0 = ClIdle ∧ ending s signal
  | MainPublish => serving = true ∧ up s ∧ publisher c0 ∧ ending s signal
  | MainStop code =>
      serving = false ∧ code_ok code s signal ∧
      ((c0 = ClIdle ∨ c0 = StopLock) ∧ up s ∨ stop_in_progress c0)
  | MainExit code => serving = false ∧ code_ok code s signal ∧ ∃ r, c0 = StopReturned r
  end.

Lemma ending_frame (s s' : EdgeState) (signal : bool) : frame s s' → ending s signal → ending s' signal.
Proof. intros [_ _ Hf] [H|H]; [by left|right; auto]. Qed.

Lemma code_frame (code : Z) (s s' : EdgeState) (signal : bool) :
  frame s s' → code_ok code s signal → code_ok code s' signal.
Proof. intros Hf [(H1 & H2 & H3)|H]; [left; eauto using ending_frame|by right]. Qed.

Lemma up_frame (s s' : EdgeState) : frame s s' → up s → up s'.
Proof. intros [Hs Ht _] [H1 H2]. split; congruence. Qed.

Lemma phase_frame (m : Main) (c0 : Client) (s s' : EdgeState) (serving signal : bool) :
  frame s s' → phase m c0 s serving signal → phase m c0 s' serving signal.
Proof.
  intros Hf. pose proof (ending_frame s s' signal Hf) as He. pose proof (up_frame s s' Hf) as Hu.
  pose proof (λ code, code_frame code s s' signal Hf) as Hc. destruct Hf as [Hs Ht _].
  destruct m; simpl; rewrite ?Hs, ?Ht; naive_solver.
Qed.

Lemma phase_signal (m : Main) (c0 : Client) (s : EdgeState) (serving signal : bool) :
  phase m c0 s serving signal → phase m c0 s serving true.
Proof.
  assert (He : ending s signal → ending s true) by (intros _; by left).
  assert (Hc : ∀ code, code_ok code s signal → code_ok code s true) by (unfold code_ok; naive_solver).
  destruct m; simpl; naive_solver.
Qed.

Lemma move_reachable (mv : Move) (y y' : EdgeSystem) :
  edge_reachable L default_config 2 y → exec_move mv y = Some y' → edge_reachable L default_config 2 y'.
Proof. intros Hr Hm. eapply rtc_r; [exact Hr|by eapply exec_move_step]. Qed.

(** [start], one step: the program counter, the flags and what [main] makes of it. *)
Lemma start_phase (now : Z) (expired : bool) (c0 c0' : Client) (y y' : EdgeSystem) (signal : bool) :
  phase MainStart c0 (shared y) false signal →
  client_step now expired CallStart c0 y = Some (c0', y') →
  clients y' = clients y ∧ phase (after_start c0 c0') c0' (shared y') false signal.
Proof.
  intros (_ & Hst & [[[-> | ->] Hs]|[Ha Hs]]) H.
  - simpl in H. simplify_eq. simpl. naive_solver.
  - cbn [client_step] in H. rewrite Hs in H. destruct (lifecycle_locked _); simplify_eq. simpl. naive_solver.
  - destruct c0; try discriminate Ha; cbn [client_step] in H; unfold publishing, join_if_needed in H;
      try (simplify_eq; simpl; unfold up; simpl; naive_solver);
      (match type of H with context [match ?q with _ => _ end] => destruct q end);
      try (destruct (publish_step _ _ _ _) as [[p1 s1]|] eqn:Hp; [|done];
           apply publish_frame in Hp as [F1 F2 _]);
      simplify_eq; simpl; rewrite ?F1, ?F2; naive_solver.
Qed.

Lemma stop_phase (now : Z) (expired : bool) (code : Z) (c0 c0' : Client) (y y' : EdgeSystem) (signal : bool) :
  phase (MainStop code) c0 (shared y) false signal →
  client_step now expired CallStop c0 y = Some (c0', y') →
  clients y' = clients y ∧ phase (after_stop code c0 c0') c0' (shared y') false signal.
Proof.
  intros (_ & Hc & [[[-> | ->] [Hs Ht]]|Hprog]) H.
  - simpl in H. simplify_eq. simpl. unfold up. naive_solver.
  - cbn [client_step] in H. rewrite Hs, Ht in H. destruct (lifecycle_locked _); simplify_eq/=.
    split; [done|]. split; [done|]. split; [exact Hc|]. right. unfold stop_in_progress. simpl. lia.
  - unfold stop_in_progress in Hprog.
    destruct c0; cbn [stop_rank] in Hprog; try lia; cbn [client_step] in H; unfold publishing in H;
      try apply join_view in H as [-> ->];
      try (repeat case_match; simplify_eq; simpl; split; [done|]; split; [done|]; split; [exact Hc|];
           solve [right; unfold stop_in_progress; simpl; lia | eauto]).
    destruct p0; try (destruct (publish_step _ _ _ _) as [[p1 s1]|] eqn:Hp; [|done];
      apply publish_frame in Hp; apply (code_frame _ _ _ _ Hp) in Hc);
      simplify_eq; simpl; (split; [done|]; split; [done|]; split; [exact Hc|]);
      right; unfold stop_in_progress; simpl; lia.
Qed.

Lemma publish_phase (now : Z) (expired : bool) (c0 c0' : Client) (y y' : EdgeSystem) (signal : bool) :
  phase MainPublish c0 (shared y) true signal →
  client_step now expired (CallPublish Event_shutdown_requested) c0 y = Some (c0', y') →
  clients y' = clients y ∧ phase (after_publish c0 c0') c0' (shared y') true signal.
Proof.
  intros (_ & Hu & Hp & He) H. destruct (publisher_frame L _ _ _ _ _ _ _ Hp H) as (Hp' & Hf & Hcs).
  split; [done|]. apply (up_frame _ _ Hf) in Hu. apply (ending_frame _ _ _ Hf) in He.
  destruct Hp' as [->|[q ->]]; simpl; unfold publisher; naive_solver.
Qed.

Context (strerror : Z → text) (path : text) (os : Os).

Record daemon_inv (d : DaemonSystem) : Prop := {
  di_reachable : edge_reachable L default_config 2 (dm_runtime d);
  di_life : life_inv euid path os p (dm_server d, dm_host d);
  di_thread : thread_joinable (dm_server d) = srv_running_ (dm_server d);
  di_phase : ∃ c0 c1, clients (dm_runtime d) = [c0; c1] ∧ publisher c1 ∧
    (srv_running_ (dm_server d) = false → c1 = ClIdle) ∧
    phase (dm_main d) c0 (shared (dm_runtime d)) (srv_running_ (dm_server d)) (stop_requested d)
}.

(** A step of the main thread inside a call of the runtime. *)
Lemma main_call_inv (now : Z) (expired : bool) (call : Call) (after : Client → Client → Main)
    (d d' : DaemonSystem) :
  daemon_inv d → main_call L now expired call after d = Some d' →
  (∀ c0 c0' y', phase (dm_main d) c0 (shared (dm_runtime d)) (srv_running_ (dm_server d)) (stop_requested d) →
     client_step now expired call c0 (dm_runtime d) = Some (c0', y') →
     clients y' = clients (dm_runtime d) ∧
     phase (after c0 c0') c0' (shared y') (srv_running_ (dm_server d)) (stop_requested d)) →
  daemon_inv d'.
Proof.
  intros [Hr Hl Ht (c0 & c1 & Hcs & Hp1 & Hi1 & Hph)] Hc Hstep. unfold main_call in Hc.
  pose proof (move_reachable (MvClient 0 now expired call) (dm_runtime d)) as Hmv.
  cbn [exec_move] in *. rewrite Hcs in *. simpl in Hc, Hmv.
  destruct (client_step now expired call c0 (dm_runtime d)) as [[c0' y']|] eqn:Hs; simplify_eq/=.
  destruct (Hstep c0 c0' y' Hph Hs) as [Hcs' Hph']. rewrite Hcs' in Hc, Hmv. simplify_eq/=.
  split; [by eapply Hmv|done|done|]. exists c0', c1. done.
Qed.

Lemma main_step_inv (now : Z) (expired : bool) (env : StartEnv) (unlinking : option Z) (d d' : DaemonSystem) :
  daemon_inv d → main_step L strerror euid now expired env unlinking d = Some d' → daemon_inv d'.
Proof.
  intros Hinv H. pose proof Hinv as [Hr Hl Ht (c0 & c1 & Hcs & Hp1 & Hi1 & Hph)]. unfold main_step in H.
  destruct (dm_main d) as [| | | | | | |code|code] eqn:Hm; cbn [phase] in Hph.
  - apply (main_call_inv _ _ _ _ _ _ Hinv H). rewrite Hm, (proj1 Hph).
    intros c c' y' Hc Hs. by eapply start_phase.
  - destruct Hph as (Hn & Hu & ->). destruct (li_stopped _ _ _ _ _ Hl Hn) as [Hst _].
    pose proof (start_cases strerror euid env (dm_server d) (dm_host d) Hst) as Hc.
    pose proof (life_step_inv strerror euid path os p (OpStart env) _ Hl) as Hl'. simpl in Hl'.
    destruct (start strerror euid env (dm_server d) (dm_host d)) as [[h srv] r]. simplify_eq/=.
    destruct Hc as (_ & _ & Hc). destruct r as [m|].
    + destruct Hc as [-> _]. split; [done..|]. exists ClIdle, c1. split_and!; [done..|]. simpl.
      split_and!; [done|by right|left; auto].
    + destruct Hc as [He _]. rewrite He in *. split; [done..|]. by exists ClIdle, c1.
  - simplify_eq. split; [done..|]. exists c0, c1. split_and!; [done..|]. simpl.
    destruct (stop_requested d); simpl; [|done]. destruct Hph as (? & ? & ?). split_and!; [done..|by left].
  - simplify_eq. split; [done..|]. exists c0, c1. split_and!; [done..|]. simpl.
    destruct (state_is _ _) eqn:Hs; simpl; [|done]. unfold state_is in Hs. apply bool_decide_eq_true in Hs.
    destruct Hph as (? & ? & ?). split_and!; [done..|by right].
  - simplify_eq. split; [done..|]. exists c0, c1. split_and!; [done..|]. simpl.
    destruct Hph as (? & ? & -> & ?). destruct (stop_requested d); simpl; split_and!; try done. by left.
  - apply (main_call_inv _ _ _ _ _ _ Hinv H). rewrite Hm, (proj1 Hph).
    intros c c' y' Hc Hs. by eapply publish_phase.
  - destruct Hph as (Hrun & Hu & -> & He). rewrite Hcs in H. simpl in H.
    destruct c1; try discriminate H.
    destruct (li_running _ _ _ _ _ Hl Hrun) as (Hown & _).
    pose proof (stop_cases unlinking (dm_server d) (dm_host d) Hrun Hown) as Hc.
    pose proof (life_step_inv strerror euid path os p (OpStop unlinking) _ Hl) as Hl'. simpl in Hl'.
    assert (Hjoin : thread_joinable (snd (stop unlinking (dm_server d) (dm_host d))) = false)
      by (unfold stop; rewrite Hrun; cbn [negb]; by destruct (fd_reset _ _ _)).
    destruct (stop unlinking (dm_server d) (dm_host d)) as [h srv]. simplify_eq/=.
    destruct Hc as ((_ & Hn & _) & _). split; simpl; [done..|congruence|]. exists ClIdle, ClIdle.
    split_and!; [done|by left|done|done| |left; auto].
    left. split_and!; [done| |done]. destruct (foreign euid p) eqn:Hf; [|done].
    destruct (li_foreign _ _ _ _ _ Hl Hf). simpl in *. congruence.
  - apply (main_call_inv _ _ _ _ _ _ Hinv H). rewrite Hm, (proj1 Hph).
    intros c c' y' Hc Hs. by eapply stop_phase.
  - done.
Qed.

Lemma daemon_step_inv (mv : DaemonMove) (d d' : DaemonSystem) :
  daemon_inv d → daemon_step L strerror euid mv d = Some d' → daemon_inv d'.
Proof.
  intros Hinv H. destruct mv as [|mv|now expired e|now expired env unlinking];
    [| | |by eapply main_step_inv]; destruct Hinv as [Hr Hl Ht (c0 & c1 & Hcs & Hp1 & Hi1 & Hph)];
    cbn [daemon_step] in H.
  - simplify_eq. split; [done..|]. exists c0, c1. split_and!; [done..|]. by eapply phase_signal.
  - destruct (is_thread mv) eqn:Hmv; [|done].
    destruct (exec_move mv (dm_runtime d)) as [y|] eqn:Hy; simplify_eq/=.
    destruct (thread_frame L mv _ _ Hmv Hy) as [Hf Hc]. split; [by eapply move_reachable|done|done|].
    exists c0, c1. simpl. rewrite Hc. split_and!; [done..|]. by eapply phase_frame.
  - destruct (thread_joinable (dm_server d)) eqn:Hj; [|done].
    destruct (exec_move _ _) as [y|] eqn:Hy; simplify_eq/=.
    pose proof (move_reachable (MvClient 1 now expired (CallPublish e)) (dm_runtime d) y Hr Hy) as Hr'.
    cbn [exec_move] in Hy. rewrite Hcs in Hy. simpl in Hy.
    destruct (client_step _ _ _ _ _) as [[c1' y']|] eqn:Hs; simplify_eq/=.
    destruct (publisher_frame L _ _ _ _ _ _ _ Hp1 Hs) as (Hp' & Hf & Hc).
    split; simpl; [done|done|congruence|]. exists c0, c1'. rewrite Hc, Hcs. split_and!; [done|done|congruence|].
    by eapply phase_frame.
Qed.

Lemma daemon_init_inv : daemon_inv (daemon_init L path os p).
Proof.
  split; simpl; [apply rtc_refl|exact (life_run_inv strerror euid path os p [])|done|].
  exists ClIdle, ClIdle. split_and!; [done|by left|done..|]. auto.
Qed.

Lemma daemon_run_inv (mvs : list DaemonMove) (d d' : DaemonSystem) :
  daemon_inv d → daemon_run L strerror euid mvs d = Some d' → daemon_inv d'.
Proof.
  revert d. induction mvs as [|mv mvs IH]; intros d Hd H; simpl in H; [by simplify_eq|].
  destruct (daemon_step L strerror euid mv d) as [d1|] eqn:H1; [|done].
  apply (IH d1); [by eapply daemon_step_inv|done].
Qed.

End Invariant.
