(* ===== verification/DaemonExit.v ===== *)
(** * How the daemon ends

    Every exit of [main] leaves nothing behind, and after a signal or a remote
    shutdown an exit is always within reach. *)
From Stdlib Require Import Ascii String.
From stdpp Require Import gmap strings.
From S2P Require Import Prelude Bytes Double Domain Fsm Metrics Pool Queue QueueProps Interfaces Descriptors.
From S2P Require Import Command Server ServerLife Runtime RuntimeStop RuntimeProps DaemonMain.

(** The arguments are any number of [--socket PATH]; the last one counts. *)
Lemma daemon_arguments_spec (args : list text) (path path' : text) :
  daemon_arguments args path = Some path' ↔
  ∃ paths, args = paths ≫= (λ v, [lit "--socket"; v]) ∧ path' = default path (last paths).
Proof.
  split.
  - remember (length args) as n eqn:Hn. revert args path Hn.
    induction (lt_wf n) as [n _ IH]. intros args path -> H.
    destruct args as [|a [|v rest]]; simpl in H.
    + simplify_eq. by exists [].
    + by case_bool_decide.
    + case_bool_decide as Ha; [|done]. subst a.
      destruct (IH (length rest) ltac:(simpl; lia) rest v eq_refl H) as (paths & -> & ->).
      exists (v :: paths). split; [done|]. rewrite last_cons. by destruct (last paths).
  - intros (paths & -> & ->). revert path. induction paths as [|v paths IH]; intros path; [done|].
    simpl. rewrite IH, last_cons. by destruct (last paths).
Qed.

Section Exit.
Context (L : PoolLayout) (strerror : Z → text) (euid : Z) (HL : edge_layout_ok L).
Context (path : text) (os : Os) (p : option PathEntry).

#[local] Hint Extern 1 (ObjectPool EdgePool PooledEvent) => exact (edge_pool L) : typeclass_instances.
#[local] Existing Instance edge_queue.
#[local] Hint Extern 1 (ObjectPoolLaws EdgePool PooledEvent _) => exact (edge_pool_laws L HL) : typeclass_instances.
#[local] Existing Instance edge_queue_laws.

(** Nobody but the main thread takes the life-cycle lock. *)
Lemma lock_free (y : EdgeSystem) (c0 c1 : Client) :
  edge_reachable L default_config 2 y → clients y = [c0; c1] → publisher c1 → start_active c0 = false →
  lifecycle_locked (shared y) = false.
Proof.
  intros Hr Hcs Hp Ha. destruct (rt_reachable_inv default_config 2 y Hr) as (l & c & Hinv).
  pose proof (lf_lock _ _ (si_life _ _ _ _ Hinv)) as Hlock. rewrite Hcs in Hlock.
  assert (Ha1 : start_active c1 = false) by (destruct Hp as [->|[q ->]]; done).
  rewrite !count_cons, Ha, Ha1 in Hlock. by destruct (lifecycle_locked (shared y)).
Qed.

(** [stop()] finds the runtime stopped. *)
Lemma stopped_again (y : EdgeSystem) (now : Z) (expired : bool) (r : PublishResult) (l : list Handle) (c : bool) :
  sys_inv default_config y l c → clients y = [StopReturned r; ClIdle] → lifecycle_locked (shared y) = false →
  ∃ y', destroy_runtime L now expired y = Some y' ∧ shared y' = shared y ∧ clients y' = [ClIdle; ClIdle].
Proof.
  intros Hinv Hcs Hlock. pose proof (lf_clients _ _ (si_life _ _ _ _ Hinv)) as Hall. rewrite Hcs in Hall.
  apply Forall_cons in Hall as [Hok _]. pose proof (co_stopped _ _ _ _ _ _ Hok ltac:(simpl; lia)) as Hst.
  unfold destroy_runtime. cbn [replicate exec_all exec_move]. rewrite Hcs. simpl. rewrite Hcs. simpl.
  rewrite Hlock, Hst, orb_true_r. by eexists.
Qed.

(** ** The exit code *)

(** The code that [main] is bound to return, once [server.start()] has returned. *)
Definition main_code (m : Main) : option Z :=
  match m with
  | MainStart | MainListen => None
  | MainPoll | MainSnapshot | MainSignal | MainPublish | MainServerStop => Some 0%Z
  | MainStop code | MainExit code => Some code
  end.

(** In the run [mvs] from [d0] the call of [server.start()] returned [r]: nothing,
    or the message of its failure. *)
Definition server_started (mvs : list DaemonMove) (d0 : DaemonSystem) (r : option text) : Prop :=
  ∃ mvs1 now expired env unlinking mvs2 d1,
    mvs = mvs1 ++ DMain now expired env unlinking :: mvs2 ∧
    daemon_run L strerror euid mvs1 d0 = Some d1 ∧ dm_main d1 = MainListen ∧
    r = snd (start strerror euid env (dm_server d1) (dm_host d1)).

Definition outcome_code (r : option text) : Z := match r with None => 0%Z | Some _ => 1%Z end.

Lemma listen_code (now : Z) (expired : bool) (env : StartEnv) (unlinking : option Z) (d d' : DaemonSystem) :
  dm_main d = MainListen →
  daemon_step L strerror euid (DMain now expired env unlinking) d = Some d' →
  main_code (dm_main d') = Some (outcome_code (snd (start strerror euid env (dm_server d) (dm_host d)))).
Proof.
  intros Hm Hs. cbn [daemon_step] in Hs. unfold main_step in Hs. rewrite Hm in Hs.
  destruct (start _ _ _ _ _) as [[h srv] r]. simplify_eq. by destruct r.
Qed.

(** A call on the runtime by [main] keeps its code, whatever the call did. *)
Lemma main_call_code (now : Z) (expired : bool) (call : Call) (after : Client → Client → Main)
    (d d' : DaemonSystem) (code : Z) :
  (∀ c c', main_code (after c c') = Some code) →
  main_call L now expired call after d = Some d' → main_code (dm_main d') = Some code.
Proof.
  intros Hafter Hc. unfold main_call in Hc. apply bind_Some in Hc as (c & _ & Hc).
  apply bind_Some in Hc as (y & _ & Hc). apply bind_Some in Hc as (c' & _ & Hc). simplify_eq. apply Hafter.
Qed.

Lemma step_keeps_code (mv : DaemonMove) (d d' : DaemonSystem) (code : Z) :
  main_code (dm_main d) = Some code → daemon_step L strerror euid mv d = Some d' →
  main_code (dm_main d') = Some code.
Proof.
  intros Hm Hs. destruct mv as [|mv|now expired e|now expired env unlinking]; cbn [daemon_step] in Hs.
  - by simplify_eq.
  - destruct (is_thread mv); [|done]. apply bind_Some in Hs as (y & _ & Hs). by simplify_eq.
  - destruct (thread_joinable _); [|done]. apply bind_Some in Hs as (y & _ & Hs). by simplify_eq.
  - unfold main_step in Hs. destruct (dm_main d) as [| | | | | | |c|c]; cbn [main_code] in Hm; try done;
      try (simplify_eq; by repeat case_match).
    + eapply main_call_code; [|exact Hs]. intros c [] ; simpl; congruence.
    + destruct (clients (dm_runtime d) !! 1%nat) as [[]|]; try done. destruct (stop _ _ _). by simplify_eq.
    + eapply main_call_code; [|exact Hs]. intros c1 []; simpl; congruence.
Qed.

Lemma run_keeps_code (mvs : list DaemonMove) (d d' : DaemonSystem) (code : Z) :
  main_code (dm_main d) = Some code → daemon_run L strerror euid mvs d = Some d' →
  main_code (dm_main d') = Some code.
Proof.
  revert d. induction mvs as [|mv mvs IH]; intros d Hm H; simpl in H; [by simplify_eq|].
  destruct (daemon_step L strerror euid mv d) as [d1|] eqn:H1; [|done].
  apply (IH d1); [by eapply step_keeps_code|done].
Qed.

(** The code is decided by [server.start()] and by nothing else. *)
Lemma code_decided (path' : text) (mv : DaemonMove) (d d' : DaemonSystem) (code : Z) :
  daemon_inv L euid p path' os d → daemon_step L strerror euid mv d = Some d' →
  main_code (dm_main d) = None → main_code (dm_main d') = Some code →
  dm_main d = MainListen ∧ ∃ now expired env unlinking, mv = DMain now expired env unlinking.
Proof.
  intros Hinv Hs Hm Hm'. pose proof (daemon_step_inv L euid p strerror path' os mv d d' Hinv Hs) as Hinv'.
  destruct mv as [|mv|now expired e|now expired env unlinking]; cbn [daemon_step] in Hs.
  - by simplify_eq/=.
  - destruct (is_thread mv); [|done]. apply bind_Some in Hs as (y & _ & Hs). by simplify_eq/=.
  - destruct (thread_joinable _); [|done]. apply bind_Some in Hs as (y & _ & Hs). by simplify_eq/=.
  - split; [|by eauto]. unfold main_step in Hs. destruct (dm_main d) eqn:Hd; try done. exfalso.
    destruct (di_phase _ _ _ _ _ _ Hinv') as (c0 & c1 & Hcs & _ & _ & Hph).
    unfold main_call in Hs. apply bind_Some in Hs as (c & _ & Hs).
    apply bind_Some in Hs as (y & _ & Hs). apply bind_Some in Hs as (c' & Hc' & Hs). simplify_eq/=.
    rewrite Hcs in Hc'. simplify_eq/=.
    destruct c, c'; simpl in *; try discriminate Hm'; destruct_and?; naive_solver.
Qed.

Lemma run_decides_code (path' : text) (mvs : list DaemonMove) (d d' : DaemonSystem) (code : Z) :
  daemon_inv L euid p path' os d → daemon_run L strerror euid mvs d = Some d' →
  main_code (dm_main d) = None → main_code (dm_main d') = Some code → ∃ r, server_started mvs d r.
Proof.
  revert d. induction mvs as [|mv mvs IH]; intros d Hinv H Hm Hm'; simpl in H; [simplify_eq; congruence|].
  destruct (daemon_step L strerror euid mv d) as [d1|] eqn:H1; [|done].
  destruct (main_code (dm_main d1)) as [code1|] eqn:Hc1.
  - destruct (code_decided path' mv d d1 code1 Hinv H1 Hm Hc1) as (Hl & now & expired & env & unl & ->).
    eexists _, [], now, expired, env, unl, mvs, d. by split_and!.
  - destruct (IH d1) as (r & mvs1 & now & expired & env & unl & mvs2 & d2 & -> & Hr & Hl & ->); try done.
    { by eapply daemon_step_inv. }
    eexists _, (mv :: mvs1), now, expired, env, unl, mvs2, d2. split_and!; try done. simpl. by rewrite H1.
Qed.

Lemma daemon_run_app (mvs1 mvs2 : list DaemonMove) (d : DaemonSystem) :
  daemon_run L strerror euid (mvs1 ++ mvs2) d
  = d' ← daemon_run L strerror euid mvs1 d; daemon_run L strerror euid mvs2 d'.
Proof.
  revert d. induction mvs1 as [|mv mvs1 IH]; intros d; [done|]. simpl.
  destruct (daemon_step L strerror euid mv d); [apply IH|done].
Qed.

Lemma started_code (mvs : list DaemonMove) (d d' : DaemonSystem) (code : Z) (r : option text) :
  daemon_run L strerror euid mvs d = Some d' → dm_main d' = MainExit code →
  server_started mvs d r → code = outcome_code r.
Proof.
  intros H Hm (mvs1 & now & expired & env & unl & mvs2 & d1 & -> & H1 & Hl & ->).
  rewrite daemon_run_app, H1 in H. cbn [mbind option_bind] in H. apply bind_Some in H as (d2 & H2 & H3).
  pose proof (run_keeps_code _ _ _ _ (listen_code _ _ _ _ _ _ Hl H2) H3) as Hc.
  rewrite Hm in Hc. simpl in Hc. congruence.
Qed.

(** C32: the daemon leaves nothing behind, and its exit code tells whether the
    server started.  For any accepted arguments, any entry at the path they name,
    any interleaving of its threads, of the requests of clients and of signals, and
    any failures of the system calls: when [main] returns, the three threads of the
    runtime have ended, every event ever pushed was handled, every slot of the pool
    is free and none was released twice, and the table of descriptors is what it
    was.  The run has called [server.start()], and the code is 0 if that call
    succeeded and 1 if it failed; an entry at the path that belongs to someone else
    makes it 1 and is still there.  With either code the machine is in
    [SafeShutdown] if the [stop()] of the runtime could publish its shutdown event;
    with code 0 it is so in any case, except when a signal ended the loop and
    [stop()] could not publish.  The destructors that run then, which stop the
    runtime and the server again, return and change nothing. *)
Theorem daemon_exits_clean (args : list text) (d0 : DaemonSystem) (mvs : list DaemonMove)
    (d : DaemonSystem) (code : Z)
    (Hmain : daemon_main L euid args os p = inr d0)
    (Hrun : daemon_run L strerror euid mvs d0 = Some d)
    (Hexit : dm_main d = MainExit code) :
  let y := dm_runtime d in
  control y = CtlDone ∧ sensor y = SnsDone ∧ monitor y = MonDone ∧ running_ (shared y) = false ∧
  log_handled (shared y) = log_pushed (shared y) ∧
  outstanding L (r_pool (shared y)) = 0%Z ∧ invalid_releases (Pool.stats_ (r_pool (shared y))) = 0%Z ∧
  h_os (dm_host d) = os ∧ listener_ (dm_server d) = no_fd ∧
  (∃ r, server_started mvs d0 r) ∧ (∀ r, server_started mvs d0 r → code = outcome_code r) ∧
  (code = 0 ∨ code = 1)%Z ∧
  (foreign euid p = true → code = 1%Z ∧ h_path (dm_host d) = p) ∧
  (clients y !! 0 = Some (StopReturned Pub_published) → state_ (machine_ (shared y)) = safe_shutdown) ∧
  (code = 0%Z → state_ (machine_ (shared y)) = safe_shutdown ∨
     stop_requested d = true ∧ clients y !! 0 ≠ Some (StopReturned Pub_published)) ∧
  (∀ now expired, ∃ y', destroy_runtime L now expired y = Some y' ∧ shared y' = shared y ∧ clients y' = [ClIdle; ClIdle]) ∧
  (∀ unlinking, destroy_server unlinking (dm_server d) (dm_host d) = (dm_host d, dm_server d)).
Proof.
  unfold daemon_main in Hmain. destruct (daemon_arguments args _) as [path'|]; [|done]. injection Hmain as <-.
  destruct (daemon_run_inv L euid p strerror path' os mvs _ d (daemon_init_inv L euid p strerror path' os) Hrun)
    as [Hr Hl _ (c0 & c1 & Hcs & _ & Hi1 & Hph)].
  rewrite Hexit in Hph. destruct Hph as (Hn & Hcode & r & ->). rewrite (Hi1 Hn) in Hcs.
  destruct (li_stopped _ _ _ _ _ Hl Hn) as [(Hnofd & _) Hos].
  destruct (rt_reachable_inv default_config 2 _ Hr) as (l & c & Hinv).
  assert (Hi : clients (dm_runtime d) !! 0 = Some (StopReturned r)) by (by rewrite Hcs).
  destruct (stop_returned_inv default_config _ l c 0 r Hinv Hi)
    as (Hc & Hs & Hm & Hrun' & _ & _ & _ & Hlog & _ & Hsafe & Huse).
  pose proof (lock_free _ _ _ Hr Hcs ltac:(by left) eq_refl) as Hlock.
  destruct (sys_inv_pool default_config _ l c Hinv) as (Hinval & _).
  rewrite Hcs in Huse. intros y. split_and!; try done.
  - apply (run_decides_code path' mvs _ d code); [by apply daemon_init_inv|exact Hrun|done|by rewrite Hexit].
  - intros r'. by eapply started_code.
  - destruct Hcode as [[-> _]| ->]; auto.
  - intros Hf. destruct (li_foreign _ _ _ _ _ Hl Hf). split; [|done].
    destruct Hcode as [(_ & Hf' & _)|Hc1]; [congruence|done].
  - subst y. rewrite Hi. intros [= ->]. by apply Hsafe.
  - intros ->. destruct Hcode as [(_ & _ & [He|He])|]; [|by left|done].
    destruct (decide (r = Pub_published)) as [->|Hne]; [left; by apply Hsafe|].
    right. split; [done|]. subst y. rewrite Hi. congruence.
  - intros now expired. by apply (stopped_again _ now expired r l c).
  - intros unlinking. unfold destroy_server, stop. by rewrite Hn.
Qed.

(** ** After a signal or a remote shutdown *)

#[local] Abbreviation inv := (daemon_inv L euid p path os).
#[local] Abbreviation drun := (daemon_run L strerror euid).

(** Nobody but the threads that are under way is asked to do anything: the server
    thread begins nothing, and no sample is taken. *)
Definition unforced (mv : DaemonMove) (d : DaemonSystem) : Prop :=
  match mv with
  | DServer _ _ _ => clients (dm_runtime d) !! 1 ≠ Some ClIdle
  | DThread (MvSensor _ _ _) => sensor (dm_runtime d) = SnsCheck → sensor_stop (shared (dm_runtime d)) = true
  | _ => True
  end.

Inductive leads : DaemonSystem → DaemonSystem → Prop :=
| leads_refl d : leads d d
| leads_step mv d d1 d2 :
    daemon_step L strerror euid mv d = Some d1 → unforced mv d → leads d1 d2 → leads d d2.

Lemma leads_run (d d' : DaemonSystem) : leads d d' → ∃ mvs, drun mvs d = Some d'.
Proof. induction 1 as [d|mv d d1 d2 Hs _ _ [mvs IH]]; [by exists []|]. exists (mv :: mvs). simpl. by rewrite Hs. Qed.

(** A publication that runs out of patience moves, and has less left to do. *)
Lemma publishing_moves (y : EdgeSystem) (q : Publish) (wrap : Publish → Client) (next : PublishResult → Client) :
  edge_reachable L default_config 2 y →
  (∃ r, q = PubReturn r ∧ publishing 0 true q y wrap next = Some (next r, y)) ∨
  ∃ q' s', publishing 0 true q y wrap next = Some (wrap q', set_shared s' y) ∧
    publish_rank q' + queue_work s' < publish_rank q + queue_work (shared y).
Proof.
  intros Hr. destruct (rt_reachable_inv default_config 2 y Hr) as (l & c & Hinv).
  destruct (si_core _ _ _ _ Hinv) as (m & evs & _ & Hq & _).
  assert (Hcase : (∃ r, q = PubReturn r) ∨ ∀ r, q ≠ PubReturn r) by (destruct q; naive_solver).
  destruct Hcase as [[r ->]|Hnr]; [left; by exists r|]. right.
  pose proof (publish_moves q (shared y) l c Hq Hnr) as Hmv.
  destruct (publish_step 0 true q (shared y)) as [[q' s']|] eqn:Hs; [|done].
  exists q', s'. split; [destruct q; simpl in *; try rewrite Hs; naive_solver|].
  by apply (publish_decreases _ _ _ _ _ _ l c Hq) in Hs as [Hs _].
Qed.

Definition pub_left (c : Client) : nat :=
  match c with
  | ClIdle => 13
  | ClPublish q | StartPublish q | StartSelfTest q => publish_rank q
  | _ => 0
  end.

Definition start_left (c : Client) : nat :=
  20 * (match c with ClIdle => 9 | StartLock => 8 | _ => 8 - start_rank c end) + pub_left c.

Lemma publisher_moves (y : EdgeSystem) (c : Client) (e : Event) :
  edge_reachable L default_config 2 y → publisher c →
  ∃ c' y', client_step 0 true (CallPublish e) c y = Some (c', y') ∧ clients y' = clients y ∧
    (c' = ClIdle ∧ c ≠ ClIdle ∧ y' = y ∨
     c' ≠ ClIdle ∧ pub_left c' + queue_work (shared y') < pub_left c + queue_work (shared y)).
Proof.
  intros Hr [->|[q ->]].
  { eexists _, y. split; [reflexivity|]. split; [done|]. right. simpl. split; [done|lia]. }
  cbn [client_step].
  destruct (publishing_moves y q ClPublish (λ _, ClIdle) Hr) as [(r & -> & ->)|(q' & s' & -> & Hlt)].
  - eexists _, y. split; [reflexivity|]. auto.
  - eexists _, _. split; [reflexivity|]. split; [done|]. right. done.
Qed.

Lemma start_moves (y : EdgeSystem) (c0 c1 : Client) (signal : bool) :
  edge_reachable L default_config 2 y → clients y = [c0; c1] → publisher c1 →
  phase euid p MainStart c0 (shared y) false signal →
  ∃ c0' y', client_step 0 true CallStart c0 y = Some (c0', y') ∧ clients y' = clients y ∧
    (after_start c0 c0' = MainListen ∨
     after_start c0 c0' = MainStart ∧ start_left c0' + queue_work (shared y') < start_left c0 + queue_work (shared y)).
Proof.
  intros Hr Hcs Hp (_ & _ & Hph). unfold start_left.
  destruct Hph as [[[-> | ->] Hs]|[Ha _]].
  - eexists _, y. split; [reflexivity|]. split; [done|]. right. simpl. split; [done|lia].
  - cbn [client_step]. rewrite (lock_free y StartLock c1 Hr Hcs Hp eq_refl), Hs.
    eexists _, _. split; [reflexivity|]. split; [done|]. right. simpl. unfold queue_work. simpl. split; [done|lia].
  - destruct c0; try discriminate Ha; cbn [client_step];
      try (eexists _, _; split; [reflexivity|]; split; [done|]; unfold queue_work; simpl;
           first [by left|right; split; [done|lia]]).
    + destruct (publishing_moves y p0 StartPublish (λ _, StartSelfTest (PubLoad Event_self_test_passed)) Hr)
        as [(r & -> & ->)|(q' & s' & -> & Hlt)]; eexists _, _; (split; [reflexivity|]; split; [done|]);
        right; simpl in *; split; done || lia.
    + destruct (publishing_moves y p0 StartSelfTest (λ _, StartSensor) Hr)
        as [(r & -> & ->)|(q' & s' & -> & Hlt)]; eexists _, _; (split; [reflexivity|]; split; [done|]);
        right; simpl in *; split; done || lia.
Qed.

(** Up to the call of [runtime.stop()]. *)
Definition main_left (m : Main) : nat :=
  match m with
  | MainStart => 7 | MainListen => 6 | MainSnapshot => 5 | MainPoll => 4 | MainSignal => 3
  | MainPublish => 2 | MainServerStop => 1 | MainStop _ | MainExit _ => 0
  end.

Definition call_left (d : DaemonSystem) : nat :=
  match dm_main d, clients (dm_runtime d) with
  | MainStart, c0 :: _ => start_left c0
  | MainPublish, c0 :: _ => pub_left c0
  | MainServerStop, [_; c1] => match c1 with ClIdle => 0 | c1 => 1 + pub_left c1 end
  | _, _ => 0
  end + queue_work (shared (dm_runtime d)).

Definition closer (d' d : DaemonSystem) : Prop :=
  stop_requested d' = stop_requested d ∧
  (main_left (dm_main d') < main_left (dm_main d) ∨
   main_left (dm_main d') = main_left (dm_main d) ∧ call_left d' < call_left d).

Lemma main_call_eq (now : Z) (expired : bool) (call : Call) (after : Client → Client → Main)
    (d : DaemonSystem) (c0 c1 c0' : Client) (y' : EdgeSystem) :
  clients (dm_runtime d) = [c0; c1] → clients y' = [c0; c1] →
  client_step now expired call c0 (dm_runtime d) = Some (c0', y') →
  main_call L now expired call after d
  = Some (goto (after c0 c0') (MkSystem (shared y') (control y') (sensor y') (monitor y') [c0'; c1]) d).
Proof. intros Hcs Hcs' Hs. unfold main_call. cbn [exec_move]. rewrite Hcs. simpl. rewrite Hs. simpl. by rewrite Hcs'. Qed.

Definition any_env : StartEnv := MkStartEnv None None None None None None None.

(** Only the loop of [main] waits, for the signal or the final state. *)
Lemma daemon_progress (d : DaemonSystem) :
  inv d → stop_requested d = true ∨ dm_main d ≠ MainPoll → main_left (dm_main d) ≠ 0 →
  ∃ mv d', daemon_step L strerror euid mv d = Some d' ∧ unforced mv d ∧ closer d' d.
Proof.
  intros [Hr Hl Ht (c0 & c1 & Hcs & Hp1 & Hi1 & Hph)] Hsig Hm.
  assert (Hmain : ∀ d', main_step L strerror euid 0 true any_env None d = Some d' → closer d' d →
    ∃ mv d', daemon_step L strerror euid mv d = Some d' ∧ unforced mv d ∧ closer d' d)
    by (intros d' H Hc; exists (DMain 0 true any_env None), d'; done).
  assert (Hdrop : ∀ m y h srv, main_left m < main_left (dm_main d) →
    closer (MkDaemonSystem m y srv h (stop_requested d)) d) by (intros; split; [done|by left]).
  unfold main_step in Hmain. destruct (dm_main d) as [| | | | | | |code|code] eqn:Hd; cbn [phase] in Hph; try done.
  - destruct (start_moves (dm_runtime d) c0 c1 (stop_requested d) Hr Hcs Hp1) as (c0' & y' & Hs & Hcs' & Hc).
    { simpl. by rewrite (proj1 Hph) in Hph. }
    eapply Hmain; [apply (main_call_eq _ _ _ _ d c0 c1 c0' y' Hcs); [congruence|exact Hs]|].
    destruct Hc as [->|[-> Hlt]]; [apply Hdrop; simpl; lia|].
    split; [done|]. right. unfold call_left. simpl. rewrite Hd, Hcs. done.
  - destruct (start strerror euid any_env (dm_server d) (dm_host d)) as [[h srv] r] eqn:Hs.
    eapply Hmain; [done|]. apply Hdrop. destruct r; simpl; lia.
  - destruct Hsig as [Hsig|Hsig]; [|done]. eapply Hmain; [done|]. apply Hdrop. rewrite Hsig. simpl. lia.
  - eapply Hmain; [done|]. apply Hdrop. destruct (state_is _ _); simpl; lia.
  - eapply Hmain; [done|]. apply Hdrop. destruct (stop_requested d); simpl; lia.
  - destruct Hph as (_ & _ & Hp0 & _).
    destruct (publisher_moves (dm_runtime d) c0 Event_shutdown_requested Hr Hp0) as (c0' & y' & Hs & Hcs' & Hc).
    eapply Hmain; [apply (main_call_eq _ _ _ _ d c0 c1 c0' y' Hcs); [congruence|exact Hs]|].
    destruct Hc as [[-> _]|[Hne Hlt]]; [apply Hdrop; simpl; lia|].
    destruct (publisher_frame L _ _ _ _ _ _ _ Hp0 Hs) as [[->|[q ->]] _]; [done|].
    split; [done|]. right. unfold call_left. simpl. rewrite Hd, Hcs. done.
  - destruct Hph as (Hrun & _). destruct Hp1 as [->|[q ->]].
    { rewrite Hcs in Hmain. simpl in Hmain. destruct (stop None (dm_server d) (dm_host d)) as [h srv] eqn:Hs.
      eapply Hmain; [done|]. apply Hdrop. simpl. lia. }
    destruct (publisher_moves (dm_runtime d) (ClPublish q) Event_startup Hr) as (c1' & y' & Hs & Hcs' & Hc);
      [right; eauto|].
    exists (DServer 0 true Event_startup). cbn [daemon_step exec_move]. rewrite Ht, Hrun, Hcs.
    cbn [lookup list_lookup mbind option_bind]. rewrite Hs. eexists. split; [reflexivity|].
    split; [simpl; by rewrite Hcs|]. split; [done|]. right. unfold call_left. simpl. rewrite Hd, Hcs', !Hcs. split; [done|]. simpl.
    destruct Hc as [(-> & _ & ->)|[_ Hlt]]; [lia|]. destruct c1'; simpl in *; lia.
Qed.

(** As far as a bound on what is left that does not lie inside the loop, unless a
    signal ends the loop. *)
Lemma closer_leads (b : nat) (d : DaemonSystem) :
  inv d → stop_requested d = true ∨ main_left (dm_main d) ≤ 3 ∨ 4 ≤ b →
  ∃ d', leads d d' ∧ inv d' ∧ stop_requested d' = stop_requested d ∧ main_left (dm_main d') ≤ b.
Proof.
  remember (main_left (dm_main d)) as a eqn:Ha. revert d Ha. induction (lt_wf a) as [a _ IHa]. intros d Ha.
  remember (call_left d) as w eqn:Hw. revert d Ha Hw. induction (lt_wf w) as [w _ IHw].
  intros d -> -> Hinv Hsig. destruct (decide (main_left (dm_main d) ≤ b)) as [H0|H0].
  { exists d. split; [apply leads_refl|done]. }
  assert (Hloop : stop_requested d = true ∨ dm_main d ≠ MainPoll).
  { destruct Hsig as [Hsig|Hsig]; [by left|right]. intros Hm. rewrite Hm in *. simpl in *. lia. }
  destruct (daemon_progress d Hinv Hloop) as (mv & d1 & Hstep & Hun & Hsig1 & Hc); [lia|].
  pose proof (daemon_step_inv L euid p strerror path os mv d d1 Hinv Hstep) as Hinv1.
  assert (∃ d', leads d1 d' ∧ inv d' ∧ stop_requested d' = stop_requested d1 ∧ main_left (dm_main d') ≤ b)
    as (d' & Hl & Hi & Hs & Hm).
  { rewrite <- Hsig1 in Hsig.
    destruct Hc as [Hlt|[He Hlt]]; [apply (IHa _ Hlt d1 eq_refl Hinv1); destruct Hsig as [?|[?|?]]; auto; lia|].
    by apply (IHw _ Hlt d1). }
  exists d'. split_and!; [by eapply leads_step|done|congruence|done].
Qed.

(** A step of [runtime.stop()], or of a thread it waits for, as a move of the daemon. *)
Lemma own_step_move (d : DaemonSystem) (code : Z) (c0 c1 c0' : Client) (y' : EdgeSystem) :
  dm_main d = MainStop code → clients (dm_runtime d) = [c0; c1] → stop_in_progress c0 →
  own_step 0 (dm_runtime d) y' → clients y' !! 0 = Some c0' → 1 ≤ stop_rank c0' →
  no_sample (dm_runtime d) y' →
  ∃ mv, unforced mv d ∧ daemon_step L strerror euid mv d
        = Some (goto (if decide (stop_rank c0' = 11) then MainExit code else MainStop code) y' d).
Proof.
  intros Hm Hcs Hprog Hs Hc Hrank Hno. unfold stop_in_progress in Hprog.
  assert (Hthread : clients y' = clients (dm_runtime d) →
    (if decide (stop_rank c0' = 11) then MainExit code else MainStop code) = dm_main d).
  { intros He. rewrite He, Hcs in Hc. simplify_eq/=. rewrite decide_False by lia. done. }
  remember (dm_runtime d) as y eqn:Hy.
  destruct Hs as [y now pc s Hs|y now expired sample pc s Hs|y pc s Hs|y now expired call cl cl' y' Hi _ Hs];
    cbn [clients] in *; rewrite ?(Hthread eq_refl).
  - exists (DThread (MvControl now)). split; [done|]. cbn [daemon_step is_thread exec_move]. rewrite <- Hy, Hs. done.
  - exists (DThread (MvSensor now expired sample)). split.
    { simpl. rewrite <- Hy. intros Hck. destruct (Hno Hck) as [?|Hck']; [done|]. rewrite Hck in Hs. simpl in Hs, Hck'.
      destruct (sensor_stop (shared y)); [done|]. subst pc. by destruct sample. }
    cbn [daemon_step is_thread exec_move]. rewrite <- Hy, Hs. done.
  - exists (DThread MvMonitor). split; [done|]. cbn [daemon_step is_thread exec_move]. rewrite <- Hy, Hs. done.
  - rewrite Hcs in Hi. simplify_eq/=. exists (DMain now expired any_env None). split; [done|].
    cbn [daemon_step]. unfold main_step. rewrite Hm.
    assert (Hs' : client_step now expired CallStop cl (dm_runtime d) = Some (cl', y')).
    { rewrite <- Hs. destruct cl; try done. simpl in Hprog. lia. }
    assert (Hcs' : clients y' = clients (dm_runtime d)).
    { destruct cl; simpl in Hprog; try lia; cbn [client_step] in Hs'; unfold publishing, join_if_needed in Hs';
        repeat case_match; by simplify_eq/=. }
    rewrite (main_call_eq now expired CallStop (after_stop code) d cl c1 cl' y' Hcs) by congruence.
    rewrite Hcs', Hcs in *. simplify_eq/=. f_equal. f_equal. destruct c0'; simpl in *; try lia; done.
Qed.

Lemma stop_leads (d : DaemonSystem) (code : Z) (c0 c1 : Client) :
  edge_reachable L default_config 2 (dm_runtime d) → dm_main d = MainStop code →
  clients (dm_runtime d) = [c0; c1] → stop_in_progress c0 →
  ∃ d', leads d d' ∧ dm_main d' = MainExit code.
Proof.
  remember (stop_measure c0 (dm_runtime d)) as mu eqn:Hmu. revert d c0 c1 Hmu.
  induction (lt_wf mu) as [mu _ IH]. intros d c0 c1 -> Hr Hm Hcs Hprog.
  destruct (rt_reachable_inv default_config 2 _ Hr) as (l & c & Hinv).
  assert (Hi : clients (dm_runtime d) !! 0 = Some c0) by (by rewrite Hcs).
  destruct (stop_progress default_config 0 c0 _ l c Hinv Hi Hprog) as (y' & c0' & Hs & Hi' & Hrank & Hlt & Hno).
  destruct (own_step_move d code c0 c1 c0' y' Hm Hcs Hprog Hs Hi' Hrank Hno) as (mv & Hun & Hmv).
  assert (Hr' : edge_reachable L default_config 2 y').
  { eapply rtc_r; [exact Hr|by eapply own_step_rt]. }
  destruct (decide (stop_rank c0' = 11)) as [H11|H11].
  { eexists. split; [eapply leads_step; [exact Hmv|exact Hun|apply leads_refl]|done]. }
  pose proof (clients_length default_config 2 y' Hr') as Hlen.
  destruct (clients y') as [|a [|b [|? ?]]] eqn:Hcs'; try discriminate Hlen. simplify_eq/=.
  pose proof (stop_rank_max c0').
  destruct (IH _ Hlt (goto (MainStop code) y' d) c0' b eq_refl Hr' eq_refl Hcs') as (d' & Hl & He).
  { split; lia. }
  exists d'. split; [by eapply leads_step|done].
Qed.

(** A step of the main thread in [stop] that does not return. *)
Lemma stop_call_leads (d : DaemonSystem) (code : Z) (c0 c1 c0' : Client) (s : EdgeState) :
  edge_reachable L default_config 2 (dm_runtime d) → dm_main d = MainStop code →
  clients (dm_runtime d) = [c0; c1] →
  client_step 0 true CallStop c0 (dm_runtime d) = Some (c0', set_shared s (dm_runtime d)) →
  after_stop code c0 c0' = MainStop code →
  ∃ d1, (∀ d', leads d1 d' → leads d d') ∧ edge_reachable L default_config 2 (dm_runtime d1) ∧
    dm_main d1 = MainStop code ∧ clients (dm_runtime d1) = [c0'; c1] ∧ shared (dm_runtime d1) = s.
Proof.
  intros Hr Hm Hcs Hs Ha.
  pose proof (main_call_eq 0 true CallStop (after_stop code) d c0 c1 c0'
    (set_shared s (dm_runtime d)) Hcs Hcs Hs) as Hc.
  eexists. split; [intros d' Hd; eapply (leads_step (DMain 0 true any_env None)); [|done|exact Hd]|].
  { cbn [daemon_step]. unfold main_step. rewrite Hm. exact Hc. }
  rewrite Ha. split; [|done]. eapply rtc_r; [exact Hr|].
  pose proof (rt_client (dm_runtime d) 0 true CallStop 0 c0 c0' _ ltac:(by rewrite Hcs) Hs) as Hrt.
  cbn [set_shared clients shared control sensor monitor] in *. rewrite Hcs in Hrt. exact Hrt.
Qed.

Lemma stop_begins (d : DaemonSystem) (code : Z) :
  inv d → dm_main d = MainStop code → ∃ d', leads d d' ∧ dm_main d' = MainExit code.
Proof.
  intros [Hr Hl _ (c0 & c1 & Hcs & Hp1 & Hi1 & Hph)] Hm. rewrite Hm in Hph.
  destruct Hph as (_ & _ & [[Hc Hup]|Hprog]); [|by eapply stop_leads].
  assert (Hlock : ∃ d1, (∀ d', leads d1 d' → leads d d') ∧ edge_reachable L default_config 2 (dm_runtime d1) ∧
    dm_main d1 = MainStop code ∧ clients (dm_runtime d1) = [StopLock; c1] ∧ up (shared (dm_runtime d1))).
  { destruct Hc as [->| ->]; [|by exists d].
    destruct (stop_call_leads d code ClIdle c1 StopLock (shared (dm_runtime d)) Hr Hm Hcs)
      as (d1 & H1 & H2 & H3 & H4 & H5); [by destruct (dm_runtime d)|done|].
    exists d1. by rewrite H5. }
  destruct Hlock as (d1 & Hl1 & Hr1 & Hm1 & Hcs1 & [Hst Hsp]).
  destruct (stop_call_leads d1 code StopLock c1 (StopPublish (PubLoad Event_shutdown_requested))
    (set_stopped (shared (dm_runtime d1))) Hr1 Hm1 Hcs1) as (d2 & Hl2 & Hr2 & Hm2 & Hcs2 & _); [|done|].
  { cbn [client_step]. by rewrite (lock_free _ StopLock c1 Hr1 Hcs1 Hp1 eq_refl), Hst, Hsp. }
  destruct (stop_leads d2 code _ c1 Hr2 Hm2 Hcs2) as (d' & Hl' & He); [unfold stop_in_progress; simpl; lia|].
  exists d'. auto.
Qed.

Lemma leads_trans (d1 d2 d3 : DaemonSystem) : leads d1 d2 → leads d2 d3 → leads d1 d3.
Proof. induction 1; [done|]. intros. eapply leads_step; eauto. Qed.

Lemma leads_inv (d d' : DaemonSystem) : inv d → leads d d' → inv d'.
Proof. intros Hi [mvs H]%leads_run. by eapply daemon_run_inv. Qed.

(** Past the loop, the end is within reach. *)
Lemma ending_leads (d : DaemonSystem) :
  inv d → stop_requested d = true ∨ main_left (dm_main d) ≤ 3 →
  ∃ d' code, leads d d' ∧ dm_main d' = MainExit code.
Proof.
  intros Hinv Hs. destruct (closer_leads 0 d Hinv) as (d1 & H1 & Hinv1 & _ & Hm); [tauto|].
  destruct (dm_main d1) as [| | | | | | |code|code] eqn:Hd; simpl in Hm; try lia.
  - destruct (stop_begins d1 code Hinv1 Hd) as (d' & ? & ?). exists d', code. eauto using leads_trans.
  - by exists d1, code.
Qed.

(** The control thread, as moves of the daemon. *)
Lemma control_leads (mvs : list Move) (d : DaemonSystem) (y : EdgeSystem) :
  Forall (λ mv, ∃ now, mv = MvControl now) mvs → exec_all mvs (dm_runtime d) = Some y →
  leads d (goto (dm_main d) y d).
Proof.
  intros Hf. revert d. induction Hf as [|mv mvs Hmv _ IH]; intros d H; simpl in H.
  { simplify_eq. destruct d. apply leads_refl. }
  destruct (exec_move mv (dm_runtime d)) as [y1|] eqn:Hs; [|done].
  destruct Hmv as [now ->].
  eapply (leads_step (DThread (MvControl now))); [cbn [daemon_step is_thread]; by rewrite Hs|done|].
  apply (IH (goto (dm_main d) y1 d) H).
Qed.

Lemma leads_log (d d' : DaemonSystem) :
  leads d d' → log_pushed (shared (dm_runtime d)) `prefix_of` log_pushed (shared (dm_runtime d')).
Proof.
  induction 1 as [|mv d d1 d2 Hs _ _ IH]; [done|].
  etrans; [|exact IH]. destruct (daemon_step_view _ _ _ _ _ _ Hs) as [->|(rmv & _ & He)]; [done|].
  by eapply rt_step_log, exec_move_step.
Qed.

(** Everything pushed is handled: the machine is where a shutdown leaves it. *)
Lemma shutdown_handled (y : EdgeSystem) :
  edge_reachable L default_config 2 y → log_handled (shared y) = log_pushed (shared y) →
  Event_shutdown_requested ∈ log_pushed (shared y) → state_ (machine_ (shared y)) = safe_shutdown.
Proof.
  intros Hr Hl Hin. destruct (rt_reachable_inv default_config 2 y Hr) as (l & c & Hinv).
  destruct (sys_inv_events default_config y l c Hinv) as (pending & _ & -> & _).
  apply shutdown_in_log. by rewrite Hl.
Qed.

(** When [main] returns, a shutdown event that was pushed has been handled. *)
Lemma exit_safe (d : DaemonSystem) (code : Z) :
  inv d → dm_main d = MainExit code → Event_shutdown_requested ∈ log_pushed (shared (dm_runtime d)) →
  state_ (machine_ (shared (dm_runtime d))) = safe_shutdown.
Proof.
  intros [Hr _ _ (c0 & c1 & Hcs & _ & _ & Hph)] Hexit Hin. rewrite Hexit in Hph. destruct Hph as (_ & _ & r & ->).
  destruct (rt_reachable_inv default_config 2 _ Hr) as (l & c & Hsys).
  destruct (stop_returned_inv default_config _ l c 0 r Hsys ltac:(by rewrite Hcs)) as (_ & _ & _ & _ & _ & _ & _ & Hh & _).
  by apply shutdown_handled.
Qed.

(** In the loop, the control thread takes the machine to the final state. *)
Lemma remote_shutdown_ends (d : DaemonSystem) :
  inv d → dm_main d = MainPoll → stop_requested d = false →
  Event_shutdown_requested ∈ log_pushed (shared (dm_runtime d)) →
  ∃ d', leads d d' ∧ dm_main d' = MainSignal.
Proof.
  intros Hinv Hm Hsig Hin. pose proof Hinv as [Hr _ _ (c0 & c1 & Hcs & Hp1 & _ & Hph)].
  rewrite Hm in Hph. destruct Hph as (_ & [Hst _] & ->).
  destruct (rt_reachable_inv default_config 2 _ Hr) as (l & c & Hsys).
  destruct (lf_spawned _ _ (si_life _ _ _ _ Hsys) Hst (lock_free _ ClIdle c1 Hr Hcs Hp1 eq_refl)) as (Hctl & _).
  destruct (control_catches_up default_config 2 _ Hr Hctl) as (k & y & He & Hh & Hl).
  assert (Hsafe : state_is safe_shutdown (machine_ (shared y)) = true).
  { apply bool_decide_eq_true_2, shutdown_handled; [by eapply exec_all_reachable|done|by rewrite Hl]. }
  assert (H1 : leads d (goto MainPoll y d))
    by (rewrite <- Hm; eapply control_leads; [|exact He]; apply Forall_replicate; eauto).
  exists (goto MainSignal y d). split; [|done]. eapply leads_trans; [exact H1|].
  eapply (leads_step (DMain 0 true any_env None) _ (goto MainSnapshot y d)).
  { cbn [daemon_step]. unfold main_step. simpl. by rewrite Hsig. }
  { done. }
  eapply (leads_step (DMain 0 true any_env None)); [|done|apply leads_refl].
  cbn [daemon_step]. unfold main_step. simpl. by rewrite Hsafe.
Qed.

(** Told to end: by a signal, or by a shutdown event in the queue or handled. *)
Definition told_to_end (d : DaemonSystem) : Prop :=
  stop_requested d = true ∨ Event_shutdown_requested ∈ log_pushed (shared (dm_runtime d)).

(** A daemon that is told to end can always exit. *)
Lemma told_leads (d : DaemonSystem) :
  inv d → told_to_end d → ∃ d' code, leads d d' ∧ dm_main d' = MainExit code.
Proof.
  intros Hinv [Hsig|Hin]; [by apply ending_leads; auto|].
  destruct (closer_leads 4 d Hinv) as (d1 & H1 & Hinv1 & _ & Hm); [auto|].
  enough (∃ d2, leads d1 d2 ∧ (stop_requested d2 = true ∨ main_left (dm_main d2) ≤ 3)) as (d2 & H2 & He).
  { destruct (ending_leads d2) as (d' & code & H3 & Hx); [by eapply leads_inv|done|]. eauto 6 using leads_trans. }
  destruct (stop_requested d1) eqn:Hs; [exists d1; auto using leads_refl|].
  destruct (decide (main_left (dm_main d1) ≤ 3)); [exists d1; auto using leads_refl|].
  destruct (remote_shutdown_ends d1 Hinv1) as (d2 & H2 & Hm2); [|done| |exists d2; rewrite Hm2; auto].
  - destruct (dm_main d1); simpl in *; done || lia.
  - destruct (leads_log _ _ H1) as [? ->]. apply elem_of_app. by left.
Qed.

End Exit.

(** ** A run of the daemon

    It starts, the handler publishes a reset, a signal arrives, it exits. *)

Section Run.
#[local] Existing Instance edge_queue.

Definition main_moves (k : nat) : list DaemonMove := replicate k (DMain 0 true good_env None).
Definition signalled_moves : list DaemonMove :=
  main_moves 18 ++ replicate 3 (DServer 0 true Event_reset_requested) ++ [DSignal].
Definition exit_moves : list DaemonMove :=
  signalled_moves ++ replicate 3 (DServer 0 true Event_reset_requested)
  ++ main_moves 9 ++ main_moves 11 ++ [DThread (MvSensor 4 false None); DThread MvMonitor]
  ++ main_moves 3 ++ replicate 29 (DThread (MvControl 7)) ++ main_moves 2.

Definition example_os : Os := MkOs {[0; 1; 2]}%Z 0.
End Run.

Abbreviation example_run mvs :=
  (daemon_run demo_edge_layout (λ _, []) 1000 mvs (daemon_init demo_edge_layout (lit "/tmp/s") example_os None)).

Lemma daemon_exits_clean_witness :
  ∃ d, example_run exit_moves = Some d ∧ dm_main d = MainExit 0%Z ∧
    outstanding demo_edge_layout (r_pool (shared (dm_runtime d))) = 0%Z ∧ h_os (dm_host d) = example_os.
Proof.
  destruct (example_run exit_moves) as [d|] eqn:Hd; [|exfalso; vm_compute in Hd; discriminate Hd].
  exists d. assert (Hm : dm_main d = MainExit 0%Z).
  { assert (Hv : (dm_main <$> example_run exit_moves) = Some (MainExit 0%Z)) by (vm_compute; reflexivity).
    rewrite Hd in Hv. injection Hv as Hv. exact Hv. }
  destruct (daemon_exits_clean demo_edge_layout (λ _, []) 1000 demo_layout_edge_ok example_os None
    [lit "--socket"; lit "/tmp/s"] (daemon_init demo_edge_layout (lit "/tmp/s") example_os None)
    exit_moves d 0%Z eq_refl Hd Hm) as (_ & _ & _ & _ & _ & Ho & _ & Hos & _).
  split_and!; [reflexivity|exact Hm|exact Ho|exact Hos].
Defined.
