(* ===== verification/DaemonWhole.v ===== *)
(** * The whole daemon ([apps/edge_sentinel_daemon.cpp])

    [DaemonMain] lets the server thread publish any event at any time, and [Daemon]
    runs [build_response] without interruption.  Here the two meet: the server
    thread takes a connection, reads a request, runs [build_response] one access at
    a time among the steps of every other thread, and sends the answer; the sensor
    thread reads the simulated sensor that the requests override; [snapshot()]
    keeps the machine locked.  Whatever this system does is a run of [DaemonMain]. *)
From Stdlib Require Import Ascii String.
From stdpp Require Import gmap strings.
From S2P Require Import Prelude Bytes Double Domain Fsm Metrics Pool Queue Interfaces Runtime RuntimeProps.
From S2P Require Import Measurement Uart Buses Descriptors Sensors Command Server ServerLife Format Daemon DaemonMain.

Local Open Scope Z_scope.

(** ** The server thread *)

(** Where the server thread is.  [loads]: the counters read so far. *)
Inductive Handler :=
| HIdle                                                              (* in [accept_loop] *)
| HBuild                                                             (* calls [build_response] *)
| HMetrics (k : CommandKind) (m : MachineSnapshot) (loads : list Z)  (* in [snapshot()]: [metrics_.snapshot()] *)
| HPool (k : CommandKind) (m : MachineSnapshot) (mt : RuntimeMetrics)                    (* [pool_.stats()] *)
| HQueue (k : CommandKind) (m : MachineSnapshot) (mt : RuntimeMetrics) (ps : PoolStats)  (* [queue_.stats()] *)
| HReset                                                             (* publishes the reset *)
| HSelfTest (reset : PublishResult)                                  (* publishes the self-test *)
| HShutdown                                                          (* publishes the shutdown *)
| HReply (response : text).                                          (* sends the response *)

(** A request, and how many events were pushed and handled when it had arrived. *)
Record Session := MkSession {
  ses_request : text;
  ses_pushed : nat;
  ses_handled : nat
}.

(** [ans_sent]: how many bytes of the response went out. *)
Record Answer := MkAnswer {
  ans_session : Session;
  ans_response : text;
  ans_sent : nat
}.

(** [w_session], [w_requests] and [w_answers] are history variables: the request
    being served, the requests [build_response] was called with, the answers. *)
Record Whole := MkWhole {
  w_daemon : DaemonSystem;
  w_sensor : SimulatedSensor;
  w_handler : Handler;
  w_session : Session;
  w_requests : list text;
  w_answers : list Answer
}.

(** The loads of [RuntimeMetrics::snapshot()], in their order. *)
Definition counters (m : RuntimeMetrics) : list Z :=
  [events_published_ m; events_processed_ m; events_dropped_ m; transitions_ m; monitor_ticks_ m;
   last_event_latency_ns_ m; max_event_latency_ns_ m].

Definition loaded (loads : list Z) : RuntimeMetrics :=
  match loads with
  | [a; b; c; d; e; f; g] => MkMetrics a b c d e f g
  | _ => metrics_init
  end.

Definition snapshot_line (k : CommandKind) (s : RuntimeSnapshot) : text :=
  if decide (k = Cmd_status) then status_line s else metrics_line s.

Section Whole.
Context (L : PoolLayout) (strerror : Z → text) (euid : Z).

#[local] Hint Extern 1 (ObjectPool EdgePool PooledEvent) => exact (edge_pool L) : typeclass_instances.
#[local] Existing Instance edge_queue.

Definition whole_init (socket_path : text) (os : Os) (p : option PathEntry) : Whole :=
  MkWhole (daemon_init L socket_path os p) (simulated_init nominal_sample) HIdle (MkSession [] 0 0) [] [].

Definition w_shared (w : Whole) : EdgeState := shared (dm_runtime (w_daemon w)).

Definition with_daemon (d : DaemonSystem) (h : Handler) (w : Whole) : Whole :=
  MkWhole d (w_sensor w) h (w_session w) (w_requests w) (w_answers w).

Definition with_handler (h : Handler) (w : Whole) : Whole := with_daemon (w_daemon w) h w.

(** [build_response] up to its first call of the runtime that takes more than one
    access: what it does to the sensor, and where it goes on. *)
Definition begin_response (request : text) (s : EdgeState) (sim : SimulatedSensor) : SimulatedSensor * Handler :=
  let parsed := parse_command request in
  let reply (t : text) := HReply (end_line t) in
  if negb (parse_ok parsed) then (sim, reply (lit "error=" ++ lit (ParseError_to_string (error parsed))))
  else
    match cmd_kind (command parsed) with
    | (Cmd_status | Cmd_metrics) as k => (sim, HMetrics k (machine_snapshot (machine_ s)) [])
    | Cmd_inject =>
        match injected_sample (cmd_target (command parsed)) (cmd_value (command parsed)) with
        | None => (sim, reply (lit "error=unknown_target"))
        | Some injected => (set_override injected sim, reply (lit "ok=injection_set"))
        end
    | Cmd_clear => (clear_override sim, reply (lit "ok=injection_cleared"))
    | Cmd_reset => (clear_override sim, HReset)
    | Cmd_shutdown => (sim, HShutdown)
    | Cmd_invalid => (sim, reply (lit "error=unknown_command"))
    end.

(** What [build_response] returns after the publications. *)
Definition after_reset (reset self_test : PublishResult) : Handler :=
  HReply (end_line (if bool_decide (reset = Pub_published) && bool_decide (self_test = Pub_published)
                    then lit "ok=reset_requested" else lit "error=event_delivery_failed")).
Definition after_shutdown (result : PublishResult) : Handler :=
  HReply (end_line (if bool_decide (result = Pub_published)
                    then lit "ok=shutdown_requested" else lit "error=event_delivery_failed")).

(** One access of [runtime.publish(e)] on the server thread, client 1; [next] is
    where the handler goes with the result. *)
Definition server_publish (now : Z) (expired : bool) (e : Event) (next : PublishResult → Handler)
    (w : Whole) : option Whole :=
  c ← clients (dm_runtime (w_daemon w)) !! 1%nat;
  d ← daemon_step L strerror euid (DServer now expired e) (w_daemon w);
  Some (with_daemon d (match c with ClPublish (PubReturn r) => next r | _ => w_handler w end) w).

(** One access of the server thread in the rest of [serve_client]; [counts] are the
    results of [send]. *)
Definition handler_step (now : Z) (expired : bool) (counts : list Z) (w : Whole) : option Whole :=
  let s := w_shared w in
  match w_handler w with
  | HIdle => None
  | HBuild =>
      let '(sim, h) := begin_response (ses_request (w_session w)) s (w_sensor w) in
      Some (MkWhole (w_daemon w) sim h (w_session w) (w_requests w ++ [ses_request (w_session w)]) (w_answers w))
  | HMetrics k m loads =>
      Some (with_handler
        match counters (metrics_ s) !! length loads with
        | Some v => HMetrics k m (loads ++ [v])
        | None => HPool k m (loaded loads)
        end w)
  | HPool k m mt => Some (with_handler (HQueue k m mt (pool_stats L (r_pool s))) w)
  | HQueue k m mt ps =>
      let qs := queue_stats kEventQueueCapacity (r_queue s) in
      Some (with_handler (HReply (end_line (snapshot_line k (MkRuntimeSnapshot m mt ps qs)))) w)
  | HReset => server_publish now expired Event_reset_requested HSelfTest w
  | HSelfTest reset => server_publish now expired Event_self_test_passed (after_reset reset) w
  | HShutdown => server_publish now expired Event_shutdown_requested after_shutdown w
  | HReply response =>
      sent ← transmit counts (length response) 0;
      Some (MkWhole (w_daemon w) (w_sensor w) HIdle (w_session w) (w_requests w)
              (w_answers w ++ [MkAnswer (w_session w) response sent]))
  end.

(** A client connects: the bytes of its request arrive as [script] says, up to the
    call of the handler. *)
Definition connect_step (script : list Arrival) (w : Whole) : option Whole :=
  match w_handler w with
  | HIdle =>
      if negb (thread_joinable (dm_server (w_daemon w))) then None
      else match receive script [] with
      | ReqWaiting => None
      | ReqAbandoned | ReqReceived [] => Some w
      | ReqReceived used =>
          let s := w_shared w in
          let ses := MkSession used (length (log_pushed s)) (length (log_handled s)) in
          let h := if (kMaximumCommandLength <? length used)%nat
                   then HReply (lit "error=too_long" ++ [newline]) else HBuild in
          Some (MkWhole (w_daemon w) (w_sensor w) h ses (w_requests w) (w_answers w))
      end
  | _ => None
  end.

(** ** The other threads *)

(** [machine_mutex_] is held by the [snapshot()] of the server thread. *)
Definition machine_held (h : Handler) : bool :=
  match h with HMetrics _ _ _ | HPool _ _ _ | HQueue _ _ _ _ => true | _ => false end.

Definition wants_machine (c : Control) : bool := match c with CtlHandle _ _ => true | _ => false end.

(** The sensor thread reads the simulated sensor when it is not to stop. *)
Definition reads_sensor (y : EdgeSystem) : bool :=
  match sensor y with SnsCheck => negb (sensor_stop (shared y)) | _ => false end.

(** [server.stop()] joins the server thread; [snapshot()] in the loop of [main]
    waits for the machine. *)
Definition main_waits (w : Whole) : bool :=
  match dm_main (w_daemon w) with
  | MainServerStop => match w_handler w with HIdle => false | _ => true end
  | MainSnapshot => machine_held (w_handler w)
  | _ => false
  end.

Inductive WholeMove :=
| WSignal
| WControl (now : Z)
| WSensor (now : Z) (expired : bool)
| WMonitor
| WConnect (script : list Arrival)
| WServer (now : Z) (expired : bool) (counts : list Z)
| WMain (now : Z) (expired : bool) (env : StartEnv) (unlinking : option Z).

(** A move that is one of [DaemonMain]; [sim] is the sensor it leaves. *)
Definition daemon_moves (mv : DaemonMove) (sim : SimulatedSensor) (w : Whole) : option Whole :=
  d ← daemon_step L strerror euid mv (w_daemon w);
  Some (MkWhole d sim (w_handler w) (w_session w) (w_requests w) (w_answers w)).

Definition whole_step (mv : WholeMove) (w : Whole) : option Whole :=
  let y := dm_runtime (w_daemon w) in
  match mv with
  | WSignal => daemon_moves DSignal (w_sensor w) w
  | WControl now =>
      if machine_held (w_handler w) && wants_machine (control y) then None
      else daemon_moves (DThread (MvControl now)) (w_sensor w) w
  | WSensor now expired =>
      let '(sim, smp) := simulated_read (w_sensor w) in
      daemon_moves (DThread (MvSensor now expired (Some smp))) (if reads_sensor y then sim else w_sensor w) w
  | WMonitor => daemon_moves (DThread MvMonitor) (w_sensor w) w
  | WConnect script => connect_step script w
  | WServer now expired counts => handler_step now expired counts w
  | WMain now expired env unlinking =>
      if main_waits w then None else daemon_moves (DMain now expired env unlinking) (w_sensor w) w
  end.

Fixpoint whole_run (mvs : list WholeMove) (w : Whole) : option Whole :=
  match mvs with
  | [] => Some w
  | mv :: mvs => w ← whole_step mv w; whole_run mvs w
  end.

(** ** The three kinds of steps *)

Definition is_server (mv : WholeMove) : bool := match mv with WServer _ _ _ => true | _ => false end.
Definition not_server (mv : DaemonMove) : Prop := match mv with DServer _ _ _ => False | _ => True end.
Definition is_main (mv : DaemonMove) : Prop := match mv with DMain _ _ _ _ => True | _ => False end.

(** The samples that the sensor thread takes are those of the simulated sensor. *)
Definition sampled (mv : DaemonMove) (sim : SimulatedSensor) (w : Whole) : Prop :=
  match mv with
  | DThread (MvSensor _ _ sample) =>
      sample = Some (snd (simulated_read (w_sensor w))) ∧
      (sim = w_sensor w ∨ sim = fst (simulated_read (w_sensor w)))
  | _ => sim = w_sensor w
  end.

(** A client connects, the server thread moves, or another thread moves as in
    [DaemonMain]. *)
Lemma whole_step_view (mv : WholeMove) (w w' : Whole) :
  whole_step mv w = Some w' →
  is_server mv = false ∧ (∃ script, connect_step script w = Some w') ∨
  is_server mv = true ∧ (∃ now expired counts, handler_step now expired counts w = Some w') ∨
  is_server mv = false ∧
    ∃ dmv sim, daemon_moves dmv sim w = Some w' ∧ not_server dmv ∧ sampled dmv sim w ∧
      (is_main dmv → dm_main (w_daemon w) = MainServerStop → w_handler w = HIdle).
Proof.
  intros H. destruct mv as [|now|now expired| |script|now expired counts|now expired env unlinking];
    cbn [whole_step] in H; [do 2 right..|left|right; left|do 2 right]; (split; [done|]); eauto.
  - by exists DSignal, (w_sensor w).
  - destruct (_ && _); [done|]. by exists (DThread (MvControl now)), (w_sensor w).
  - destruct (simulated_read (w_sensor w)) as [sim smp] eqn:Hr. eexists _, _. split_and!; [exact H|done| |done].
    cbn [sampled]. rewrite Hr. split; [done|]. destruct (reads_sensor _); auto.
  - by exists (DThread MvMonitor), (w_sensor w).
  - destruct (main_waits w) eqn:Hm; [done|]. eexists _, _. split_and!; [exact H|done..|].
    intros _ Hms. unfold main_waits in Hm. rewrite Hms in Hm. by destruct (w_handler w).
Qed.

(** What a step does to the daemon below. *)
Lemma whole_step_daemon (mv : WholeMove) (w w' : Whole) :
  whole_step mv w = Some w' →
  w_daemon w' = w_daemon w ∨ ∃ dmv, daemon_step L strerror euid dmv (w_daemon w) = Some (w_daemon w').
Proof.
  intros H. destruct (whole_step_view mv w w' H)
    as [[_ [script Hc]]|[[_ (now & expired & counts & Hc)]|[_ (dmv & sim & Hc & _)]]].
  - left. unfold connect_step in Hc. repeat case_match; by simplify_eq.
  - assert (Hpub : ∀ e next, server_publish now expired e next w = Some w' →
      ∃ dmv, daemon_step L strerror euid dmv (w_daemon w) = Some (w_daemon w')).
    { intros e next Hs. unfold server_publish in Hs. apply bind_Some in Hs as (c & _ & Hs).
      apply bind_Some in Hs as (d' & Hd & Hs). simplify_eq. eauto. }
    unfold handler_step in Hc. destruct (w_handler w); try (right; exact (Hpub _ _ Hc)); left; try by simplify_eq.
    + destruct (begin_response _ _ _). by simplify_eq.
    + apply bind_Some in Hc as (sent & _ & Hc). by simplify_eq.
  - right. unfold daemon_moves in Hc. apply bind_Some in Hc as (d' & Hd & Hc). simplify_eq. eauto.
Qed.

End Whole.
