(* ===== verification/DaemonAnswers.v ===== *)
(** * The answers of the daemon

    In every interleaving of the threads of the daemon, what a client is told is
    what happened. *)
From Stdlib Require Import Ascii String.
From stdpp Require Import gmap strings.
From S2P Require Import Prelude Bytes Double Domain Fsm Metrics Pool Queue Interfaces Runtime RuntimeStop RuntimeCounts.
From S2P Require Import RuntimeProps EventFlow Measurement Uart Buses Descriptors Sensors Command CommandProps Server.
From S2P Require Import ServerLife Format Daemon DaemonTypes DaemonMain DaemonExit DaemonWhole.

Local Open Scope Z_scope.

(** ** What an answer promises *)

(** These events were pushed, in this order, after the request had arrived. *)
Definition delivered (evs : list Event) (ses : Session) (s : EdgeState) : Prop :=
  evs `sublist_of` drop (ses_pushed ses) (log_pushed s).

(** The machine as it was at some time since the request arrived. *)
Definition reports (ses : Session) (s : EdgeState) (m : MachineSnapshot) : Prop :=
  ∃ n, (ses_handled ses ≤ n ≤ length (log_handled s))%nat ∧
       m = machine_snapshot (handle_all (take n (log_handled s)) (machine_init default_config)).

(** A 64-bit counter of something that happened between [lo] and [hi] times. *)
Definition counted (v lo hi : Z) : Prop := ∃ n, lo ≤ n ≤ hi ∧ v = n mod u64_modulus.

(** The counters of the published and of the processed events are current, up to
    what the threads have in hand. *)
Definition accounts (ses : Session) (s : EdgeState) (loads : list Z) : Prop :=
  (∀ v, loads !! 0%nat = Some v →
     counted v (Z.of_nat (ses_pushed ses) - 3) (Z.of_nat (length (log_pushed s)))) ∧
  (∀ v, loads !! 1%nat = Some v →
     counted v (Z.of_nat (ses_handled ses) - 1) (Z.of_nat (length (log_handled s)))).

Definition answer_ok (s : EdgeState) (ses : Session) (response : text) : Prop :=
  let parsed := parse_command (ses_request ses) in
  let says (t : string) := response = end_line (lit t) in
  if (kMaximumCommandLength <? length (ses_request ses))%nat then says "error=too_long"
  else if negb (parse_ok parsed) then response = end_line (lit "error=" ++ lit (ParseError_to_string (error parsed)))
  else
    match cmd_kind (command parsed) with
    | Cmd_status => ∃ r, response = end_line (status_line r) ∧ reports ses s (rs_machine r)
    | Cmd_metrics => ∃ r, response = end_line (metrics_line r) ∧ accounts ses s (counters (rs_metrics r))
    | Cmd_inject => says "ok=injection_set"
    | Cmd_clear => says "ok=injection_cleared"
    | Cmd_reset =>
        says "ok=reset_requested" ∧ delivered [Event_reset_requested; Event_self_test_passed] ses s
        ∨ says "error=event_delivery_failed"
    | Cmd_shutdown =>
        says "ok=shutdown_requested" ∧ delivered [Event_shutdown_requested] ses s
        ∨ says "error=event_delivery_failed"
    | Cmd_invalid => False
    end.

(** Both logs grow. *)
Definition grows (s s' : EdgeState) : Prop :=
  log_pushed s `prefix_of` log_pushed s' ∧ log_handled s `prefix_of` log_handled s'.

Lemma delivered_grows (evs : list Event) (ses : Session) (s s' : EdgeState) :
  grows s s' → delivered evs ses s → delivered evs ses s'.
Proof.
  intros [[l Hl] _] H. unfold delivered in *. rewrite Hl, drop_app.
  etrans; [exact H|]. by apply sublist_inserts_r.
Qed.

Lemma reports_grows (ses : Session) (s s' : EdgeState) (m : MachineSnapshot) :
  grows s s' → reports ses s m → reports ses s' m.
Proof.
  intros [_ [l Hl]] (n & Hn & ->). exists n. rewrite Hl, length_app, take_app_le by lia. split; [lia|done].
Qed.

Lemma accounts_grows (ses : Session) (s s' : EdgeState) (loads : list Z) :
  grows s s' → accounts ses s loads → accounts ses s' loads.
Proof.
  intros [H1%prefix_length H2%prefix_length] [Ha Hb]. split; intros v Hv.
  - destruct (Ha v Hv) as (n & Hn & ->). exists n. split; [lia|done].
  - destruct (Hb v Hv) as (n & Hn & ->). exists n. split; [lia|done].
Qed.

Lemma answer_ok_grows (ses : Session) (s s' : EdgeState) (response : text) :
  grows s s' → answer_ok s ses response → answer_ok s' ses response.
Proof.
  intros Hg. unfold answer_ok. destruct (_ <? _)%nat; [done|]. destruct (negb _); [done|].
  destruct (cmd_kind _); try done; naive_solver eauto using delivered_grows, reports_grows, accounts_grows.
Qed.

(** ** Where the server thread is *)

(** [publish] of [e] under way; one that has succeeded has pushed [e]. *)
Definition carries (e : Event) (q : Publish) : Prop :=
  match q with
  | PubLoad e' | PubCreate e' | PubPush e' _ => e' = e
  | PubDrop _ r => r ≠ Pub_published
  | PubCount _ | PubReturn _ => True
  end.

Definition succeeded (q : Publish) : Prop :=
  match q with PubCount r | PubReturn r => r = Pub_published | _ => False end.

(** Client 1 publishes [e]; when [Q], the events [sent] have gone before. *)
Definition in_flight (Q : Prop) (sent : list Event) (e : Event) (c1 : Client) (ses : Session) (s : EdgeState) : Prop :=
  (Q → delivered sent ses s) ∧
  (c1 = ClIdle ∨ ∃ q, c1 = ClPublish q ∧ carries e q ∧ (succeeded q → Q → delivered (sent ++ [e]) ses s)).

Definition asks (ses : Session) (k : CommandKind) : Prop :=
  (length (ses_request ses) ≤ kMaximumCommandLength)%nat ∧
  parse_ok (parse_command (ses_request ses)) = true ∧
  cmd_kind (command (parse_command (ses_request ses))) = k.

Definition taking (k : CommandKind) : Prop := k = Cmd_status ∨ k = Cmd_metrics.

Definition handler_ok (h : Handler) (c1 : Client) (ses : Session) (s : EdgeState) : Prop :=
  match h with
  | HIdle => c1 = ClIdle
  | HBuild => c1 = ClIdle ∧ (length (ses_request ses) ≤ kMaximumCommandLength)%nat
  | HMetrics k m loads =>
      c1 = ClIdle ∧ taking k ∧ asks ses k ∧ reports ses s m ∧ accounts ses s loads ∧ (length loads ≤ 7)%nat
  | HPool k m mt | HQueue k m mt _ =>
      c1 = ClIdle ∧ taking k ∧ asks ses k ∧ reports ses s m ∧ accounts ses s (counters mt)
  | HReset => asks ses Cmd_reset ∧ in_flight True [] Event_reset_requested c1 ses s
  | HSelfTest reset =>
      asks ses Cmd_reset ∧ in_flight (reset = Pub_published) [Event_reset_requested] Event_self_test_passed c1 ses s
  | HShutdown => asks ses Cmd_shutdown ∧ in_flight True [] Event_shutdown_requested c1 ses s
  | HReply response => c1 = ClIdle ∧ answer_ok s ses response
  end.

Lemma in_flight_grows (Q : Prop) (sent : list Event) (e : Event) (c1 : Client) (ses : Session) (s s' : EdgeState) :
  grows s s' → in_flight Q sent e c1 ses s → in_flight Q sent e c1 ses s'.
Proof. intros Hg. unfold in_flight. naive_solver eauto using delivered_grows. Qed.

Lemma handler_ok_grows (h : Handler) (c1 : Client) (ses : Session) (s s' : EdgeState) :
  grows s s' → handler_ok h c1 ses s → handler_ok h c1 ses s'.
Proof.
  intros Hg. destruct h; simpl;
    naive_solver eauto using in_flight_grows, reports_grows, accounts_grows, answer_ok_grows.
Qed.

(** ** The steps *)

Section Answers.
Context (L : PoolLayout) (strerror : Z → text) (euid : Z) (HL : edge_layout_ok L).
Context (path : text) (os : Os) (p : option PathEntry).

#[local] Hint Extern 1 (ObjectPool EdgePool PooledEvent) => exact (edge_pool L) : typeclass_instances.
#[local] Existing Instance edge_queue.
#[local] Hint Extern 1 (ObjectPoolLaws EdgePool PooledEvent _) => exact (edge_pool_laws L HL) : typeclass_instances.
#[local] Existing Instance edge_queue_laws.

(** A step of a publication keeps what it carries, and pushes it when it succeeds. *)
Lemma publish_carries (now : Z) (expired : bool) (e : Event) (q q' : Publish) (s s' : EdgeState) :
  publish_step now expired q s = Some (q', s') → carries e q →
  carries e q' ∧ log_handled s' = log_handled s ∧
  (log_pushed s' = log_pushed s ∧ (succeeded q' → succeeded q) ∨ log_pushed s' = log_pushed s ++ [e]).
Proof.
  intros H Hc. destruct q; simpl in H, Hc; repeat case_match; simplify_eq; simpl; split_and!; try done; naive_solver.
Qed.

Lemma delivered_push (evs : list Event) (e : Event) (ses : Session) (s s' : EdgeState) :
  (ses_pushed ses ≤ length (log_pushed s))%nat → log_pushed s' = log_pushed s ++ [e] →
  delivered evs ses s → delivered (evs ++ [e]) ses s'.
Proof. intros Hn Hl H. unfold delivered in *. rewrite Hl, drop_app_le by done. by apply sublist_app. Qed.

(** One access of the server thread while it publishes. *)
Lemma in_flight_step (Q : Prop) (sent : list Event) (now : Z) (expired : bool) (e : Event) (c1 c1' : Client)
    (ses : Session) (y y' : EdgeSystem) :
  client_step now expired (CallPublish e) c1 y = Some (c1', y') →
  (ses_pushed ses ≤ length (log_pushed (shared y)))%nat →
  in_flight Q sent e c1 ses (shared y) →
  match c1 with
  | ClPublish (PubReturn r) => c1' = ClIdle ∧ y' = y ∧ (r = Pub_published → Q → delivered (sent ++ [e]) ses (shared y))
  | _ => grows (shared y) (shared y') ∧ in_flight Q sent e c1' ses (shared y')
  end.
Proof.
  intros H Hn [Hs [->|(q & -> & Hc & Hq)]].
  { simpl in H. simplify_eq. split; [done|]. split; [done|]. right. eexists. split; [done|]. done. }
  cbn [client_step] in H.
  assert (Hstep : (∃ r, q = PubReturn r ∧ c1' = ClIdle ∧ y' = y) ∨ (∀ r, q ≠ PubReturn r) ∧
    ∃ q' s', publish_step now expired q (shared y) = Some (q', s') ∧ c1' = ClPublish q' ∧ shared y' = s').
  { unfold publishing in H. destruct q; simplify_eq; eauto 6; right; (split; [done|]);
      (destruct (publish_step _ _ _ _) as [[q' s']|]; [|done]); simplify_eq; eauto. }
  clear H. destruct Hstep as [(r & -> & -> & ->)|(Hnr & q' & s' & Hp & -> & Hy)]; [done|].
  destruct (publish_carries _ _ _ _ _ _ _ Hp Hc) as (Hc' & Hh & Hl). rewrite Hy.
  assert (Hg : grows (shared y) s').
  { split; [|by rewrite Hh]. destruct Hl as [[-> _]| ->]; [done|by eexists]. }
  assert (Hin : in_flight Q sent e (ClPublish q') ses s').
  { split; [intros; eapply delivered_grows; eauto|]. right. exists q'. split_and!; [done..|].
    intros Hok HQ. destruct Hl as [[_ Hsucc]|Hl]; [eapply delivered_grows; eauto|].
    eapply delivered_push; eauto. }
  by destruct q.
Qed.

(** ** The invariant *)

Record whole_inv (w : Whole) : Prop := {
  wi_run : ∃ mvs, daemon_run L strerror euid mvs (daemon_init L path os p) = Some (w_daemon w);
  wi_pushed : (ses_pushed (w_session w) ≤ length (log_pushed (w_shared w)))%nat;
  wi_handled : (ses_handled (w_session w) ≤ length (log_handled (w_shared w)))%nat;
  wi_handler : ∃ c1, clients (dm_runtime (w_daemon w)) !! 1%nat = Some c1 ∧
    handler_ok (w_handler w) c1 (w_session w) (w_shared w);
  wi_serving : w_handler w ≠ HIdle → thread_joinable (dm_server (w_daemon w)) = true;
  wi_answers : Forall (λ a, answer_ok (w_shared w) (ans_session a) (ans_response a)) (w_answers w)
}.

Lemma run_snoc (mvs : list DaemonMove) (mv : DaemonMove) (d d' : DaemonSystem) :
  daemon_run L strerror euid mvs (daemon_init L path os p) = Some d → daemon_step L strerror euid mv d = Some d' →
  ∃ mvs', daemon_run L strerror euid mvs' (daemon_init L path os p) = Some d'.
Proof. intros H Hs. exists (mvs ++ [mv]). rewrite daemon_run_app, H. simpl. by rewrite Hs. Qed.

Lemma run_inv (mvs : list DaemonMove) (d : DaemonSystem) :
  daemon_run L strerror euid mvs (daemon_init L path os p) = Some d → daemon_inv L euid p path os d.
Proof. apply daemon_run_inv, daemon_init_inv. exact strerror. Qed.

Lemma daemon_step_grows (mv : DaemonMove) (d d' : DaemonSystem) :
  daemon_step L strerror euid mv d = Some d' → grows (shared (dm_runtime d)) (shared (dm_runtime d')).
Proof.
  intros H. destruct (daemon_step_view _ _ _ _ _ _ H) as [->|(rmv & _ & He)]; [done|].
  exact (exec_move_logs L _ _ _ He).
Qed.

(** The other threads leave the server thread where it is. *)
Lemma daemon_step_client (mv : DaemonMove) (d d' : DaemonSystem) :
  daemon_step L strerror euid mv d = Some d' → not_server mv →
  clients (dm_runtime d') !! 1%nat = clients (dm_runtime d) !! 1%nat.
Proof.
  intros H Hn. destruct (daemon_step_view _ _ _ _ _ _ H) as [->|(rmv & Hr & He)]; [done|].
  destruct mv as [|mv| |now expired env unlinking]; try done.
  - destruct Hr as [-> Ht]. by destruct (thread_frame L mv _ _ Ht He) as [_ ->].
  - destruct Hr as (call & -> & _). cbn [exec_move] in He.
    destruct (clients (dm_runtime d) !! 0%nat) as [c|]; [|done]. simpl in He.
    destruct (client_step _ _ _ _ _) as [[c' y']|] eqn:Hs; [|done]. simpl in He. injection He as <-. simpl.
    rewrite list_lookup_insert_ne by done. by destruct (client_threads _ _ _ _ _ _ _ Hs) as (-> & _).
Qed.

(** The server thread is there until [server.stop()] joins it. *)
Lemma daemon_step_thread (mv : DaemonMove) (d d' : DaemonSystem) :
  daemon_inv L euid p path os d → daemon_step L strerror euid mv d = Some d' →
  (is_main mv → dm_main d ≠ MainServerStop) → thread_joinable (dm_server d) = true → thread_joinable (dm_server d') = true.
Proof.
  intros [_ _ Ht (c0 & c1 & _ & _ & _ & Hph)] H Hm Hj.
  destruct mv as [|mv|now expired e|now expired env unlinking]; cbn [daemon_step] in H.
  - by simplify_eq.
  - destruct (is_thread mv); [|done]. apply bind_Some in H as (y & _ & H). by simplify_eq.
  - rewrite Hj in H. apply bind_Some in H as (y & _ & H). by simplify_eq.
  - assert (Hcall : ∀ call after, main_call L now expired call after d = Some d' → dm_server d' = dm_server d).
    { intros call after Hc. by destruct (main_call_view _ _ _ _ _ _ _ Hc) as (m & y & _ & ->). }
    unfold main_step in H. destruct (dm_main d); try (apply Hcall in H; by rewrite H); try done; try by simplify_eq.
    2:{ by destruct Hm. }
    destruct Hph as [Hsrv _]. congruence.
Qed.

(** A step of another thread. *)
Lemma other_inv (mv : DaemonMove) (w : Whole) (d' : DaemonSystem) (sim : SimulatedSensor) :
  whole_inv w → daemon_step L strerror euid mv (w_daemon w) = Some d' → not_server mv →
  (is_main mv → dm_main (w_daemon w) = MainServerStop → w_handler w = HIdle) →
  whole_inv (MkWhole d' sim (w_handler w) (w_session w) (w_requests w) (w_answers w)).
Proof.
  intros [[mvs Hrun] H2 H3 (c1 & Hc1 & Hh) H5 H6] Hs Hn Hm. pose proof (daemon_step_grows _ _ _ Hs) as Hg.
  pose proof Hg as [Hp1%prefix_length Hp2%prefix_length]. unfold w_shared in *.
  split; unfold w_shared; cbn [w_daemon w_handler w_session w_answers].
  - by eapply run_snoc.
  - lia.
  - lia.
  - exists c1. rewrite (daemon_step_client _ _ _ Hs Hn). split; [done|]. by eapply handler_ok_grows.
  - intros Hh'. eapply daemon_step_thread; [by eapply run_inv|exact Hs| |by apply H5].
    intros Him Hms. by apply Hh', Hm.
  - eapply Forall_impl; [exact H6|]. intros a. by apply answer_ok_grows.
Qed.

Lemma whole_reachable (w : Whole) : whole_inv w → edge_reachable L default_config 2 (dm_runtime (w_daemon w)).
Proof. intros [[mvs Hrun] _ _ _ _ _]. exact (di_reachable _ _ _ _ _ _ (run_inv _ _ Hrun)). Qed.

(** What the server thread reads is current. *)
Lemma reads_machine (w : Whole) :
  whole_inv w → reports (w_session w) (w_shared w) (machine_snapshot (machine_ (w_shared w))).
Proof.
  intros Hw. destruct (rt_reachable_inv default_config 2 _ (whole_reachable w Hw)) as (l & c & Hinv).
  destruct (sys_inv_events default_config _ l c Hinv) as (pending & _ & Hm & _).
  exists (length (log_handled (w_shared w))). split; [split; [apply (wi_handled w Hw)|done]|].
  rewrite take_ge by done. unfold w_shared. by rewrite Hm.
Qed.

Lemma reads_counter (w : Whole) (loads : list Z) (v : Z) :
  whole_inv w → counters (metrics_ (w_shared w)) !! length loads = Some v →
  accounts (w_session w) (w_shared w) loads → accounts (w_session w) (w_shared w) (loads ++ [v]).
Proof.
  intros Hw Hv [H0 H1]. pose proof (whole_reachable w Hw) as Hr.
  pose proof (lag_bounds default_config 2 _ Hr) as Hlag.
  destruct (reachable_counts default_config 2 _ Hr) as [Hp [Hh _]]. unfold published_lag in Hp.
  fold (w_shared w) in Hp, Hh. pose proof (wi_pushed w Hw). pose proof (wi_handled w Hw).
  split; intros x Hx; apply lookup_app_Some in Hx as [Hx|[Hlen Hx]]; auto.
  - destruct loads; [|simpl in *; lia]. simpl in *. simplify_eq. rewrite Hp. eexists. split; [|reflexivity]. lia.
  - destruct loads as [|a [|b loads]]; simpl in *; [done| |lia]. simplify_eq. rewrite Hh. eexists.
    split; [|reflexivity]. destruct (handled_uncounted _); simpl; lia.
Qed.

Lemma counters_loaded (loads : list Z) : length loads = 7%nat → counters (loaded loads) = loads.
Proof. by destruct loads as [|a [|b [|c [|d [|e [|f [|g [|h loads]]]]]]]]. Qed.

(** The answer to a request whose handler is at [HReply]. *)
Lemma asked (ses : Session) (s : EdgeState) (k : CommandKind) (response : text) :
  asks ses k →
  answer_ok s ses response ↔
  match k with
  | Cmd_status => ∃ r, response = end_line (status_line r) ∧ reports ses s (rs_machine r)
  | Cmd_metrics => ∃ r, response = end_line (metrics_line r) ∧ accounts ses s (counters (rs_metrics r))
  | Cmd_inject => response = end_line (lit "ok=injection_set")
  | Cmd_clear => response = end_line (lit "ok=injection_cleared")
  | Cmd_reset =>
      response = end_line (lit "ok=reset_requested") ∧
        delivered [Event_reset_requested; Event_self_test_passed] ses s
      ∨ response = end_line (lit "error=event_delivery_failed")
  | Cmd_shutdown =>
      response = end_line (lit "ok=shutdown_requested") ∧ delivered [Event_shutdown_requested] ses s
      ∨ response = end_line (lit "error=event_delivery_failed")
  | Cmd_invalid => False
  end.
Proof.
  intros (Hl & Hp & Hk). unfold answer_ok.
  rewrite (proj2 (Nat.ltb_ge _ _) Hl), Hp, Hk. reflexivity.
Qed.

(** [build_response] begins. *)
Lemma begin_ok (w : Whole) :
  whole_inv w → w_handler w = HBuild →
  handler_ok (snd (begin_response (ses_request (w_session w)) (w_shared w) (w_sensor w))) ClIdle
    (w_session w) (w_shared w).
Proof.
  intros Hw Hh. destruct (wi_handler w Hw) as (c1 & _ & Hok). rewrite Hh in Hok. destruct Hok as [_ Hlen].
  pose proof (reads_machine w Hw) as Hm. set (ses := w_session w) in *. set (s := w_shared w) in *.
  pose proof (parse_command_ok (ses_request ses)) as Hpar. unfold begin_response.
  destruct (parse_ok (parse_command (ses_request ses))) eqn:Hp; cbn [negb].
  2:{ split; [done|]. unfold answer_ok. by rewrite (proj2 (Nat.ltb_ge _ _) Hlen), Hp. }
  assert (Hasks : asks ses (cmd_kind (command (parse_command (ses_request ses))))) by done.
  unfold parse_ok in Hp. apply bool_decide_eq_true in Hp. unfold parsed_ok in Hpar. rewrite decide_True in Hpar by done.
  assert (Hnil : accounts ses s []) by done.
  destruct (cmd_kind (command (parse_command (ses_request ses)))) eqn:Hk; cbn [snd handler_ok].
  - by unfold command_ok in Hpar; rewrite Hk in Hpar.
  - split_and!; [done|by left|done|done|done|simpl; lia].
  - split_and!; [done|by right|done|done|done|simpl; lia].
  - destruct (injected_ok _ Hk Hpar) as (smp & -> & _). split; [done|]. by apply (asked ses s _ _ Hasks).
  - split; [done|]. by apply (asked ses s _ _ Hasks).
  - split; [done|]. split; [intros _; apply sublist_nil_l|by left].
  - split; [done|]. split; [intros _; apply sublist_nil_l|by left].
Qed.

(** A step of the server thread that touches nothing shared. *)
Lemma quiet_inv (w : Whole) (sim : SimulatedSensor) (h : Handler) (reqs : list text) :
  whole_inv w → w_handler w ≠ HIdle → handler_ok h ClIdle (w_session w) (w_shared w) →
  clients (dm_runtime (w_daemon w)) !! 1%nat = Some ClIdle →
  whole_inv (MkWhole (w_daemon w) sim h (w_session w) reqs (w_answers w)).
Proof. intros [H1 H2 H3 _ H5 H6] Hi Hh Hc. split; try done; [by exists ClIdle|intros _; by apply H5]. Qed.

(** The server thread moves its publication. *)
Lemma server_step_view (now : Z) (expired : bool) (e : Event) (d d' : DaemonSystem) (c1 : Client) :
  daemon_step L strerror euid (DServer now expired e) d = Some d' → clients (dm_runtime d) !! 1%nat = Some c1 →
  ∃ c1' y', client_step now expired (CallPublish e) c1 (dm_runtime d) = Some (c1', y') ∧
    clients (dm_runtime d') !! 1%nat = Some c1' ∧ shared (dm_runtime d') = shared y' ∧ dm_server d' = dm_server d.
Proof.
  intros H Hc. cbn [daemon_step] in H. destruct (thread_joinable _); [|done]. cbn [exec_move] in H.
  rewrite Hc in H. simpl in H.
  destruct (client_step _ _ _ _ _) as [[c1' y']|] eqn:Hs; [|done]. simpl in H. injection H as <-. simpl.
  destruct (client_threads _ _ _ _ _ _ _ Hs) as (-> & _). exists c1', y'. split_and!; try done.
  apply list_lookup_insert_eq. by eapply lookup_lt_Some.
Qed.

Lemma publish_inv (k : CommandKind) (Q : Prop) (sent : list Event) (now : Z) (expired : bool) (e : Event)
    (next : PublishResult → Handler) (w w' : Whole) :
  whole_inv w → w_handler w ≠ HIdle → server_publish L strerror euid now expired e next w = Some w' →
  (∀ c1 s, handler_ok (w_handler w) c1 (w_session w) s ↔ asks (w_session w) k ∧ in_flight Q sent e c1 (w_session w) s) →
  (∀ r, asks (w_session w) k → (r = Pub_published → Q → delivered (sent ++ [e]) (w_session w) (w_shared w)) →
        handler_ok (next r) ClIdle (w_session w) (w_shared w)) →
  whole_inv w'.
Proof.
  intros [[mvs Hrun] H2 H3 (c1 & Hc1 & Hh) H5 H6] Hi H Heq Hnext. unfold server_publish in H.
  rewrite Hc1 in H. cbn [mbind option_bind] in H. apply bind_Some in H as (d' & Hs & H). injection H as <-.
  apply Heq in Hh as [Hk Hf]. pose proof (daemon_step_grows _ _ _ Hs) as Hg.
  pose proof Hg as [Hp1%prefix_length Hp2%prefix_length].
  destruct (server_step_view _ _ _ _ _ _ Hs Hc1) as (c1' & y' & Hstep & Hc1' & Hsh & Hsrv).
  pose proof (in_flight_step Q sent _ _ _ _ _ (w_session w) _ _ Hstep H2 Hf) as Hview.
  unfold w_shared in *. split; unfold w_shared; cbn [w_daemon w_handler w_session w_answers with_daemon].
  - by eapply run_snoc.
  - lia.
  - lia.
  - exists c1'. split; [done|]. rewrite Hsh. destruct c1 as [|[]| | | | | | | | | | | | | | | | | | | |];
      try (by destruct Hf as [_ [?|(? & ? & _)]]); try (apply Heq; split; [done|by apply Hview]).
    destruct Hview as (-> & -> & Hr). by apply Hnext.
  - intros _. rewrite Hsrv. by apply H5.
  - eapply Forall_impl; [exact H6|]. intros a. by apply answer_ok_grows.
Qed.

Lemma handler_step_inv (now : Z) (expired : bool) (counts : list Z) (w w' : Whole) :
  whole_inv w → handler_step L strerror euid now expired counts w = Some w' → whole_inv w'.
Proof.
  intros Hw H. pose proof (wi_handler w Hw) as (c1 & Hc1 & Hh). unfold handler_step in H.
  destruct (w_handler w) as [| |k m loads|k m mt|k m mt ps| |reset| |response] eqn:Hhw; [done|..]; simpl in Hh.
  - pose proof (begin_ok w Hw Hhw) as Hb. destruct Hh as [-> _].
    destruct (begin_response _ _ _) as [sim h]. injection H as <-. apply quiet_inv; by rewrite ?Hhw.
  - destruct Hh as (-> & Hk & Ha & Hm & Hl & Hlen). injection H as <-. apply quiet_inv; rewrite ?Hhw; try done.
    destruct (counters _ !! length loads) as [v|] eqn:Hv; simpl; split_and!; try done.
    + by apply reads_counter.
    + rewrite length_app. apply lookup_lt_Some in Hv. simpl in *. lia.
    + apply lookup_ge_None in Hv. simpl in Hv. by rewrite counters_loaded by lia.
  - destruct Hh as (-> & Hk & Ha & Hm & Hl). injection H as <-. by apply quiet_inv; rewrite ?Hhw.
  - destruct Hh as (-> & Hk & Ha & Hm & Hl). injection H as <-. apply quiet_inv; rewrite ?Hhw; try done.
    split; [done|]. unfold snapshot_line. destruct Hk as [-> | ->]; apply (asked _ _ _ _ Ha); by eexists.
  - eapply (publish_inv Cmd_reset True []); [exact Hw|by rewrite Hhw|exact H|by rewrite Hhw|].
    intros r Ha Hd. simpl. split; [done|]. split; [naive_solver|by left].
  - eapply (publish_inv Cmd_reset (reset = Pub_published) [Event_reset_requested]);
      [exact Hw|by rewrite Hhw|exact H|by rewrite Hhw|].
    intros r Ha Hd. split; [done|]. apply (asked _ _ _ _ Ha).
    destruct (decide (reset = Pub_published)), (decide (r = Pub_published));
      [left|right..]; rewrite ?bool_decide_eq_true_2, ?bool_decide_eq_false_2 by done; auto.
  - eapply (publish_inv Cmd_shutdown True []); [exact Hw|by rewrite Hhw|exact H|by rewrite Hhw|].
    intros r Ha Hd. split; [done|]. apply (asked _ _ _ _ Ha).
    destruct (decide (r = Pub_published)); [left|right]; rewrite ?bool_decide_eq_true_2, ?bool_decide_eq_false_2 by done; auto.
  - destruct Hh as [-> Ha]. apply bind_Some in H as (sent & _ & H). injection H as <-.
    destruct Hw as [H1 H2 H3 _ H5 H6]. split; try done; [by exists ClIdle|].
    apply Forall_app. split; [done|]. by apply Forall_singleton.
Qed.

Lemma connect_inv (script : list Arrival) (w w' : Whole) :
  whole_inv w → connect_step script w = Some w' → whole_inv w'.
Proof.
  intros Hw H. unfold connect_step in H. destruct (w_handler w) eqn:Hhw; try done.
  destruct (thread_joinable _) eqn:Hj; [|done]. cbn [negb] in H.
  destruct (receive script []) as [| |[|c used]]; simplify_eq; [done|done|].
  pose proof (wi_handler w Hw) as (c1 & Hc1 & Hh). rewrite Hhw in Hh. simpl in Hh. subst c1.
  destruct Hw as [H1 H2 H3 _ H5 H6]. split; try done. exists ClIdle. split; [done|].
  cbn [w_handler w_session].
  destruct (kMaximumCommandLength <? length (c :: used))%nat eqn:Hlen.
  - split; [done|]. unfold answer_ok. cbn [ses_request]. rewrite Hlen. reflexivity.
  - split; [done|]. by apply Nat.ltb_ge in Hlen.
Qed.

Lemma whole_step_inv (mv : WholeMove) (w w' : Whole) :
  whole_inv w → whole_step L strerror euid mv w = Some w' → whole_inv w'.
Proof.
  intros Hw H. destruct (whole_step_view _ _ _ _ _ _ H)
    as [[_ [script Hc]]|[[_ (now & expired & counts & Hc)]|[_ (dmv & sim & Hc & Hn & _ & Hm)]]].
  - by eapply connect_inv.
  - by eapply handler_step_inv.
  - unfold daemon_moves in Hc. apply bind_Some in Hc as (d' & Hs & Hc). injection Hc as <-. by eapply other_inv.
Qed.

Lemma whole_init_inv : whole_inv (whole_init L path os p).
Proof. split; try done; [by exists []|by exists ClIdle]. Qed.

Lemma whole_run_inv (mvs : list WholeMove) (w w' : Whole) :
  whole_inv w → whole_run L strerror euid mvs w = Some w' → whole_inv w'.
Proof.
  revert w. induction mvs as [|mv mvs IH]; intros w Hw H; simpl in H; [by simplify_eq|].
  apply bind_Some in H as (w1 & H1 & H). apply (IH w1); [by eapply whole_step_inv|done].
Qed.

(** C33: the daemon tells its clients the truth.  However the requests of any
    clients interleave with the sensor, the control, the monitor and the main thread
    and with signals, every answer the server thread has sent is what the request
    deserves: an error exactly for a text that does not parse, with the parser's
    reason; the state the machine was in at some moment after the request arrived;
    counters at most three publications and one event behind; [ok=reset_requested]
    only when the reset and after it the self-test were pushed to the machine's
    queue since the request arrived, [ok=shutdown_requested] only when the
    shutdown was.  So once a client has been told [ok=shutdown_requested], [main]
    only returns with the machine in [SafeShutdown]. *)
Theorem answers_are_truthful (mvs : list WholeMove) (w : Whole)
    (Hrun : whole_run L strerror euid mvs (whole_init L path os p) = Some w) :
  Forall (λ a, answer_ok (w_shared w) (ans_session a) (ans_response a)) (w_answers w) ∧
  ∀ a code, a ∈ w_answers w → asks (ans_session a) Cmd_shutdown →
    ans_response a = lit "ok=shutdown_requested" ++ [newline] → dm_main (w_daemon w) = MainExit code →
    state_ (machine_ (w_shared w)) = safe_shutdown.
Proof.
  pose proof (whole_run_inv mvs _ w whole_init_inv Hrun) as [[mvs' Hd] _ _ _ _ Ha]. split; [done|].
  intros a code Hin Hk Hr Hexit. rewrite Forall_forall in Ha. specialize (Ha a Hin).
  apply (asked _ _ _ _ Hk) in Ha as [[_ Hdel]|Hr']; [|by rewrite Hr in Hr'].
  eapply (exit_safe L euid HL path os p); [by eapply run_inv|done|].
  apply singleton_sublist_l in Hdel. fold (w_shared w).
  rewrite <- (take_drop (ses_pushed (ans_session a)) (log_pushed (w_shared w))). apply elem_of_app. by right.
Qed.

End Answers.

(** ** A run of the whole daemon

    It starts; a client injects a temperature of 105 degrees, which latches a
    fault; clients ask for the state, a reset and a shutdown; it exits. *)

Definition wmain (k : nat) : list WholeMove := replicate k (WMain 0 true good_env None).
Definition arrives (t : string) : WholeMove := WConnect [RecvBytes (lit t ++ [newline])].
(** The bytes of a response go out one by one. *)
Definition serves (k : nat) : list WholeMove := replicate k (WServer 0 true (replicate 100 1)).
Definition takes (k : nat) : list WholeMove := replicate k (WSensor 0 true).
Definition controls (k : nat) : list WholeMove := replicate k (WControl 7).

Definition hot_moves : list WholeMove :=
  wmain 18 ++ controls 12 ++ [arrives "inject temperature 105"] ++ serves 2 ++ takes 21 ++ controls 16.
Definition down_moves : list WholeMove :=
  hot_moves ++ [arrives "status"] ++ serves 12 ++ [arrives "reset"] ++ serves 14 ++ [arrives "shutdown"] ++ serves 8.
Definition end_moves : list WholeMove :=
  down_moves ++ controls 18 ++ wmain 15 ++ [WSensor 0 true; WMonitor] ++ wmain 3 ++ controls 6 ++ wmain 2.

Abbreviation whole_example mvs :=
  (whole_run demo_edge_layout (λ _, []) 1000 mvs (whole_init demo_edge_layout (lit "/tmp/s") example_os None)).

Definition last_answer : Answer :=
  MkAnswer (MkSession (lit "shutdown" ++ [newline]) 7 5) (lit "ok=shutdown_requested" ++ [newline]) 22.

Lemma answers_are_truthful_witness :
  ∃ w, whole_example end_moves = Some w ∧ length (w_answers w) = 4%nat ∧
    Forall (λ a, answer_ok (w_shared w) (ans_session a) (ans_response a)) (w_answers w) ∧
    dm_main (w_daemon w) = MainExit 0 ∧ state_ (machine_ (w_shared w)) = safe_shutdown.
Proof.
  destruct (whole_example end_moves) as [w|] eqn:Hw; [|exfalso; vm_compute in Hw; discriminate Hw].
  assert (Hv : (λ w, (dm_main (w_daemon w), length (w_answers w), last (w_answers w))) <$> whole_example end_moves
               = Some (MainExit 0, 4%nat, Some last_answer)) by (vm_compute; reflexivity).
  rewrite Hw in Hv. injection Hv as Hm Hn Hl. exists w.
  destruct (answers_are_truthful demo_edge_layout (λ _, []) 1000 demo_layout_edge_ok (lit "/tmp/s") example_os None
    end_moves w Hw) as [Ha Hsafe].
  split_and!; [reflexivity|exact Hn|exact Ha|exact Hm|].
  apply (Hsafe last_answer 0); [|split_and!; vm_compute; reflexivity || lia|reflexivity|exact Hm].
  apply last_Some in Hl as [l ->]. apply elem_of_app. right. by apply list_elem_of_singleton.
Defined.
