(* ===== verification/DaemonServe.v ===== *)
(** * The service of the daemon

    Every request is answered, whatever the other threads do.  The second part
    relates the two forms in which the handler is modelled: the accesses of the
    server thread, with no other thread in between, are [build_response]. *)
From Stdlib Require Import Ascii String.
From stdpp Require Import gmap strings.
From S2P Require Import Prelude Bytes Double Domain Fsm Metrics Pool Queue Interfaces Runtime RuntimeStop RuntimeCounts.
From S2P Require Import RuntimeProps EventFlow Measurement Uart Buses Descriptors Sensors Command CommandProps Server.
From S2P Require Import ServerLife Format Daemon DaemonTypes DaemonMain DaemonExit DaemonWhole DaemonAnswers.

Local Open Scope Z_scope.

(** ** Every request is answered *)

(** The accesses the server thread has still to make, at most. *)
Definition publish_left (c1 : Client) : nat :=
  match c1 with
  | ClPublish (PubLoad _) => 6 | ClPublish (PubCreate _) => 5 | ClPublish (PubPush _ _) => 4
  | ClPublish (PubDrop _ _) => 3 | ClPublish (PubCount _) => 2 | ClPublish (PubReturn _) => 1
  | _ => 7
  end.

Definition handler_left (h : Handler) (c1 : Client) : nat :=
  match h with
  | HIdle => 0
  | HBuild => 16
  | HMetrics _ _ loads => 11 - length loads
  | HPool _ _ _ => 3
  | HQueue _ _ _ _ => 2
  | HReset => 8 + publish_left c1
  | HSelfTest _ | HShutdown => 1 + publish_left c1
  | HReply _ => 1
  end.

Definition whole_left (w : Whole) : nat :=
  handler_left (w_handler w) (default ClIdle (clients (dm_runtime (w_daemon w)) !! 1%nat)).

Section Serve.
Context (L : PoolLayout) (strerror : Z → text) (euid : Z) (HL : edge_layout_ok L).
Context (path : text) (os : Os) (p : option PathEntry).

#[local] Hint Extern 1 (ObjectPool EdgePool PooledEvent) => exact (edge_pool L) : typeclass_instances.
#[local] Existing Instance edge_queue.
#[local] Hint Extern 1 (ObjectPoolLaws EdgePool PooledEvent _) => exact (edge_pool_laws L HL) : typeclass_instances.
#[local] Existing Instance edge_queue_laws.

Lemma publish_left_step (now : Z) (expired : bool) (e : Event) (c1 c1' : Client) (y y' : EdgeSystem) :
  publisher c1 → client_step now expired (CallPublish e) c1 y = Some (c1', y') →
  (∃ r, c1 = ClPublish (PubReturn r) ∧ c1' = ClIdle) ∨
  (∀ r, c1 ≠ ClPublish (PubReturn r)) ∧ (publish_left c1' < publish_left c1)%nat.
Proof.
  intros [->|[q ->]] H; [simpl in H; simplify_eq; right; split; [done|simpl; lia]|].
  cbn [client_step] in H. unfold publishing in H.
  destruct q; [right..|left]; simplify_eq; eauto; split; try done;
    (destruct (publish_step _ _ _ _) as [[q' s']|] eqn:Hp; [|done]); simplify_eq; simpl in Hp;
    repeat case_match; simplify_eq; simpl; lia.
Qed.

#[local] Abbreviation winv := (whole_inv L strerror euid path os p).

(** A step that does not answer: it comes closer to the answer. *)
Definition closer (w w' : Whole) : Prop :=
  w_handler w' ≠ HIdle ∧ w_session w' = w_session w ∧ w_answers w' = w_answers w ∧
  (whole_left w' < whole_left w)%nat.

Lemma publish_closer (now : Z) (expired : bool) (e : Event) (next : PublishResult → Handler) (base : nat)
    (c1 : Client) (w w' : Whole) :
  clients (dm_runtime (w_daemon w)) !! 1%nat = Some c1 → publisher c1 → w_handler w ≠ HIdle →
  (∀ c, handler_left (w_handler w) c = base + publish_left c)%nat →
  (∀ r, next r ≠ HIdle ∧ handler_left (next r) ClIdle ≤ base)%nat →
  server_publish L strerror euid now expired e next w = Some w' → closer w w'.
Proof.
  intros Hc1 Hp Hi Hbase Hnext Hs. unfold server_publish in Hs. rewrite Hc1 in Hs.
  cbn [mbind option_bind] in Hs. apply bind_Some in Hs as (d' & Hs & Hd). injection Hd as <-.
  destruct (server_step_view _ _ _ _ _ _ _ _ _ Hs Hc1) as (c1' & y' & Hstep & Hc1' & _ & _).
  unfold closer, whole_left. cbn [with_daemon w_handler w_daemon w_session w_answers]. rewrite Hc1, Hc1'. simpl.
  destruct (publish_left_step _ _ _ _ _ _ _ Hp Hstep) as [(r & -> & ->)|[Hnr Hlt]].
  - destruct (Hnext r). rewrite Hbase. simpl. split_and!; try done. lia.
  - assert (Hsame : match c1 with ClPublish (PubReturn r) => next r | _ => w_handler w end = w_handler w).
    { destruct c1 as [|[]| | | | | | | | | | | | | | | | | | | |]; try done. by destruct (Hnr r). }
    rewrite Hsame, !Hbase. split_and!; try done. lia.
Qed.

Lemma begin_left (request : text) (s : EdgeState) (sim : SimulatedSensor) (c : Client) :
  snd (begin_response request s sim) ≠ HIdle ∧
  (handler_left (snd (begin_response request s sim)) c ≤ 15)%nat.
Proof.
  unfold begin_response. destruct (negb _); [split; [done|simpl; lia]|].
  assert (publish_left c ≤ 7)%nat by (destruct c as [|[]| | | | | | | | | | | | | | | | | | | |]; simpl; lia).
  destruct (cmd_kind _); [| | |destruct (injected_sample _ _)|..]; (split; [done|simpl; lia]).
Qed.

Lemma in_flight_publisher (Q : Prop) (sent : list Event) (e : Event) (c1 : Client) (ses : Session) (s : EdgeState) :
  in_flight Q sent e c1 ses s → publisher c1.
Proof. intros [_ [->|(q & -> & _)]]; unfold publisher; eauto. Qed.

(** The server thread makes a step: it answers, or it comes closer to it. *)
Lemma handler_step_left (now : Z) (expired : bool) (counts : list Z) (w w' : Whole) :
  winv w → handler_step L strerror euid now expired counts w = Some w' →
  w_handler w' = HIdle ∧ (∃ response sent, w_answers w' = w_answers w ++ [MkAnswer (w_session w) response sent]) ∨
  closer w w'.
Proof.
  intros Hw H. pose proof (wi_handler _ _ _ _ _ _ w Hw) as (c1 & Hc1 & Hh).
  assert (Hpub : publisher c1).
  { destruct (w_handler w); simpl in Hh; try (by left; apply Hh); by destruct Hh as [_ ?%in_flight_publisher]. }
  assert (Hquiet : ∀ sim h reqs, h ≠ HIdle → (∀ c, handler_left h c < handler_left (w_handler w) c)%nat →
    closer w (MkWhole (w_daemon w) sim h (w_session w) reqs (w_answers w)))
    by (intros sim h reqs Hne Hlt; by repeat split; [..|apply Hlt]).
  unfold handler_step in H. destruct (w_handler w) as [| |k m loads|k m mt|k m mt ps| |reset| |response] eqn:Hhw.
  - done.
  - right. destruct (begin_response _ _ _) as [sim h] eqn:Hb. injection H as <-.
    pose proof (begin_left (ses_request (w_session w)) (w_shared w) (w_sensor w)) as Hl. rewrite Hb in Hl.
    apply Hquiet; [apply (Hl ClIdle)|]. intros c. simpl. destruct (Hl c). simpl in *. lia.
  - right. injection H as <-. destruct Hh as (_ & _ & _ & _ & _ & Hlen).
    destruct (counters _ !! length loads) as [v|] eqn:Hv; apply Hquiet; try done; intros c; simpl.
    + rewrite length_app. simpl. apply lookup_lt_Some in Hv. simpl in Hv. lia.
    + lia.
  - right. injection H as <-. apply Hquiet; [done|]. simpl. lia.
  - right. injection H as <-. apply Hquiet; [done|]. simpl. lia.
  - right. eapply (publish_closer _ _ _ _ 8); [exact Hc1|done| | | |exact H]; rewrite ?Hhw; try done.
  - right. eapply (publish_closer _ _ _ _ 1); [exact Hc1|done| | | |exact H]; rewrite ?Hhw; try done.
  - right. eapply (publish_closer _ _ _ _ 1); [exact Hc1|done| | | |exact H]; rewrite ?Hhw; try done.
  - left. apply bind_Some in H as (sent & _ & H). injection H as <-. split; [done|]. by exists response, sent.
Qed.

(** The server thread is never stuck in a request. *)
Lemma handler_moves (w : Whole) :
  winv w → w_handler w ≠ HIdle → ∃ counts w', handler_step L strerror euid 0 true counts w = Some w'.
Proof.
  intros Hw Hi. pose proof (wi_handler _ _ _ _ _ _ w Hw) as (c1 & Hc1 & Hh).
  pose proof (wi_serving _ _ _ _ _ _ w Hw Hi) as Hj.
  destruct (rt_reachable_inv default_config 2 _ (whole_reachable _ _ _ _ _ _ w Hw)) as (l & c & Hinv).
  destruct (si_core _ _ _ _ Hinv) as (m & evs & _ & Hq & _).
  assert (Hpub : ∀ e next, publisher c1 → ∃ w', server_publish L strerror euid 0 true e next w = Some w').
  { intros e next Hp.
    assert (Hs : ∃ c1' y', client_step 0 true (CallPublish e) c1 (dm_runtime (w_daemon w)) = Some (c1', y')).
    { destruct Hp as [->|[q ->]]; [by eexists _, _|]. cbn [client_step]. unfold publishing.
      assert (Hcase : (∃ r, q = PubReturn r) ∨ ∀ r, q ≠ PubReturn r) by (destruct q; eauto).
      destruct Hcase as [[r ->]|Hn]; [by eexists _, _|].
      pose proof (publish_moves q (w_shared w) l c Hq Hn) as Hm. unfold w_shared in Hm.
      destruct (publish_step _ _ _ _) as [[q' s']|]; [|done]. destruct q; by eexists _, _. }
    destruct Hs as (c1' & y' & Hs). unfold server_publish. rewrite Hc1. cbn [mbind option_bind daemon_step].
    rewrite Hj. cbn [exec_move]. rewrite Hc1. cbn [mbind option_bind]. rewrite Hs. by eexists. }
  unfold handler_step. destruct (w_handler w) as [| | | | | | | |response]; simpl in Hh; try done.
  - exists []. destruct (begin_response _ _ _). by eexists.
  - by eexists [], _.
  - by eexists [], _.
  - by eexists [], _.
  - exists []. apply Hpub. by destruct Hh as [_ ?%in_flight_publisher].
  - exists []. apply Hpub. by destruct Hh as [_ ?%in_flight_publisher].
  - exists []. apply Hpub. by destruct Hh as [_ ?%in_flight_publisher].
  - exists [0]. destruct response; by eexists.
Qed.

Definition server_moves (mvs : list WholeMove) : nat := length (filter (λ mv, is_server mv = true) mvs).

(** The others change neither the request nor the answers. *)
Lemma whole_step_left (mv : WholeMove) (w w' : Whole) :
  winv w → w_handler w ≠ HIdle → whole_step L strerror euid mv w = Some w' →
  (∃ response sent, w_answers w' = w_answers w ++ [MkAnswer (w_session w) response sent]) ∨
  w_handler w' ≠ HIdle ∧ w_session w' = w_session w ∧ w_answers w' = w_answers w ∧
  (whole_left w' + Nat.b2n (is_server mv) ≤ whole_left w)%nat.
Proof.
  intros Hw Hi H. destruct (whole_step_view _ _ _ _ _ _ H)
    as [[-> [script Hc]]|[[-> (now & expired & counts & Hc)]|[-> (dmv & sim & Hc & Hn & _ & Hm)]]].
  - unfold connect_step in Hc. by destruct (w_handler w).
  - destruct (handler_step_left _ _ _ _ _ Hw Hc) as [[_ Ha]|(H1 & H2 & H3 & H4)]; [by left|right].
    split_and!; try done. simpl. lia.
  - right. unfold daemon_moves in Hc. apply bind_Some in Hc as (d' & Hs & Hc). injection Hc as <-.
    split_and!; try done. unfold whole_left. simpl. rewrite (daemon_step_client _ _ _ _ _ _ Hs Hn). lia.
Qed.

(** Answers are kept. *)
Lemma whole_step_answers (mv : WholeMove) (w w' : Whole) :
  whole_step L strerror euid mv w = Some w' → w_answers w `prefix_of` w_answers w'.
Proof.
  intros H. destruct (whole_step_view _ _ _ _ _ _ H)
    as [[_ [script Hc]]|[[_ (now & expired & counts & Hc)]|[_ (dmv & sim & Hc & Hn & _ & Hm)]]].
  - unfold connect_step in Hc. repeat case_match; by simplify_eq.
  - assert (Hpub : ∀ e next, server_publish L strerror euid now expired e next w = Some w' →
      w_answers w' = w_answers w).
    { intros e next Hs. unfold server_publish in Hs. apply bind_Some in Hs as (c & _ & Hs).
      apply bind_Some in Hs as (d' & _ & Hs). by simplify_eq. }
    unfold handler_step in Hc. destruct (w_handler w); try (apply Hpub in Hc; by rewrite Hc); try by simplify_eq.
    + destruct (begin_response _ _ _). by simplify_eq.
    + apply bind_Some in Hc as (sent & _ & Hc). simplify_eq. by eexists.
  - unfold daemon_moves in Hc. apply bind_Some in Hc as (d' & _ & Hc). by simplify_eq.
Qed.

Lemma whole_run_answers (mvs : list WholeMove) (w w' : Whole) :
  whole_run L strerror euid mvs w = Some w' → w_answers w `prefix_of` w_answers w'.
Proof.
  revert w. induction mvs as [|mv mvs IH]; intros w H; simpl in H; [by simplify_eq|].
  apply bind_Some in H as (w1 & H1 & H). etrans; [by eapply whole_step_answers|by apply IH].
Qed.

(** A request under way is answered by the moves of the server thread. *)
Lemma whole_run_left (mvs : list WholeMove) (w w' : Whole) :
  winv w → w_handler w ≠ HIdle → whole_run L strerror euid mvs w = Some w' →
  (∃ response sent, w_answers w ++ [MkAnswer (w_session w) response sent] `prefix_of` w_answers w') ∨
  w_handler w' ≠ HIdle ∧ (whole_left w' + server_moves mvs ≤ whole_left w)%nat.
Proof.
  revert w. induction mvs as [|mv mvs IH]; intros w Hw Hi H; simpl in H.
  { simplify_eq. right. unfold server_moves. simpl. split; [done|lia]. }
  apply bind_Some in H as (w1 & H1 & H). pose proof (whole_step_inv _ _ _ HL _ _ _ _ _ _ Hw H1) as Hw1.
  destruct (whole_step_left mv w w1 Hw Hi H1) as [(response & sent & Ha)|(Hi1 & Hses & Ha & Hl)].
  { left. exists response, sent. rewrite <- Ha. by eapply whole_run_answers. }
  rewrite <- Hses, <- Ha. destruct (IH w1 Hw1 Hi1 H) as [Hleft|[Hi' Hl']]; [by left|right].
  split; [done|]. unfold server_moves in *. rewrite filter_cons.
  destruct (decide (is_server mv = true)) as [Hs|Hs]; simpl; [rewrite Hs in Hl; simpl in Hl|]; lia.
Qed.

(** C34: every request is answered.  Take the daemon at any moment at which the
    server thread has a request, in any interleaving that led there.  The thread is
    not blocked: it has a step, with the wait for a place in the queue expired if
    need be.  And whatever all the other threads do meanwhile, once it has made 16
    accesses the request has been answered. *)
Theorem requests_are_answered (mvs : list WholeMove) (w : Whole)
    (Hrun : whole_run L strerror euid mvs (whole_init L path os p) = Some w)
    (Hbusy : w_handler w ≠ HIdle) :
  (∃ now expired counts w', whole_step L strerror euid (WServer now expired counts) w = Some w') ∧
  ∀ mvs' w', whole_run L strerror euid mvs' w = Some w' → (16 ≤ server_moves mvs')%nat →
    ∃ response sent, w_answers w ++ [MkAnswer (w_session w) response sent] `prefix_of` w_answers w'.
Proof.
  pose proof (whole_run_inv _ _ _ HL _ _ _ mvs _ w (whole_init_inv _ _ _ _ _ _) Hrun) as Hw. split.
  - destruct (handler_moves w Hw Hbusy) as (counts & w' & H). by exists 0, true, counts, w'.
  - intros mvs' w' Hrun' H16. destruct (whole_run_left mvs' w w' Hw Hbusy Hrun') as [Ha|[Hi' Hl]]; [done|].
    assert (whole_left w ≤ 16)%nat.
    { unfold whole_left. destruct (w_handler w) as [| |? ? loads| | | | | |]; simpl; try lia;
        destruct (default _ _) as [|[]| | | | | | | | | | | | | | | | | | | |]; simpl; lia. }
    assert (1 ≤ whole_left w')%nat; [|lia].
    pose proof (whole_run_inv _ _ _ HL _ _ _ _ _ w' Hw Hrun') as Hw'.
    pose proof (wi_handler _ _ _ _ _ _ w' Hw') as (c1 & _ & Hh). unfold whole_left.
    destruct (w_handler w'); simpl in *; try done; try lia.
Qed.

(** ** A request served without interruption *)

(** The server thread alone, up to the response. *)
Definition alone (now : Z) (w w' : Whole) : Prop :=
  ∃ k, whole_run L strerror euid (replicate k (WServer now true [])) w = Some w'.

Lemma alone_refl (now : Z) (w : Whole) : alone now w w.
Proof. by exists 0%nat. Qed.

Lemma alone_step (now : Z) (w w1 w2 : Whole) :
  handler_step L strerror euid now true [] w = Some w1 → alone now w1 w2 → alone now w w2.
Proof. intros H [k Hk]. exists (S k). simpl. by rewrite H. Qed.

Lemma alone_trans (now : Z) (w w1 w2 : Whole) : alone now w w1 → alone now w1 w2 → alone now w w2.
Proof.
  intros [k H] H2. revert w H. induction k as [|k IH]; intros w H; simpl in H; [by simplify_eq|].
  apply bind_Some in H as (w' & H1 & H). eapply alone_step; [exact H1|by apply IH].
Qed.

Lemma server_publish_eq (now : Z) (e : Event) (next : PublishResult → Handler) (c c' : Client)
    (y' : EdgeSystem) (w : Whole) :
  thread_joinable (dm_server (w_daemon w)) = true → clients (dm_runtime (w_daemon w)) !! 1%nat = Some c →
  client_step now true (CallPublish e) c (dm_runtime (w_daemon w)) = Some (c', y') →
  ∃ d', server_publish L strerror euid now true e next w
        = Some (with_daemon d' (match c with ClPublish (PubReturn r) => next r | _ => w_handler w end) w) ∧
    shared (dm_runtime d') = shared y' ∧ clients (dm_runtime d') !! 1%nat = Some c' ∧
    dm_server d' = dm_server (w_daemon w).
Proof.
  intros Hj Hc Hs. unfold server_publish. rewrite Hc. cbn [mbind option_bind daemon_step]. rewrite Hj.
  cbn [exec_move]. rewrite Hc. cbn [mbind option_bind]. rewrite Hs. cbn [mbind option_bind].
  eexists. split; [reflexivity|]. split_and!; [done| |done]. simpl.
  destruct (client_threads _ _ _ _ _ _ _ Hs) as (-> & _). apply list_lookup_insert_eq. by eapply lookup_lt_Some.
Qed.

(** [publish] run by the server thread alone. *)
Definition publishes (now : Z) (e : Event) (next : PublishResult → Handler) (h : Handler) : Prop :=
  ∀ w, w_handler w = h →
    handler_step L strerror euid now true [] w = server_publish L strerror euid now true e next w.

Lemma publish_alone_steps (fuel : nat) (now : Z) (e : Event) (next : PublishResult → Handler) (pc : Publish)
    (s' : EdgeState) (r : PublishResult) (w : Whole) :
  publishes now e next (w_handler w) → thread_joinable (dm_server (w_daemon w)) = true →
  clients (dm_runtime (w_daemon w)) !! 1%nat = Some (ClPublish pc) →
  publish_alone L fuel now pc (w_shared w) = Some (s', r) →
  ∃ d', alone now w (with_daemon d' (next r) w) ∧ shared (dm_runtime d') = s' ∧
    clients (dm_runtime d') !! 1%nat = Some ClIdle ∧ dm_server d' = dm_server (w_daemon w).
Proof.
  revert pc w. induction fuel as [|fuel IH]; intros pc w Hh Hj Hc Hp;
    (assert (Hcase : (∃ r', pc = PubReturn r') ∨ ∀ r', pc ≠ PubReturn r') by (destruct pc; eauto));
    destruct Hcase as [[r' ->]|Hn].
  1,3: assert (w_shared w = s' ∧ r' = r) as [<- ->] by (simpl in Hp; by simplify_eq);
    destruct (server_publish_eq now e next _ ClIdle (dm_runtime (w_daemon w)) w Hj Hc eq_refl) as (d' & Hs & H1 & H2 & H3);
    exists d'; split_and!; try done; eapply alone_step; [by rewrite (Hh w eq_refl)|apply alone_refl].
  { destruct pc; try done. by destruct (Hn r0). }
  destruct (publish_step now true pc (w_shared w)) as [[pc' s1]|] eqn:Hs; 
    [|by destruct pc; cbn [publish_alone] in Hp; rewrite ?Hs in Hp; try done; destruct (Hn r0)].
  rewrite (publish_alone_step L fuel now pc _ pc' s1 Hs) in Hp.
  destruct (server_publish_eq now e next (ClPublish pc) (ClPublish pc') (set_shared s1 (dm_runtime (w_daemon w))) w Hj Hc)
    as (d1 & Hs1 & H1 & H2 & H3).
  { cbn [client_step]. unfold publishing. fold (w_shared w). rewrite Hs. by destruct pc. }
  assert (Hsame : match pc with PubReturn r => next r | _ => w_handler w end = w_handler w)
    by (destruct pc; try done; by destruct (Hn r0)).
  cbn [set_shared shared] in H1. rewrite Hsame in Hs1.
  destruct (IH pc' (with_daemon d1 (w_handler w) w) Hh) as (d' & Ha & Hd & Hcl & Hsrv).
  - simpl. congruence.
  - done.
  - unfold w_shared. simpl. by rewrite H1.
  - exists d'. split_and!; try done; [|simpl in Hsrv; congruence].
    eapply alone_step; [by rewrite (Hh w eq_refl)|exact Ha].
Qed.

(** Alone, a publication always returns. *)
Lemma publish_total (now : Z) (e : Event) (s : EdgeState) (l : list Handle) (c : bool) :
  eq_holds (r_queue s) l c → publish_alone L 5 now (PubLoad e) s = Some (publish L now e s).
Proof.
  intros Hq. unfold publish. enough (∃ x, publish_alone L 5 now (PubLoad e) s = Some x) as [x ->] by done.
  destruct (accepting_events_ s) eqn:Ha; [|eexists; cbn [publish_alone publish_step]; by rewrite Ha].
  rewrite (publish_alone_step L 4 now (PubLoad e) s (PubCreate e) s) by (cbn [publish_step]; by rewrite Ha).
  destruct (op_create (MkPooled e now) (r_pool s)) as [pl h] eqn:Hc. destruct (handle_valid h) eqn:Hv.
  2:{ rewrite (publish_alone_step L 3 now _ s (PubCount Pub_pool_exhausted) (set_pool pl s))
        by (cbn [publish_step]; by rewrite Hc, Hv). by eexists. }
  rewrite (publish_alone_step L 3 now _ s (PubPush e h) (set_pool pl s)) by (cbn [publish_step]; by rewrite Hc, Hv).
  pose proof (eq_push_law true h _ l c Hq) as Hl.
  destruct (eq_push true h (r_queue s)) as [[q res]|] eqn:Hp; [|by destruct Hl as (_ & _ & ?)].
  destruct (decide (res = pushed)) as [->|Hn].
  - rewrite (publish_alone_step L 2 now _ _ (PubCount Pub_published) (log_push e (set_queue q (set_pool pl s))))
      by (cbn [publish_step set_pool r_queue]; by rewrite Hp). by eexists.
  - rewrite (publish_alone_step L 2 now _ _ (PubDrop h (push_result res)) (set_queue q (set_pool pl s)))
      by (cbn [publish_step set_pool r_queue]; rewrite Hp; by destruct res). by eexists.
Qed.

Lemma publish_steps (now : Z) (e : Event) (next : PublishResult → Handler) (w : Whole) :
  winv w → w_handler w ≠ HIdle → publishes now e next (w_handler w) →
  clients (dm_runtime (w_daemon w)) !! 1%nat = Some ClIdle →
  ∃ d', alone now w (with_daemon d' (next (snd (publish L now e (w_shared w)))) w) ∧
    shared (dm_runtime d') = fst (publish L now e (w_shared w)) ∧
    clients (dm_runtime d') !! 1%nat = Some ClIdle.
Proof.
  intros Hw Hi Hh Hc. pose proof (wi_serving _ _ _ _ _ _ w Hw Hi) as Hj.
  destruct (rt_reachable_inv default_config 2 _ (whole_reachable _ _ _ _ _ _ w Hw)) as (l & c & Hinv).
  destruct (si_core _ _ _ _ Hinv) as (m & evs & _ & Hq & _).
  pose proof (publish_total now e (w_shared w) l c Hq) as Hp.
  destruct (publish L now e (w_shared w)) as [s' r]. cbn [fst snd].
  destruct (server_publish_eq now e next ClIdle (ClPublish (PubLoad e)) (dm_runtime (w_daemon w)) w Hj Hc eq_refl)
    as (d1 & Hs1 & H1 & H2 & H3).
  destruct (publish_alone_steps 5 now e next (PubLoad e) s' r (with_daemon d1 (w_handler w) w))
    as (d' & Ha & Hd & Hcl & _); [done|simpl; congruence|done|unfold w_shared; simpl; by rewrite H1|].
  exists d'. split_and!; try done. eapply alone_step; [by rewrite (Hh w eq_refl)|exact Ha].
Qed.

(** [build_response] by the server thread alone. *)
Definition answered (now : Z) (w w' : Whole) : Prop :=
  let '(d, response) := build_response (RuntimeApi0 := edge_api L now) (ses_request (w_session w))
                          (MkDaemon (w_shared w) (w_sensor w)) in
  w_handler w' = HReply (end_line response) ∧ MkDaemon (w_shared w') (w_sensor w') = d ∧
  w_session w' = w_session w ∧ w_answers w' = w_answers w.

Lemma snapshot_steps (now : Z) (k : CommandKind) (w : Whole) :
  w_handler w = HMetrics k (machine_snapshot (machine_ (w_shared w))) [] →
  alone now w (with_handler (HReply (end_line (snapshot_line k (snapshot L (w_shared w))))) w).
Proof.
  intros Hh. destruct w as [d sim h ses reqs ans]. unfold w_shared in *. simpl in Hh |- *. subst h.
  exists 10%nat. destruct k; reflexivity.
Qed.

Lemma alone_inv (now : Z) (w w' : Whole) : winv w → alone now w w' → winv w'.
Proof. intros Hw [k H]. by eapply (whole_run_inv _ _ _ HL). Qed.

Lemma build_alone (now : Z) (w : Whole) :
  winv w → w_handler w = HBuild → ∃ w', alone now w w' ∧ answered now w w'.
Proof.
  intros Hw Hh. pose proof (wi_handler _ _ _ _ _ _ w Hw) as (c1 & Hc1 & Hok). rewrite Hh in Hok. destruct Hok as [-> _].
  assert (Hstep : ∃ w1, handler_step L strerror euid now true [] w = Some w1 ∧
    (w_sensor w1, w_handler w1) = begin_response (ses_request (w_session w)) (w_shared w) (w_sensor w) ∧
    w_daemon w1 = w_daemon w ∧ w_session w1 = w_session w ∧ w_answers w1 = w_answers w).
  { unfold handler_step. rewrite Hh. destruct (begin_response _ _ _) as [sim h]. by eexists. }
  destruct Hstep as (w1 & Hs & Hb & Hd & Hses & Hans).
  pose proof (handler_step_inv _ _ _ HL _ _ _ _ _ _ _ _ Hw Hs) as Hw1.
  assert (Hgo : ∀ w', alone now w1 w' → answered now w w' → ∃ w', alone now w w' ∧ answered now w w')
    by (intros; eexists; split; [by eapply alone_step|done]).
  assert (Hsh : w_shared w1 = w_shared w) by (unfold w_shared; by rewrite Hd).
  unfold answered in Hgo |- *. unfold begin_response in Hb. unfold build_response in Hgo |- *.
  destruct (negb _); [injection Hb as Hsim Hh1; apply (Hgo w1 (alone_refl _ _)); rewrite Hsh, Hsim; done|].
  destruct (cmd_kind _) eqn:Hk.
  4: destruct (injected_sample _ _).
  1,4,5,6: injection Hb as Hsim Hh1; apply (Hgo w1 (alone_refl _ _)); rewrite Hsh, Hsim; done.
  all: injection Hb as Hsim Hh1.
  1,2: rewrite <- Hsh in Hh1; eapply Hgo; [by apply snapshot_steps|];
    cbn [with_handler with_daemon w_daemon w_sensor w_handler w_session w_answers api_snapshot edge_api d_runtime];
    rewrite Hsh; (split; [reflexivity|]); unfold w_shared in *; simpl; rewrite Hsim, Hsh; done.
  - destruct (publish_steps now Event_reset_requested HSelfTest w1 Hw1) as (d2 & Ha2 & Hs2 & Hc2);
      [by rewrite Hh1|intros w' Hw'; unfold handler_step; by rewrite Hw', Hh1|by rewrite Hd|].
    pose proof (alone_inv _ _ _ Hw1 Ha2) as Hw2.
    destruct (publish_steps now Event_self_test_passed (after_reset (snd (publish L now Event_reset_requested (w_shared w1))))
      _ Hw2) as (d3 & Ha3 & Hs3 & _); [done|intros w' Hw'; unfold handler_step; by rewrite Hw'|done|].
    eapply Hgo; [by eapply alone_trans|]. cbn [api_publish edge_api d_runtime d_sensor].
    unfold w_shared in Hs3, Hs2, Hsh |- *. cbn [with_daemon w_daemon w_sensor w_handler w_session w_answers] in Hs3 |- *.
    rewrite Hs3, Hs2, Hsh, Hsim.
    destruct (publish L now Event_reset_requested (shared (dm_runtime (w_daemon w)))) as [s2 r2]. cbn [fst snd].
    destruct (publish L now Event_self_test_passed s2) as [s3 r3]. done.
  - destruct (publish_steps now Event_shutdown_requested after_shutdown w1 Hw1) as (d2 & Ha2 & Hs2 & Hc2);
      [by rewrite Hh1|intros w' Hw'; unfold handler_step; by rewrite Hw', Hh1|by rewrite Hd|].
    eapply Hgo; [exact Ha2|]. cbn [api_publish edge_api d_runtime d_sensor].
    unfold w_shared in Hs2, Hsh |- *. cbn [with_daemon w_daemon w_sensor w_handler w_session w_answers].
    rewrite Hs2, Hsh, Hsim. by destruct (publish L now Event_shutdown_requested (shared (dm_runtime (w_daemon w)))) as [s2 r2].
Qed.

Lemma whole_run_app (mvs mvs' : list WholeMove) (w : Whole) :
  whole_run L strerror euid (mvs ++ mvs') w
  = w' ← whole_run L strerror euid mvs w; whole_run L strerror euid mvs' w'.
Proof.
  revert w. induction mvs as [|mv mvs IH]; intros w; [done|]. simpl.
  destruct (whole_step L strerror euid mv w); [apply IH|done].
Qed.

(** One connection, without interruption: the moves of the server thread end it as
    [daemon_session] says. *)
Lemma session_alone (now : Z) (script : list Arrival) (counts : list Z) (w : Whole)
    (d' : DaemonState EdgeState) (bytes : text) :
  winv w → w_handler w = HIdle → thread_joinable (dm_server (w_daemon w)) = true →
  daemon_session (RuntimeApi0 := edge_api L now) script counts (MkDaemon (w_shared w) (w_sensor w)) = Some (d', bytes) →
  ∃ mvs w', Forall (λ mv, is_server mv = true) mvs ∧
    whole_run L strerror euid (WConnect script :: mvs) w = Some w' ∧ w_handler w' = HIdle ∧
    MkDaemon (w_shared w') (w_sensor w') = d' ∧
    concat ((λ a, take (ans_sent a) (ans_response a)) <$> w_answers w')
    = concat ((λ a, take (ans_sent a) (ans_response a)) <$> w_answers w) ++ bytes.
Proof.
  intros Hw Hi Hj H. unfold daemon_session, serve_client in H.
  pose proof (connect_inv L strerror euid path os p script w) as Hcinv. unfold connect_step in Hcinv.
  cbn [whole_run whole_step]. unfold connect_step. rewrite Hi, Hj in *. cbn [negb] in *.
  destruct (receive script []) as [| |[|c used]]; [done|simplify_eq; exists [], w; by rewrite app_nil_r..|].
  specialize (Hcinv _ Hw eq_refl). set (w1 := MkWhole _ _ _ _ _ _) in Hcinv |- *. cbn [mbind option_bind].
  assert (Hresp : ∃ w2 response, alone now w1 w2 ∧ w_handler w2 = HReply response ∧ w_answers w2 = w_answers w ∧
    respond (build_response (RuntimeApi0 := edge_api L now)) (c :: used) (MkDaemon (w_shared w) (w_sensor w))
    = (MkDaemon (w_shared w2) (w_sensor w2), response)).
  { unfold respond. destruct (kMaximumCommandLength <? length (c :: used))%nat.
    { exists w1. eexists. split_and!; [apply alone_refl|done..]. }
    destruct (build_alone now w1 Hcinv eq_refl) as (w2 & Ha & Hans). unfold answered in Hans.
    change (ses_request (w_session w1)) with (c :: used) in Hans.
    change (MkDaemon (w_shared w1) (w_sensor w1)) with (MkDaemon (w_shared w) (w_sensor w)) in Hans.
    destruct (build_response (c :: used) _) as [d response]. destruct Hans as (H1 & <- & _ & H4).
    exists w2. eexists. split_and!; [done..|exact H4|done]. }
  destruct Hresp as (w2 & response & [k Hk] & Hh2 & Ha2 & Hr). rewrite Hr in H.
  destruct (transmit counts (length response) 0) as [sent|] eqn:Ht; [|done]. injection H as <- <-.
  eexists (replicate k (WServer now true []) ++ [WServer now true counts]), _.
  split; [apply Forall_app; split; [by apply Forall_replicate|by apply Forall_singleton]|].
  split; [rewrite whole_run_app, Hk; cbn [mbind option_bind whole_run whole_step]; unfold handler_step;
          rewrite Hh2, Ht; reflexivity|].
  split_and!; [done..|]. cbn [w_answers]. rewrite Ha2, fmap_app, concat_app. simpl. by rewrite app_nil_r.
Qed.

End Serve.

(** ** Concrete requests *)

(** A reset three accesses into its first publication, and what follows. *)
Definition busy_moves : list WholeMove := hot_moves ++ [arrives "reset"] ++ serves 3.
Definition later_moves : list WholeMove :=
  takes 3 ++ serves 6 ++ wmain 4 ++ serves 5 ++ [arrives "status"] ++ serves 12.

Lemma requests_are_answered_witness :
  ∃ w w' response sent, whole_example busy_moves = Some w ∧
    whole_run demo_edge_layout (λ _, []) 1000 later_moves w = Some w' ∧
    w_answers w ++ [MkAnswer (w_session w) response sent] `prefix_of` w_answers w'.
Proof.
  destruct (whole_example busy_moves) as [w|] eqn:Hw; [|exfalso; vm_compute in Hw; discriminate Hw].
  assert (Hv : w_handler <$> whole_example busy_moves = Some HReset) by (vm_compute; reflexivity).
  rewrite Hw in Hv. injection Hv as Hv.
  destruct (whole_run demo_edge_layout (λ _, []) 1000 later_moves w) as [w'|] eqn:Hw'.
  2:{ exfalso. assert (Hn : whole_example (busy_moves ++ later_moves) = None)
        by (rewrite whole_run_app, Hw; exact Hw'). vm_compute in Hn. discriminate Hn. }
  destruct (requests_are_answered demo_edge_layout (λ _, []) 1000 demo_layout_edge_ok (lit "/tmp/s") example_os None
    busy_moves w Hw) as [_ Ha]; [rewrite Hv; discriminate|].
  destruct (Ha later_moves w' Hw') as (response & sent & Hp); [vm_compute; lia|].
  exists w, w', response, sent. split_and!; [reflexivity|exact Hw'|exact Hp].
Defined.
