(* ===== verification/DaemonCause.v ===== *)
(** * What the daemon's machine is given

    Every sample that reaches the machine of the daemon is the nominal one or one
    that a request injected; so every alarm goes back to a request. *)
From Stdlib Require Import Ascii String.
From stdpp Require Import gmap strings.
From S2P Require Import Prelude Bytes Double Domain Fsm Metrics Pool Queue Interfaces Runtime RuntimeStop.
From S2P Require Import RuntimeProps EventFlow Measurement Uart Buses Descriptors Sensors Command CommandProps Server.
From S2P Require Import ServerLife Format Daemon DaemonTypes DaemonMain DaemonExit DaemonWhole DaemonAnswers.

Local Open Scope Z_scope.

(** ** Requests and the sensor *)

(** The sample that a request sets. *)
Definition injection (request : text) : option SensorSample :=
  let parsed := parse_command request in
  if parse_ok parsed && bool_decide (cmd_kind (command parsed) = Cmd_inject)
  then injected_sample (cmd_target (command parsed)) (cmd_value (command parsed)) else None.

(** What a request makes of the override. *)
Definition overriding (o : option SensorSample) (request : text) : option SensorSample :=
  let parsed := parse_command request in
  if negb (parse_ok parsed) then o
  else match cmd_kind (command parsed) with
       | Cmd_inject => match injection request with Some smp => Some smp | None => o end
       | Cmd_clear | Cmd_reset => None
       | _ => o
       end.

Lemma begin_sensor (request : text) (s : EdgeState) (sim : SimulatedSensor) :
  fst (begin_response request s sim)
  = MkSimulated (baseline_ sim) (overriding (override_ sim) request) (sim_sequence_ sim).
Proof.
  unfold begin_response, overriding, injection. destruct (parse_ok _); simpl; [|by destruct sim].
  destruct (cmd_kind _); simpl; try by destruct sim. destruct (injected_sample _ _); [done|by destruct sim].
Qed.

Lemma overriding_cases (o : option SensorSample) (r : text) :
  overriding o r = o ∨ overriding o r = None ∨ overriding o r = injection r.
Proof.
  unfold overriding. destruct (negb _); [auto|]. destruct (cmd_kind _); auto. destruct (injection r); auto.
Qed.

Lemma overriding_source (reqs : list text) (smp : SensorSample) :
  foldl overriding None reqs = Some smp → ∃ r, r ∈ reqs ∧ injection r = Some smp.
Proof.
  induction reqs as [|r reqs IH] using rev_ind; [done|]. rewrite foldl_app. simpl. intros H.
  destruct (overriding_cases (foldl overriding None reqs) r) as [Hc|[Hc|Hc]]; rewrite Hc in H; [|done|].
  - destruct (IH H) as (r' & Hin & Hr'). exists r'. split; [|done]. apply elem_of_app. by left.
  - exists r. split; [|done]. apply elem_of_app. right. by apply list_elem_of_singleton.
Qed.

(** ** Events *)

(** Where an event comes from. *)
Definition explained (reqs : list text) (e : Event) : Prop :=
  e = Event_startup ∨ e = Event_self_test_passed ∨ e = Event_shutdown_requested ∨ e = Event_reset_requested ∨
  ∃ n smp, e = Event_sensor_sample (set_sequence n smp) ∧
           (smp = nominal_sample ∨ ∃ r, r ∈ reqs ∧ injection r = Some smp).

Lemma explained_more (reqs reqs' : list text) (e : Event) : explained reqs e → explained (reqs ++ reqs') e.
Proof.
  intros [?|[?|[?|[?|(n & smp & -> & Hs)]]]]; unfold explained; auto. do 4 right. exists n, smp. split; [done|].
  destruct Hs as [?|(r & Hr & Hi)]; [auto|right; exists r; split; [apply elem_of_app; auto|done]].
Qed.

(** ** The machine *)

(** A sample that counts towards a warning, a critical reading or a lost sensor. *)
Definition abnormal (smp : SensorSample) : bool :=
  negb (online smp) || is_warning default_config smp || is_critical default_config smp.

Definition calm (e : Event) : Prop :=
  kind e ≠ Ev_internal_fault ∧ (kind e = Ev_sensor_sample → abnormal (sample e) = false).

Definition calm_machine (m : MotorStateMachine) : Prop :=
  config_ m = default_config ∧ state_ m ≠ degraded ∧ state_ m ≠ fault_latched.

Lemma handle_calm (e : Event) (m : MotorStateMachine) :
  calm e → calm_machine m → calm_machine (fst (handle e m)).
Proof.
  destruct e as [k smp]. intros [Hf Hs] (Hc & Hd & Hl). destruct m as [cfg st ls hs w c r o]. simpl in *. subst cfg.
  destruct k; try done; try (destruct st; done).
  specialize (Hs eq_refl). unfold abnormal in Hs. apply orb_false_iff in Hs as [Hs Hcr].
  apply orb_false_iff in Hs as [Ho Hw]. apply negb_false_iff in Ho.
  destruct st; try done. unfold handle, handle_sample, calm_machine.
  cbn -[is_warning is_critical is_recovered default_config]. rewrite Ho, Hw, Hcr. vm_compute. auto.
Qed.

Lemma handle_all_calm (es : list Event) (m : MotorStateMachine) :
  Forall calm es → calm_machine m → calm_machine (handle_all es m).
Proof. intros H. revert m. induction H as [|e es He _ IH]; intros m Hm; [done|]. apply IH. by apply handle_calm. Qed.

(** ** The invariant *)

Section Cause.
Context (L : PoolLayout) (strerror : Z → text) (euid : Z) (HL : edge_layout_ok L).
Context (path : text) (os : Os) (p : option PathEntry).

#[local] Hint Extern 1 (ObjectPool EdgePool PooledEvent) => exact (edge_pool L) : typeclass_instances.
#[local] Existing Instance edge_queue.
#[local] Hint Extern 1 (ObjectPoolLaws EdgePool PooledEvent _) => exact (edge_pool_laws L HL) : typeclass_instances.
#[local] Existing Instance edge_queue_laws.


Record cause_inv (w : Whole) : Prop := {
  ca_baseline : baseline_ (w_sensor w) = nominal_sample;
  ca_override : override_ (w_sensor w) = foldl overriding None (w_requests w);
  ca_events : events_ok (explained (w_requests w)) (dm_runtime (w_daemon w))
}.

Lemma cause_same (w w' : Whole) :
  cause_inv w → w_daemon w' = w_daemon w → w_sensor w' = w_sensor w → w_requests w' = w_requests w → cause_inv w'.
Proof. intros [H1 H2 H3] E1 E2 E3. split; by rewrite ?E1, ?E2, ?E3. Qed.

Lemma explained_kinds (reqs : list text) :
  explained reqs Event_startup ∧ explained reqs Event_self_test_passed ∧
  explained reqs Event_shutdown_requested ∧ explained reqs Event_reset_requested.
Proof. unfold explained. naive_solver. Qed.

(** A reading of the sensor. *)
Lemma read_explained (w : Whole) :
  cause_inv w → explained (w_requests w) (Event_sensor_sample (snd (simulated_read (w_sensor w)))).
Proof.
  intros [Hb Ho _]. unfold simulated_read. cbn [snd]. do 4 right. eexists _, _. split; [reflexivity|].
  rewrite Ho, Hb. destruct (foldl overriding None (w_requests w)) as [smp|] eqn:Hf; simpl; [right|by left].
  by apply overriding_source.
Qed.

Lemma daemon_step_events (mv : DaemonMove) (reqs : list text) (d d' : DaemonSystem) :
  daemon_step L strerror euid mv d = Some d' → events_ok (explained reqs) (dm_runtime d) →
  (∀ now expired smp, mv = DThread (MvSensor now expired (Some smp)) → explained reqs (Event_sensor_sample smp)) →
  (∀ now expired e, mv = DServer now expired e → explained reqs e) →
  events_ok (explained reqs) (dm_runtime d').
Proof.
  intros H He Hsns Hsrv. destruct (daemon_step_view _ _ _ _ _ _ H) as [->|(rmv & Hr & Hm)]; [done|].
  destruct (explained_kinds reqs) as (K1 & K2 & K3 & _).
  eapply (exec_move_ok L); [exact Hm|exact He|].
  destruct mv as [|mv|now expired e|now expired env unlinking]; simpl in Hr; [done|..].
  - destruct Hr as [-> Ht]. destruct mv; try done. intros smp -> _ _. by eapply Hsns.
  - subst rmv. split_and!; [done..|]. intros e' [= <-]. by eapply Hsrv.
  - destruct Hr as (call & -> & Hcall). split_and!; [done..|]. intros e ->.
    by destruct Hcall as [?|[?|?]]; simplify_eq.
Qed.

Lemma publish_cause (now : Z) (expired : bool) (e : Event) (next : PublishResult → Handler) (w w' : Whole) :
  cause_inv w → explained (w_requests w) e → server_publish L strerror euid now expired e next w = Some w' →
  cause_inv w'.
Proof.
  intros [Hb Ho He] Hx H. unfold server_publish in H. apply bind_Some in H as (c & _ & H).
  apply bind_Some in H as (d' & Hs & H). injection H as <-. split; try done. cbn.
  eapply daemon_step_events; [exact Hs|done|done|]. by intros ? ? ? [= <- <- <-].
Qed.

Lemma whole_step_cause (mv : WholeMove) (w w' : Whole) :
  cause_inv w → whole_step L strerror euid mv w = Some w' → cause_inv w'.
Proof.
  intros Hw H. pose proof Hw as [Hb Ho He]. destruct (explained_kinds (w_requests w)) as (K1 & K2 & K3 & K4).
  destruct (whole_step_view _ _ _ _ _ _ H)
    as [[_ [script Hc]]|[[_ (now & expired & counts & Hc)]|[_ (dmv & sim & Hc & Hn & Hsmp & _)]]].
  - unfold connect_step in Hc. apply (cause_same w w' Hw); repeat case_match; by simplify_eq/=.
  - unfold handler_step in Hc. destruct (w_handler w); 
      try (by eapply publish_cause; [exact Hw| |exact Hc]); try (apply (cause_same w w' Hw); by simplify_eq/=).
    + pose proof (begin_sensor (ses_request (w_session w)) (w_shared w) (w_sensor w)) as Hs.
      destruct (begin_response _ _ _) as [sim h]. simpl in Hs. subst sim. injection Hc as <-. split; cbn.
      * done.
      * by rewrite foldl_app, <- Ho.
      * eapply events_ok_impl; [|exact He]. intros e. apply explained_more.
    + apply bind_Some in Hc as (sent & _ & Hc). injection Hc as <-. by apply (cause_same w).
  - unfold daemon_moves in Hc. apply bind_Some in Hc as (d' & Hs & Hc). injection Hc as <-.
    assert (Hsim : baseline_ sim = baseline_ (w_sensor w) ∧ override_ sim = override_ (w_sensor w)).
    { destruct dmv as [|[]| |]; simpl in Hsmp; subst; try done. by destruct Hsmp as [_ [->| ->]]. }
    destruct Hsim as [Hs1 Hs2]. split; cbn; [congruence|congruence|].
    eapply daemon_step_events; [exact Hs|done| |].
    + intros now expired smp ->. destruct Hsmp as [[= ->] _]. by apply read_explained.
    + by intros now expired e ->.
Qed.

Lemma whole_run_cause (mvs : list WholeMove) (w w' : Whole) :
  cause_inv w → whole_run L strerror euid mvs w = Some w' → cause_inv w'.
Proof.
  revert w. induction mvs as [|mv mvs IH]; intros w Hw H; simpl in H; [by simplify_eq|].
  apply bind_Some in H as (w1 & H1 & H). apply (IH w1); [by eapply whole_step_cause|done].
Qed.

Lemma whole_init_cause : cause_inv (whole_init L path os p).
Proof. split; [done..|]. by split; [..|repeat constructor]. Qed.

(** Injected samples are within the limits of the parser. *)
Lemma injection_ok (r : text) (smp : SensorSample) : injection r = Some smp → sample_ok smp.
Proof.
  unfold injection. pose proof (parse_command_ok r) as Hp. unfold parse_ok, parsed_ok in *.
  destruct (bool_decide (error _ = Err_none)) eqn:He; [|done]. apply bool_decide_eq_true in He.
  rewrite decide_True in Hp by done. case_bool_decide as Hk; [|done]. cbn [andb].
  destruct (injected_ok _ Hk Hp) as (s & -> & Hs). by intros [= <-].
Qed.

Lemma explained_ok (reqs : list text) (smp : SensorSample) :
  explained reqs (Event_sensor_sample smp) → sample_ok smp.
Proof.
  intros [?|[?|[?|[?|(n & s & Heq & Hs)]]]]; try done. injection Heq as ->.
  assert (Hok : sample_ok s) by (destruct Hs as [->|(r & _ & Hr)]; [apply nominal_ok|by eapply injection_ok]).
  exact Hok.
Qed.

(** Without an abnormal injection every event is calm. *)
Lemma explained_calm (reqs : list text) (e : Event) :
  (∀ r smp, r ∈ reqs → injection r = Some smp → abnormal smp = false) → explained reqs e → calm e.
Proof.
  intros Hn [->|[->|[->|[->|(n & s & -> & Hs)]]]]; try done. split; [done|]. intros _.
  change (abnormal s = false). destruct Hs as [->|(r & Hr & Hi)]; [reflexivity|by eapply Hn].
Qed.

Definition alarming (r : text) : bool := match injection r with Some smp => abnormal smp | None => false end.

(** C36: no false alarms.  In every interleaving of the threads of the daemon with
    requests of any content: the override of the sensor is what the requests served
    so far make of it, in their order; every event pushed to the machine is one of
    the program's own or a sample that is nominal or was injected by one of these
    requests, so every sample is within the limits of the parser; and when the
    machine is in [Degraded] or [FaultLatched], one of the requests injected a
    sample that is offline, in the warning range or critical. *)
Theorem alarms_have_a_cause (mvs : list WholeMove) (w : Whole)
    (Hrun : whole_run L strerror euid mvs (whole_init L path os p) = Some w) :
  override_ (w_sensor w) = foldl overriding None (w_requests w) ∧
  Forall (explained (w_requests w)) (log_pushed (w_shared w)) ∧
  (∀ smp, Event_sensor_sample smp ∈ log_pushed (w_shared w) → sample_ok smp) ∧
  (state_ (machine_ (w_shared w)) = degraded ∨ state_ (machine_ (w_shared w)) = fault_latched →
   ∃ r smp, r ∈ w_requests w ∧ injection r = Some smp ∧ abnormal smp = true).
Proof.
  pose proof (whole_run_cause mvs _ w whole_init_cause Hrun) as [_ Ho [Hlog _ _]].
  pose proof (whole_run_inv _ _ _ HL _ _ _ mvs _ w (whole_init_inv _ _ _ _ _ _) Hrun) as Hw.
  split_and!; [done|done|intros smp Hin; rewrite Forall_forall in Hlog; by eapply explained_ok, Hlog|].
  intros Hst. destruct (decide (Exists (λ r, alarming r = true) (w_requests w))) as [Hex|Hno].
  { apply Exists_exists in Hex as (r & Hr & Ha). unfold alarming in Ha.
    destruct (injection r) as [smp|] eqn:Hi; [|done]. eauto. }
  exfalso. destruct (rt_reachable_inv default_config 2 _ (whole_reachable _ _ _ _ _ _ w Hw)) as (l & c & Hinv).
  destruct (sys_inv_events default_config _ l c Hinv) as (pending & Hp & Hm & _). fold (w_shared w) in Hp, Hm.
  assert (Hcalm : calm_machine (machine_ (w_shared w))); [|destruct Hcalm as (_ & ? & ?); tauto].
  unfold w_shared in *. rewrite Hm. apply handle_all_calm; [|by split].
  rewrite Hp in Hlog. apply Forall_app in Hlog as [Hlog _]. eapply Forall_impl; [exact Hlog|]. intros e.
  apply explained_calm. intros r smp Hr Hi. apply not_true_iff_false. intros Hb. apply Hno, Exists_exists.
  exists r. split; [done|]. unfold alarming. by rewrite Hi.
Qed.

End Cause.

(** The fault of the run goes back to the injection. *)
Lemma alarms_have_a_cause_witness :
  ∃ w r smp, whole_example hot_moves = Some w ∧ state_ (machine_ (w_shared w)) = fault_latched ∧
    r ∈ w_requests w ∧ injection r = Some smp ∧ abnormal smp = true.
Proof.
  destruct (whole_example hot_moves) as [w|] eqn:Hw; [|exfalso; vm_compute in Hw; discriminate Hw].
  assert (Hv : (λ w, state_ (machine_ (w_shared w))) <$> whole_example hot_moves = Some fault_latched)
    by (vm_compute; reflexivity).
  rewrite Hw in Hv. injection Hv as Hv.
  destruct (alarms_have_a_cause demo_edge_layout (λ _, []) 1000 demo_layout_edge_ok (lit "/tmp/s") example_os None
    hot_moves w Hw) as (_ & _ & _ & Hc).
  destruct (Hc (or_intror Hv)) as (r & smp & Hr & Hi & Ha).
  exists w, r, smp. split_and!; [reflexivity|exact Hv|exact Hr|exact Hi|exact Ha].
Defined.
