(* ===== verification/DaemonEnd.v ===== *)
(** * The end of the daemon

    Once it is told to end, the whole daemon can end, from wherever its threads and
    its clients are. *)
From Stdlib Require Import Ascii String.
From stdpp Require Import gmap strings.
From S2P Require Import Prelude Bytes Double Domain Fsm Metrics Pool Queue Interfaces Runtime RuntimeStop.
From S2P Require Import RuntimeProps EventFlow Measurement Uart Buses Descriptors Sensors Command Server.
From S2P Require Import ServerLife Format Daemon DaemonMain DaemonExit DaemonWhole DaemonAnswers DaemonServe.

Local Open Scope Z_scope.

Section End_.
Context (L : PoolLayout) (strerror : Z → text) (euid : Z) (HL : edge_layout_ok L).
Context (path : text) (os : Os) (p : option PathEntry).

#[local] Hint Extern 1 (ObjectPool EdgePool PooledEvent) => exact (edge_pool L) : typeclass_instances.
#[local] Existing Instance edge_queue.
#[local] Hint Extern 1 (ObjectPoolLaws EdgePool PooledEvent _) => exact (edge_pool_laws L HL) : typeclass_instances.
#[local] Existing Instance edge_queue_laws.

#[local] Abbreviation winv := (whole_inv L strerror euid path os p).
#[local] Abbreviation wrun := (whole_run L strerror euid).

(** The server thread ends the request it has. *)
Lemma serve_out (w : Whole) : winv w → ∃ mvs w', wrun mvs w = Some w' ∧ w_handler w' = HIdle.
Proof.
  remember (whole_left w) as n eqn:Hn. revert w Hn. induction (lt_wf n) as [n _ IH]. intros w -> Hw.
  assert (Hcase : w_handler w = HIdle ∨ w_handler w ≠ HIdle) by (destruct (w_handler w); auto).
  destruct Hcase as [Hi|Hi]; [by exists [], w|].
  destruct (handler_moves L strerror euid HL path os p w Hw Hi) as (counts & w1 & H1).
  assert (Hgo : ∀ mvs w', wrun mvs w1 = Some w' → wrun (WServer 0 true counts :: mvs) w = Some w')
    by (intros mvs w' H; simpl; by rewrite H1).
  pose proof (handler_step_inv _ _ _ HL _ _ _ _ _ _ _ _ Hw H1) as Hw1.
  destruct (handler_step_left _ _ _ _ _ _ _ _ _ _ _ Hw H1) as [[Hi1 _]|(_ & _ & _ & Hlt)].
  - exists [WServer 0 true counts], w1. split; [by apply Hgo|done].
  - destruct (IH _ Hlt w1 eq_refl Hw1) as (mvs & w' & Hrun & Hi'). eauto.
Qed.

(** A sensor thread that is not to read does the same with every sample. *)
Lemma sensor_any (now : Z) (expired : bool) (sample sample' : option SensorSample) (y : EdgeSystem) :
  (sensor y = SnsCheck → sensor_stop (shared y) = true) →
  exec_move (MvSensor now expired sample) y = exec_move (MvSensor now expired sample') y.
Proof.
  intros H. cbn [exec_move]. destruct (sensor y) as [| |q| |]; try done. simpl. by rewrite (H eq_refl).
Qed.

(** With the server thread idle, the rest of the daemon goes where [DaemonMain] can go. *)
Lemma leads_whole (d d' : DaemonSystem) :
  leads L strerror euid d d' → ∀ w, winv w → w_handler w = HIdle → w_daemon w = d →
  ∃ mvs w', wrun mvs w = Some w' ∧ w_daemon w' = d'.
Proof.
  induction 1 as [d|mv d d1 d2 Hs Hun _ IH]; intros w Hw Hi Hd; [by exists [], w|].
  destruct (wi_handler _ _ _ _ _ _ w Hw) as (c1 & Hc1 & Hh). rewrite Hi in Hh. simpl in Hh. subst c1.
  assert (Hstep : ∃ wmv w1, whole_step L strerror euid wmv w = Some w1 ∧ w_handler w1 = HIdle ∧ w_daemon w1 = d1).
  { subst d. assert (Hmv : ∀ sim, ∃ w1, daemon_moves L strerror euid mv sim w = Some w1 ∧
      w_handler w1 = HIdle ∧ w_daemon w1 = d1).
    { intros sim. unfold daemon_moves. rewrite Hs. by eexists. }
    destruct mv as [|[now|now expired sample| |i now expired call]|now expired e|now expired env unlinking].
    - exists WSignal. apply Hmv.
    - exists (WControl now). cbn [whole_step]. rewrite Hi. apply Hmv.
    - exists (WSensor now expired). cbn [whole_step]. destruct (simulated_read (w_sensor w)) as [sim smp].
      unfold daemon_moves in *. cbn [daemon_step is_thread] in *. rewrite (sensor_any _ _ (Some smp) sample) by done.
      apply Hmv.
    - exists WMonitor. apply Hmv.
    - done.
    - done.
    - exists (WMain now expired env unlinking). cbn [whole_step].
      assert (Hm : main_waits w = false) by (unfold main_waits; rewrite Hi; by destruct (dm_main _)).
      rewrite Hm. apply Hmv. }
  destruct Hstep as (wmv & w1 & H1 & Hi1 & Hd1). pose proof (whole_step_inv _ _ _ HL _ _ _ _ _ _ Hw H1) as Hw1.
  destruct (IH w1 Hw1 Hi1 Hd1) as (mvs & w' & Hrun & Hd'). exists (wmv :: mvs), w'. simpl. by rewrite H1.
Qed.

(** What tells the daemon to end is not taken back. *)
Lemma told_run (mvs : list WholeMove) (w w' : Whole) :
  wrun mvs w = Some w' → told_to_end (w_daemon w) → told_to_end (w_daemon w').
Proof.
  revert w. induction mvs as [|mv mvs IH]; intros w H Ht; simpl in H; [by simplify_eq|].
  apply bind_Some in H as (w1 & H1 & H). apply (IH w1 H).
  destruct (whole_step_daemon _ _ _ _ _ _ H1) as [->|[dmv Hs]]; [done|].
  destruct Ht as [Hsig|Hin]; [left; by eapply daemon_step_signal|right].
  destruct (daemon_step_grows _ _ _ _ _ _ Hs) as [[l ->] _]. apply elem_of_app. by left.
Qed.

Lemma run_log (mvs : list WholeMove) (w w' : Whole) :
  wrun mvs w = Some w' → log_pushed (w_shared w) `prefix_of` log_pushed (w_shared w').
Proof.
  revert w. induction mvs as [|mv mvs IH]; intros w H; simpl in H; [by simplify_eq|].
  apply bind_Some in H as (w1 & H1 & H). etrans; [|by apply (IH w1)]. unfold w_shared.
  destruct (whole_step_daemon _ _ _ _ _ _ H1) as [->|[dmv Hs]]; [done|apply (daemon_step_grows _ _ _ _ _ _ Hs)].
Qed.

(** C37: a daemon that is told to end can always exit, safely.  From every
    configuration the whole daemon can reach, whatever its threads, its locks and
    its clients are doing, once SIGINT or SIGTERM has arrived or a client's shutdown
    event was accepted there is a continuation that ends [main]: no lock, full
    queue, request or join can keep it from returning for ever.  And after an
    accepted shutdown event, whatever happens next, [main] only returns with the
    machine in [SafeShutdown]. *)
Theorem told_daemon_exits (mvs : list WholeMove) (w : Whole)
    (Hrun : whole_run L strerror euid mvs (whole_init L path os p) = Some w)
    (Htold : told_to_end (w_daemon w)) :
  (∃ mvs' w' code, whole_run L strerror euid mvs' w = Some w' ∧ dm_main (w_daemon w') = MainExit code) ∧
  (Event_shutdown_requested ∈ log_pushed (w_shared w) →
   ∀ mvs' w' code, whole_run L strerror euid mvs' w = Some w' → dm_main (w_daemon w') = MainExit code →
     state_ (machine_ (w_shared w')) = safe_shutdown).
Proof.
  pose proof (whole_run_inv _ _ _ HL _ _ _ mvs _ w (whole_init_inv _ _ _ _ _ _) Hrun) as Hw. split.
  - destruct (serve_out w Hw) as (mvs1 & w1 & H1 & Hi1).
    pose proof (whole_run_inv _ _ _ HL _ _ _ _ _ _ Hw H1) as Hw1. destruct (wi_run _ _ _ _ _ _ w1 Hw1) as [dmvs Hd].
    destruct (told_leads L strerror euid HL path os p (w_daemon w1)) as (d' & code & Hl & He);
      [by eapply run_inv|by eapply told_run|].
    destruct (leads_whole _ _ Hl w1 Hw1 Hi1 eq_refl) as (mvs2 & w2 & H2 & Hd2).
    exists (mvs1 ++ mvs2), w2, code. by rewrite whole_run_app, H1, Hd2.
  - intros Hin mvs' w' code Hrun' Hexit. pose proof (whole_run_inv _ _ _ HL _ _ _ _ _ _ Hw Hrun') as Hw'.
    destruct (wi_run _ _ _ _ _ _ w' Hw') as [dmvs Hd].
    eapply (exit_safe L euid HL path os p); [by eapply run_inv|done|].
    destruct (run_log _ _ _ Hrun') as [l Hl]. fold (w_shared w'). rewrite Hl. apply elem_of_app. by left.
Qed.

End End_.

(** A client asks for a shutdown while a fault is latched. *)
Definition told_moves : list WholeMove := hot_moves ++ [arrives "shutdown"] ++ serves 6.

Lemma told_daemon_exits_witness :
  ∃ w mvs' w' code, whole_example told_moves = Some w ∧ stop_requested (w_daemon w) = false ∧
    whole_run demo_edge_layout (λ _, []) 1000 mvs' w = Some w' ∧ dm_main (w_daemon w') = MainExit code ∧
    state_ (machine_ (w_shared w')) = safe_shutdown.
Proof.
  destruct (whole_example told_moves) as [w|] eqn:Hw; [|exfalso; vm_compute in Hw; discriminate Hw].
  assert (Hv : (λ w, (stop_requested (w_daemon w), last (log_pushed (w_shared w)))) <$> whole_example told_moves
               = Some (false, Some Event_shutdown_requested)) by (vm_compute; reflexivity).
  rewrite Hw in Hv. injection Hv as Hs Hl. apply last_Some in Hl as [l Hl].
  assert (Hin : Event_shutdown_requested ∈ log_pushed (w_shared w))
    by (rewrite Hl; apply elem_of_app; right; apply list_elem_of_here).
  destruct (told_daemon_exits demo_edge_layout (λ _, []) 1000 demo_layout_edge_ok (lit "/tmp/s") example_os None
    told_moves w Hw (or_intror Hin)) as [(mvs' & w' & code & Hrun & Hexit) Hsafe].
  exists w, mvs', w', code. split_and!; [reflexivity|exact Hs|exact Hrun|exact Hexit|].
  exact (Hsafe Hin mvs' w' code Hrun Hexit).
Defined.
