(* ===== verification/Bench.v ===== *)
(** * The benchmark ([benchmarks/event_pipeline_benchmark.cpp])

    A producer, the main thread, sends numbered events through a pool and a queue
    to a consumer thread, which measures their latencies.  Each thread is a
    program counter at its next access to the pool or to the queue; the clock and
    the expiry of the push timeout are inputs of the steps.  The number of events
    is a parameter of the model; the program uses [kEventCount]. *)
From stdpp Require Import gmap sorting.
From S2P Require Import Prelude Double Pool Queue Interfaces Command.

Local Open Scope Z_scope.

Definition kEventCount : nat := Z.to_nat 50000.

Record BenchmarkEvent := MkBenchEvent {
  bench_sequence : Z;
  bench_created_at : Z        (* steady_clock, in nanoseconds *)
}.

(** The main thread: the loop over [sequence] and what follows it. *)
Inductive Producer :=
| PrdCreate (sequence : nat)                  (* [pool.try_create(...)] *)
| PrdPush (sequence : nat) (e : BenchmarkEvent) (h : Handle)    (* [queue.wait_push(std::move(event), 1s)] *)
| PrdDrop (sequence : nat) (e : BenchmarkEvent) (h : Handle)    (* the refused argument is destroyed *)
| PrdClose                                    (* [queue.close()] *)
| PrdJoin                                     (* [consumer.join()] *)
| PrdDone (code : Z).                         (* [return pool.outstanding() == 0 ? 0 : 1] *)

(** The consumer: the loop over [index]. *)
Inductive Consumer :=
| CnsPop (index : nat)                        (* [queue.wait_pop()] *)
| CnsRead (index : nat) (h : Handle)          (* reads the clock and [created_at], stores the latency *)
| CnsRelease (index : nat) (h : Handle)       (* end of the loop body: [~Handle] *)
| CnsDone.

Section Bench.
Context {P Q : Type} `{!ObjectPool P BenchmarkEvent} `{!EventQueue Q Handle}.
Context (count : nat).

(** [received] and [measured] are history variables: the sequence numbers and the
    latencies in the order in which the consumer met them. *)
Record BenchSystem := MkBench {
  b_pool : P;
  b_queue : Q;
  producer : Producer;
  consumer : Consumer;
  latencies_ns : list Z;      (* std::array<std::uint64_t, kEventCount> *)
  received : list Z;
  measured : list Z
}.

(** The conditions of the two loops. *)
Definition produce_at (sequence : nat) : Producer :=
  if (sequence <? count)%nat then PrdCreate sequence else PrdClose.
Definition consume_at (index : nat) : Consumer :=
  if (index <? count)%nat then CnsPop index else CnsDone.

Definition bench_init : BenchSystem :=
  MkBench op_init eq_init (produce_at 0) (consume_at 0) (replicate count 0) [] [].

(** [return pool.outstanding() == 0 ? 0 : 1] *)
Definition bench_exit_code (p : P) : Z := if op_in_use p =? 0 then 0 else 1.

Definition set_producer (pc : Producer) (p : P) (q : Q) (s : BenchSystem) : BenchSystem :=
  MkBench p q pc (consumer s) (latencies_ns s) (received s) (measured s).
Definition set_consumer (pc : Consumer) (p : P) (q : Q) (s : BenchSystem) : BenchSystem :=
  MkBench p q (producer s) pc (latencies_ns s) (received s) (measured s).

Definition producer_step (now : Z) (expired : bool) (s : BenchSystem) : option BenchSystem :=
  match producer s with
  | PrdCreate sequence =>
      let e := MkBenchEvent (Z.of_nat sequence) now in
      let '(p, h) := op_create e (b_pool s) in
      Some (set_producer (if negb (handle_valid h) then PrdCreate sequence else PrdPush sequence e h) p (b_queue s) s)
  | PrdPush sequence e h =>
      match eq_push expired h (b_queue s) with
      | None => None                                (* waiting on [not_full_] *)
      | Some (q, pushed) => Some (set_producer (produce_at (S sequence)) (b_pool s) q s)
      | Some (q, _) => Some (set_producer (PrdDrop sequence e h) (b_pool s) q s)
      end
  | PrdDrop sequence e h => Some (set_producer (PrdCreate sequence) (op_drop h (b_pool s)) (b_queue s) s)
  | PrdClose => Some (set_producer PrdJoin (b_pool s) (eq_close (b_queue s)) s)
  | PrdJoin =>
      match consumer s with
      | CnsDone => Some (set_producer (PrdDone (bench_exit_code (b_pool s))) (b_pool s) (b_queue s) s)
      | _ => None
      end
  | PrdDone _ => None
  end.

Definition consumer_step (now : Z) (s : BenchSystem) : option BenchSystem :=
  match consumer s with
  | CnsPop index =>
      match eq_pop (b_queue s) with
      | None => None                                (* waiting on [not_empty_] *)
      | Some (q, Some h) => Some (set_consumer (CnsRead index h) (b_pool s) q s)
      | Some (q, None) => Some (set_consumer CnsDone (b_pool s) q s)
      end
  | CnsRead index h =>
      match op_deref h (b_pool s) with
      | Some e =>
          let latency := (now - bench_created_at e) mod u64_modulus in
          Some (MkBench (b_pool s) (b_queue s) (producer s) (CnsRelease index h)
                  (<[index := latency]> (latencies_ns s))
                  (received s ++ [bench_sequence e]) (measured s ++ [latency]))
      | None => None                                (* dangling: excluded by the invariant *)
      end
  | CnsRelease index h =>
      Some (set_consumer (consume_at (S index)) (op_drop h (b_pool s)) (b_queue s) s)
  | CnsDone => None
  end.

Inductive BenchMove := BmProducer (now : Z) (expired : bool) | BmConsumer (now : Z).

Definition bench_step (mv : BenchMove) (s : BenchSystem) : option BenchSystem :=
  match mv with
  | BmProducer now expired => producer_step now expired s
  | BmConsumer now => consumer_step now s
  end.

(** A push that timed out. *)
Definition gave_up (s s' : BenchSystem) : nat :=
  match producer s, producer s' with PrdPush _ _ _, PrdDrop _ _ _ => 1 | _, _ => 0 end.

(** A schedule from [s]: where it ends, and how many pushes timed out. *)
Fixpoint bench_run (mvs : list BenchMove) (s : BenchSystem) : option (BenchSystem * nat) :=
  match mvs with
  | [] => Some (s, 0%nat)
  | mv :: mvs =>
      s' ← bench_step mv s;
      '(s'', n) ← bench_run mvs s';
      Some (s'', (gave_up s s' + n)%nat)
  end.

End Bench.

(** ** The report

    What the program prints, but for the two lines that measure the wall clock. *)

(** [static_cast<std::size_t>(x)] of a double: towards zero. *)
Definition truncate (x : double) : Z :=
  match x with
  | S754_finite s m e =>
      let magnitude := if 0 <=? e then Zpos m * 2 ^ e else Zpos m / 2 ^ (- e) in
      if s then - magnitude else magnitude
  | _ => 0
  end.

Definition percentile (sorted : list Z) (fraction : double) : option Z :=
  sorted !! Z.to_nat (truncate (SFmul Double.prec Double.emax (Double.of_Z (Z.of_nat (length sorted) - 1)) fraction)).

(** The literals [0.50], [0.95], [0.99]. *)
Definition hundredths (n : Z) : double := decimal_round false n (-2).

Record BenchReport := MkReport {
  latency_average_ns : Z;
  latency_p50_ns : option Z;
  latency_p95_ns : option Z;
  latency_p99_ns : option Z;
  latency_max_ns : option Z;
  pool_high_watermark : Z * Z;                  (* over the capacity *)
  queue_high_watermark : Z * Z;
  reported_allocation_failures : Z
}.

(** The last latency is the largest after the sort. *)
Definition bench_report (latencies : list Z) (pool : PoolStats) (queue : QueueStats) : BenchReport :=
  let sorted := merge_sort Z.le latencies in
  let total := foldl (λ a x, (a + x) mod u64_modulus) 0 sorted in
  MkReport (total / Z.of_nat kEventCount) (percentile sorted (hundredths 50)) (percentile sorted (hundredths 95))
    (percentile sorted (hundredths 99)) (last sorted)
    (high_watermark pool, capacity pool) (stat_high_watermark queue, stat_capacity queue)
    (allocation_failures pool).
