(* ===== verification/BenchProps.v ===== *)
(** * Properties of the benchmark *)
From stdpp Require Import gmap sorting.
From S2P Require Import Prelude Double Pool PoolProps Queue QueueProps Interfaces Command Bench.

Local Open Scope Z_scope.

(** ** Who holds which object *)

Section Holders.
Context {T : Type}.

(** The live objects are those behind the handles, each once, with these values. *)
Record holders (m : gmap Z T) (hs : list (Handle * T)) : Prop := {
  hd_handles : Forall (λ x, pool_ x.1 = true ∧ object_ x.1 ≠ 0) hs;
  hd_objects : (λ x, (object_ x.1, x.2)) <$> hs ≡ₚ map_to_list m
}.

#[export] Instance holders_proper (m : gmap Z T) : Proper ((≡ₚ) ==> iff) (holders m).
Proof. intros hs hs' Hp. split; intros [H1 H2]; split; [by rewrite <- Hp|by rewrite <- Hp|by rewrite Hp|by rewrite Hp]. Qed.

Lemma holders_empty : holders ∅ [].
Proof. split; [done|]. by rewrite map_to_list_empty. Qed.

Lemma holders_create (m : gmap Z T) (hs : list (Handle * T)) (q : Z) (v : T) :
  holders m hs → q ≠ 0 → m !! q = None → holders (<[q := v]> m) ((MkHandle true q, v) :: hs).
Proof.
  intros [H1 H2] Hq Hm. split; [by constructor|]. rewrite map_to_list_insert by done.
  rewrite fmap_cons. by rewrite H2.
Qed.

Lemma holders_head (m : gmap Z T) (hs : list (Handle * T)) (h : Handle) (v : T) :
  holders m ((h, v) :: hs) → pool_ h = true ∧ m !! object_ h = Some v.
Proof.
  intros [H1 H2]. apply Forall_cons in H1 as [[Hp _] _]. split; [done|].
  apply elem_of_map_to_list. rewrite <- H2, fmap_cons. apply elem_of_cons. by left.
Qed.

Lemma holders_drop (m : gmap Z T) (hs : list (Handle * T)) (h : Handle) (v : T) :
  holders m ((h, v) :: hs) → holders (delete (object_ h) m) hs.
Proof.
  intros H. destruct (holders_head _ _ _ _ H) as [_ Hm]. destruct H as [H1 H2].
  apply Forall_cons in H1 as [_ H1]. split; [done|]. rewrite fmap_cons in H2. simpl in H2.
  rewrite <- (map_to_list_delete m (object_ h) v Hm) in H2. by apply Permutation.Permutation_cons_inv in H2.
Qed.

Lemma holders_size (m : gmap Z T) (hs : list (Handle * T)) : holders m hs → length hs = size m.
Proof. intros [_ H]. rewrite <- length_map_to_list, <- H. by rewrite length_fmap. Qed.

End Holders.

(** ** The invariant *)

Section Props.
Context {P Q : Type} `{!ObjectPool P BenchmarkEvent} `{!EventQueue Q Handle}.
Context {cp cq : nat} `{!ObjectPoolLaws P BenchmarkEvent cp} `{!EventQueueLaws Q Handle cq}.
Context (Hcap : (0 < cq)%nat) (Hroom : (cq + 2 < cp)%nat) (count : nat).

#[local] Abbreviation BenchSystem := (BenchSystem (P := P) (Q := Q)).

Definition producer_held (pc : Producer) : list (Handle * BenchmarkEvent) :=
  match pc with PrdPush _ e h | PrdDrop _ e h => [(h, e)] | _ => [] end.

(** The events pushed so far; those of the loop are below the count. *)
Definition pushed_count (pc : Producer) : nat :=
  match pc with PrdCreate n | PrdPush n _ _ | PrdDrop n _ _ => n | _ => count end.
Definition producer_ok (pc : Producer) : Prop :=
  match pc with
  | PrdCreate n => (n < count)%nat
  | PrdPush n e _ | PrdDrop n e _ => (n < count)%nat ∧ bench_sequence e = Z.of_nat n
  | _ => True
  end.
Definition producer_closed (pc : Producer) : bool :=
  match pc with PrdJoin | PrdDone _ => true | _ => false end.

(** What the consumer holds: the event still to be read, the one read already. *)
Definition consumer_held (pc : Consumer) (e : BenchmarkEvent) : list (Handle * BenchmarkEvent) :=
  match pc with CnsRead _ h | CnsRelease _ h => [(h, e)] | _ => [] end.
Definition consumer_pending (pc : Consumer) (e : BenchmarkEvent) : list Z :=
  match pc with CnsRead _ _ => [bench_sequence e] | _ => [] end.
(** How many events it has read. *)
Definition consumer_ok (pc : Consumer) (n : nat) : Prop :=
  match pc with
  | CnsPop i | CnsRead i _ => (i < count)%nat ∧ n = i
  | CnsRelease i _ => (i < count)%nat ∧ n = S i
  | CnsDone => n = count
  end.

(** [l], [c]: the content of the queue and its flag; [evs]: the events behind [l];
    [e]: the event in the consumer's hands. *)
Record bench_inv (s : BenchSystem) (m : gmap Z BenchmarkEvent) (l : list Handle) (c : bool)
    (evs : list BenchmarkEvent) (e : BenchmarkEvent) : Prop := {
  bi_pool : op_holds (b_pool s) m;
  bi_queue : eq_holds (b_queue s) l c;
  bi_length : length evs = length l;
  bi_held : holders m (zip l evs ++ producer_held (producer s) ++ consumer_held (consumer s) e);
  bi_order : received s ++ consumer_pending (consumer s) e ++ (bench_sequence <$> evs)
             = Z.of_nat <$> seq 0 (pushed_count (producer s));
  bi_producer : producer_ok (producer s);
  bi_closed : c = producer_closed (producer s);
  bi_consumer : consumer_ok (consumer s) (length (received s));
  bi_latencies : length (measured s) = length (received s) ∧
    latencies_ns s = measured s ++ replicate (count - length (measured s)) 0;
  bi_code : ∀ code, producer s = PrdDone code → consumer s = CnsDone ∧ code = 0;
  bi_stats : allocation_failures (op_stats (b_pool s)) = 0 ∧
    high_watermark (op_stats (b_pool s)) ≤ Z.of_nat (cq + 2)
}.

Definition some_event : BenchmarkEvent := MkBenchEvent 0 0.

Lemma produce_at_ok (n : nat) : (n ≤ count)%nat →
  producer_ok (produce_at count n) ∧ pushed_count (produce_at count n) = n ∧
  producer_held (produce_at count n) = [] ∧ producer_closed (produce_at count n) = false ∧
  ∀ code, produce_at count n ≠ PrdDone code.
Proof. intros Hn. unfold produce_at. destruct (Nat.ltb_spec n count); simpl; split_and!; done || lia. Qed.

Lemma consume_at_ok (n : nat) (e : BenchmarkEvent) : (n ≤ count)%nat →
  consumer_ok (consume_at count n) n ∧ consumer_held (consume_at count n) e = [] ∧
  consumer_pending (consume_at count n) e = [].
Proof. intros Hn. unfold consume_at. destruct (Nat.ltb_spec n count); simpl; split_and!; done || lia. Qed.

Lemma bench_init_inv : bench_inv (bench_init count) ∅ [] false [] some_event.
Proof.
  destruct (produce_at_ok 0) as (H1 & H2 & H3 & H4 & H5); [lia|].
  destruct (consume_at_ok 0 some_event) as (H6 & H7 & H8); [lia|].
  split; simpl; try done; [apply op_init_law|apply eq_init_law|by rewrite H3, H7; apply holders_empty
    |by rewrite H8, H2|by rewrite Nat.sub_0_r| |].
  - intros code Hc. by destruct (H5 code).
  - destruct (op_init_stats_law (P := P) (T := BenchmarkEvent)) as [-> ->]. split; [done|lia].
Qed.

Lemma held_size (s : BenchSystem) m l c evs e :
  bench_inv s m l c evs e → (size m ≤ length l + length (producer_held (producer s)) + 1)%nat.
Proof.
  intros Hi. rewrite <- (holders_size _ _ (bi_held _ _ _ _ _ _ Hi)), !length_app, length_zip, (bi_length _ _ _ _ _ _ Hi).
  assert (length (consumer_held (consumer s) e) ≤ 1)%nat by (destruct (consumer s); simpl; lia). lia.
Qed.

Lemma producer_holds_one (pc : Producer) : (length (producer_held pc) ≤ 1)%nat.
Proof. clear. destruct pc; simpl; lia. Qed.

(** What a create does to the statistics of the pool. *)
Lemma create_stats (s : BenchSystem) m l c evs e v :
  bench_inv s m l c evs e → producer_held (producer s) = [] →
  allocation_failures (op_stats (op_create v (b_pool s)).1) = 0 ∧
  high_watermark (op_stats (op_create v (b_pool s)).1) ≤ Z.of_nat (cq + 2).
Proof.
  intros Hi Hp. pose proof (held_size _ _ _ _ _ _ Hi) as Hs. rewrite Hp in Hs. simpl in Hs.
  pose proof (eq_capacity_law _ _ _ (bi_queue _ _ _ _ _ _ Hi)) as Hl. destruct (bi_stats _ _ _ _ _ _ Hi) as [Hf Hh].
  destruct (op_create_stats_law v _ m (bi_pool _ _ _ _ _ _ Hi)) as [-> ->]; lia.
Qed.

(** A create always succeeds: there is room for the queue and both threads. *)
Lemma create_succeeds (s : BenchSystem) m l c evs e v :
  bench_inv s m l c evs e →
  ∃ p q, op_create v (b_pool s) = (p, MkHandle true q) ∧ q ≠ 0 ∧ m !! q = None ∧ op_holds p (<[q := v]> m).
Proof.
  intros Hi. pose proof (held_size _ _ _ _ _ _ Hi) as Hs. pose proof (producer_holds_one (producer s)).
  pose proof (eq_capacity_law _ _ _ (bi_queue _ _ _ _ _ _ Hi)) as Hl.
  pose proof (op_create_law v _ m (bi_pool _ _ _ _ _ _ Hi)) as Hc. destruct (op_create v (b_pool s)) as [p h].
  rewrite decide_False in Hc by lia. destruct Hc as (q & -> & Hq). eauto.
Qed.

Lemma producer_inv (now : Z) (expired : bool) (s s' : BenchSystem) m l c evs e :
  bench_inv s m l c evs e → producer_step count now expired s = Some s' →
  ∃ m' l' c' evs', bench_inv s' m' l' c' evs' e.
Proof.
  intros Hinv Hs. pose proof Hinv as [Hp Hq Hlen Hh Ho Hok Hcl Hcons Hlat Hcode Hstat]. unfold producer_step in Hs.
  destruct (producer s) as [n|n ev h|n ev h| | |code] eqn:Hpc; cbn [producer_held producer_ok pushed_count] in *.
  - destruct (create_succeeds s m l c evs e (MkBenchEvent (Z.of_nat n) now) Hinv) as (p & q & Hc & Hq0 & Hm & Hp').
    pose proof (create_stats s m l c evs e (MkBenchEvent (Z.of_nat n) now) Hinv ltac:(by rewrite Hpc)) as Hst.
    rewrite Hc in Hs, Hst. unfold handle_valid in Hs. simpl in Hs. destruct (Z.eqb_spec q 0); [done|]. simplify_eq/=.
    exists (<[q := MkBenchEvent (Z.of_nat n) now]> m), l, false, evs. split; simpl; try done.
    rewrite <- Permutation_middle. by apply holders_create.
  - pose proof (eq_push_law expired h _ l c Hq) as Hlaw.
    destruct (eq_push expired h (b_queue s)) as [[q r]|]; [|done]. destruct Hok as [Hn Hseq].
    destruct r; [| done | |]; simplify_eq/=.
    + destruct Hlaw as (_ & _ & Hq'). destruct (produce_at_ok (S n)) as (H1 & H2 & H3 & H4 & H5); [lia|].
      exists m, (l ++ [h]), false, (evs ++ [ev]). split; simpl; try done.
      * rewrite !length_app. simpl. lia.
      * rewrite H3. rewrite zip_with_app by done. rewrite <- app_assoc. exact Hh.
      * rewrite H2, seq_S, !fmap_app, <- Ho, <- !app_assoc. simpl. by rewrite Hseq.
      * intros code Hc. by destruct (H5 code).
    + destruct Hlaw as (_ & _ & _ & Hq'). exists m, l, false, evs. split; simpl; done.
    + by destruct Hlaw.
  - simplify_eq. destruct Hok as [Hn Hseq]. cbn [app] in Hh. rewrite <- Permutation_middle in Hh.
    destruct (holders_head _ _ _ _ Hh) as [Hpool Hm].
    exists (delete (object_ h) m), l, false, evs. split; simpl; try done.
    + apply op_drop_law; eauto.
    + by eapply holders_drop.
    + by destruct (op_drop_stats_law h (b_pool s)) as [-> ->].
  - simplify_eq. exists m, l, true, evs. split; simpl; try done. by eapply eq_close_law.
  - destruct (consumer s) eqn:Hc; simplify_eq. cbn [consumer_ok consumer_held consumer_pending] in *.
    assert (Hev : evs = []).
    { apply (f_equal length) in Ho. rewrite length_app, !length_fmap, length_seq in Ho.
      simpl in Ho. rewrite length_fmap in Ho. destruct evs; [done|]. simpl in Ho. lia. }
    subst evs. destruct l; [|done]. pose proof (holders_size _ _ Hh) as Hsz. simpl in Hsz.
    exists m, [], true, []. split; simpl; rewrite ?Hc; simpl; try done.
    intros code Hd. simplify_eq. split; [done|]. unfold bench_exit_code. by rewrite (op_in_use_law _ m Hp), <- Hsz.
  - done.
Qed.

Lemma consumer_inv (now : Z) (s s' : BenchSystem) m l c evs e :
  bench_inv s m l c evs e → consumer_step count now s = Some s' →
  ∃ m' l' evs' e', bench_inv s' m' l' c evs' e'.
Proof.
  intros Hinv Hs. pose proof Hinv as [Hp Hq Hlen Hh Ho Hok Hcl Hcons [Hml Hlat] Hcode Hstat]. unfold consumer_step in Hs.
  assert (Hnd : ∀ code, producer s = PrdDone code → consumer s ≠ CnsDone → False) by naive_solver.
  destruct (consumer s) as [i|i h|i h|] eqn:Hpc; cbn [consumer_held consumer_pending consumer_ok] in *.
  - pose proof (eq_pop_law _ l c Hq) as Hlaw. destruct Hcons as [Hi Hn].
    destruct (eq_pop (b_queue s)) as [[q [h|]]|]; [| |done]; simplify_eq/=.
    + destruct Hlaw as (l' & -> & Hq'). destruct evs as [|ev evs]; [done|].
      exists m, l', evs, ev. split; simpl in *; try done; [lia| |naive_solver].
      rewrite app_assoc, <- Permutation_cons_append. by rewrite app_nil_r in Hh.
    + destruct Hlaw as (-> & Hc & Hq'). destruct evs; [|done].
      exists m, [], [], e. split; simpl in *; try done; [|naive_solver].
      apply (f_equal length) in Ho. rewrite app_nil_r, length_fmap, length_seq in Ho. rewrite Ho.
      by destruct (producer s).
  - rewrite (op_deref_law h _ m Hp) in Hs. rewrite app_assoc, <- Permutation_cons_append in Hh.
    destruct (holders_head _ _ _ _ Hh) as [_ Hm]. rewrite Hm in Hs. simplify_eq/=. destruct Hcons as [Hi Hn].
    exists m, l, evs, e. split; simpl; try done.
    + by rewrite app_assoc, <- Permutation_cons_append.
    + by rewrite <- app_assoc.
    + rewrite length_app. simpl. lia.
    + split; [rewrite !length_app; simpl; lia|]. rewrite Hlat, length_app. simpl.
      rewrite insert_app_r_alt by lia. replace (i - length (measured s))%nat with 0%nat by lia.
      replace (count - length (measured s))%nat with (S (count - (length (measured s) + 1))) by lia.
      simpl. by rewrite <- app_assoc.
    + naive_solver.
  - simplify_eq. rewrite app_assoc, <- Permutation_cons_append in Hh.
    destruct (holders_head _ _ _ _ Hh) as [Hpool Hm]. destruct Hcons as [Hi Hn].
    destruct (consume_at_ok (S i) e) as (H1 & H2 & H3); [lia|].
    exists (delete (object_ h) m), l, evs, e. split; simpl; try done.
    + apply op_drop_law; eauto.
    + rewrite H2, app_nil_r. by eapply holders_drop.
    + by rewrite H3.
    + by rewrite Hn.
    + naive_solver.
    + by destruct (op_drop_stats_law h (b_pool s)) as [-> ->].
  - done.
Qed.

Lemma bench_run_inv (mvs : list BenchMove) (s s' : BenchSystem) (r : nat) :
  (∃ m l c evs e, bench_inv s m l c evs e) → bench_run count mvs s = Some (s', r) →
  ∃ m l c evs e, bench_inv s' m l c evs e.
Proof.
  revert s r. induction mvs as [|mv mvs IH]; intros s r Hi H; simpl in H; [by simplify_eq|].
  destruct (bench_step count mv s) as [s1|] eqn:Hs; [|done]. simpl in H.
  destruct (bench_run count mvs s1) as [[s2 n]|] eqn:Hr; simplify_eq/=. eapply IH; [|exact Hr].
  destruct Hi as (m & l & c & evs & e & Hi). destruct mv as [now expired|now]; simpl in Hs.
  - destruct (producer_inv _ _ _ _ _ _ _ _ _ Hi Hs) as (? & ? & ? & ? & ?). eauto 10.
  - destruct (consumer_inv _ _ _ _ _ _ _ _ Hi Hs) as (? & ? & ? & ? & ?). eauto 10.
Qed.

(** ** What is left to do *)

(** An event takes the producer two steps and the consumer three. *)
Definition producer_left (pc : Producer) : nat :=
  match pc with
  | PrdDrop n _ _ => 5 * (count - n) + 3
  | PrdCreate n => 5 * (count - n) + 2
  | PrdPush n _ _ => 5 * (count - n) + 1
  | PrdClose => 2 | PrdJoin => 1 | PrdDone _ => 0
  end.
Definition consumer_left (pc : Consumer) : nat :=
  match pc with CnsRead _ _ => 3 | CnsRelease _ _ => 2 | CnsPop _ => 1 | CnsDone => 0 end.
Definition bench_left (s : BenchSystem) : nat :=
  producer_left (producer s) + consumer_left (consumer s) + 3 * length (eq_contents (b_queue s)).

Lemma contents_eq (s : BenchSystem) m l c evs e :
  bench_inv s m l c evs e → eq_contents (b_queue s) = l.
Proof. intros Hi. apply (eq_view_law _ _ _ (bi_queue _ _ _ _ _ _ Hi)). Qed.

(** Every step but a timeout decreases it. *)
Lemma producer_decreases (now : Z) (expired : bool) (s s' : BenchSystem) m l c evs e :
  bench_inv s m l c evs e → producer_step count now expired s = Some s' →
  (bench_left s' < bench_left s + 3 * gave_up s s')%nat.
Proof.
  intros Hi Hs. pose proof (contents_eq _ _ _ _ _ _ Hi) as Hl. unfold bench_left, gave_up, producer_step in *.
  rewrite Hl. pose proof (bi_queue _ _ _ _ _ _ Hi) as Hq. pose proof (bi_producer _ _ _ _ _ _ Hi) as Hok.
  destruct (producer s) as [n|n ev h|n ev h| | |code] eqn:Hpc; cbn [producer_ok] in Hok.
  - destruct (create_succeeds s m l c evs e (MkBenchEvent (Z.of_nat n) now) Hi) as (p & q & Hc & Hq0 & _).
    rewrite Hc in Hs. unfold handle_valid in Hs. simpl in Hs. destruct (Z.eqb_spec q 0); [done|]. simplify_eq/=. lia.
  - pose proof (eq_push_law expired h _ l c Hq) as Hlaw.
    destruct (eq_push expired h (b_queue s)) as [[q []]|]; [| done | | |done]; simplify_eq/=; destruct_and?.
    + match goal with H : eq_holds q _ _ |- _ => rewrite (proj1 (eq_view_law _ _ _ H)) end.
      rewrite length_app. simpl. unfold produce_at. destruct (Nat.ltb_spec (S n) count); simpl; lia.
    + match goal with H : eq_holds q _ _ |- _ => rewrite (proj1 (eq_view_law _ _ _ H)) end. lia.
    + match goal with H : eq_holds q _ _ |- _ => rewrite (proj1 (eq_view_law _ _ _ H)) end. lia.
  - simplify_eq/=. lia.
  - simplify_eq/=. pose proof (eq_close_law _ _ _ Hq) as Hc. rewrite (proj1 (eq_view_law _ _ _ Hc)). lia.
  - destruct (consumer s) eqn:Hc; simplify_eq/=. rewrite Hc. simpl. lia.
  - done.
Qed.

Lemma consumer_decreases (now : Z) (s s' : BenchSystem) m l c evs e :
  bench_inv s m l c evs e → consumer_step count now s = Some s' →
  (bench_left s' < bench_left s)%nat ∧ gave_up s s' = 0%nat.
Proof.
  intros Hi Hs. pose proof (contents_eq _ _ _ _ _ _ Hi) as Hl. unfold bench_left, gave_up, consumer_step in *.
  rewrite Hl. pose proof (bi_queue _ _ _ _ _ _ Hi) as Hq.
  destruct (consumer s) as [i|i h|i h|] eqn:Hpc; cbn [consumer_left].
  - pose proof (eq_pop_law _ l c Hq) as Hlaw. destruct (eq_pop (b_queue s)) as [[q [h|]]|]; [| |done]; simplify_eq/=.
    + destruct Hlaw as (l' & -> & Hq'). rewrite (proj1 (eq_view_law _ _ _ Hq')).
      simpl. split; [lia|by destruct (producer s)].
    + destruct Hlaw as (-> & _ & Hq'). rewrite (proj1 (eq_view_law _ _ _ Hq')).
      simpl. split; [lia|by destruct (producer s)].
  - destruct (op_deref h (b_pool s)); simplify_eq/=. split; [lia|by destruct (producer s)].
  - simplify_eq/=. unfold consume_at. destruct (S i <? count)%nat; simpl; (split; [lia|by destruct (producer s)]).
  - done.
Qed.

Lemma bench_run_bound (mvs : list BenchMove) (s s' : BenchSystem) (r : nat) :
  (∃ m l c evs e, bench_inv s m l c evs e) → bench_run count mvs s = Some (s', r) →
  (length mvs + bench_left s' ≤ bench_left s + 3 * r)%nat.
Proof.
  revert s r. induction mvs as [|mv mvs IH]; intros s r Hi H; simpl in H; [by simplify_eq/=; lia|].
  destruct (bench_step count mv s) as [s1|] eqn:Hs; [|done]. simpl in H.
  destruct (bench_run count mvs s1) as [[s2 n]|] eqn:Hr; simplify_eq/=.
  assert (Hi1 : ∃ m l c evs e, bench_inv s1 m l c evs e).
  { apply (bench_run_inv [mv] s s1 (gave_up s s1 + 0) Hi). simpl. by rewrite Hs. }
  specialize (IH s1 n Hi1 Hr). destruct Hi as (m & l & c & evs & e & Hi). destruct mv as [now expired|now]; simpl in Hs.
  - pose proof (producer_decreases _ _ _ _ _ _ _ _ _ Hi Hs). lia.
  - pose proof (consumer_decreases _ _ _ _ _ _ _ _ Hi Hs) as [Hlt _]. lia.
Qed.

(** The consumer moves unless it is done or waits on an open, empty queue. *)
Lemma consumer_moves (s : BenchSystem) m l c evs e :
  bench_inv s m l c evs e → consumer s ≠ CnsDone → (l ≠ [] ∨ c = true) →
  ∃ s', consumer_step count 0 s = Some s'.
Proof.
  intros Hi Hd Hl. unfold consumer_step. pose proof (bi_held _ _ _ _ _ _ Hi) as Hh.
  destruct (consumer s) as [i|i h|i h|]; [| |eauto|done].
  - pose proof (eq_pop_law _ l c (bi_queue _ _ _ _ _ _ Hi)) as Hlaw.
    destruct (eq_pop (b_queue s)) as [[q [h|]]|]; [by eauto..|]. destruct Hlaw as [-> ->]. by destruct Hl.
  - cbn [consumer_held] in Hh. rewrite app_assoc, <- Permutation_cons_append in Hh.
    destruct (holders_head _ _ _ _ Hh) as [_ Hm].
    rewrite (op_deref_law h _ m (bi_pool _ _ _ _ _ _ Hi)), Hm. eauto.
Qed.

(** All events are received when the consumer is done. *)
Lemma consumer_done (s : BenchSystem) m l c evs e :
  bench_inv s m l c evs e → consumer s = CnsDone →
  pushed_count (producer s) = count ∧ received s = Z.of_nat <$> seq 0 count.
Proof.
  intros Hi Hd. pose proof (bi_order _ _ _ _ _ _ Hi) as Ho. pose proof (bi_consumer _ _ _ _ _ _ Hi) as Hc.
  rewrite Hd in Ho, Hc. simpl in *.
  assert (Hle : (pushed_count (producer s) ≤ count)%nat).
  { pose proof (bi_producer _ _ _ _ _ _ Hi) as Hok. destruct (producer s); simpl in *; lia. }
  pose proof (f_equal length Ho) as Hlen. rewrite length_app, !length_fmap, length_seq in Hlen.
  assert (He : evs = []) by (destruct evs; [done|]; simpl in Hlen; lia). subst evs. simpl in *.
  assert (Heq : pushed_count (producer s) = count) by lia. rewrite app_nil_r in Ho. by rewrite Heq in Ho.
Qed.

Lemma bench_moves (s : BenchSystem) m l c evs e :
  bench_inv s m l c evs e →
  (∃ code, producer s = PrdDone code) ∨ ∃ mv s', bench_step count mv s = Some s' ∧ gave_up s s' = 0%nat.
Proof.
  intros Hi. assert (Hcons : consumer s ≠ CnsDone → l ≠ [] ∨ c = true →
    ∃ mv s', bench_step count mv s = Some s' ∧ gave_up s s' = 0%nat).
  { intros Hd Hl. destruct (consumer_moves s m l c evs e Hi Hd Hl) as [s' Hs]. exists (BmConsumer 0), s'.
    split; [done|]. by eapply consumer_decreases. }
  assert (Hprod : ∀ s', producer_step count 0 false s = Some s' → gave_up s s' = 0%nat →
    ∃ mv s', bench_step count mv s = Some s' ∧ gave_up s s' = 0%nat)
    by (intros s' H1 H2; by exists (BmProducer 0 false), s').
  unfold producer_step in Hprod. pose proof (bi_closed _ _ _ _ _ _ Hi) as Hc.
  destruct (producer s) as [n|n ev h|n ev h| | |code] eqn:Hpc; [| | | | |left; eauto]; right.
  - destruct (op_create _ _) as [p h] eqn:Hcr. eapply Hprod; [done|]. unfold gave_up. by rewrite Hpc.
  - pose proof (eq_push_law false h _ l c (bi_queue _ _ _ _ _ _ Hi)) as Hlaw.
    simpl in Hc. destruct (eq_push false h (b_queue s)) as [[q []]|]; try (exfalso; destruct_and?; done || congruence).
    + eapply Hprod; [done|]. unfold gave_up. rewrite Hpc. simpl. unfold produce_at. by destruct (_ <? _)%nat.
    + destruct Hlaw as (_ & Hfull & _). apply Hcons.
      * intros Hd. destruct (consumer_done _ _ _ _ _ _ Hi Hd) as [Hp _].
        pose proof (bi_producer _ _ _ _ _ _ Hi) as Hok. rewrite Hpc in Hp, Hok. simpl in *. lia.
      * left. intros ->. simpl in Hfull. lia.
  - eapply Hprod; [done|]. unfold gave_up. by rewrite Hpc.
  - eapply Hprod; [done|]. unfold gave_up. by rewrite Hpc.
  - destruct (consumer s) eqn:Hd; [apply Hcons; auto..|]. eapply Hprod; [done|].
    unfold gave_up. by rewrite Hpc.
Qed.

(** At the end nothing is in use and every measurement is in the array. *)
Lemma bench_finished (s : BenchSystem) m l c evs e (code : Z) :
  bench_inv s m l c evs e → producer s = PrdDone code →
  code = 0 ∧ received s = Z.of_nat <$> seq 0 count ∧ latencies_ns s = measured s ∧
  length (measured s) = count ∧ op_in_use (b_pool s) = 0.
Proof.
  intros Hi Hd. destruct (bi_code _ _ _ _ _ _ Hi code Hd) as [Hc ->].
  destruct (consumer_done _ _ _ _ _ _ Hi Hc) as [_ Hrec].
  destruct (bi_latencies _ _ _ _ _ _ Hi) as [Hm Hlat].
  assert (Hlen : length (received s) = count) by (by rewrite Hrec, length_fmap, length_seq).
  rewrite Hlat, Hm, Hlen, Nat.sub_diag, app_nil_r. split_and!; try done.
  pose proof (bi_order _ _ _ _ _ _ Hi) as Ho. pose proof (bi_held _ _ _ _ _ _ Hi) as Hh.
  rewrite Hd, Hc, Hrec in *. simpl in *.
  apply (f_equal length) in Ho. rewrite length_app, !length_fmap, length_seq in Ho.
  assert (Hev : evs = []) by (destruct evs; [done|simpl in Ho; lia]). subst evs.
  rewrite zip_with_nil_r in Hh. rewrite (op_in_use_law _ m (bi_pool _ _ _ _ _ _ Hi)), <- (holders_size _ _ Hh). done.
Qed.

(** What is left at the start, and a run prolonged by a step. *)
Lemma bench_left_init : (bench_left (bench_init count) ≤ 5 * count + 3)%nat.
Proof.
  unfold bench_left. simpl. rewrite (proj1 (eq_view_law _ _ _ eq_init_law)). simpl.
  unfold produce_at, consume_at. destruct (Nat.ltb_spec 0 count); simpl; lia.
Qed.

Lemma bench_run_snoc (mvs : list BenchMove) (mv : BenchMove) (s s' s'' : BenchSystem) (r : nat) :
  bench_run count mvs s = Some (s', r) → bench_step count mv s' = Some s'' →
  bench_run count (mvs ++ [mv]) s = Some (s'', (r + gave_up s' s'')%nat).
Proof.
  revert s r. induction mvs as [|mv0 mvs IH]; intros s r H Hs; simpl in *.
  - simplify_eq. rewrite Hs. simpl. by rewrite Nat.add_0_r.
  - destruct (bench_step count mv0 s) as [s1|]; [|done]. simpl in *.
    destruct (bench_run count mvs s1) as [[s2 n]|] eqn:Hr; simplify_eq/=.
    rewrite (IH s1 n Hr Hs). simpl. by rewrite Nat.add_assoc.
Qed.

End Props.

(** ** Percentiles *)

Section Percentiles.

(** How many entries are at most [x], and at least [x]. *)
Definition at_most (x : Z) (l : list Z) : nat := length (filter (λ y, y ≤ x) l).
Definition at_least (x : Z) (l : list Z) : nat := length (filter (λ y, x ≤ y) l).

#[local] Instance at_most_proper (x : Z) : Proper ((≡ₚ) ==> eq) (at_most x).
Proof. intros l l' Hp. unfold at_most. by rewrite Hp. Qed.
#[local] Instance at_least_proper (x : Z) : Proper ((≡ₚ) ==> eq) (at_least x).
Proof. intros l l' Hp. unfold at_least. by rewrite Hp. Qed.

Lemma at_most_all (x : Z) (l : list Z) : Forall (λ y, y ≤ x) l → at_most x l = length l.
Proof. intros H. unfold at_most. induction H; [done|]. rewrite filter_cons_True by done. simpl. by f_equal. Qed.
Lemma at_least_all (x : Z) (l : list Z) : Forall (λ y, x ≤ y) l → at_least x l = length l.
Proof. intros H. unfold at_least. induction H; [done|]. rewrite filter_cons_True by done. simpl. by f_equal. Qed.
Lemma at_most_app (x : Z) (l l' : list Z) : at_most x (l ++ l') = (at_most x l + at_most x l')%nat.
Proof. unfold at_most. by rewrite filter_app, length_app. Qed.
Lemma at_least_app (x : Z) (l l' : list Z) : at_least x (l ++ l') = (at_least x l + at_least x l')%nat.
Proof. unfold at_least. by rewrite filter_app, length_app. Qed.

Lemma sorted_split (l : list Z) (i : nat) (x : Z) :
  StronglySorted Z.le l → l !! i = Some x →
  Forall (λ y, y ≤ x) (take (S i) l) ∧ Forall (λ y, x ≤ y) (drop i l).
Proof.
  intros Hs. revert i. induction Hs as [|y l Hs IH Hall]; intros i Hi; [done|].
  destruct i as [|i]; simpl in *.
  - simplify_eq. rewrite take_0. split; constructor; try done; lia.
  - destruct (IH i Hi) as [H1 H2]. split; [|done]. constructor; [|done].
    rewrite Forall_forall in Hall. apply Hall. by eapply list_elem_of_lookup_2.
Qed.

(** The entry at index [i] of the sorted list: at least [i + 1] entries are at most
    it, and at least [n - i] entries are at least it. *)
Lemma rank_spec (l : list Z) (i : nat) (x : Z) :
  merge_sort Z.le l !! i = Some x → x ∈ l ∧ (S i ≤ at_most x l)%nat ∧ (length l - i ≤ at_least x l)%nat.
Proof.
  intros Hi. pose proof (merge_sort_Permutation Z.le l) as Hp.
  destruct (sorted_split _ i x (StronglySorted_merge_sort Z.le l) Hi) as [H1 H2].
  pose proof (lookup_lt_Some _ _ _ Hi) as Hlt. rewrite <- Hp. split_and!.
  - by eapply list_elem_of_lookup_2.
  - rewrite <- (take_drop (S i) (merge_sort Z.le l)), at_most_app, (at_most_all _ _ H1), length_take. lia.
  - rewrite <- (take_drop i (merge_sort Z.le l)) at 2. rewrite at_least_app, (at_least_all _ _ H2), length_drop. lia.
Qed.

Lemma sorted_index_le (l : list Z) (i j : nat) (x y : Z) :
  StronglySorted Z.le l → l !! i = Some x → l !! j = Some y → (i ≤ j)%nat → x ≤ y.
Proof.
  intros Hs Hi Hj Hle. destruct (sorted_split l i x Hs Hi) as [_ H]. rewrite Forall_forall in H. apply H.
  apply list_elem_of_lookup. exists (j - i)%nat. rewrite lookup_drop. by replace (i + (j - i))%nat with j by lia.
Qed.

End Percentiles.

(** [x] is the percentile [n]/100 of [l]: at least that share of the entries is at
    most [x], up to one entry, and the rest is at least [x]. *)
Definition is_percentile (n : Z) (l : list Z) (x : Z) : Prop :=
  x ∈ l ∧ n * (Z.of_nat (length l) - 1) < 100 * Z.of_nat (at_most x l) ∧
  (100 - n) * (Z.of_nat (length l) - 1) < 100 * Z.of_nat (at_least x l).

(** The report of the program on its 50000 latencies. *)
Definition report_ok (l : list Z) (r : BenchReport) : Prop :=
  ∃ p50 p95 p99 top,
    latency_average_ns r = foldl (λ a x, (a + x) mod u64_modulus) 0 (merge_sort Z.le l) / 50000 ∧
    latency_p50_ns r = Some p50 ∧ latency_p95_ns r = Some p95 ∧ latency_p99_ns r = Some p99 ∧
    latency_max_ns r = Some top ∧
    p50 ≤ p95 ∧ p95 ≤ p99 ∧ p99 ≤ top ∧ Forall (λ y, y ≤ top) l ∧
    is_percentile 50 l p50 ∧ is_percentile 95 l p95 ∧ is_percentile 99 l p99.

Lemma percentile_index (l : list Z) (n i : Z) :
  Z.of_nat (length l) = 50000 → 0 ≤ i →
  truncate (SFmul Double.prec Double.emax (Double.of_Z (50000 - 1)) (hundredths n)) = i →
  percentile (merge_sort Z.le l) (hundredths n) = merge_sort Z.le l !! Z.to_nat i.
Proof.
  intros Hl Hi Ht. unfold percentile.
  assert (Hlen : length (merge_sort Z.le l) = length l) by (by rewrite (merge_sort_Permutation Z.le l)).
  by rewrite Hlen, Hl, Ht.
Qed.

Lemma report_correct (l : list Z) (pool : PoolStats) (queue : QueueStats) :
  Z.of_nat (length l) = 50000 → report_ok l (bench_report l pool queue).
Proof.
  intros Hl. pose proof (merge_sort_Permutation Z.le l) as Hp.
  pose proof (StronglySorted_merge_sort Z.le l) as Hs.
  assert (Hlen : length (merge_sort Z.le l) = length l) by (by rewrite Hp).
  assert (Hat : ∀ i, (i < length l)%nat → is_Some (merge_sort Z.le l !! i))
    by (intros i Hi; apply lookup_lt_is_Some_2; by rewrite Hlen).
  destruct (Hat (Z.to_nat 24999)) as [p50 H50]; [lia|]. destruct (Hat (Z.to_nat 47499)) as [p95 H95]; [lia|].
  destruct (Hat (Z.to_nat 49499)) as [p99 H99]; [lia|]. destruct (Hat (Z.to_nat 49999)) as [top Htop]; [lia|].
  assert (Hrank : ∀ n i x, merge_sort Z.le l !! Z.to_nat i = Some x → 0 ≤ i < 50000 →
    n * 49999 < 100 * (i + 1) → (100 - n) * 49999 < 100 * (50000 - i) → is_percentile n l x).
  { intros n i x Hx Hi H1 H2. destruct (rank_spec l _ x Hx) as (Hin & Hm & Ha). unfold is_percentile.
    split_and!; [done|rewrite Hl; lia|rewrite Hl; lia]. }
  exists p50, p95, p99, top. split_and!.
  - done.
  - change (percentile (merge_sort Z.le l) (hundredths 50) = Some p50).
    by rewrite (percentile_index l 50 24999 Hl) by (try lia; vm_compute; reflexivity).
  - change (percentile (merge_sort Z.le l) (hundredths 95) = Some p95).
    by rewrite (percentile_index l 95 47499 Hl) by (try lia; vm_compute; reflexivity).
  - change (percentile (merge_sort Z.le l) (hundredths 99) = Some p99).
    by rewrite (percentile_index l 99 49499 Hl) by (try lia; vm_compute; reflexivity).
  - change (last (merge_sort Z.le l) = Some top). rewrite last_lookup, Hlen.
    by replace (pred (length l)) with (Z.to_nat 49999) by lia.
  - eapply sorted_index_le; [exact Hs|exact H50|exact H95|lia].
  - eapply sorted_index_le; [exact Hs|exact H95|exact H99|lia].
  - eapply sorted_index_le; [exact Hs|exact H99|exact Htop|lia].
  - rewrite <- Hp. destruct (sorted_split _ _ _ Hs Htop) as [H _].
    rewrite firstn_all2 in H by (rewrite Hlen; lia). exact H.
  - apply (Hrank 50 24999); [done|lia..].
  - apply (Hrank 95 47499); [done|lia..].
  - apply (Hrank 99 49499); [done|lia..].
Qed.

(** ** The program *)

(** [FixedObjectPool<BenchmarkEvent, 256>] and [BoundedQueue<Handle, 128>]. *)
Definition bench_pool_capacity : nat := 256.
Definition bench_queue_capacity : nat := 128.

(** A prefix of the numbers is the numbers up to its length. *)
Lemma numbers_prefix (l l' : list Z) (n : nat) :
  l ++ l' = Z.of_nat <$> seq 0 n → l = Z.of_nat <$> seq 0 (length l).
Proof.
  intros H. assert (Hn : n = (length l + length l')%nat)
    by (apply (f_equal length) in H; by rewrite length_app, length_fmap, length_seq in H).
  rewrite Hn, seq_app, fmap_app in H. by apply app_inj_1 in H as [H _]; [|by rewrite length_fmap, length_seq].
Qed.

Section Program.
Context (L : PoolLayout).

Definition bench_layout_ok : Prop := layout_ok L ∧ Capacity L = bench_pool_capacity.

#[local] Instance bench_pool : ObjectPool (FixedObjectPool BenchmarkEvent) BenchmarkEvent := fixed_pool_ops L.
#[local] Instance bench_queue : EventQueue (BoundedQueue Handle) Handle := bounded_queue_ops bench_queue_capacity.

(** A run of the program on [count] events: its schedule, where it ends and how
    many pushes timed out. *)
Definition bench_runs (count : nat) (mvs : list BenchMove)
    (s : BenchSystem (P := FixedObjectPool BenchmarkEvent) (Q := BoundedQueue Handle)) (r : nat) : Prop :=
  bench_run count mvs (bench_init count) = Some (s, r).

Hypothesis HL : bench_layout_ok.

#[local] Instance bench_pool_laws :
  ObjectPoolLaws (FixedObjectPool BenchmarkEvent) BenchmarkEvent bench_pool_capacity.
Proof. destruct HL as [H <-]. exact (fixed_pool_laws L H). Qed.
#[local] Instance bench_queue_laws : EventQueueLaws (BoundedQueue Handle) Handle bench_queue_capacity.
Proof. apply bounded_queue_laws; [unfold bench_queue_capacity; lia|reflexivity]. Qed.

Lemma bench_queue_positive : (0 < bench_queue_capacity)%nat.
Proof. unfold bench_queue_capacity. lia. Qed.
Lemma bench_pool_has_room : (bench_queue_capacity + 2 < bench_pool_capacity)%nat.
Proof. unfold bench_queue_capacity, bench_pool_capacity. lia. Qed.

Lemma bench_runs_inv (count : nat) (mvs : list BenchMove) s (r : nat) :
  bench_runs count mvs s r → ∃ m l c evs e, bench_inv count s m l c evs e.
Proof.
  intros Hrun. eapply (bench_run_inv bench_queue_positive bench_pool_has_room); [|exact Hrun].
  do 5 eexists. apply (bench_init_inv bench_queue_positive bench_pool_has_room).
Qed.

(** What the program would print at [s]. *)
Definition bench_printed (s : BenchSystem (P := FixedObjectPool BenchmarkEvent) (Q := BoundedQueue Handle)) : BenchReport :=
  bench_report (latencies_ns s) (pool_stats L (b_pool s)) (queue_stats bench_queue_capacity (b_queue s)).

(** The statistics it prints. *)
Lemma bench_statistics (count : nat) s m l c evs e :
  bench_inv count s m l c evs e →
  reported_allocation_failures (bench_printed s) = 0 ∧
  (∃ high, pool_high_watermark (bench_printed s) = (high, 256) ∧ high ≤ 130) ∧
  (∃ high, queue_high_watermark (bench_printed s) = (high, 128) ∧ high ≤ 128).
Proof.
  intros Hi. destruct (bi_stats _ _ _ _ _ _ _ Hi) as [Hf Hh]. destruct HL as [_ HC].
  split_and!; [exact Hf| |].
  - eexists. split; [|exact Hh]. unfold bench_printed, bench_report, pool_stats. simpl. by rewrite HC.
  - eexists. split; [reflexivity|]. apply (eq_stats_law _ l c (bi_queue _ _ _ _ _ _ _ Hi)).
Qed.

(** A run of [count] events takes at most [5 * count + 3]
    steps, and three more for each push that timed out; and from every
    configuration a run reaches that is not the end of the program, some thread can
    take a step that is not a timeout. *)
Lemma bench_terminates (count : nat) (mvs : list BenchMove) s (r : nat) (Hrun : bench_runs count mvs s r) :
  (length mvs ≤ 5 * count + 3 + 3 * r)%nat ∧
  ((∃ code, producer s = PrdDone code) ∨
   ∃ mv s', bench_step count mv s = Some s' ∧ bench_runs count (mvs ++ [mv]) s' r).
Proof.
  destruct (bench_runs_inv _ _ _ _ Hrun) as (m & l & c & evs & e & Hi). split.
  - pose proof (bench_run_bound bench_queue_positive bench_pool_has_room count mvs (bench_init count) s r) as Hb.
    pose proof (bench_left_init (P := FixedObjectPool BenchmarkEvent) bench_queue_positive bench_pool_has_room count) as H0.
    enough (Hi0 : ∃ m l c evs e, bench_inv count (bench_init count) m l c evs e)
      by (specialize (Hb Hi0 Hrun); lia). do 5 eexists. apply (bench_init_inv bench_queue_positive bench_pool_has_room).
  - destruct (bench_moves bench_queue_positive bench_pool_has_room count s m l c evs e Hi)
      as [Hd|(mv & s' & Hs & Hg)]; [by left|right].
    exists mv, s'. split; [done|]. unfold bench_runs. rewrite (bench_run_snoc _ _ _ _ _ _ _ Hrun Hs), Hg.
    by rewrite Nat.add_0_r.
Qed.

(** C40: the benchmark loses, duplicates and reorders nothing, and it ends.  In every run, however
    the threads interleave, whatever the clock shows and however often a push times
    out, the consumer has met the events [0, 1, ...] in the order of production,
    at most 130 slots of the pool are in use and no release was invalid; when the
    program ends, all [count] events were measured, [latencies_ns] holds exactly the
    measurements in that order, the pool is empty and the exit code is 0, the
    program prints that no allocation failed and high watermarks of at most 130 of
    256 and 128 of 128.  With the program's 50000 events the printed percentiles are
    percentiles of the measurements, in order, and the printed maximum is the
    largest one.  A run takes at most [5 * count + 3] steps, and three more for each
    push that timed out; and until the end of the program some thread can take a
    step that is not a timeout. *)
Theorem bench_delivers (count : nat) (mvs : list BenchMove) s (r : nat) (Hrun : bench_runs count mvs s r) :
  ((length mvs ≤ 5 * count + 3 + 3 * r)%nat ∧
   ((∃ code, producer s = PrdDone code) ∨
    ∃ mv s', bench_step count mv s = Some s' ∧ bench_runs count (mvs ++ [mv]) s' r)) ∧
  received s = Z.of_nat <$> seq 0 (length (received s)) ∧
  outstanding L (b_pool s) ≤ 130 ∧
  invalid_releases (Pool.stats_ (b_pool s)) = 0 ∧
  ∀ code, producer s = PrdDone code →
    code = 0 ∧ received s = Z.of_nat <$> seq 0 count ∧
    latencies_ns s = measured s ∧ length (measured s) = count ∧
    outstanding L (b_pool s) = 0 ∧
    reported_allocation_failures (bench_printed s) = 0 ∧
    (∃ high, pool_high_watermark (bench_printed s) = (high, 256) ∧ high ≤ 130) ∧
    (∃ high, queue_high_watermark (bench_printed s) = (high, 128) ∧ high ≤ 128) ∧
    (count = kEventCount → report_ok (latencies_ns s) (bench_printed s)).
Proof.
  split; [by apply bench_terminates|].
  destruct (bench_runs_inv _ _ _ _ Hrun) as (m & l & c & evs & e & Hi).
  pose proof (op_in_use_law _ m (bi_pool _ _ _ _ _ _ _ Hi)) as Huse. simpl in Huse.
  pose proof (held_size bench_queue_positive bench_pool_has_room _ _ _ _ _ _ _ Hi) as Hsz.
  pose proof (producer_holds_one (producer s)). split_and!.
  - pose proof (bi_order _ _ _ _ _ _ _ Hi) as Ho. by eapply numbers_prefix.
  - pose proof (eq_capacity_law _ _ _ (bi_queue _ _ _ _ _ _ _ Hi)). unfold bench_queue_capacity in *. lia.
  - apply (op_valid_law _ m (bi_pool _ _ _ _ _ _ _ Hi)).
  - intros code Hd. destruct (bench_finished bench_queue_positive bench_pool_has_room _ _ _ _ _ _ _ _ Hi Hd)
      as (? & ? & Hlat & Hlen & ?).
    destruct (bench_statistics count s m l c evs e Hi) as (? & ? & ?).
    split_and!; try done. intros ->. apply report_correct. rewrite Hlat, Hlen. reflexivity.
Qed.

End Program.

(** ** A run on two events *)

Definition bench_example_layout : PoolLayout := MkLayout 256 4096 16.

Lemma bench_example_layout_ok : bench_layout_ok bench_example_layout.
Proof. split; [unfold layout_ok; simpl; split_and!; [lia|reflexivity|lia|lia]|reflexivity]. Qed.

(** The consumer waits for the producer; the clock goes up by ten at each step. *)
Definition bench_example_moves : list BenchMove :=
  [BmProducer 10 false; BmProducer 20 false; BmConsumer 30; BmConsumer 40; BmProducer 50 false; BmConsumer 60;
   BmProducer 70 false; BmConsumer 80; BmProducer 90 false; BmConsumer 100; BmConsumer 110; BmProducer 120 false].

#[local] Instance bench_example_pool : ObjectPool (FixedObjectPool BenchmarkEvent) BenchmarkEvent :=
  bench_pool bench_example_layout.
#[local] Instance bench_example_queue : EventQueue (BoundedQueue Handle) Handle := bench_queue.

Definition bench_example_end : BenchSystem :=
  default (bench_init 2) (fst <$> bench_run 2 bench_example_moves (bench_init 2)).

Lemma bench_example_runs : bench_runs bench_example_layout 2 bench_example_moves bench_example_end 0.
Proof. vm_compute. reflexivity. Qed.

Lemma bench_delivers_witness :
  (length bench_example_moves ≤ 5 * 2 + 3 + 3 * 0)%nat ∧
  received bench_example_end = [0; 1] ∧ latencies_ns bench_example_end = [30; 50] ∧
  outstanding bench_example_layout (b_pool bench_example_end) = 0.
Proof.
  destruct (bench_delivers bench_example_layout bench_example_layout_ok 2 bench_example_moves
    bench_example_end 0 bench_example_runs) as ([Hlen _] & _ & _ & _ & Hend).
  destruct (Hend 0) as (_ & Hrec & _ & _ & Hout & _); [vm_compute; reflexivity|].
  split_and!; [exact Hlen|exact Hrec|vm_compute; reflexivity|exact Hout].
Defined.
