(* ===== verification/Demo.v ===== *)
(** * The demo program ([apps/edge_sentinel_main.cpp])

    The options, and the main program: a runtime with one client thread, whose
    sensor thread reads the simulated sensor that the main thread overrides, and
    what it prints. *)
From Stdlib Require Import Ascii String.
From stdpp Require Import gmap strings.
From S2P Require Import Prelude Bytes Double Domain Measurement Crc Uart Buses Fsm Metrics Pool Queue Interfaces.
From S2P Require Import Descriptors Sensors Command CommandProps Server Format Runtime RuntimeProps Daemon.

Local Open Scope Z_scope.

(** ** Options *)

Definition kIntMax : Z := 2 ^ 31 - 1.

(** [std::from_chars(begin, end, value)] for [int]: the value and what is left,
    [None] when [ec] is set (no number, or out of the range of [int]). *)
Definition from_chars_int (input : text) : option (Z * text) :=
  let '(negative, rest) :=
    match input with c :: rest => if (c =? "-")%char then (true, rest) else (false, input)
                   | [] => (false, []) end in
  let '(magnitude, n, rest) := digits rest 0 0 in
  let value := if negative then - magnitude else magnitude in
  if (n =? 0)%nat then None
  else if (value <? - kIntMax - 1) || (kIntMax <? value) then None
  else Some (value, rest).

Definition parse_positive_int (t : text) : option Z :=
  match from_chars_int t with
  | Some (value, rest) => if bool_decide (rest = []) && (0 <? value) then Some value else None
  | None => None
  end.

(** [args]: the arguments from [argv[index]] on. *)
Fixpoint read_option (args : list text) (option : text) (fallback : Z) : Z :=
  match args with
  | a :: (v :: _) as rest =>
      if negb (bool_decide (a = option)) then read_option rest option fallback
      else match parse_positive_int v with
           | Some parsed => parsed
           | None => read_option rest option fallback
           end
  | _ => fallback
  end.

(** ** The main program *)

Inductive DemoMain :=
| DemoStart                    (* [runtime.start()] *)
| DemoClock                    (* [started_at] *)
| DemoLoop                     (* the condition of the loop *)
| DemoElapsed                  (* [elapsed], and the injection *)
| DemoSnapshot                 (* [runtime.snapshot()], and the line it prints *)
| DemoStop                     (* [runtime.stop()] *)
| DemoExit (code : Z).         (* 0 when the final snapshot has been printed *)

(** What it prints between the banner and the last line. *)
Inductive DemoLine :=
| LineInjected                                  (* [SIM] injected temperature=105 C *)
| LineState (from to : MotorState).             (* [STATE] from -> to *)

Definition demo_nominal : SensorSample := MkSample (Double.of_Z 45) (Double.of_Z 2) (Double.of_Z 6) true 0.
Definition demo_hot : SensorSample := MkSample (Double.of_Z 105) (Double.of_Z 2) (Double.of_Z 6) true 0.

Definition demo_config : RuntimeConfig := MkRuntimeConfig 50 250 10 default_config.

Record DemoSystem := MkDemo {
  de_main : DemoMain;
  de_runtime : EdgeSystem;
  de_sensor : SimulatedSensor;
  started_at : Z;                               (* nanoseconds *)
  last_state : MotorState;
  injected : bool;
  de_lines : list DemoLine
}.

Section Demo.
Context (L : PoolLayout) (duration_ms fault_after_ms : Z).

#[local] Hint Extern 1 (ObjectPool EdgePool PooledEvent) => exact (edge_pool L) : typeclass_instances.
#[local] Existing Instance edge_queue.

Definition demo_init : DemoSystem :=
  MkDemo DemoStart (edge_runtime demo_config 1) (simulated_init demo_nominal) 0 booting false [].

Definition demo_goto (m : DemoMain) (y : EdgeSystem) (d : DemoSystem) : DemoSystem :=
  MkDemo m y (de_sensor d) (started_at d) (last_state d) (injected d) (de_lines d).

(** A step of the main thread, client 0, inside a call. *)
Definition demo_call (now : Z) (expired : bool) (call : Call) (after : Client → Client → DemoMain)
    (d : DemoSystem) : option DemoSystem :=
  c ← clients (de_runtime d) !! 0%nat;
  y ← exec_move (MvClient 0 now expired call) (de_runtime d);
  c' ← clients y !! 0%nat;
  Some (demo_goto (after c c') y d).

(** [start] returns false when it finds the runtime started. *)
Definition demo_started (c c' : Client) : DemoMain :=
  match c, c' with
  | StartLock, ClIdle => DemoExit 1
  | StartMonitor, ClIdle => DemoClock
  | _, _ => DemoStart
  end.
Definition demo_stopped (c c' : Client) : DemoMain :=
  match c' with ClIdle | StopReturned _ => DemoExit 0 | _ => DemoStop end.

(** [now] is what the clock returns when the step reads it. *)
Definition demo_main_step (now : Z) (expired : bool) (d : DemoSystem) : option DemoSystem :=
  let y := de_runtime d in
  match de_main d with
  | DemoStart => demo_call now expired CallStart demo_started d
  | DemoClock => Some (MkDemo DemoLoop y (de_sensor d) now (last_state d) (injected d) (de_lines d))
  | DemoLoop =>
      Some (demo_goto (if now - started_at d <? duration_ms * 1000000 then DemoElapsed else DemoStop) y d)
  | DemoElapsed =>
      let elapsed := Z.quot (now - started_at d) 1000000 in
      Some (if negb (injected d) && (fault_after_ms <=? elapsed)
            then MkDemo DemoSnapshot y (set_override demo_hot (de_sensor d)) (started_at d) (last_state d)
                   true (de_lines d ++ [LineInjected])
            else demo_goto DemoSnapshot y d)
  | DemoSnapshot =>
      let state := state_ (machine_ (shared y)) in
      Some (if bool_decide (state ≠ last_state d)
            then MkDemo DemoLoop y (de_sensor d) (started_at d) state (injected d)
                   (de_lines d ++ [LineState (last_state d) state])
            else demo_goto DemoLoop y d)
  | DemoStop => demo_call now expired CallStop demo_stopped d
  | DemoExit _ => None
  end.

Inductive DemoMove :=
| EMain (now : Z) (expired : bool)
| EControl (now : Z)
| ESensor (now : Z) (expired : bool)
| EMonitor.

(** The sensor thread reads the simulated sensor when it is not to stop. *)
Definition demo_sensor_step (now : Z) (expired : bool) (d : DemoSystem) : option DemoSystem :=
  let '(sensor', smp) := simulated_read (de_sensor d) in
  let reads := match sensor (de_runtime d) with
               | SnsCheck => negb (sensor_stop (shared (de_runtime d)))
               | _ => false
               end in
  y ← exec_move (MvSensor now expired (Some smp)) (de_runtime d);
  Some (MkDemo (de_main d) y (if reads then sensor' else de_sensor d) (started_at d) (last_state d)
          (injected d) (de_lines d)).

Definition demo_step (mv : DemoMove) (d : DemoSystem) : option DemoSystem :=
  match mv with
  | EMain now expired => demo_main_step now expired d
  | EControl now => y ← exec_move (MvControl now) (de_runtime d); Some (demo_goto (de_main d) y d)
  | ESensor now expired => demo_sensor_step now expired d
  | EMonitor => y ← exec_move MvMonitor (de_runtime d); Some (demo_goto (de_main d) y d)
  end.

Fixpoint demo_run (mvs : list DemoMove) (d : DemoSystem) : option DemoSystem :=
  match mvs with
  | [] => Some d
  | mv :: mvs => d ← demo_step mv d; demo_run mvs d
  end.

End Demo.

(** ** The program *)

(** The two options, [args] being the arguments after the name of the program. *)
Definition demo_duration (args : list text) : Z := read_option args (lit "--duration-ms") 3000.
Definition demo_fault_after (args : list text) : Z := read_option args (lit "--fault-after-ms") 1000.

(** [version.hpp] *)
Definition kProjectName : text := lit "EdgeSentinel".
Definition kVersion : text := lit "0.1.0".

Definition demo_banner (fault_after_ms : Z) : text :=
  kProjectName ++ lit " " ++ kVersion ++ lit " simulated motor monitor" ++ [newline]
  ++ lit "Injecting critical temperature after " ++ show_Z fault_after_ms ++ lit " ms" ++ [newline].

Definition line_text (l : DemoLine) : text :=
  match l with
  | LineInjected => lit "[SIM] injected temperature=105 C" ++ [newline]
  | LineState from to =>
      lit "[STATE] " ++ lit (MotorState_to_string from) ++ lit " -> " ++ lit (MotorState_to_string to) ++ [newline]
  end.

Definition final_line (s : RuntimeSnapshot) : text :=
  lit "[FINAL] state=" ++ lit (MotorState_to_string (snap_state (rs_machine s)))
  ++ lit " events=" ++ show_Z (events_processed_ (rs_metrics s))
  ++ lit " dropped=" ++ show_Z (events_dropped_ (rs_metrics s))
  ++ lit " pool_high_watermark=" ++ show_Z (high_watermark (rs_pool s)) ++ lit "/" ++ show_Z (capacity (rs_pool s))
  ++ lit " queue_high_watermark=" ++ show_Z (stat_high_watermark (rs_queue s))
  ++ lit "/" ++ show_Z (stat_capacity (rs_queue s)) ++ [newline].

(** What is on the standard output when the program is at [d]. *)
Definition demo_output (L : PoolLayout) (fault_after_ms : Z) (d : DemoSystem) : text :=
  demo_banner fault_after_ms ++ concat (line_text <$> de_lines d)
  ++ match de_main d with
     | DemoExit 0 => final_line (snapshot L (shared (de_runtime d)))
     | _ => []
     end.

Definition demo_program (L : PoolLayout) (args : list text) (mvs : list DemoMove) : option DemoSystem :=
  demo_run L (demo_duration args) (demo_fault_after args) mvs (demo_init L).
