(* ===== verification/DemoProps.v ===== *)
(** * Properties of the demo program *)
From Stdlib Require Import Ascii String.
From stdpp Require Import gmap strings.
From S2P Require Import Prelude Bytes Double Domain Measurement Crc Uart Buses Fsm Metrics Pool Queue Interfaces.
From S2P Require Import Descriptors Sensors ServerLife Command CommandProps Format Runtime RuntimeProps EventFlow DaemonMain Demo.

Local Open Scope Z_scope.

(** ** Options *)

Lemma digit_value_Some (c : ascii) (z : Z) :
  digit_value c = Some z → ∃ d, is_digit d ∧ c = digit_char d ∧ z = Z.of_nat d.
Proof.
  unfold digit_value, is_digit, digit_char. intros H. branches H; [|done]. simplify_eq.
  exists (nat_of_ascii c - 48)%nat. split; [lia|]. split; [|lia].
  rewrite <- (ascii_nat_embedding c) at 1. f_equal. lia.
Qed.

Lemma digits_inv (input : text) (acc : Z) (n : nat) (v : Z) (k : nat) (rest : text) :
  digits input acc n = (v, k, rest) →
  ∃ ds, Forall is_digit ds ∧ input = (digit_char <$> ds) ++ rest ∧ k = (n + length ds)%nat ∧
        v = foldl (λ a d, a * 10 + Z.of_nat d) acc ds.
Proof.
  revert acc n. induction input as [|c input IH]; intros acc n H; simpl in H.
  { simplify_eq. exists []. split_and!; simpl; done || lia. }
  destruct (digit_value c) as [z|] eqn:Hc.
  - apply digit_value_Some in Hc as (d & Hd & -> & ->).
    destruct (IH _ _ H) as (ds & Hds & -> & -> & ->). exists (d :: ds).
    split_and!; [by constructor|done|simpl; lia|done].
  - simplify_eq. exists []. split_and!; simpl; done || lia.
Qed.

(** A numeral of a positive [int]. *)
Definition positive_numeral (t : text) (v : Z) : Prop :=
  ∃ ds, ds ≠ [] ∧ Forall is_digit ds ∧ t = number_text false ds ∧ v = number_value ds ∧ 1 ≤ v ≤ 2147483647.

Lemma parse_positive_int_spec (t : text) (v : Z) : parse_positive_int t = Some v ↔ positive_numeral t v.
Proof.
  unfold parse_positive_int, from_chars_int, positive_numeral, kIntMax. split.
  - intros H. destruct (match t with c :: rest => _ | [] => _ end) as [negative rest] eqn:Ht.
    destruct (digits rest 0 0) as [[magnitude n] rest'] eqn:Hd.
    apply digits_inv in Hd as (ds & Hds & -> & -> & ->). fold (number_value ds) in H.
    pose proof (number_value_nonneg ds) as Hnn.
    destruct (Nat.eqb_spec (0 + length ds) 0) as [|Hne]; [done|].
    destruct (_ || _) eqn:Hr; [done|]. apply orb_false_iff in Hr as [Hlo Hhi].
    destruct (bool_decide (rest' = []) && _) eqn:Hb; [|done]. simplify_eq.
    apply andb_true_iff in Hb as [He Hpos]. apply bool_decide_eq_true in He. subst rest'.
    apply Z.ltb_lt in Hpos. apply Z.ltb_ge in Hhi. destruct negative; [lia|].
    exists ds. split_and!; try done; try lia; [intros ->; done|].
    unfold number_text. rewrite app_nil_r in Ht. simpl.
    destruct t as [|c t]; [by simplify_eq|]. by destruct (c =? "-")%char; simplify_eq.
  - intros (ds & Hne & Hds & -> & -> & Hv).
    assert (Hrest : (match number_text false ds with
                     | c :: rest => if (c =? "-")%char then (true, rest) else (false, number_text false ds)
                     | [] => (false, []) end) = (false, digit_char <$> ds)).
    { destruct ds as [|d ds]; [done|]. unfold number_text. rewrite fmap_cons. cbn [app].
      apply Forall_cons in Hds as [Hd _]. destruct (digit_char_facts d Hd) as (_ & _ & ->). reflexivity. }
    rewrite Hrest, digits_text by done. fold (number_value ds). destruct ds as [|d ds]; [done|].
    cbn [length Nat.add Nat.eqb].
    rewrite (proj2 (Z.ltb_ge _ _)), (proj2 (Z.ltb_ge _ _)) by lia. cbn [orb].
    by rewrite bool_decide_eq_true_2, (proj2 (Z.ltb_lt _ _)) by (done || lia).
Qed.

(** The option at index [i] has the numeral of [v] behind it. *)
Definition setting (args : list text) (option : text) (i : nat) (v : Z) : Prop :=
  args !! i = Some option ∧ ∃ t, args !! S i = Some t ∧ positive_numeral t v.

Lemma read_option_cons (a b : text) (args : list text) (option : text) (fallback : Z) :
  read_option (a :: b :: args) option fallback
  = if negb (bool_decide (a = option)) then read_option (b :: args) option fallback
    else match parse_positive_int b with
         | Some parsed => parsed
         | None => read_option (b :: args) option fallback
         end.
Proof. reflexivity. Qed.

(** [v] is the value of the first occurrence of the option that has the numeral of
    a positive [int] behind it, or the default when there is none. *)
Definition option_value (args : list text) (option : text) (fallback v : Z) : Prop :=
  (∃ i, setting args option i v ∧ ∀ j w, (j < i)%nat → ¬ setting args option j w) ∨
  (∀ i w, ¬ setting args option i w) ∧ v = fallback.

Lemma read_option_first (args : list text) (option : text) (fallback : Z) :
  (∃ i v, setting args option i v ∧ (∀ j w, (j < i)%nat → ¬ setting args option j w) ∧
          read_option args option fallback = v ∧ 1 ≤ v ≤ 2147483647) ∨
  (∀ i v, ¬ setting args option i v) ∧ read_option args option fallback = fallback.
Proof.
  induction args as [|a args IH].
  { right. split; [|done]. by intros i v [Hi _]. }
  destruct args as [|b args].
  { right. split; [|done]. intros [|i] v (Hi & t & Ht & _); simpl in *; simplify_eq. }
  assert (Hshift : ∀ i v, setting (a :: b :: args) option (S i) v ↔ setting (b :: args) option i v) by done.
  assert (Hskip : (∀ v, ¬ setting (a :: b :: args) option 0 v) →
    read_option (a :: b :: args) option fallback = read_option (b :: args) option fallback →
    (∃ i v, setting (a :: b :: args) option i v ∧
       (∀ j w, (j < i)%nat → ¬ setting (a :: b :: args) option j w) ∧
       read_option (a :: b :: args) option fallback = v ∧ 1 ≤ v ≤ 2147483647) ∨
    (∀ i v, ¬ setting (a :: b :: args) option i v) ∧ read_option (a :: b :: args) option fallback = fallback).
  { intros H0 ->. destruct IH as [(i & v & Hi & Hj & Hv)|[Hn Hf]].
    - left. exists (S i), v. split; [done|]. split; [|done].
      intros [|j] w Hlt; [apply H0|]. rewrite Hshift. apply Hj. lia.
    - right. split; [|done]. intros [|i] v; [apply H0|]. rewrite Hshift. apply Hn. }
  rewrite read_option_cons in *. destruct (decide (a = option)) as [->|Hne].
  - rewrite (bool_decide_eq_true_2 (option = option) eq_refl) in Hskip |- *. cbn [negb] in *.
    destruct (parse_positive_int b) as [v|] eqn:Hp; [|apply Hskip; [|done]].
    + apply parse_positive_int_spec in Hp. pose proof Hp as (ds & _ & _ & _ & _ & Hv).
      left. exists 0%nat, v. split_and!; [split; [done|by exists b]|intros; lia|done|lia|lia].
    + intros v (_ & t & Ht & Hpos). simpl in Ht. simplify_eq.
      apply parse_positive_int_spec in Hpos. congruence.
  - rewrite (bool_decide_eq_false_2 (a = option) Hne) in Hskip |- *. cbn [negb] in *. apply Hskip; [|done].
    intros v (Ha & _). simpl in Ha. congruence.
Qed.

Lemma read_option_value (args : list text) (option : text) (fallback : Z) :
  1 ≤ fallback ≤ 2147483647 →
  option_value args option fallback (read_option args option fallback) ∧
  1 ≤ read_option args option fallback ≤ 2147483647.
Proof.
  intros Hf. unfold option_value. destruct (read_option_first args option fallback) as [(i & v & H1 & H2 & -> & Hv)|[H1 ->]]; eauto.
Qed.

(** ** The events of the demo *)

Definition numbered (s : SensorSample) (e : Event) : Prop := ∃ n, e = Event_sensor_sample (set_sequence n s).

(** The events the runtime is given: hot samples only after the injection. *)
Definition demo_event (hot : bool) (e : Event) : Prop :=
  e = Event_startup ∨ e = Event_self_test_passed ∨ e = Event_shutdown_requested ∨
  numbered demo_nominal e ∨ hot = true ∧ numbered demo_hot e.

Lemma demo_event_hot (hot : bool) (e : Event) : demo_event hot e → demo_event true e.
Proof. unfold demo_event. naive_solver. Qed.

(** The order in which the demo goes through the states. *)
Definition demo_rank (s : MotorState) : nat :=
  match s with
  | booting => 0 | self_test => 1 | healthy | degraded => 2 | fault_latched => 3 | safe_shutdown => 4
  end.

(** At work, the machine has seen no critical sample in a row, or one. *)
Record demo_machine (hot : bool) (m : MotorStateMachine) : Prop := {
  dmc_config : config_ m = default_config;
  dmc_counts : state_ m = healthy →
    warning_count_ m = critical_count_ m ∧ (critical_count_ m = 0 ∨ critical_count_ m = 1);
  dmc_state : state_ m ≠ degraded;
  dmc_fault : state_ m = fault_latched → hot = true
}.

Lemma handle_demo (hot : bool) (e : Event) (m : MotorStateMachine) :
  demo_machine hot m → demo_event hot e →
  demo_machine hot (fst (handle e m)) ∧ (demo_rank (state_ m) ≤ demo_rank (state_ (fst (handle e m))))%nat.
Proof.
  intros [Hc Hh Hd Hf] He. destruct m as [cfg st ls hs w c r o]. simpl in *. subst cfg.
  assert (Hquiet : ∀ m', config_ m' = default_config → state_ m' = st →
    warning_count_ m' = w → critical_count_ m' = c → demo_machine hot m').
  { intros m' H1 H2 H3 H4. split; rewrite ?H2, ?H3, ?H4; auto. }
  assert (Hgoto : ∀ s' ls' hs', s' ≠ degraded → (s' = fault_latched → hot = true) →
    demo_machine hot (MkMachine default_config s' ls' hs' 0 0 0 0)) by (intros; split; simpl; auto).
  destruct He as [->|[->|[->|[[n ->]|[Hhot [n ->]]]]]];
    destruct st; try done; try (destruct (Hh eq_refl) as [-> [-> | ->]]); (split; [|vm_compute; lia]);
    first [by apply Hquiet | apply Hgoto; done | split; vm_compute; auto].
Qed.

Lemma demo_machine_init (hot : bool) : demo_machine hot (machine_init default_config).
Proof. split; done. Qed.

Lemma handle_all_demo (hot : bool) (es : list Event) (m : MotorStateMachine) :
  demo_machine hot m → Forall (demo_event hot) es →
  demo_machine hot (handle_all es m) ∧ (demo_rank (state_ m) ≤ demo_rank (state_ (handle_all es m)))%nat.
Proof.
  intros Hm He. revert m Hm. induction He as [|e es He _ IH]; intros m Hm; [done|].
  destruct (handle_demo hot e m Hm He) as [H1 H2]. destruct (IH _ H1) as [H3 H4].
  split; [exact H3|]. etransitivity; [exact H2|exact H4].
Qed.

(** ** The story the demo prints *)

(** The lines in an order the demo may print them, from [state] and [hot] on: each
    state line starts where the last one ended and goes up, none enters
    [Degraded], [FaultLatched] only after the injection, which happens once. *)
Fixpoint story (lines : list DemoLine) (state : MotorState) (hot : bool) : option (MotorState * bool) :=
  match lines with
  | [] => Some (state, hot)
  | LineInjected :: lines => if hot then None else story lines state true
  | LineState a b :: lines =>
      if bool_decide (a = state) && (demo_rank a <? demo_rank b)%nat && bool_decide (b ≠ degraded)
         && (hot || bool_decide (b ≠ fault_latched))
      then story lines b hot else None
  end.

Lemma story_app (lines lines' : list DemoLine) (s : MotorState) (hot : bool) :
  story (lines ++ lines') s hot = '(s, hot) ← story lines s hot; story lines' s hot.
Proof.
  revert s hot. induction lines as [|[|a b] lines IH]; intros s hot; simpl; [done| |].
  - destruct hot; [done|apply IH].
  - destruct (_ && _); [apply IH|done].
Qed.

Lemma story_length (lines : list DemoLine) (s s' : MotorState) (hot hot' : bool) :
  story lines s hot = Some (s', hot') →
  (length lines + demo_rank s + Nat.b2n hot ≤ demo_rank s' + Nat.b2n hot')%nat.
Proof.
  revert s hot. induction lines as [|[|a b] lines IH]; intros s hot H; simpl in *; [by simplify_eq|..].
  - destruct hot; [done|]. apply IH in H. simpl in *. lia.
  - destruct (_ && _) eqn:Hc; [|done]. apply IH in H. rewrite !andb_true_iff, Nat.ltb_lt in Hc.
    destruct Hc as [[[Ha%bool_decide_eq_true Hlt] _] _]. subst a. lia.
Qed.

Lemma story_state (lines : list DemoLine) (s s' : MotorState) (hot hot' : bool) :
  story lines s hot = Some (s', hot') → s ≠ degraded → s' ≠ degraded.
Proof.
  revert s hot. induction lines as [|[|a b] lines IH]; intros s hot H Hs; simpl in *; [by simplify_eq|..].
  - destruct hot; [done|]. by apply IH in H.
  - destruct (_ && _) eqn:Hc; [|done]. apply IH in H; [done|]. rewrite !andb_true_iff in Hc.
    by destruct Hc as [[_ Hd%bool_decide_eq_true] _].
Qed.

Section Story.
Context (L : PoolLayout) (HL : edge_layout_ok L) (duration_ms fault_after_ms : Z).

#[local] Hint Extern 1 (ObjectPool EdgePool PooledEvent) => exact (edge_pool L) : typeclass_instances.
#[local] Existing Instance edge_queue.
#[local] Hint Extern 1 (ObjectPoolLaws EdgePool PooledEvent _) => exact (edge_pool_laws L HL) : typeclass_instances.
#[local] Existing Instance edge_queue_laws.

(** The calls of [start] and [stop] go as in the daemon. *)
Definition demo_phase (m : DemoMain) (c0 : Client) (s : EdgeState) : Prop :=
  match m with
  | DemoStart => phase 0 None MainStart c0 s false true
  | DemoClock | DemoLoop | DemoElapsed | DemoSnapshot => up s ∧ c0 = ClIdle
  | DemoStop => phase 0 None (MainStop 1) c0 s false true
  | DemoExit code => code = 0 ∧ ∃ r, c0 = StopReturned r
  end.

Record demo_inv (d : DemoSystem) : Prop := {
  de_reachable : edge_reachable L default_config 1 (de_runtime d);
  de_events : events_ok (demo_event (injected d)) (de_runtime d);
  de_simulated : de_sensor d
    = MkSimulated demo_nominal (if injected d then Some demo_hot else None) (sim_sequence_ (de_sensor d));
  de_story : story (de_lines d) booting false = Some (last_state d, injected d);
  de_rank : (demo_rank (last_state d) ≤ demo_rank (state_ (machine_ (shared (de_runtime d)))))%nat;
  de_phase : ∃ c0, clients (de_runtime d) = [c0] ∧ demo_phase (de_main d) c0 (shared (de_runtime d))
}.

(** The machine of a runtime that was only given events of the demo. *)
Lemma demo_machine_at (hot : bool) (y : EdgeSystem) :
  edge_reachable L default_config 1 y → events_ok (demo_event hot) y →
  machine_ (shared y) = handle_all (log_handled (shared y)) (machine_init default_config) ∧
  Forall (demo_event hot) (log_handled (shared y)) ∧ demo_machine hot (machine_ (shared y)).
Proof.
  intros Hr [Hl _ _]. destruct (rt_reachable_inv default_config 1 y Hr) as (l & c & Hinv).
  destruct (sys_inv_events default_config y l c Hinv) as (pending & Hlog & Hm & _).
  rewrite Hlog in Hl. apply Forall_app in Hl as [Hh _]. rewrite Hm.
  split_and!; [done|done|]. by apply handle_all_demo; [apply demo_machine_init|].
Qed.

(** The machine only moves up. *)
Lemma demo_machine_up (hot : bool) (y y' : EdgeSystem) :
  edge_reachable L default_config 1 y → edge_reachable L default_config 1 y' →
  events_ok (demo_event hot) y → events_ok (demo_event hot) y' →
  log_handled (shared y) `prefix_of` log_handled (shared y') →
  (demo_rank (state_ (machine_ (shared y))) ≤ demo_rank (state_ (machine_ (shared y'))))%nat.
Proof.
  intros Hr Hr' He He' [es Hes]. destruct (demo_machine_at hot y Hr He) as (Hm & _ & Hd).
  destruct (demo_machine_at hot y' Hr' He') as (Hm' & Hall & _).
  rewrite Hes in Hall. apply Forall_app in Hall as [_ Hall].
  rewrite Hm', Hes. unfold handle_all. rewrite foldl_app. fold (handle_all (log_handled (shared y)) (machine_init default_config)).
  rewrite <- Hm. exact (proj2 (handle_all_demo hot es _ Hd Hall)).
Qed.

Lemma demo_phase_frame (m : DemoMain) (c0 : Client) (s s' : EdgeState) :
  frame s s' → demo_phase m c0 s → demo_phase m c0 s'.
Proof.
  intros Hf Hp. destruct m; cbn [demo_phase] in *; try (destruct Hp; split; [by eapply up_frame|done]).
  - exact (phase_frame 0 None MainStart c0 s s' false true Hf Hp).
  - exact (phase_frame 0 None (MainStop 1) c0 s s' false true Hf Hp).
  - exact Hp.
Qed.

(** A move of the runtime: what the demo keeps, given the new program counters. *)
Lemma demo_moved (m : DemoMain) (y' : EdgeSystem) (n : Z) (d : DemoSystem) (c0 : Client) :
  demo_inv d → edge_reachable L default_config 1 y' →
  events_ok (demo_event (injected d)) y' → log_handled (shared (de_runtime d)) `prefix_of` log_handled (shared y') →
  clients y' = [c0] → demo_phase m c0 (shared y') →
  demo_inv (MkDemo m y' (MkSimulated demo_nominal (if injected d then Some demo_hot else None) n) (started_at d)
              (last_state d) (injected d) (de_lines d)).
Proof.
  intros [Hr He Hs Hst Hrank Hph] Hr' He' Hpre Hcs Hm. split; simpl; try done; [|by exists c0].
  etransitivity; [exact Hrank|]. by apply (demo_machine_up (injected d)).
Qed.

Lemma demo_simulated_eq (d : DemoSystem) : demo_inv d →
  ∀ m y, demo_goto m y d
  = MkDemo m y (MkSimulated demo_nominal (if injected d then Some demo_hot else None) (sim_sequence_ (de_sensor d)))
      (started_at d) (last_state d) (injected d) (de_lines d).
Proof. intros Hd m y. unfold demo_goto. by rewrite <- (de_simulated d Hd). Qed.

Lemma demo_move_reachable (mv : Move) (y y' : EdgeSystem) :
  edge_reachable L default_config 1 y → exec_move mv y = Some y' → edge_reachable L default_config 1 y'.
Proof. intros Hr Hm. eapply rtc_r; [exact Hr|by eapply exec_move_step]. Qed.

(** A thread of the runtime moves. *)
Lemma demo_thread_inv (mv : Move) (d : DemoSystem) (y' : EdgeSystem) (n : Z) :
  demo_inv d → is_thread mv = true → exec_move mv (de_runtime d) = Some y' →
  events_ok (demo_event (injected d)) y' ∧
  log_handled (shared (de_runtime d)) `prefix_of` log_handled (shared y') ∧ clients y' = clients (de_runtime d) →
  demo_inv (MkDemo (de_main d) y' (MkSimulated demo_nominal (if injected d then Some demo_hot else None) n)
              (started_at d) (last_state d) (injected d) (de_lines d)).
Proof.
  intros Hd Ht Hmv (He & Hpre & Hcs). pose proof (de_reachable d Hd) as Hr.
  destruct (de_phase d Hd) as (c0 & Hc0 & Hph). destruct (thread_frame L mv _ _ Ht Hmv) as [Hf _].
  apply (demo_moved (de_main d) y' n d c0); try done.
  - by eapply demo_move_reachable.
  - congruence.
  - by eapply demo_phase_frame.
Qed.

Lemma demo_hot_ok (hot : bool) :
  demo_event hot Event_startup ∧ demo_event hot Event_self_test_passed ∧ demo_event hot Event_shutdown_requested.
Proof. unfold demo_event. naive_solver. Qed.

(** The main thread moves inside a call. *)
Lemma demo_call_inv (now : Z) (expired : bool) (call : Call) (after : Client → Client → DemoMain) (d d' : DemoSystem) :
  demo_inv d → call = CallStart ∨ call = CallStop → demo_call L now expired call after d = Some d' →
  (∀ c0 c0' y', demo_phase (de_main d) c0 (shared (de_runtime d)) →
     client_step now expired call c0 (de_runtime d) = Some (c0', y') →
     clients y' = clients (de_runtime d) ∧ demo_phase (after c0 c0') c0' (shared y')) →
  demo_inv d'.
Proof.
  intros Hd Hcall H Hstep. destruct (de_phase d Hd) as (c0 & Hc0 & Hph). unfold demo_call in H.
  destruct (exec_move (MvClient 0 now expired call) (de_runtime d)) as [y|] eqn:Hy;
    [|by destruct (clients (de_runtime d) !! 0%nat)].
  rewrite Hc0 in H. rename c0 into c.
  simpl in H. destruct (demo_hot_ok (injected d)) as (H1 & H2 & H3).
  destruct (client_ok' L (demo_event (injected d)) now expired call 0 _ y Hy (de_events d Hd) H1 H2 H3)
    as [He Hpre]; [by destruct Hcall as [-> | ->]|].
  pose proof (demo_move_reachable _ _ _ (de_reachable d Hd) Hy) as Hr'.
  cbn [exec_move] in Hy. rewrite Hc0 in Hy. simpl in Hy.
  destruct (client_step now expired call c (de_runtime d)) as [[c' y1]|] eqn:Hs; [|done].
  destruct (Hstep c c' y1 Hph Hs) as [Hcs Hph']. simpl in Hy. rewrite Hcs, Hc0 in Hy. simplify_eq/=.
  rewrite (demo_simulated_eq d Hd). by eapply demo_moved.
Qed.

Lemma demo_main_inv (now : Z) (expired : bool) (d d' : DemoSystem) :
  demo_inv d → demo_main_step L duration_ms fault_after_ms now expired d = Some d' → demo_inv d'.
Proof.
  intros Hd H. pose proof Hd as [Hr He Hs Hst Hrank (c0 & Hc0 & Hph)]. unfold demo_main_step in H.
  destruct (de_main d) as [| | | | | |code] eqn:Hm; cbn [demo_phase] in Hph.
  - apply (demo_call_inv _ _ _ _ _ _ Hd (or_introl eq_refl) H). rewrite Hm. intros c c' y' Hp Hstep.
    destruct (start_phase L 0 None now expired c c' _ y' true Hp Hstep) as [Hcs Hp']. split; [done|].
    destruct c, c'; simpl in *; naive_solver.
  - simplify_eq. split; simpl; eauto.
  - simplify_eq. rewrite (demo_simulated_eq d Hd). apply (demo_moved _ _ _ d c0); try done.
    destruct (_ <? _); [done|]. destruct Hph as [Hup ->]. simpl. split_and!; [done|by right|left; auto].
  - destruct (negb (injected d) && _) eqn:Hi; simplify_eq.
    + apply andb_true_iff in Hi as [Hi _]. apply negb_true_iff in Hi.
      assert (Hhot : events_ok (demo_event true) (de_runtime d)).
      { rewrite Hi in He. eapply events_ok_impl; [apply demo_event_hot|exact He]. }
      split; simpl; eauto; [by rewrite Hs, Hi|]. rewrite story_app, Hst, Hi. done.
    + rewrite (demo_simulated_eq d Hd). by apply (demo_moved _ _ _ d c0).
  - destruct (bool_decide _) eqn:Hb; simplify_eq.
    + apply bool_decide_eq_true in Hb. split; simpl; eauto. rewrite story_app, Hst. simpl.
      destruct (demo_machine_at (injected d) _ Hr He) as (_ & _ & [_ _ Hdeg Hfault]).
      rewrite !bool_decide_eq_true_2 by done. simpl.
      assert (Hlt : (demo_rank (last_state d) < demo_rank (state_ (machine_ (shared (de_runtime d)))))%nat).
      { pose proof (story_state _ _ _ _ _ Hst ltac:(done)) as Hls.
        destruct (last_state d), (state_ (machine_ (shared (de_runtime d)))); simpl in *; done || lia. }
      apply Nat.ltb_lt in Hlt. rewrite Hlt. simpl.
      assert (Hok : injected d || bool_decide (state_ (machine_ (shared (de_runtime d))) ≠ fault_latched) = true).
      { destruct (injected d); [done|]. simpl. apply bool_decide_eq_true. intros Hf. by discriminate (Hfault Hf). }
      by rewrite Hok.
    + rewrite (demo_simulated_eq d Hd). by apply (demo_moved _ _ _ d c0).
  - apply (demo_call_inv _ _ _ _ _ _ Hd (or_intror eq_refl) H). rewrite Hm. intros c c' y' Hp Hstep.
    destruct (stop_phase L 0 None now expired 1 c c' _ y' true Hp Hstep) as [Hcs Hp']. split; [done|].
    destruct c'; simpl in *; naive_solver.
  - done.
Qed.

Lemma demo_step_inv (mv : DemoMove) (d d' : DemoSystem) :
  demo_inv d → demo_step L duration_ms fault_after_ms mv d = Some d' → demo_inv d'.
Proof.
  intros Hd H. destruct mv as [now expired|now|now expired|]; cbn [demo_step] in H; [by eapply demo_main_inv|..].
  - destruct (exec_move (MvControl now) (de_runtime d)) as [y|] eqn:Hy; simplify_eq/=.
    rewrite (demo_simulated_eq d Hd). apply (demo_thread_inv (MvControl now)); try done.
    by eapply (control_ok L), (de_events d Hd).
  - unfold demo_sensor_step in H. rewrite (de_simulated d Hd) in H. cbn [simulated_read baseline_ override_ sim_sequence_] in H.
    match type of H with (exec_move ?mv _ ≫= _) = _ => destruct (exec_move mv (de_runtime d)) as [y|] eqn:Hy end;
      [|done]. cbn [mbind option_bind] in H.
    assert (He : events_ok (demo_event (injected d)) y ∧
      log_handled (shared (de_runtime d)) `prefix_of` log_handled (shared y) ∧ clients y = clients (de_runtime d)).
    { eapply (sensor_moves_ok L); [exact Hy|exact (de_events d Hd)|]. intros smp [= <-] _ _. unfold demo_event, numbered.
      destruct (injected d); simpl; eauto 10. }
    destruct (match sensor (de_runtime d) with SnsCheck => _ | _ => _ end); simplify_eq;
      (eapply demo_thread_inv; [exact Hd| |exact Hy|exact He]; reflexivity).
  - destruct (exec_move MvMonitor (de_runtime d)) as [y|] eqn:Hy; simplify_eq/=.
    rewrite (demo_simulated_eq d Hd). apply (demo_thread_inv MvMonitor); try done.
    by eapply (monitor_ok L), (de_events d Hd).
Qed.

Lemma demo_init_inv : demo_inv (demo_init L).
Proof.
  split; simpl; try done; [apply rtc_refl|split; simpl; [done|done|by apply Forall_singleton]|].
  exists ClIdle. split; [done|]. split; [done|]. split; [done|]. left. auto.
Qed.

Lemma demo_run_inv (mvs : list DemoMove) (d d' : DemoSystem) :
  demo_inv d → demo_run L duration_ms fault_after_ms mvs d = Some d' → demo_inv d'.
Proof.
  revert d. induction mvs as [|mv mvs IH]; intros d Hd H; simpl in H; [by simplify_eq|].
  destruct (demo_step L duration_ms fault_after_ms mv d) as [d1|] eqn:H1; [|done].
  apply (IH d1); [by eapply demo_step_inv|done].
Qed.

End Story.

(** A complete run: the fault is injected after a millisecond, two hot samples are
    taken, and the program stops after ten. *)
Definition turn_moves (now : Z) : list DemoMove := replicate 3 (EMain now true).
Definition story_moves : list DemoMove :=
  replicate 18 (EMain 0 true) ++ replicate 12 (EControl 7) ++ turn_moves 0 ++ turn_moves 2000000
  ++ replicate 14 (ESensor 0 true) ++ replicate 11 (EControl 7) ++ turn_moves 3000000
  ++ replicate 12 (EMain 10000000 true) ++ [ESensor 0 true; EMonitor] ++ replicate 3 (EMain 0 true)
  ++ replicate 7 (EControl 7) ++ replicate 2 (EMain 0 true).
