(* ===== verification/DemoDetect.v ===== *)
(** * The demo detects its fault

    The order of the events the demo gives to its runtime, and what the machine
    makes of them: the two events of the start are delivered, no sample at 45 degrees
    follows one at 105, and two samples at 105 degrees latch the fault. *)
From Stdlib Require Import Ascii String.
From stdpp Require Import gmap strings.
From S2P Require Import Prelude Bytes Double Domain Measurement Crc Uart Buses Fsm Metrics Pool Queue Interfaces.
From S2P Require Import Descriptors Sensors ServerLife Command CommandProps Format Runtime RuntimeStop RuntimeCounts.
From S2P Require Import RuntimeProps Daemon DaemonMain Demo DemoProps.

Local Open Scope Z_scope.

(** ** The log *)

Definition calm_event (e : Event) : Prop := e = Event_shutdown_requested ∨ numbered demo_nominal e.
Definition warm_event (e : Event) : Prop := e = Event_shutdown_requested ∨ numbered demo_hot e.

(** What the log of a started demo looks like. *)
Definition demo_log (calm warm log : list Event) : Prop :=
  log = Event_startup :: Event_self_test_passed :: calm ++ warm ∧
  Forall calm_event calm ∧ Forall warm_event warm.

(** A sample at 105 degrees. *)
Definition is_hot (e : Event) : bool :=
  bool_decide (kind e = Ev_sensor_sample) && Double.eqb (temperature_c (sample e)) (Double.of_Z 105).
Definition hot_count (es : list Event) : nat := length (filter (λ e, is_hot e = true) es).

Lemma log_snoc (ok : Event → Prop) (es : list Event) (e : Event) : Forall ok es → ok e → Forall ok (es ++ [e]).
Proof. intros H He. apply Forall_app. by rewrite Forall_singleton. Qed.

Lemma calm_not_hot (e : Event) : calm_event e → is_hot e = false.
Proof. by intros [-> | [n ->]]. Qed.

Lemma hot_count_calm (es : list Event) : Forall calm_event es → hot_count es = 0%nat.
Proof.
  unfold hot_count. induction 1 as [|e es He _ IH]; [done|].
  rewrite filter_cons_False; [done|]. by rewrite (calm_not_hot e He).
Qed.

Lemma hot_count_snoc (es : list Event) (e : Event) :
  hot_count (es ++ [e]) = (hot_count es + if is_hot e then 1 else 0)%nat.
Proof.
  unfold hot_count. rewrite filter_app, length_app. f_equal.
  destruct (is_hot e) eqn:He; [by rewrite filter_cons_True|by rewrite filter_cons_False by (by rewrite He)].
Qed.

(** ** The machine *)

(** Shut down, or healthy with the critical samples counted, or latched. *)
Definition watching (k : nat) (m : MotorStateMachine) : Prop :=
  config_ m = default_config ∧
  (state_ m = safe_shutdown ∨
   state_ m = healthy ∧ (k ≤ 1)%nat ∧ critical_count_ m = Z.of_nat k ∧ warning_count_ m = Z.of_nat k ∨
   state_ m = fault_latched ∧ (2 ≤ k)%nat).

Lemma watching_calm (e : Event) (m : MotorStateMachine) :
  calm_event e → watching 0 m → watching 0 (fst (handle e m)).
Proof.
  intros He [Hc Hm]. destruct m as [cfg st ls hs w c r o]. simpl in *. subst cfg.
  destruct Hm as [-> | [(-> & _ & -> & ->) | [_ Hk]]]; [by split; auto| |lia].
  destruct He as [-> | [n ->]]; (split; [done|]); [by left|right; left; vm_compute; auto].
Qed.

Lemma watching_warm (k : nat) (e : Event) (m : MotorStateMachine) :
  warm_event e → watching k m → watching (k + if is_hot e then 1 else 0) (fst (handle e m)).
Proof.
  intros He [Hc Hm]. destruct m as [cfg st ls hs w c r o]. simpl in *. subst cfg.
  destruct Hm as [-> | [(-> & Hk & -> & ->) | [-> Hk]]]; [by split; auto| |];
    (destruct He as [-> | [n ->]]; [by split; [done|left]|]).
  - assert (k = 0%nat ∨ k = 1%nat) as [-> | ->] by lia; (split; [done|right]).
    + left. split_and!; vm_compute; reflexivity || lia.
    + right. split; [vm_compute; reflexivity|]. change (is_hot _) with true. cbn iota. lia.
  - split; [done|]. right; right. split; [done|]. change (is_hot _) with true. cbn iota. lia.
Qed.

(** ** Detection, on every prefix of the log *)

Lemma handle_all_snoc (es : list Event) (e : Event) (m : MotorStateMachine) :
  handle_all (es ++ [e]) m = fst (handle e (handle_all es m)).
Proof. unfold handle_all. by rewrite foldl_app. Qed.

Definition started_machine : MotorStateMachine :=
  handle_all [Event_startup; Event_self_test_passed] (machine_init default_config).

Lemma watching_log (calm warm : list Event) :
  Forall calm_event calm → Forall warm_event warm →
  watching (hot_count warm) (handle_all (calm ++ warm) started_machine).
Proof.
  intros Hc. induction warm as [|e warm IH] using rev_ind; intros Hw.
  - rewrite app_nil_r. induction calm as [|e calm IH] using rev_ind.
    { split; [reflexivity|]. right; left. split_and!; vm_compute; reflexivity || lia. }
    apply Forall_app in Hc as [Hc [He _]%Forall_cons]. rewrite handle_all_snoc. apply watching_calm; [done|by apply IH].
  - apply Forall_app in Hw as [Hw [He _]%Forall_cons].
    rewrite app_assoc, handle_all_snoc, hot_count_snoc. apply watching_warm; [done|by apply IH].
Qed.

Lemma hot_count_app (es es' : list Event) : hot_count (es ++ es') = (hot_count es + hot_count es')%nat.
Proof. unfold hot_count. by rewrite filter_app, length_app. Qed.

(** Two hot samples handled: latched, or shut down; and only then latched. *)
Lemma log_detects (calm warm log es : list Event) :
  demo_log calm warm log → es `prefix_of` log →
  let s := state_ (handle_all es (machine_init default_config)) in
  ((2 ≤ hot_count es)%nat → s = fault_latched ∨ s = safe_shutdown) ∧
  (s = fault_latched → (2 ≤ hot_count es)%nat).
Proof.
  intros (-> & Hc & Hw) Hp. destruct es as [|e1 [|e2 es]].
  - split; [vm_compute; lia|done].
  - apply prefix_cons_inv_1 in Hp as ->. split; [vm_compute; lia|done].
  - pose proof (prefix_cons_inv_1 _ _ _ _ Hp) as ->. apply prefix_cons_inv_2 in Hp.
    pose proof (prefix_cons_inv_1 _ _ _ _ Hp) as ->. apply prefix_cons_inv_2 in Hp as [rest Hp].
    pose proof (f_equal (take (length es)) Hp) as Ht. rewrite take_app_length, take_app in Ht.
    change (handle_all (Event_startup :: Event_self_test_passed :: es) (machine_init default_config))
      with (handle_all es started_machine).
    change (hot_count (Event_startup :: Event_self_test_passed :: es)) with (hot_count es).
    rewrite <- Ht, hot_count_app, hot_count_calm by (by apply Forall_take). cbn [Nat.add].
    destruct (watching_log (take (length es) calm) (take (length es - length calm) warm)) as [_ H];
      [by apply Forall_take..|]. destruct H as [-> | [(-> & Hk & _) | [-> Hk]]]; (split; [auto; lia|done]).
Qed.

(** ** What is on its way *)

(** The event a publication is still to push. *)
Definition in_flight (q : Publish) : option Event :=
  match q with PubLoad e | PubCreate e | PubPush e _ => Some e | _ => None end.
Definition sensor_flight (c : Sensor) : option Event :=
  match c with SnsPublish q => in_flight q | _ => None end.

Section Detect.
Context (L : PoolLayout) (HL : edge_layout_ok L).

#[local] Hint Extern 1 (ObjectPool EdgePool PooledEvent) => exact (edge_pool L) : typeclass_instances.
#[local] Existing Instance edge_queue.
#[local] Hint Extern 1 (ObjectPoolLaws EdgePool PooledEvent _) => exact (edge_pool_laws L HL) : typeclass_instances.
#[local] Existing Instance edge_queue_laws.

Lemma publish_pushes (now : Z) (expired : bool) (q q' : Publish) (s s' : EdgeState) :
  publish_step now expired q s = Some (q', s') →
  log_pushed s' = log_pushed s ∧ (in_flight q' = None ∨ in_flight q' = in_flight q) ∨
  ∃ e, in_flight q = Some e ∧ in_flight q' = None ∧ log_pushed s' = log_pushed s ++ [e].
Proof. intros H. destruct q; simpl in H; repeat case_match; simplify_eq/=; eauto. Qed.

(** After the start: the log is ordered; before the injection, and while a sample
    at 45 degrees is on its way, there is no hot one in it. *)
Definition ordered (hot : bool) (y : EdgeSystem) : Prop :=
  ∃ calm warm, demo_log calm warm (log_pushed (shared y)) ∧
    (hot = false ∨ (∃ e, sensor_flight (sensor y) = Some e ∧ numbered demo_nominal e) → warm = []).

(** A log that grows by a shutdown. *)
Lemma demo_log_shutdown (calm warm log : list Event) (P : Prop) :
  demo_log calm warm log → (P → warm = []) →
  ∃ calm' warm', demo_log calm' warm' (log ++ [Event_shutdown_requested]) ∧ (P → warm' = []).
Proof.
  intros (-> & Hc & Hw) HP. destruct warm as [|e warm].
  - exists (calm ++ [Event_shutdown_requested]), []. split; [|done].
    split_and!; [by rewrite !app_nil_r| |done]. apply log_snoc; [done|by left].
  - exists calm, ((e :: warm) ++ [Event_shutdown_requested]). split; [|intros H; by specialize (HP H)].
    split_and!; [cbn [app]; by rewrite <- app_assoc|done|]. apply log_snoc; [done|by left].
Qed.

(** The sensor thread. *)
Lemma ordered_sensor (hot : bool) (now : Z) (expired : bool) (n : Z) (y y' : EdgeSystem) :
  ordered hot y →
  exec_move (MvSensor now expired (Some (set_sequence n (if hot then demo_hot else demo_nominal)))) y = Some y' →
  (∀ e, sensor_flight (sensor y) = Some e → numbered demo_nominal e ∨ hot = true ∧ numbered demo_hot e) →
  ordered hot y' ∧
  (∀ e, sensor_flight (sensor y') = Some e → numbered demo_nominal e ∨ hot = true ∧ numbered demo_hot e).
Proof.
  intros (calm & warm & Hlog & Hw) H Hfl. cbn [exec_move] in H.
  apply bind_Some in H as ([c s] & Hs & H). simplify_eq. unfold ordered. cbn [shared sensor].
  destruct (sensor y) as [| |q| |] eqn:Hy; try (simpl in Hs; done).
  - cbn [sensor_step] in Hs. destruct (sensor_stop _); simplify_eq; cbn [sensor_flight in_flight].
    { split; [exists calm, warm; split; [done|naive_solver]|done]. }
    split.
    + exists calm, warm. split; [done|]. intros [Hh|(e & He & [k Hk])]; [by apply Hw; left|].
      destruct hot; [|by apply Hw; left]. simplify_eq.
    + intros e He. simplify_eq. destruct hot; [right|left]; unfold numbered; eauto.
  - assert (Hcase : (∃ r, q = PubReturn r ∧ c = SnsWait ∧ s = shared y) ∨
      ∃ q', publish_step now expired q (shared y) = Some (q', s) ∧ c = SnsPublish q').
    { destruct q; cbn [sensor_step] in Hs; simplify_eq; eauto;
        destruct (publish_step _ _ _ _) as [[q' s1]|]; simplify_eq; eauto. }
    cbn [sensor_flight] in *. destruct Hcase as [(r & -> & -> & ->)|(q' & Hq & ->)].
    { split; [exists calm, warm; split; [done|naive_solver]|done]. }
    destruct (publish_pushes _ _ _ _ _ _ Hq) as [(-> & Hf)|(e & He & Hn & ->)]; cbn [sensor_flight].
    { split; [exists calm, warm; split; [done|]|]; destruct Hf as [-> | ->]; naive_solver. }
    rewrite Hn. split; [|done]. destruct Hlog as (-> & Hcalm & Hwarm). destruct (Hfl e He) as [He'|[-> He']].
    + rewrite (Hw (or_intror (ex_intro _ e (conj He He')))). exists (calm ++ [e]), []. split; [|done].
      split_and!; [by rewrite !app_nil_r| |done]. apply log_snoc; [done|by right].
    + exists calm, (warm ++ [e]). split; [|naive_solver]. split_and!; [cbn [app]; by rewrite <- app_assoc|done|].
      apply log_snoc; [done|by right].
  - cbn [sensor_step] in Hs. split; [exists calm, warm; split; [|intros [?|(e & ? & _)]; [apply Hw; auto|]]|];
      destruct (sensor_stop _); simplify_eq/=; try done.
Qed.

(** ** The start *)

(** The publication of [e] inside [start], with the log [before] it. *)
Definition start_pub (q : Publish) (e : Event) (before log : list Event) : Prop :=
  match q with
  | PubLoad e' | PubCreate e' | PubPush e' _ => e' = e ∧ log = before
  | PubCount r | PubReturn r => r = Pub_published ∧ log = before ++ [e]
  | PubDrop _ _ => False
  end.

Definition starting (c0 : Client) (s : EdgeState) : Prop :=
  eq_closed (r_queue s) = false ∧
  match c0 with
  | ClIdle | StartLock | StartAccept => log_pushed s = []
  | StartRun | StartControl => log_pushed s = [] ∧ accepting_events_ s = true
  | StartPublish q => accepting_events_ s = true ∧ start_pub q Event_startup [] (log_pushed s)
  | StartSelfTest q => accepting_events_ s = true ∧ start_pub q Event_self_test_passed [Event_startup] (log_pushed s)
  | StartSensor => log_pushed s = [Event_startup; Event_self_test_passed]
  | _ => False
  end.

(** Nobody else pushes, so the queue has room and the publication succeeds. *)
Lemma start_pub_step (now : Z) (expired : bool) (y : EdgeSystem) (q q' : Publish) (s' : EdgeState) (e : Event)
    (before : list Event) :
  edge_reachable L default_config 1 y → eq_closed (r_queue (shared y)) = false →
  accepting_events_ (shared y) = true → (length before ≤ 1)%nat →
  start_pub q e before (log_pushed (shared y)) → publish_step now expired q (shared y) = Some (q', s') →
  start_pub q' e before (log_pushed s') ∧ eq_closed (r_queue s') = false ∧ accepting_events_ s' = true.
Proof.
  intros Hr Hcl Ha Hb Hq H. destruct (rt_reachable_inv default_config 1 y Hr) as (l & c & Hinv).
  destruct (si_core _ _ _ _ Hinv) as (m & evs & _ & Hqu & _ & Hlen & Hlog & _).
  destruct (eq_view_law _ _ _ Hqu) as [_ Hc]. rewrite Hcl in Hc. subst c.
  destruct q as [e'|e'|e' h|h r|r|r]; cbn [publish_step] in H; cbn [start_pub] in Hq.
  - rewrite Ha in H. by simplify_eq/=.
  - destruct (pool_has_room L default_config HL 1 y e' now) as [_ (h & s & Hc)]; [lia|done|].
    cbn [publish_step] in Hc. destruct (op_create _ _) as [p h']. destruct (negb _); by simplify_eq/=.
  - destruct Hq as [-> Hbe]. pose proof (eq_push_law expired h _ l false Hqu) as Hlaw.
    assert (Hl : (length l ≤ 1)%nat).
    { apply (f_equal length) in Hlog. rewrite length_app in Hlen, Hlog. rewrite Hbe in Hlog. lia. }
    destruct (eq_push expired h (r_queue (shared y))) as [[qq []]|]; unfold kEventQueueCapacity in *;
      destruct_and?; try done; try lia. simplify_eq. simpl. split_and!; [done|done| |done].
    match goal with H : eq_holds qq _ _ |- _ => by destruct (eq_view_law _ _ _ H) end.
  - done.
  - by simplify_eq/=.
  - done.
Qed.

Lemma start_publishing (now : Z) (expired : bool) (y y' : EdgeSystem) (q : Publish) (e : Event) (before : list Event)
    (wrap : Publish → Client) (next : PublishResult → Client) (c' : Client) :
  edge_reachable L default_config 1 y → eq_closed (r_queue (shared y)) = false →
  accepting_events_ (shared y) = true → (length before ≤ 1)%nat →
  start_pub q e before (log_pushed (shared y)) → publishing now expired q y wrap next = Some (c', y') →
  eq_closed (r_queue (shared y')) = false ∧ accepting_events_ (shared y') = true ∧
  (c' = next Pub_published ∧ log_pushed (shared y') = before ++ [e] ∨
   ∃ q', c' = wrap q' ∧ start_pub q' e before (log_pushed (shared y'))).
Proof.
  intros Hr Hcl Ha Hb Hq H. unfold publishing in H.
  assert (Hcase : (∃ r, q = PubReturn r) ∨ ∃ q' s', publish_step now expired q (shared y) = Some (q', s') ∧
    c' = wrap q' ∧ y' = set_shared s' y).
  { destruct q; try (by left; eauto); right; destruct (publish_step _ _ _ _) as [[q' s']|]; simplify_eq; eauto. }
  destruct Hcase as [[r ->]|(q' & s' & Hs & -> & ->)].
  - destruct Hq as [-> Hl]. simplify_eq. auto.
  - destruct (start_pub_step now expired y q q' s' e before Hr Hcl Ha Hb Hq Hs) as (H1 & H2 & H3). simpl. eauto 6.
Qed.

(** A step of [start]. *)
Lemma starting_step (now : Z) (expired : bool) (c0 c0' : Client) (y y' : EdgeSystem) :
  edge_reachable L default_config 1 y → phase 0 None MainStart c0 (shared y) false true →
  starting c0 (shared y) → client_step now expired CallStart c0 y = Some (c0', y') →
  match c0' with
  | StartMonitor => log_pushed (shared y') = [Event_startup; Event_self_test_passed]
  | _ => starting c0' (shared y')
  end.
Proof.
  intros Hr (_ & _ & Hph) [Hcl Hst] H. unfold starting.
  destruct c0; cbn [client_step] in H; try done.
  - by simplify_eq/=.
  - destruct Hph as [[_ Hs]|[Hs _]]; [|done]. rewrite Hs in H. destruct (lifecycle_locked _); by simplify_eq/=.
  - by simplify_eq/=.
  - by simplify_eq/=.
  - by simplify_eq/=; destruct Hst.
  - destruct Hst as [Ha Hq].
    apply (start_publishing _ _ _ _ _ Event_startup [] _ _ _ Hr Hcl Ha ltac:(simpl; lia) Hq) in H
      as (H1 & H2 & [[-> H3]|(q' & -> & H3)]); [|done]. by simpl.
  - destruct Hst as [Ha Hq].
    apply (start_publishing _ _ _ _ _ Event_self_test_passed [Event_startup] _ _ _ Hr Hcl Ha ltac:(simpl; lia) Hq) in H
      as (H1 & H2 & [[-> H3]|(q' & -> & H3)]); done.
  - by simplify_eq/=.
Qed.

(** The sensor thread does not exist before [start] has created it. *)
Lemma start_without_sensor (c0 : Client) (y : EdgeSystem) :
  edge_reachable L default_config 1 y → clients y = [c0] → phase 0 None MainStart c0 (shared y) false true →
  c0 ≠ StartMonitor → sensor y = SnsNone.
Proof.
  intros Hr Hcs (_ & _ & Hph) Hne. destruct (rt_reachable_inv default_config 1 y Hr) as (l & c & Hinv).
  destruct (si_life _ _ _ _ Hinv) as [Hfresh _ Hstart _ _ _ _].
  destruct Hph as [[_ Hs]|[Ha _]]; [by apply Hfresh|].
  rewrite Hcs in Hstart. apply Forall_cons in Hstart as [[_ Hsn _ _ _] _].
  apply Hsn. destruct c0; simpl in *; try done; lia.
Qed.

(** ** The invariant *)

(** The sample on its way is one the sensor can have returned. *)
Definition flight_ok (hot : bool) (c : Sensor) : Prop :=
  ∀ e, sensor_flight c = Some e → numbered demo_nominal e ∨ hot = true ∧ numbered demo_hot e.

Definition detect_at (m : DemoMain) (hot : bool) (c0 : Client) (y : EdgeSystem) : Prop :=
  flight_ok hot (sensor y) ∧
  match m, c0 with
  | DemoStart, StartMonitor => ordered hot y
  | DemoStart, _ => starting c0 (shared y)
  | _, _ => ordered hot y
  end.

Definition detect (d : DemoSystem) : Prop :=
  ∃ c0, clients (de_runtime d) = [c0] ∧ detect_at (de_main d) (injected d) c0 (de_runtime d).

(** Steps that push nothing and leave the sensor thread alone. *)
Lemma detect_quiet (m : DemoMain) (hot : bool) (c0 : Client) (y y' : EdgeSystem) :
  detect_at m hot c0 y → sensor y' = sensor y → log_pushed (shared y') = log_pushed (shared y) →
  accepting_events_ (shared y') = accepting_events_ (shared y) →
  eq_closed (r_queue (shared y')) = eq_closed (r_queue (shared y)) → detect_at m hot c0 y'.
Proof.
  intros [Hf H] Hs Hl Ha Hc. split; [by rewrite Hs|]. unfold ordered, starting in *.
  rewrite Hl, Hs. destruct m; try exact H. by destruct c0; rewrite ?Ha, ?Hc.
Qed.

Lemma control_quiet (now : Z) (y y' : EdgeSystem) :
  edge_reachable L default_config 1 y → exec_move (MvControl now) y = Some y' →
  sensor y' = sensor y ∧ clients y' = clients y ∧ log_pushed (shared y') = log_pushed (shared y) ∧
  accepting_events_ (shared y') = accepting_events_ (shared y) ∧
  eq_closed (r_queue (shared y')) = eq_closed (r_queue (shared y)).
Proof.
  intros Hr H. destruct (rt_reachable_inv default_config 1 y Hr) as (l & c & Hinv).
  destruct (si_core _ _ _ _ Hinv) as (m & evs & _ & Hq & _). cbn [exec_move] in H.
  apply bind_Some in H as ([pc s] & Hs & H). simplify_eq. cbn [shared sensor clients].
  destruct (control y); cbn [control_step] in Hs; try (repeat case_match; by simplify_eq).
  pose proof (eq_pop_law _ l c Hq) as Hlaw. destruct (eq_view_law _ _ _ Hq) as [_ ->].
  destruct (eq_pop (r_queue (shared y))) as [[q [h|]]|]; simplify_eq; cbn [set_queue r_queue]; split_and!; try done.
  - destruct Hlaw as (l' & _ & Hq'). by destruct (eq_view_law _ _ _ Hq').
  - destruct Hlaw as (_ & _ & Hq'). by destruct (eq_view_law _ _ _ Hq').
Qed.

Lemma ordered_hot (hot : bool) (y : EdgeSystem) : ordered hot y → ordered true y.
Proof. intros (calm & warm & H & Hw). exists calm, warm. split; [done|naive_solver]. Qed.

(** A step of [stop] pushes at most its shutdown event. *)
Lemma ordered_stop (hot : bool) (now : Z) (expired : bool) (c0 c0' : Client) (y y' : EdgeSystem) :
  edge_reachable L default_config 1 y → clients y = [c0] → phase 0 None (MainStop 1) c0 (shared y) false true →
  ordered hot y → client_step now expired CallStop c0 y = Some (c0', y') → ordered hot y' ∧ sensor y' = sensor y.
Proof.
  intros Hr Hcs (_ & _ & Hph) Hord H.
  assert (Hsame : log_pushed (shared y') = log_pushed (shared y) → sensor y' = sensor y →
    ordered hot y' ∧ sensor y' = sensor y) by (intros Hl Hs; unfold ordered in *; by rewrite Hl, Hs).
  destruct Hph as [[[-> | ->] [Hst Hsp]]|Hprog]; [by cbn in H; simplify_eq; auto| |].
  { cbn [client_step] in H. rewrite Hst, Hsp in H. destruct (lifecycle_locked _); simplify_eq/=. by apply Hsame. }
  unfold stop_in_progress in Hprog. destruct c0 as [|p| | | | |p|p| | | |p| | | | | | | | | |]; simpl in Hprog; try lia;
    try (cbn [client_step] in H; try apply join_view in H as [-> ->]; repeat case_match; simplify_eq; by apply Hsame).
  cbn [client_step] in H. unfold publishing in H.
  destruct (rt_reachable_inv default_config 1 y Hr) as (l & c & Hinv).
  pose proof (lf_clients _ _ (si_life _ _ _ _ Hinv)) as Hok. rewrite Hcs in Hok.
  apply Forall_cons in Hok as [[_ _ _ _ _ _ _ _ Hres _] _].
  cbn [stop_result_ok] in Hres.
  assert (Hcase : y' = y ∨ ∃ q' s', publish_step now expired p (shared y) = Some (q', s') ∧ y' = set_shared s' y).
  { destruct p; [..|by left; simplify_eq]; right; destruct (publish_step _ _ _ _) as [[q' s']|]; simplify_eq; eauto. }
  destruct Hcase as [-> |(q' & s' & Hs & ->)]; [by apply Hsame|].
  destruct (publish_pushes _ _ _ _ _ _ Hs) as [[Hl _]|(e & He & _ & Hl)]; [by apply Hsame|].
  assert (He' : e = Event_shutdown_requested) by (destruct p; simpl in *; congruence). subst e.
  split; [|done]. destruct Hord as (calm & warm & Hlog & Hw). unfold ordered. simpl. rewrite Hl.
  by apply (demo_log_shutdown calm warm).
Qed.

Context (duration_ms fault_after_ms : Z).

#[local] Abbreviation inv := (demo_inv L).
#[local] Abbreviation dstep := (demo_step L duration_ms fault_after_ms).

(** A call of the main thread, as a step of client 0. *)
Lemma demo_call_step (now : Z) (expired : bool) (call : Call) (after : Client → Client → DemoMain)
    (d d' : DemoSystem) (c0 : Client) :
  clients (de_runtime d) = [c0] → demo_call L now expired call after d = Some d' →
  ∃ c0' y', client_step now expired call c0 (de_runtime d) = Some (c0', y') ∧
    d' = demo_goto (after c0 c0') (MkSystem (shared y') (control y') (sensor y') (monitor y') [c0']) d.
Proof.
  intros Hcs H. unfold demo_call in H. cbn [exec_move] in H. rewrite Hcs in H.
  cbn [lookup list_lookup mbind option_bind] in H.
  destruct (client_step now expired call c0 (de_runtime d)) as [[c0' y']|] eqn:Hs; [|done].
  destruct (client_threads _ _ _ _ _ _ _ Hs) as [Hcs' _]. cbn [mbind option_bind] in H. rewrite Hcs', Hcs in H.
  simpl in H. injection H as <-. eauto.
Qed.

Lemma detect_start (now : Z) (expired : bool) (d d' : DemoSystem) :
  inv d → detect d → de_main d = DemoStart → demo_call L now expired CallStart demo_started d = Some d' → detect d'.
Proof.
  intros Hd (c0 & Hcs & Hfl & Hdet) Hm H. destruct (de_phase L d Hd) as (c & Hcs' & Hph). rewrite Hm in *.
  assert (c = c0) by congruence. subst c. clear Hcs'. pose proof (de_reachable L d Hd) as Hr.
  destruct (demo_call_step _ _ _ _ _ _ _ Hcs H) as (c0' & y' & Hs & ->). exists c0'. split; [done|].
  cbn [demo_goto de_main injected de_runtime].
  assert (c0 = StartMonitor ∨ c0 ≠ StartMonitor) as [-> |Hne] by (destruct c0; auto).
  { cbn [client_step] in Hs. injection Hs as <- <-. by split. }
  pose proof (start_without_sensor c0 _ Hr Hcs Hph Hne) as Hsn.
  assert (Hstart : starting c0 (shared (de_runtime d))) by (destruct c0; done).
  pose proof (starting_step now expired c0 c0' _ y' Hr Hph Hstart Hs) as Hst.
  destruct (start_phase L 0 None now expired c0 c0' _ y' true Hph Hs) as [_ Hph'].
  assert (Hflight : sensor_flight (sensor y') = None)
    by (destruct (client_threads _ _ _ _ _ _ _ Hs) as (_ & _ & [-> |[_ ->]]); by rewrite ?Hsn).
  assert (Hstay : demo_started c0 c0' = DemoStart) by (destruct c0, c0'; simpl in *; naive_solver).
  rewrite Hstay. split; [intros e He; cbn [sensor] in He; congruence|].
  assert (c0' = StartMonitor ∨ c0' ≠ StartMonitor) as [-> |Hne'] by (destruct c0'; auto).
  - exists [], []. split; [|done]. by split.
  - by destruct c0'.
Qed.

Lemma detect_main (now : Z) (expired : bool) (d d' : DemoSystem) :
  inv d → detect d → demo_main_step L duration_ms fault_after_ms now expired d = Some d' → detect d'.
Proof.
  intros Hd Hdet H. unfold demo_main_step in H. destruct (de_main d) eqn:Hm; [by eapply detect_start|..|done];
    destruct Hdet as (c0 & Hcs & Hfl & Hord); rewrite Hm in Hord; cbn in Hord.
  - simplify_eq. exists c0. by split.
  - simplify_eq. exists c0. split; [done|]. simpl. destruct (_ <? _); by split.
  - destruct (negb (injected d) && _) eqn:Hi; simplify_eq; exists c0; (split; [done|]); simpl; [|by split].
    apply andb_true_iff in Hi as [Hi%negb_true_iff _]. rewrite Hi in *. split; [|by eapply ordered_hot].
    intros e He. destruct (Hfl e He) as [?|[? _]]; [by left|done].
  - destruct (bool_decide _); simplify_eq; exists c0; by split.
  - destruct (de_phase L d Hd) as (c & Hcs' & Hph). rewrite Hm in Hph.
    assert (c = c0) by congruence. subst c. pose proof (de_reachable L d Hd) as Hr.
    destruct (demo_call_step _ _ _ _ _ _ _ Hcs H) as (c0' & y' & Hs & ->). exists c0'. split; [done|].
    destruct (ordered_stop (injected d) now expired c0 c0' _ y' Hr Hcs Hph Hord Hs) as [Ho Hsn].
    split; [simpl; by rewrite Hsn|]. simpl. unfold demo_stopped. destruct c0'; exact Ho.
Qed.

Lemma detect_step (mv : DemoMove) (d d' : DemoSystem) : inv d → detect d → dstep mv d = Some d' → detect d'.
Proof.
  intros Hd Hdet H. pose proof (de_reachable L d Hd) as Hr.
  destruct mv as [now expired|now|now expired|]; cbn [demo_step] in H; [by eapply detect_main|..].
  - apply bind_Some in H as (y & Hy & H). simplify_eq. destruct Hdet as (c0 & Hcs & Hdet).
    destruct (control_quiet now _ y Hr Hy) as (H1 & H2 & H3 & H4 & H5). exists c0.
    split; [simpl; congruence|]. by eapply detect_quiet.
  - unfold demo_sensor_step in H. rewrite (de_simulated L d Hd) in H.
    cbn [simulated_read baseline_ override_ sim_sequence_] in H. apply bind_Some in H as (y & Hy & H).
    destruct Hdet as (c0 & Hcs & Hfl & Hdet). destruct (de_phase L d Hd) as (c & Hcs' & Hph).
    assert (c = c0) by congruence. subst c.
    assert (Hord : ordered (injected d) (de_runtime d)).
    { destruct (de_main d); try exact Hdet.
      assert (c0 = StartMonitor ∨ c0 ≠ StartMonitor) as [-> |Hne] by (destruct c0; auto); [done|].
      cbn [exec_move] in Hy. by rewrite (start_without_sensor c0 _ Hr Hcs Hph Hne) in Hy. }
    pose proof Hy as Hcl. apply (thread_frame L) in Hcl as [_ Hcl]; [|done].
    assert (Hs : default demo_nominal (if injected d then Some demo_hot else None)
                 = if injected d then demo_hot else demo_nominal) by (by destruct (injected d)).
    rewrite Hs in Hy. destruct (ordered_sensor _ _ _ _ _ y Hord Hy Hfl) as [Ho Hf].
    exists c0. injection H as <-. split; [simpl; congruence|]. split; [exact Hf|]. simpl.
    destruct (de_main d); try exact Ho.
    assert (c0 = StartMonitor ∨ c0 ≠ StartMonitor) as [-> |Hne] by (destruct c0; auto); [done|].
    cbn [exec_move] in Hy. by rewrite (start_without_sensor c0 _ Hr Hcs Hph Hne) in Hy.
  - apply bind_Some in H as (y & Hy & H). simplify_eq. destruct Hdet as (c0 & Hcs & Hdet).
    cbn [exec_move] in Hy. apply bind_Some in Hy as ([pc s] & Hs & Hy). simplify_eq. exists c0. split; [done|].
    eapply detect_quiet; [exact Hdet|..]; simpl; destruct (monitor (de_runtime d)); simpl in Hs;
      repeat case_match; by simplify_eq.
Qed.

Lemma detect_init : detect (demo_init L).
Proof. exists ClIdle. split; [done|]. split; [done|]. by split. Qed.

Lemma detect_run (mvs : list DemoMove) (d d' : DemoSystem) :
  inv d → detect d → demo_run L duration_ms fault_after_ms mvs d = Some d' → detect d'.
Proof.
  revert d. induction mvs as [|mv mvs IH]; intros d Hd Hdet H; simpl in H; [by simplify_eq|].
  destruct (dstep mv d) as [d1|] eqn:H1; [|done].
  apply (IH d1); [by eapply demo_step_inv|by eapply detect_step|done].
Qed.

End Detect.

(** ** The program *)

Section Program.
Context (L : PoolLayout) (HL : edge_layout_ok L).

#[local] Hint Extern 1 (ObjectPool EdgePool PooledEvent) => exact (edge_pool L) : typeclass_instances.
#[local] Existing Instance edge_queue.
#[local] Hint Extern 1 (ObjectPoolLaws EdgePool PooledEvent _) => exact (edge_pool_laws L HL) : typeclass_instances.
#[local] Existing Instance edge_queue_laws.

Lemma demo_program_inv (args : list text) (mvs : list DemoMove) (d : DemoSystem) :
  demo_program L args mvs = Some d → demo_inv L d ∧ detect d.
Proof.
  intros H. unfold demo_program in H. pose proof (demo_init_inv L) as Hi.
  split; [by eapply demo_run_inv|]. eapply detect_run; [done|done|apply detect_init|exact H].
Qed.

(** The log is part of an ordered one from the first event on. *)
Lemma detect_log (d : DemoSystem) :
  detect d → ∃ calm warm log, demo_log calm warm log ∧ log_pushed (shared (de_runtime d)) `prefix_of` log.
Proof.
  intros (c0 & _ & _ & H). assert (Hord : ordered (injected d) (de_runtime d) →
    ∃ calm warm log, demo_log calm warm log ∧ log_pushed (shared (de_runtime d)) `prefix_of` log)
    by (intros (calm & warm & Hl & _); by exists calm, warm, (log_pushed (shared (de_runtime d)))).
  destruct (de_main d); auto. enough (c0 ≠ StartMonitor → starting c0 (shared (de_runtime d)) →
    log_pushed (shared (de_runtime d)) `prefix_of` [Event_startup; Event_self_test_passed]) as Hs.
  { assert (c0 = StartMonitor ∨ c0 ≠ StartMonitor) as [-> |Hne] by (destruct c0; auto); [by apply Hord|].
    exists [], [], [Event_startup; Event_self_test_passed]. split; [by split|]. apply Hs; [done|by destruct c0]. }
  intros _ [_ Hst].
  assert (Hq : ∀ q e before, start_pub q e before (log_pushed (shared (de_runtime d))) →
    log_pushed (shared (de_runtime d)) = before ∨ log_pushed (shared (de_runtime d)) = before ++ [e])
    by (intros [] ? ?; simpl; naive_solver).
  assert (Hlog : log_pushed (shared (de_runtime d)) = [] ∨ log_pushed (shared (de_runtime d)) = [Event_startup] ∨
    log_pushed (shared (de_runtime d)) = [Event_startup; Event_self_test_passed])
    by (destruct c0; try done; destruct_and?;
        repeat match goal with H : start_pub _ _ _ _ |- _ => apply Hq in H end; naive_solver).
  destruct Hlog as [-> |[-> | ->]]; [apply prefix_nil|by eexists|done].
Qed.

(** C38: what the demo shows.  For any arguments and any interleaving of its
    threads: each option has the value of its first occurrence with the numeral of
    a positive [int] behind it, or its default, between 1 and [2^31 - 1]; the state
    lines it prints start at [Booting], continue each other, go through SelfTest,
    Healthy, FaultLatched and SafeShutdown in this order and never through
    Degraded; FaultLatched is only shown after the line of the injection, which is
    printed at most once; there are at most five lines.  When the program ends it
    returns 0, every event was handled and every slot of the pool is free, and the
    last line of its output shows the state these events lead to and their number
    modulo [2^64]. *)
Theorem demo_story (args : list text) (mvs : list DemoMove) (d : DemoSystem)
    (Hrun : demo_program L args mvs = Some d) :
  option_value args (lit "--duration-ms") 3000 (demo_duration args) ∧
  option_value args (lit "--fault-after-ms") 1000 (demo_fault_after args) ∧
  1 ≤ demo_duration args ≤ 2147483647 ∧ 1 ≤ demo_fault_after args ≤ 2147483647 ∧
  story (de_lines d) booting false = Some (last_state d, injected d) ∧
  (length (de_lines d) ≤ 5)%nat ∧
  (∀ code, de_main d = DemoExit code →
     code = 0 ∧ control (de_runtime d) = CtlDone ∧ sensor (de_runtime d) = SnsDone ∧
     log_handled (shared (de_runtime d)) = log_pushed (shared (de_runtime d)) ∧
     outstanding L (r_pool (shared (de_runtime d))) = 0 ∧
     ∃ rest, demo_output L (demo_fault_after args) d
       = demo_banner (demo_fault_after args) ++ concat (line_text <$> de_lines d)
         ++ lit "[FINAL] state="
         ++ lit (MotorState_to_string
              (state_ (handle_all (log_pushed (shared (de_runtime d))) (machine_init default_config))))
         ++ lit " events=" ++ show_Z (Z.of_nat (length (log_pushed (shared (de_runtime d)))) mod u64_modulus)
         ++ lit " dropped=" ++ rest).
Proof.
  destruct (demo_program_inv args mvs d Hrun) as [[Hr He Hs Hst Hrank (c0 & Hc0 & Hph)] _].
  destruct (read_option_value args (lit "--duration-ms") 3000) as [Ho1 Hb1]; [lia|].
  destruct (read_option_value args (lit "--fault-after-ms") 1000) as [Ho2 Hb2]; [lia|].
  split_and!; [exact Ho1|exact Ho2|apply Hb1..|apply Hb2|apply Hb2|exact Hst| |].
  - apply story_length in Hst. simpl in Hst.
    assert (demo_rank (last_state d) ≤ 4)%nat by (destruct (last_state d); simpl; lia).
    destruct (injected d); simpl in *; lia.
  - intros code Hm. rewrite Hm in Hph. destruct Hph as [-> [r ->]].
    destruct (rt_reachable_inv default_config 1 _ Hr) as (l & c & Hinv).
    destruct (stop_returned_inv default_config _ l c 0 r Hinv ltac:(by rewrite Hc0))
      as (H1 & H2 & _ & _ & _ & _ & _ & H3 & H4 & _ & H5). rewrite Hc0 in H5.
    split_and!; try done. destruct (reachable_counts default_config 1 _ Hr) as [_ [Hh _]].
    rewrite H1, H3 in Hh. cbn [handled_uncounted Z.b2z] in Hh. rewrite Z.sub_0_r in Hh.
    unfold demo_output. rewrite Hm. unfold final_line, snapshot. cbn [rs_machine rs_metrics].
    unfold metrics_snapshot. rewrite Hh, <- H4. eexists. reflexivity.
Qed.

(** C39: the demo detects its fault, and only its fault.  In every configuration the
    program reaches, whatever the threads did so far, two handled samples at 105
    degrees have latched the fault, unless the machine is shut down already, and
    the fault is latched only after two such samples; the events of the start are
    the first in the log, no sample at 45 degrees follows one at 105, and no
    sample at 105 degrees comes before the injection. *)
Theorem demo_detects_fault (args : list text) (mvs : list DemoMove) (d : DemoSystem)
    (Hrun : demo_program L args mvs = Some d) :
  let s := shared (de_runtime d) in
  ((2 ≤ hot_count (log_handled s))%nat →
     state_ (machine_ s) = fault_latched ∨ state_ (machine_ s) = safe_shutdown) ∧
  (state_ (machine_ s) = fault_latched → (2 ≤ hot_count (log_handled s))%nat) ∧
  (de_main d ≠ DemoStart → ∃ calm warm,
     log_pushed s = [Event_startup; Event_self_test_passed] ++ calm ++ warm ∧
     Forall calm_event calm ∧ Forall warm_event warm ∧ (injected d = false → warm = [])).
Proof.
  destruct (demo_program_inv args mvs d Hrun) as [Hd (c0 & Hcs & Hfl & Hdet)]. pose proof Hd as [Hr _ _ _ _ _]. intros s.
  destruct (rt_reachable_inv default_config 1 _ Hr) as (l & c & Hinv).
  destruct (sys_inv_events default_config _ l c Hinv) as (pending & Hlog & Hm & _). fold s in Hlog, Hm.
  assert (Hpre : log_handled s `prefix_of` log_pushed s) by (rewrite Hlog; by eexists).
  destruct (detect_log d (ex_intro _ c0 (conj Hcs (conj Hfl Hdet)))) as (calm & warm & log & Hl & Hp).
  rewrite Hm. destruct (log_detects calm warm log (log_handled s) Hl) as [H1 H2]; [by etrans|].
  split_and!; [exact H1|exact H2|]. intros Hne.
  assert (Hord : ordered (injected d) (de_runtime d)) by (by destruct (de_main d)).
  destruct Hord as (calm' & warm' & (Hlog' & Hc & Hw) & Hi). exists calm', warm'. split_and!; auto.
Qed.

End Program.

Definition story_arguments : list text :=
  [lit "--fault-after-ms"; lit "0"; lit "--duration-ms"; lit "10"; lit "--fault-after-ms"; lit "1"].

Lemma demo_story_witness :
  ∃ d, demo_program demo_edge_layout story_arguments story_moves = Some d ∧
    de_lines d = [LineState booting healthy; LineInjected; LineState healthy fault_latched] ∧
    de_main d = DemoExit 0 ∧ outstanding demo_edge_layout (r_pool (shared (de_runtime d))) = 0.
Proof.
  destruct (demo_program demo_edge_layout story_arguments story_moves) as [d|] eqn:Hd;
    [|exfalso; vm_compute in Hd; discriminate Hd].
  assert (Hv : ((λ d, (de_lines d, de_main d)) <$> demo_program demo_edge_layout story_arguments story_moves)
    = Some ([LineState booting healthy; LineInjected; LineState healthy fault_latched], DemoExit 0))
    by (vm_compute; reflexivity).
  rewrite Hd in Hv. injection Hv as Hl Hm.
  destruct (demo_story demo_edge_layout demo_layout_edge_ok story_arguments story_moves d Hd)
    as (_ & _ & _ & _ & _ & _ & Hexit).
  exists d. split_and!; [reflexivity|exact Hl|exact Hm|apply (Hexit 0 Hm)].
Defined.

(** Up to the second snapshot after the injection. *)
Definition detection_moves : list DemoMove := take 64 story_moves.

Lemma demo_detects_fault_witness :
  ∃ d, demo_program demo_edge_layout story_arguments detection_moves = Some d ∧
    hot_count (log_handled (shared (de_runtime d))) = 2%nat ∧
    (state_ (machine_ (shared (de_runtime d))) = fault_latched ∨
     state_ (machine_ (shared (de_runtime d))) = safe_shutdown).
Proof.
  destruct (demo_program demo_edge_layout story_arguments detection_moves) as [d|] eqn:Hd;
    [|exfalso; vm_compute in Hd; discriminate Hd].
  assert (Hv : ((λ d, hot_count (log_handled (shared (de_runtime d)))) <$>
    demo_program demo_edge_layout story_arguments detection_moves) = Some 2%nat) by (vm_compute; reflexivity).
  rewrite Hd in Hv. injection Hv as Hh.
  destruct (demo_detects_fault demo_edge_layout demo_layout_edge_ok story_arguments detection_moves d Hd) as [Hdet _].
  exists d. split_and!; [reflexivity|exact Hh|]. apply Hdet. rewrite Hh. lia.
Defined.
